(* ===== verification/_CoqProject ===== *)
-Q . S2P
Prelude.v
Command.v
Types.v
Timer.v
Metrics.v
Env.v
Bytes.v
Digits.v
Fs.v
FsM.v
Layout.v
Sim.v
Node.v
SimNode.v
NodeLog.v
Election.v
AppendEntries.v
StateMachine.v
Commit.v
Replicator.v
Propose.v
SnapshotNode.v
Steady.v
Durability.v
KvService.v
Votes.v
Links.v
Cluster.v
LogMatching.v
Carry.v
Spots.v
Histories.v
Wire.v
Completeness.v
Offices.v
LeaderCompleteness.v
CommitSafety.v
Replicas.v
CommitDivergence.v
ThreadPool.v
RaftStorage.v
RaftRecovery.v
RaftSaving.v
SnapshotStorage.v
SnapshotRecovery.v
SnapshotPublish.v
Snapshots.v
FileHost.v
Logging.v
ConfigFile.v
KvClient.v
Server.v
