(* ===== verification/Prelude.v ===== *)
(** CQUPT_Raft: a verification development of the replicated key-value server.

    * The program

    A server (src/apps/main.cpp) is one [RaftNode] with its storages and services.  A
    client's [Put], [Delete] or [Get] (src/proto/raft.proto) is handled by [KvServiceImpl],
    which calls [RaftNode::Propose] or reads the state machine.  [Propose] appends a
    record, replicates it to a majority of the peers through one [Replicator] per peer,
    advances the commit index and applies what is committed to [KvStateMachine].  The peers'
    requests arrive through [RaftServiceImpl] at [OnRequestVote], [OnAppendEntries] and
    [OnInstallSnapshot].  Timers ([TimerScheduler]) start elections, heartbeats and
    snapshots; a [ThreadPool] runs their tasks.  [FileRaftStorage] keeps term, vote,
    boundaries and log, [FileSnapshotStorage] the snapshots the node makes of its state
    machine to cut its log.

    * Files and what they model

    - Prelude, Types, Command, Metrics: field update, [uint64_t], the structs and enums the
      components exchange, common/command.cpp, the counters of node/raft_node.cpp.
    - Timer, ThreadPool, Logging: runtime/min_heap_timer.cpp, runtime/thread_pool.cpp,
      runtime/logging.h.  Timer and ThreadPool are step relations over their critical
      sections.
    - Env: the interfaces a node runs against, as classes ([HostEnv], [IRaftStorage],
      [ISnapshotStorage], [IStateMachine]), and their contracts ([DurableStorage],
      [StorageLaws]).  Sim and SimNode: an environment in memory, which satisfies them.
    - Node, NodeLog, Election, AppendEntries, Commit, Replicator, Propose, SnapshotNode:
      node/raft_node.cpp and replication/replicator.cpp.  [RaftCore] holds the members
      guarded by [mu_]; [Node] adds configuration, timers, snapshot worker, metrics,
      replicators, state machine and environment.  A handler is one function from the node
      to its answer and the node after it; a function named [...Locked] is one critical
      section, and what the code does outside the lock lies between two of them.
    - StateMachine: state_machine/state_machine.cpp, its snapshot file byte by byte.
    - KvService, KvClient, ConfigFile, Server: the services, apps/raft_kv_client.cpp, and
      apps/main.cpp: its configuration, and [main] itself.
    - Bytes, Digits, Fs, FsM, Layout: encodings, file names, a file system in which every
      operation can fail and the process can die anywhere, the monad the storage code runs
      in, and what directories hold.
    - RaftStorage, RaftRecovery, RaftSaving: storage/raft_storage.cpp, what [Load] makes of
      what is on disk, and [Save] on a disk that works.
    - SnapshotStorage, SnapshotRecovery, SnapshotPublish, Snapshots:
      storage/snapshot_storage.cpp.
    - Durability, FileHost: what an acknowledged operation has written, over any storage and
      over the two file storages on one disk.
    - Votes, Cluster: many nodes, their elections, crashes and restarts, as a step relation
      over the handlers.  Links, LogMatching, CommitDivergence: the same with the append
      requests in flight.
    - Carry, Histories, Wire, Completeness, Offices, LeaderCompleteness: the same with the
      answers in flight too, and no snapshots.  A [History] says of every term who led it and
      with what log; Carry says what an operation makes of a node's log and disk, Wire ties
      every host to a history, Completeness and Offices keep that through every step.
    - Spots, CommitSafety, Replicas: on top of these, what a commit index and a state machine
      stand on, in the executions in which every append request covers what it commits.
    - Steady: the operations that leave log, boundaries and machine alone.  What the files
      above say of an operation ([quiet], [tracks], [kept], [spots], [idle]) they say of
      these by one lemma each.

    * What is shown

    - Of the cluster: at most one leader per term, for good (Cluster); two logs with an
      entry of one index and term agree below it (LogMatching); what a leader commits every
      leader of its term or a later one holds, and no two leaders commit different entries
      at one index (LeaderCompleteness).  Of the followers the last fails: a run in which two
      nodes commit and apply different entries at one index (CommitDivergence), because
      [OnAppendEntries] bounds the commit index by the end of the log and not by the end of
      the request.  Without snapshots this is the only way: where no request moves a commit
      index so, no two nodes ever hold different entries for committed (CommitSafety), and
      machines that have applied as much are in the same state, across crashes and restarts
      (Replicas).
    - Of a node: the log and boundary invariant [core_ok] holds of every node that runs,
      whatever the messages and the disk (LogMatching); a granted vote and a successful
      append are on disk before the answer; the commit rule; entries are applied once each and in order; the
      replication loop ends within its deadline.
    - Of a whole server: on one node a [Put] answered OK is read back, and survives a crash
      and a restart, through the bytes of the log files (FileHost), as does a granted vote.
    - Of the storages: round trips from [Save] to [Load] and from [SaveSnapshotFile] to
      [LoadLatestValidSnapshot], every state a failed or interrupted save can leave, no
      ill-typed state from any bytes, pruning keeps the newest, [Save] succeeds on a disk
      that works.
    - Errors the code makes of situations it can reach: a committed [SET] of the empty value
      blocks the node; recovery or an installed snapshot may lose applied entries; a torn
      log can be recovered once only; a crash in the middle of [Save] may lose the hard
      state; a server whose address is in use is terminated instead of exiting (Server).

    * Bounds and fuel

    The loop of [main] takes a turn for each element of a list, what the node's threads do
    meanwhile; the signal arrives in the last.  Loops whose end is not structural take fuel: [ApplyLoop] as many turns as there are
    committed entries to apply ([apply_fuel], enough by [ApplyLoop_spec]); [ReplicateLoop]
    one turn per 20 ms of the deadline ([replicate_fuel], enough by
    [ReplicateLogEntryToMajority_terminates]); the readers of segments and of the legacy
    file one turn per byte (enough by [recovery_loops_terminate]).  A [uint64_t] is a [Z]
    with its wrap-around; where a statement needs an index not to have run out, it says so.

    * What is assumed

    Cluster, LogMatching and the files above them take a storage that satisfies [StorageLaws]:
    a failed [Save] leaves the old state or the new one. [FileRaftStorage] keeps this except
    where the process dies inside [Save]: [Save_crash_states] names the other states it can
    leave, so the theorems about the cluster hold of deployments that do not meet them. In
    Cluster a message may hold anything; in LogMatching an append request is one a leader
    built, answers and snapshots may still hold anything; in LeaderCompleteness,
    CommitSafety and Replicas an answer is one its peer gave, and snapshots are switched off
    ([enabled] is false in every configuration). Each step of these relations is one critical
    section, but for the constructor, the snapshot worker's turn and [OnInstallSnapshot],
    which are single steps.  The file system loses nothing it has accepted: the process dies, the machine does not
    lose power, so [fsync] orders nothing.

    * Not modelled

    Calls into gRPC and the generated protobuf code (channels, stubs, reactors; the node's
    side of an RPC is the class [PeerNet]); the Windows branches of the storages, which the
    supported build does not compile; exhausted memory; the console, the clock text of
    [NowString], and the handler of the signals, which only ends the loop of [main]. *)

From stdpp Require Export base tactics numbers list gmap strings sorting pretty.
From Stdlib Require Export ZArith Lia Ascii String.
(* stdpp last: its list notations win over [String]'s. *)
From stdpp Require Export list strings.


Declare Scope raft_scope.
Delimit Scope raft_scope with raft.
#[global] Open Scope raft_scope.
#[global] Open Scope Z_scope.

(** ** Field update

    [r <| f := v |>] is the C++ assignment [r.f = v]: a copy of [r] in which
    field [f] holds [v].  A record that is updated has one [Eta] instance, from
    which the setter of each field is derived. *)
Class Setter {R T : Type} (proj : R → T) := set_field : (T → T) → R → R.
#[global] Arguments set_field {R T} proj {_} f r /.

(** The field list of a record, as its eta expansion, and the tactic that
    derives a [Setter] from it: abstract the projection in the expansion, and
    put the update in its place. *)
Class Eta (R : Type) := eta_of : R → R.

Ltac setter :=
  lazymatch goal with
  | |- @Setter ?R ?T ?proj =>
      let e := eval hnf in (@eta_of R _) in
      lazymatch (eval pattern proj in e) with
      | ?F _ => let t := eval cbv beta in (λ (f : T → T), F (λ r : R, f (proj r))) in exact t
      end
  end.

#[export] Hint Extern 0 (Setter _) => setter : typeclass_instances.

Notation "r <| proj := v |>" := (set_field proj (λ _, v) r)
  (at level 1, left associativity, format "r  <| proj  :=  v |>") : raft_scope.
Notation "r <| proj ::= f |>" := (set_field proj f r)
  (at level 1, left associativity, format "r  <| proj  ::=  f |>") : raft_scope.

(** ** 64-bit unsigned arithmetic ([std::uint64_t])

    A [std::uint64_t] is a [Z] in [0, 2^64); C++ arithmetic wraps modulo 2^64. *)
Definition u64_max : Z := 18446744073709551615.
Definition u64 (z : Z) : Z := z mod (u64_max + 1).
Definition is_u64 (z : Z) : Prop := 0 ≤ z ≤ u64_max.

(** [SafeAddOne]: saturating increment, used for every "next index". *)
Definition SafeAddOne (value : Z) : Z :=
  if decide (value = u64_max) then value else u64 (value + 1).

#[export] Instance is_u64_dec z : Decision (is_u64 z).
Proof. unfold is_u64. apply _. Defined.

Create HintDb raft discriminated.

(** Arithmetic over the u64 constants. *)
Ltac u64_lia := unfold is_u64, u64_max in *; lia.

Lemma u64_id z : is_u64 z → u64 z = z.
Proof. unfold u64. intros ?. apply Z.mod_small. u64_lia. Qed.

Lemma u64_range z : is_u64 (u64 z).
Proof. unfold u64. pose proof (Z.mod_pos_bound z (u64_max + 1)). u64_lia. Qed.

Lemma SafeAddOne_cases v :
  is_u64 v → SafeAddOne v = v + 1 ∧ v < u64_max ∨ SafeAddOne v = v ∧ v = u64_max.
Proof.
  intros H. unfold SafeAddOne. case_decide; [by right|]. left.
  split; [apply u64_id|]; u64_lia.
Qed.

Lemma SafeAddOne_range v : is_u64 v → is_u64 (SafeAddOne v).
Proof. intros H. destruct (SafeAddOne_cases v H); u64_lia. Qed.

Lemma SafeAddOne_lt v : is_u64 v → v < u64_max → SafeAddOne v = v + 1.
Proof. intros H. destruct (SafeAddOne_cases v H); u64_lia. Qed.

Lemma SafeAddOne_le v : is_u64 v → v ≤ SafeAddOne v ≤ v + 1.
Proof. intros H. destruct (SafeAddOne_cases v H); u64_lia. Qed.

Lemma SafeAddOne_pos v : is_u64 v → 0 < SafeAddOne v.
Proof. intros H. destruct (SafeAddOne_cases v H); u64_lia. Qed.

#[export] Hint Resolve u64_range SafeAddOne_range SafeAddOne_pos : raft.

(** Case analysis on the [decide]s and [match]es of the goal. *)
Ltac split_cases := repeat (case_match || case_decide); simplify_eq/=; try done.

(** Destruct the let-bound pair produced by a state-passing call. *)
Ltac destruct_call H :=
  match goal with
  | |- context [let '(_, _) := ?e in _] => destruct e as [? ?] eqn:H
  end.

