(* ===== verification/Command.v ===== *)
(** The client command and its text form in the replicated log
    (src/modules/raft/common/command.h and command.cpp). *)
From S2P Require Import Prelude.

(** ** Data *)

(** [enum class CommandType]. *)
Inductive CommandType := kUnknown | kSet | kDelete.

(** [struct Command].  A [std::string] is a byte sequence: [string]. *)
Record Command := mkCommand { type : CommandType; key : string; value : string }.

#[export] Instance CommandType_eq_dec : EqDecision CommandType.
Proof. solve_decision. Defined.
#[export] Instance Command_eq_dec : EqDecision Command.
Proof. solve_decision. Defined.

(** The separator ['|'] of the protocol. *)
Definition sep : ascii := "|"%char.

(** ** Operations *)

(** [Split] reads tokens with [std::getline] until the stream is exhausted.
    [getline] consumes the delimiter; when the text ends right after a
    delimiter (or the text is empty) the next call extracts nothing and fails,
    so a trailing empty token is not produced.  [split_from item rest] is the
    reader with [item] the characters extracted so far by the current call. *)
Fixpoint split_from (delim : ascii) (item : string) (rest : string) : list string :=
  match rest with
  | EmptyString => if decide (item = "") then [] else [item]
  | String c rest' =>
      if decide (c = delim) then item :: split_from delim "" rest'
      else split_from delim (item +:+ String c "") rest'
  end.
Definition Split (str : string) (delim : ascii) : list string := split_from delim "" str.

(** [Command::IsValid]. *)
Definition IsValid (c : Command) : bool :=
  match type c with
  | kSet => negb (bool_decide (key c = ""))
  | kDelete => negb (bool_decide (key c = ""))
  | kUnknown => false
  end.

(** [Command::Serialize]. *)
Definition Serialize (c : Command) : string :=
  match type c with
  | kSet => "SET|" +:+ key c +:+ "|" +:+ value c
  | kDelete => "DEL|" +:+ key c +:+ "|"
  | kUnknown => ""
  end.

(** [Command::Deserialize(data, out)] with a non-null [out]: the returned flag
    and the contents of [*out] afterwards.  [parts[2]] is read only when
    [parts.size() >= 3]. *)
Definition Deserialize (data : string) (out : Command) : bool * Command :=
  let parts := Split data sep in
  match parts with
  | [] => (false, out)
  | p0 :: _ =>
      if decide (p0 = "SET") then
        match parts with
        | _ :: p1 :: p2 :: _ => let out' := mkCommand kSet p1 p2 in (IsValid out', out')
        | _ => (false, out)
        end
      else if decide (p0 = "DEL") then
        match parts with
        | _ :: p1 :: _ => let out' := mkCommand kDelete p1 "" in (IsValid out', out')
        | _ => (false, out)
        end
      else (false, out)
  end.

(** ** Strings free of the separator *)

(** [s.find('|') == std::string::npos]. *)
Fixpoint contains (c : ascii) (s : string) : bool :=
  match s with
  | EmptyString => false
  | String c' s' => if decide (c' = c) then true else contains c s'
  end.

Section split.
Context (d : ascii).

Lemma string_cons_app c s t : String c s +:+ t = String c (s +:+ t).
Proof. done. Qed.

Lemma string_app_nil_r s : s +:+ "" = s.
Proof. induction s as [|c s IH]; [done|]. by rewrite string_cons_app, IH. Qed.

Lemma string_app_assoc (s t u : string) : (s +:+ t) +:+ u = s +:+ (t +:+ u).
Proof. induction s as [|c s IH]; [done|]. by rewrite !string_cons_app, IH. Qed.

(** A delimiter-free prefix is read into the current token. *)
Lemma split_from_token s item rest :
  contains d s = false →
  split_from d item (s +:+ rest) = split_from d (item +:+ s) rest.
Proof.
  revert item. induction s as [|c s IH]; intros item Hs; rewrite ?string_cons_app; simpl in *.
  - by rewrite string_app_nil_r.
  - destruct (decide (c = d)) as [|Hc]; [done|].
    rewrite IH by done. f_equal. rewrite string_app_assoc. done.
Qed.

(** ... and the delimiter after it ends the token. *)
Lemma split_from_delim s item rest :
  contains d s = false →
  split_from d item (s +:+ String d rest) = (item +:+ s) :: split_from d "" rest.
Proof. intros Hs. rewrite split_from_token by done. simpl. by rewrite decide_True. Qed.

Lemma split_from_end s item :
  contains d s = false → item +:+ s ≠ "" → split_from d item s = [item +:+ s].
Proof.
  intros Hs Hne. rewrite <- (string_app_nil_r s) at 1.
  rewrite split_from_token by done. simpl. by rewrite decide_False.
Qed.
End split.

Lemma Split_SET k v :
  contains sep k = false → contains sep v = false →
  Split ("SET|" +:+ k +:+ "|" +:+ v) sep =
    "SET" :: k :: (if decide (v = "") then [] else [v]).
Proof.
  intros Hk Hv. unfold Split.
  change ("SET|" +:+ k +:+ "|" +:+ v) with ("SET" +:+ String sep (k +:+ String sep v)).
  rewrite split_from_delim by done. simpl. f_equal.
  rewrite split_from_delim by done. simpl. f_equal.
  case_decide; subst; [done|]. by rewrite split_from_end.
Qed.

Lemma Split_DEL k :
  contains sep k = false → Split ("DEL|" +:+ k +:+ "|") sep = ["DEL"; k].
Proof.
  intros Hk. unfold Split.
  change ("DEL|" +:+ k +:+ "|") with ("DEL" +:+ String sep (k +:+ String sep "")).
  rewrite split_from_delim by done. simpl. f_equal.
  by rewrite split_from_delim.
Qed.

(** What [Deserialize] makes of a serialized command: the command itself
    (a [DEL]'s ignored value is not transmitted), except that a [SET] with an
    empty value is rejected. *)
Definition transmitted (c : Command) : Command :=
  match type c with kDelete => mkCommand kDelete (key c) "" | _ => c end.

Lemma Deserialize_Serialize_aux c out :
  IsValid c = true → contains sep (key c) = false → contains sep (value c) = false →
  Deserialize (Serialize c) out =
    if decide (type c = kSet ∧ value c = "") then (false, out) else (true, transmitted c).
Proof.
  destruct c as [[] k v]; intros Hv Hk Hval; [done| |];
    cbn [key value type transmitted] in *; unfold Deserialize, Serialize; cbn [key value type].
  - rewrite Split_SET by done. destruct (decide (v = "")) as [->|Hne].
    + by rewrite decide_True.
    + rewrite (decide_False (P := kSet = kSet ∧ _)) by naive_solver.
      unfold IsValid in *. cbn in *. by rewrite Hv.
  - rewrite Split_DEL by done. rewrite (decide_False (P := kDelete = kSet ∧ _)) by naive_solver.
    unfold IsValid in *. cbn in *. by rewrite Hv.
Qed.

(** C21: round trip of the command protocol.  For a valid command whose key and
    value hold no separator and which is not a [SET] of the empty value,
    [Deserialize] accepts [Serialize]'s output, whatever [*out] held, and
    rebuilds the command (a [DEL] command's value is dropped). *)
Theorem Deserialize_Serialize c out :
  IsValid c = true → contains sep (key c) = false → contains sep (value c) = false →
  (type c = kSet → value c ≠ "") →
  Deserialize (Serialize c) out = (true, transmitted c).
Proof.
  intros Hv Hk Hval Hne. rewrite Deserialize_Serialize_aux by done.
  rewrite decide_False; naive_solver.
Qed.

Lemma Deserialize_Serialize_witness :
  Deserialize (Serialize (mkCommand kSet "x" "100")) (mkCommand kUnknown "" "") =
    (true, mkCommand kSet "x" "100").
Proof. apply (Deserialize_Serialize (mkCommand kSet "x" "100")); done. Defined.
