(* ===== verification/Types.v ===== *)
(** Data shared by the components: configuration (common/config.h), proposal
    results (common/propose.h), the RPC messages (proto/raft.proto), log records
    and the persisted state (node/raft_node.h, storage/raft_storage.h), and the
    result types of the state machine (state_machine/state_machine.h). *)
From S2P Require Import Prelude Command.

(** A filesystem path, as its list of components; file contents are bytes. *)
Abbreviation path := (list string).
Abbreviation bytes := (list ascii).

(** [path.string()]. *)
Definition path_string (p : path) : string := String.concat "/" p.

(** ** common/config.h (durations in milliseconds) *)
Record PeerConfig := mkPeerConfig { peer_node_id : Z; peer_address : string }.

Record KvRequestLimits := mkKvRequestLimits {
  max_key_bytes : Z; max_value_bytes : Z; max_command_bytes : Z }.

Record NodeConfig := mkNodeConfig {
  node_id : Z;
  address : string;
  peers : list PeerConfig;
  election_timeout_min : Z;
  election_timeout_max : Z;
  heartbeat_interval : Z;
  rpc_deadline : Z;
  data_dir : path;
  kv_limits : KvRequestLimits }.

Record snapshotConfig := mkSnapshotConfig {
  enabled : bool;
  cfg_snapshot_dir : path;
  log_threshold : Z;
  snapshot_interval : Z;
  max_snapshot_count : Z;
  load_on_startup : bool;
  file_prefix : string }.

(** The defaults of config.h. *)
Definition default_kv_limits : KvRequestLimits := mkKvRequestLimits 256 (64 * 1024) (1024 * 1024).
Definition default_snapshotConfig : snapshotConfig :=
  mkSnapshotConfig true [] 30 (10 * 60 * 1000) 5 true "snapshot".

(** ** common/propose.h *)
Inductive ProposeStatus :=
  | psOk | psNotLeader | psInvalidCommand | psNodeStopping | psReplicationFailed
  | psCommitFailed | psApplyFailed | psTimeout.

Record ProposeResult := mkProposeResult {
  pr_status : ProposeStatus;
  pr_leader_id : Z;
  pr_term : Z;
  pr_log_index : Z;
  pr_message : string }.

(** Default member initialisers of [ProposeResult]. *)
Definition default_ProposeResult : ProposeResult :=
  mkProposeResult psReplicationFailed (-1) 0 0 "".
Definition ProposeResult_Ok (r : ProposeResult) : bool :=
  match pr_status r with psOk => true | _ => false end.

(** ** Log records and persisted state *)
Record LogRecord := mkLogRecord { index : Z; term : Z; command : string }.

Record PersistentRaftState := mkPersistentRaftState {
  ps_current_term : Z;
  ps_voted_for : Z;
  ps_commit_index : Z;
  ps_last_applied : Z;
  ps_log : list LogRecord }.

(** ** Results of the state machine *)
Record ApplyResult := mkApplyResult { Ok : bool; ar_message : string }.

Inductive SnapshotStatus :=
  | ssOk | ssInvalidArgument | ssIoError | ssCorruptedData | ssNotFound
  | ssVersionMismatch | ssInternalError.

Record SnapshotResult := mkSnapshotResult { sr_status : SnapshotStatus; sr_message : string }.
Definition SnapshotResult_Ok (r : SnapshotResult) : bool :=
  match sr_status r with ssOk => true | _ => false end.

(** ** storage/snapshot_storage.h *)
Record SnapshotMeta := mkSnapshotMeta {
  snapshot_path : path;
  meta_path : path;
  snapshot_dir : path;
  last_included_index : Z;
  last_included_term : Z;
  created_unix_ms : Z;
  data_checksum : Z }.

Record SnapshotValidationIssue := mkSnapshotValidationIssue {
  issue_path : path; issue_reason : string }.

Record SnapshotListResult := mkSnapshotListResult {
  snapshots : list SnapshotMeta;
  validation_issues : list SnapshotValidationIssue }.

(** ** proto/raft.proto *)
Record VoteRequest := mkVoteRequest {
  vreq_term : Z; vreq_candidate_id : Z; vreq_last_log_index : Z; vreq_last_log_term : Z }.
Record VoteResponse := mkVoteResponse { vresp_term : Z; vresp_vote_granted : bool }.

Record AppendEntriesRequest := mkAppendEntriesRequest {
  areq_term : Z;
  areq_leader_id : Z;
  areq_prev_log_index : Z;
  areq_prev_log_term : Z;
  areq_entries : list LogRecord;
  areq_leader_commit : Z }.

Record AppendEntriesResponse := mkAppendEntriesResponse {
  aresp_term : Z;
  aresp_success : bool;
  aresp_match_index : Z;
  aresp_last_log_index : Z;
  aresp_conflict_index : Z;
  aresp_conflict_term : Z }.

Record InstallSnapshotRequest := mkInstallSnapshotRequest {
  ireq_term : Z;
  ireq_leader_id : Z;
  ireq_last_included_index : Z;
  ireq_last_included_term : Z;
  ireq_snapshot_data : bytes }.

Record InstallSnapshotResponse := mkInstallSnapshotResponse {
  iresp_term : Z; iresp_success : bool; iresp_last_log_index : Z; iresp_message : string }.

(** ** Decidable equality *)
#[export] Instance LogRecord_eq_dec : EqDecision LogRecord.
Proof. solve_decision. Defined.
#[export] Instance PersistentRaftState_eq_dec : EqDecision PersistentRaftState.
Proof. solve_decision. Defined.
#[export] Instance ProposeStatus_eq_dec : EqDecision ProposeStatus.
Proof. solve_decision. Defined.
#[export] Instance SnapshotStatus_eq_dec : EqDecision SnapshotStatus.
Proof. solve_decision. Defined.

(** ** Field setters *)
#[export] Instance eta_PersistentRaftState : Eta PersistentRaftState := λ r,
  mkPersistentRaftState (ps_current_term r) (ps_voted_for r) (ps_commit_index r)
    (ps_last_applied r) (ps_log r).

#[export] Instance eta_ProposeResult : Eta ProposeResult := λ r,
  mkProposeResult (pr_status r) (pr_leader_id r) (pr_term r) (pr_log_index r) (pr_message r).

#[export] Instance eta_AppendEntriesResponse : Eta AppendEntriesResponse := λ r,
  mkAppendEntriesResponse (aresp_term r) (aresp_success r) (aresp_match_index r)
    (aresp_last_log_index r) (aresp_conflict_index r) (aresp_conflict_term r).

#[export] Instance eta_InstallSnapshotResponse : Eta InstallSnapshotResponse := λ r,
  mkInstallSnapshotResponse (iresp_term r) (iresp_success r) (iresp_last_log_index r)
    (iresp_message r).

Example setter_smoke (r : ProposeResult) :
  pr_term (r <| pr_status := psOk |> <| pr_term := 3 |> <| pr_leader_id := 1 |>) = 3.
Proof. reflexivity. Qed.
