(* ===== verification/Timer.v ===== *)
(** [TimerScheduler] (src/modules/raft/runtime/min_heap_timer.h and .cpp): the
    one-shot timer queue that drives elections, heartbeats and snapshots. *)
From S2P Require Import Prelude.

(** ** State *)

(** [struct Task].  The [cancelled] flag is mutable and shared between [heap_]
    and [tasks_] through a [shared_ptr], so it lives in the scheduler's store
    ([cancelled_ids]) and not in the task value; the other fields are never
    written after construction. *)
Record Task (F : Type) := mkTask { deadline : Z; id : Z; fn : F }.
Arguments mkTask {F} _ _ _.
Arguments deadline {F} _.
Arguments id {F} _.
Arguments fn {F} _.

Record TimerScheduler (F : Type) := mkTimerScheduler {
  started_ : bool;
  stop_ : bool;
  next_id_ : Z;
  heap_ : list (Task F);      (** the priority queue, in the order of its pops *)
  tasks_ : gset Z;            (** the keys of the [tasks_] map *)
  cancelled_ids : gset Z      (** the tasks whose [cancelled] flag is set *)
}.
Arguments mkTimerScheduler {F} _ _ _ _ _ _.
Arguments started_ {F} _.
Arguments stop_ {F} _.
Arguments next_id_ {F} _.
Arguments heap_ {F} _.
Arguments tasks_ {F} _.
Arguments cancelled_ids {F} _.

#[export] Instance eta_TimerScheduler F : Eta (TimerScheduler F) := λ s,
  mkTimerScheduler (started_ s) (stop_ s) (next_id_ s) (heap_ s) (tasks_ s) (cancelled_ids s).

Ltac timer_simpl :=
  cbn [set_field started_ stop_ next_id_ heap_ tasks_ cancelled_ids deadline id fn fst snd].

(** What one turn of the worker loop does. *)
Inductive RunStep (F : Type) :=
  | RunExit                    (** [stop_] is set: the loop ends *)
  | RunWait                    (** empty heap: wait for a task *)
  | RunWaitUntil (d : Z)       (** earliest deadline still ahead: wait for it *)
  | RunDrop                    (** a cancelled task was discarded *)
  | RunFire (i : Z) (f : F).   (** the callback [f] of task [i] is called *)
Arguments RunExit {F}.
Arguments RunWait {F}.
Arguments RunWaitUntil {F} _.
Arguments RunDrop {F}.
Arguments RunFire {F} _ _.

Section operations.
Context {F : Type}.
Implicit Types s : TimerScheduler F.

(** A default-constructed scheduler. *)
Definition TimerScheduler_new : TimerScheduler F := mkTimerScheduler false false 1 [] ∅ ∅.

(** [TaskCompare]: [lhs] fires after [rhs]. *)
Definition TaskCompare (lhs rhs : Task F) : bool :=
  if decide (deadline lhs = deadline rhs) then bool_decide (id rhs < id lhs)
  else bool_decide (deadline rhs < deadline lhs).

(** [heap_.push]: before the first task that fires after it. *)
Fixpoint heap_push (t : Task F) (h : list (Task F)) : list (Task F) :=
  match h with
  | [] => [t]
  | u :: h' => if TaskCompare u t then t :: h else u :: heap_push t h'
  end.

(** [TimerScheduler::Start] and [TimerScheduler::Stop] (the worker thread is
    joined before the queue is cleared; a joined worker has left [Run]). *)
Definition Timer_Start s : TimerScheduler F :=
  if started_ s then s else s <| started_ := true |> <| stop_ := false |>.

Definition Timer_Stop s : TimerScheduler F :=
  if negb (started_ s) then s
  else s <| stop_ := true |> <| heap_ := [] |> <| tasks_ := ∅ |> <| started_ := false |>.

(** [TimerScheduler::ScheduleAfter], [now] being [Clock::now()]. *)
Definition ScheduleAfter (now delay : Z) (f : F) s : Z * TimerScheduler F :=
  let task := mkTask (now + delay) (next_id_ s) f in
  let s := s <| next_id_ := u64 (next_id_ s + 1) |> in
  if stop_ s then (0, s)
  else (id task, s <| tasks_ := {[id task]} ∪ tasks_ s |> <| heap_ := heap_push task (heap_ s) |>).

(** [TimerScheduler::Cancel]. *)
Definition Cancel (i : Z) s : bool * TimerScheduler F :=
  if decide (i ∈ tasks_ s) then
    (true, s <| cancelled_ids := {[i]} ∪ cancelled_ids s |> <| tasks_ := tasks_ s ∖ {[i]} |>)
  else (false, s).

(** One iteration of the loop of [TimerScheduler::Run]. *)
Definition RunIteration (now : Z) s : RunStep F * TimerScheduler F :=
  if stop_ s then (RunExit, s) else
  match heap_ s with
  | [] => (RunWait, s)
  | task :: rest =>
      if decide (id task ∈ cancelled_ids s) then (RunDrop, s <| heap_ := rest |>)
      else if decide (now < deadline task) then (RunWaitUntil (deadline task), s)
      else
        let s := s <| heap_ := rest |> <| tasks_ := tasks_ s ∖ {[id task]} |> in
        if decide (id task ∈ cancelled_ids s) then (RunDrop, s)
        else (RunFire (id task) (fn task), s)
  end.
End operations.

(** ** The queue discipline *)

(** A step of the scheduler: one of its public operations or one turn of the
    worker loop, at a time [now]. *)
Inductive TimerStep {F : Type} : TimerScheduler F → option (RunStep F) → TimerScheduler F → Prop :=
  | TStart s : TimerStep s None (Timer_Start s)
  | TStop s : TimerStep s None (Timer_Stop s)
  | TSchedule now delay f s :
      next_id_ s < u64_max →
      TimerStep s None (ScheduleAfter now delay f s).2
  | TCancel i s : TimerStep s None (Cancel i s).2
  | TRun now s : TimerStep s (Some (RunIteration now s).1) (RunIteration now s).2.

Inductive TimerTrace {F : Type} : TimerScheduler F → list (RunStep F) → TimerScheduler F → Prop :=
  | TTnil s : TimerTrace s [] s
  | TTcons s s' s'' ev evs :
      TimerStep s ev s' → TimerTrace s' evs s'' → TimerTrace s (option_list ev ++ evs) s''.

(** [t] fires no later than [u]. *)
Definition task_le {F} (t u : Task F) : Prop :=
  deadline t < deadline u ∨ deadline t = deadline u ∧ id t ≤ id u.

(** The queue invariant: the heap is ordered, its tasks have distinct ids below
    [next_id_], and a queued task is registered in [tasks_] unless it has been
    cancelled. *)
Record timer_ok {F} (s : TimerScheduler F) : Prop := {
  timer_sorted : StronglySorted task_le (heap_ s);
  timer_nodup : NoDup (id <$> heap_ s);
  timer_fresh : ∀ t, t ∈ heap_ s → 0 < id t < next_id_ s;
  timer_registered : ∀ t, t ∈ heap_ s → id t ∈ tasks_ s ∨ id t ∈ cancelled_ids s;
  timer_tasks : ∀ i, i ∈ tasks_ s → i ∈ id <$> heap_ s;
  timer_disjoint : ∀ i, i ∈ tasks_ s → i ∉ cancelled_ids s;
  timer_cancelled : ∀ i, i ∈ cancelled_ids s → i < next_id_ s;
  timer_next : 0 < next_id_ s ≤ u64_max }.

Section facts.
Context {F : Type}.
Implicit Types (s : TimerScheduler F) (t u : Task F).

Lemma TaskCompare_spec t u : TaskCompare t u = false → task_le t u.
Proof.
  unfold TaskCompare, task_le. case_decide; intros ?%bool_decide_eq_false; lia.
Qed.

Lemma TaskCompare_true t u : TaskCompare t u = true → task_le u t.
Proof.
  unfold TaskCompare, task_le. case_decide; intros ?%bool_decide_eq_true; lia.
Qed.

Lemma heap_push_perm t h : heap_push t h ≡ₚ t :: h.
Proof.
  induction h as [|u h IH]; simpl; [done|]. case_match; [done|].
  rewrite IH. constructor.
Qed.

Lemma heap_push_sorted t h :
  StronglySorted task_le h → StronglySorted task_le (heap_push t h).
Proof.
  induction 1 as [|u h Hs IH Hu]; simpl; [repeat constructor|].
  destruct (TaskCompare u t) eqn:Hc.
  - apply TaskCompare_true in Hc. constructor; [by constructor|].
    constructor; [done|]. eapply Forall_impl; [exact Hu|].
    intros v Hv. unfold task_le in *. lia.
  - apply TaskCompare_spec in Hc. constructor; [done|].
    rewrite heap_push_perm. by constructor.
Qed.

Lemma timer_ok_new : timer_ok (@TimerScheduler_new F).
Proof. split; simpl; try set_solver; [constructor|constructor|u64_lia]. Qed.

Lemma timer_ok_pop t rest s (drop : gset Z) :
  timer_ok s → heap_ s = t :: rest → drop = {[id t]} ∨ id t ∈ cancelled_ids s ∧ drop = ∅ →
  timer_ok (s <| heap_ := rest |> <| tasks_ := tasks_ s ∖ drop |>).
Proof.
  intros [Hs Hn Hf Hr Ht Hd Hc Hx] Hh Hdrop. rewrite Hh in *.
  apply NoDup_cons in Hn as [Hn1 Hn2]. inversion Hs; subst.
  split; timer_simpl; try done.
  - intros u Hu. apply Hf. by right.
  - intros u Hu. rewrite elem_of_difference.
    destruct (Hr u) as [Hu'|?]; [by right| |by right]. left. split; [done|].
    destruct Hdrop as [->|[_ ->]]; [|apply not_elem_of_empty].
    intros Heq%elem_of_singleton. apply Hn1. rewrite <- Heq. by apply list_elem_of_fmap_2.
  - intros i [Hi Hid]%elem_of_difference. specialize (Ht i Hi).
    apply elem_of_cons in Ht as [->|?]; [|done].
    destruct Hdrop as [->|[? ->]]; [by apply not_elem_of_singleton in Hid|].
    exfalso. by eapply Hd.
  - intros i [Hi _]%elem_of_difference. auto.
Qed.

Lemma timer_ok_schedule now delay (f : F) s :
  timer_ok s → next_id_ s < u64_max → timer_ok (ScheduleAfter now delay f s).2.
Proof.
  intros [Hs Hn Hf Hr Ht Hd Hc Hx] Hlt. unfold ScheduleAfter.
  rewrite u64_id by u64_lia. timer_simpl. destruct (stop_ s).
  { split; timer_simpl; try done; [| |u64_lia]; intros x Hin; [specialize (Hf x Hin)|specialize (Hc x Hin)]; lia. }
  split; timer_simpl.
  - by apply heap_push_sorted.
  - rewrite heap_push_perm, fmap_cons. timer_simpl. constructor; [|done].
    intros (u & Hu & Hin)%list_elem_of_fmap. specialize (Hf u Hin). lia.
  - intros t. rewrite heap_push_perm, elem_of_cons. intros [->|Hin]; timer_simpl; [lia|].
    specialize (Hf t Hin). lia.
  - intros t. rewrite heap_push_perm, elem_of_cons, elem_of_union, elem_of_singleton.
    intros [->|Hin]; timer_simpl; [by left; left|]. destruct (Hr t Hin); [left; right|right]; done.
  - intros j. rewrite heap_push_perm, elem_of_union, elem_of_singleton, fmap_cons, elem_of_cons.
    intros [->|Hj]; [by left|right; auto].
  - intros j [->%elem_of_singleton|Hj]%elem_of_union; [|by apply Hd].
    intros Hj. specialize (Hc _ Hj). lia.
  - intros j Hj. specialize (Hc j Hj). lia.
  - u64_lia.
Qed.

Lemma timer_ok_cancel i s : timer_ok s → timer_ok (Cancel i s).2.
Proof.
  intros Hok. unfold Cancel. case_decide as Hi; [|done].
  destruct Hok as [Hs Hn Hf Hr Ht Hd Hc Hx].
  split; timer_simpl; try done.
  - intros t Hin. rewrite elem_of_difference, elem_of_union, !elem_of_singleton.
    destruct (decide (id t = i)); [by right; left|]. destruct (Hr t Hin); tauto.
  - intros j. rewrite elem_of_difference. intros [Hj _]. auto.
  - intros j. rewrite elem_of_difference, elem_of_union. intros [Hj ?] [?|?]; [done|].
    by eapply Hd.
  - intros j [->%elem_of_singleton|Hj]%elem_of_union; [|auto].
    apply Ht in Hi as (t & -> & Hin)%list_elem_of_fmap. by apply Hf.
Qed.

Lemma timer_step_ok s ev s' : timer_ok s → TimerStep s ev s' → timer_ok s'.
Proof.
  intros Hok Hstep. destruct Hstep as [s|s|now delay f s Hlt|i s|now s].
  - unfold Timer_Start. destruct (started_ s); [done|]. destruct Hok; by split.
  - unfold Timer_Stop. destruct (started_ s); simpl; [|done].
    destruct Hok as [?????? Hc Hn].
    split; timer_simpl; try done; [apply SSorted_nil|apply NoDup_nil_2|..];
      intros ? []%not_elem_of_nil || intros ? []%not_elem_of_empty.
  - by apply timer_ok_schedule.
  - by apply timer_ok_cancel.
  - unfold RunIteration. destruct (stop_ s); [done|].
    destruct (heap_ s) as [|t rest] eqn:Hh; [done|].
    assert (Hpop : timer_ok (s <| heap_ := rest |> <| tasks_ := tasks_ s ∖ {[id t]} |>))
      by (eapply timer_ok_pop; eauto).
    repeat case_decide; simpl; try done.
    pose proof (timer_ok_pop t rest s ∅ Hok Hh) as Hp.
    rewrite difference_empty_L in Hp. apply Hp. by right.
Qed.

(** The set of cancelled tasks only grows. *)
Lemma timer_step_cancelled s ev s' i :
  TimerStep s ev s' → i ∈ cancelled_ids s → i ∈ cancelled_ids s'.
Proof.
  destruct 1; unfold Timer_Start, Timer_Stop, ScheduleAfter, Cancel, RunIteration; intros Hi;
    timer_simpl; repeat (case_match || case_decide); timer_simpl; try done.
  by apply elem_of_union_r.
Qed.

Lemma timer_trace_ok s evs s' : timer_ok s → TimerTrace s evs s' → timer_ok s'.
Proof. intros Hok. induction 1; eauto using timer_step_ok. Qed.

(** A task whose flag is set is never called. *)
Lemma RunIteration_not_cancelled now s i f s' :
  RunIteration now s = (RunFire i f, s') → i ∉ cancelled_ids s.
Proof.
  unfold RunIteration. intros H. repeat (case_match || case_decide); by simplify_eq.
Qed.

Lemma trace_not_cancelled s evs s' i f :
  TimerTrace s evs s' → i ∈ cancelled_ids s → RunFire i f ∉ evs.
Proof.
  induction 1 as [|s s1 s2 ev evs Hstep _ IH]; intros Hi; [apply not_elem_of_nil|].
  rewrite elem_of_app. intros [Hin|Hin].
  - destruct ev as [e|]; simpl in Hin; [|by apply elem_of_nil in Hin].
    apply list_elem_of_singleton in Hin as <-. inversion Hstep as [| | | |now ? He]; subst.
    destruct (RunIteration now s) as [r s''] eqn:Hr; simpl in *; subst.
    by apply RunIteration_not_cancelled in Hr.
  - revert Hin. apply IH. by eapply timer_step_cancelled.
Qed.
End facts.

(** C22: cancellation.  In every history of the scheduler, once [Cancel(id)] has
    returned true no later turn of the worker loop calls the task's callback,
    whatever operations are interleaved. *)
Theorem cancelled_task_never_fires {F} (before after : list (RunStep F)) s s' s'' i :
  TimerTrace TimerScheduler_new before s →
  Cancel i s = (true, s') → TimerTrace s' after s'' →
  ∀ f, RunFire i f ∉ after.
Proof.
  intros _ Hc Htr f. eapply trace_not_cancelled; [exact Htr|].
  unfold Cancel in Hc. case_decide; simplify_eq. timer_simpl.
  by apply elem_of_union_l, elem_of_singleton.
Qed.

Lemma cancelled_task_never_fires_witness :
  let s := (ScheduleAfter 0 5 "heartbeat" TimerScheduler_new).2 in
  let after := [(RunIteration 10 (Cancel 1 s).2).1] in
  after = [RunDrop] ∧ RunFire 1 "heartbeat" ∉ after.
Proof.
  split; [vm_compute; reflexivity|].
  eapply (cancelled_task_never_fires []
           _ (ScheduleAfter 0 5 "heartbeat" TimerScheduler_new).2).
  - eapply (TTcons _ _ _ None []); [by apply TSchedule|apply TTnil].
  - vm_compute. reflexivity.
  - eapply (TTcons _ _ _ (Some _) []); [apply TRun|apply TTnil].
Defined.

(** Firing order.  In every reachable state, when the worker loop calls a
    callback the task's deadline has passed, the task was queued and not
    cancelled, and no queued task was due earlier (ties broken by id); the
    queue afterwards is the queue without it. *)
Theorem RunIteration_fires_earliest {F} (evs : list (RunStep F)) s now i f s' :
  TimerTrace TimerScheduler_new evs s →
  RunIteration now s = (RunFire i f, s') →
  ∃ t, heap_ s = t :: heap_ s' ∧ id t = i ∧ fn t = f ∧ deadline t ≤ now ∧
       i ∈ tasks_ s ∧ i ∉ tasks_ s' ∧ (∀ u, u ∈ heap_ s → task_le t u).
Proof.
  intros Htr Hrun. destruct (timer_trace_ok _ _ _ timer_ok_new Htr) as [Hs _ _ Hr _ _ _ _].
  pose proof (RunIteration_not_cancelled _ _ _ _ _ Hrun) as Hnc.
  unfold RunIteration in Hrun. destruct (stop_ s); [done|].
  destruct (heap_ s) as [|t rest] eqn:Hh; [done|].
  repeat case_decide; simplify_eq. exists t. timer_simpl.
  assert (Hin : t ∈ t :: rest) by apply list_elem_of_here.
  split_and!; try done; try lia.
  - by destruct (Hr t Hin).
  - set_solver.
  - intros u [->|Hu]%elem_of_cons; [unfold task_le; lia|].
    inversion Hs as [|? ? _ Hall]; subst. rewrite Forall_forall in Hall. auto.
Qed.

Lemma RunIteration_fires_earliest_witness :
  let s1 := (ScheduleAfter 0 9 "late" TimerScheduler_new).2 in
  let s := (ScheduleAfter 1 4 "early" s1).2 in
  ∃ s' t, RunIteration 20 s = (RunFire 2 "early", s') ∧ heap_ s = t :: heap_ s' ∧
       deadline t ≤ 20.
Proof.
  set (s1 := (ScheduleAfter 0 9 "late" TimerScheduler_new).2).
  set (s := (ScheduleAfter 1 4 "early" s1).2).
  destruct (RunIteration_fires_earliest [] s 20 2 "early" (RunIteration 20 s).2)
    as (t & Ht & _ & _ & Hd & _).
  - apply (TTcons _ s1 _ None []); [by apply TSchedule|].
    apply (TTcons _ s _ None []); [by apply TSchedule|]. apply TTnil.
  - vm_compute. reflexivity.
  - exists (RunIteration 20 s).2, t. split; [vm_compute; reflexivity|]. by split.
Defined.
