(* ===== verification/Metrics.v ===== *)
(** Node metrics (src/modules/raft/node/raft_node.cpp, the [Record*] family and
    [rpc_metrics_]): counters of [std::uint64_t], which wrap. *)
From S2P Require Import Prelude.

(** [enum class RpcKind : std::uint8_t], in declaration order. *)
Inductive RpcKind :=
  | kRequestVote | kAppendEntries | kInstallSnapshot
  | kKvPut | kKvDelete | kKvGet | kKvStatus | kKvHealth | kKvMetrics.

(** [static_cast<std::size_t>(kind)]. *)
Definition RpcKind_index (kind : RpcKind) : nat :=
  match kind with
  | kRequestVote => 0 | kAppendEntries => 1 | kInstallSnapshot => 2
  | kKvPut => 3 | kKvDelete => 4 | kKvGet => 5
  | kKvStatus => 6 | kKvHealth => 7 | kKvMetrics => 8
  end.

(** [RaftNode::RpcKindName]. *)
Definition RpcKindName (kind : RpcKind) : string :=
  match kind with
  | kRequestVote => "request_vote"
  | kAppendEntries => "append_entries"
  | kInstallSnapshot => "install_snapshot"
  | kKvPut => "kv_put"
  | kKvDelete => "kv_delete"
  | kKvGet => "kv_get"
  | kKvStatus => "kv_status"
  | kKvHealth => "kv_health"
  | kKvMetrics => "kv_metrics"
  end.

(** [struct RpcMetricState]. *)
Record RpcMetricState := mkRpcMetricState {
  rm_name : string;
  rm_success_count : Z;
  rm_failure_count : Z;
  rm_total_latency_us : Z;
  rm_max_latency_us : Z }.

(** The metric members of [RaftNode]. *)
Record Metrics := mkMetrics {
  propose_success_count_ : Z;
  propose_failure_count_ : Z;
  election_count_ : Z;
  leader_change_count_ : Z;
  snapshot_success_count_ : Z;
  snapshot_failure_count_ : Z;
  storage_persist_failure_count_ : Z;
  rpc_metrics_ : list RpcMetricState }.

#[export] Instance eta_Metrics : Eta Metrics := λ m,
  mkMetrics (propose_success_count_ m) (propose_failure_count_ m) (election_count_ m)
    (leader_change_count_ m) (snapshot_success_count_ m) (snapshot_failure_count_ m)
    (storage_persist_failure_count_ m) (rpc_metrics_ m).
#[export] Instance eta_RpcMetricState : Eta RpcMetricState := λ m,
  mkRpcMetricState (rm_name m) (rm_success_count m) (rm_failure_count m)
    (rm_total_latency_us m) (rm_max_latency_us m).

(** [BuildRpcMetricStateTemplate]. *)
Definition BuildRpcMetricStateTemplate : list RpcMetricState :=
  (λ kind, mkRpcMetricState (RpcKindName kind) 0 0 0 0) <$>
    [kRequestVote; kAppendEntries; kInstallSnapshot; kKvPut; kKvDelete; kKvGet;
     kKvStatus; kKvHealth; kKvMetrics].

Definition Metrics_new : Metrics := mkMetrics 0 0 0 0 0 0 0 BuildRpcMetricStateTemplate.

Definition incr (z : Z) : Z := u64 (z + 1).

(** [MaybeRecordLeaderChangeLocked]. *)
Definition MaybeRecordLeaderChange (old_leader_id new_leader_id : Z) (m : Metrics) : Metrics :=
  if decide (old_leader_id = new_leader_id ∨ new_leader_id < 0) then m
  else m <| leader_change_count_ ::= incr |>.

Definition RecordProposeResult (success : bool) (m : Metrics) : Metrics :=
  if success then m <| propose_success_count_ ::= incr |>
  else m <| propose_failure_count_ ::= incr |>.

Definition RecordElectionStarted (m : Metrics) : Metrics := m <| election_count_ ::= incr |>.

Definition RecordSnapshotOutcome (success : bool) (m : Metrics) : Metrics :=
  if success then m <| snapshot_success_count_ ::= incr |>
  else m <| snapshot_failure_count_ ::= incr |>.

Definition RecordStoragePersistFailure (m : Metrics) : Metrics :=
  m <| storage_persist_failure_count_ ::= incr |>.

(** [RecordRpcLatency]; [rpc_metrics_.at(kind)] throws [std::out_of_range] when
    the entry is missing: [None]. *)
Definition RecordRpcLatency (kind : RpcKind) (success : bool) (latency : Z) (m : Metrics) :
    option Metrics :=
  metric ← rpc_metrics_ m !! RpcKind_index kind;
  let metric := if success then metric <| rm_success_count ::= incr |>
                else metric <| rm_failure_count ::= incr |> in
  let latency_us := Z.max 0 latency in
  let metric := metric <| rm_total_latency_us ::= λ t, u64 (t + latency_us) |>
                       <| rm_max_latency_us ::= Z.max latency_us |> in
  Some (m <| rpc_metrics_ := <[RpcKind_index kind := metric]> (rpc_metrics_ m) |>).

(** The table keeps one entry per kind, in the order of [RpcKind]. *)
Definition metrics_ok (m : Metrics) : Prop :=
  rm_name <$> rpc_metrics_ m = rm_name <$> BuildRpcMetricStateTemplate.

Lemma metrics_lookup m kind :
  metrics_ok m → ∃ metric, rpc_metrics_ m !! RpcKind_index kind = Some metric ∧
                           rm_name metric = RpcKindName kind.
Proof.
  intros Hok. unfold metrics_ok in Hok.
  assert (H : (rm_name <$> rpc_metrics_ m) !! RpcKind_index kind = Some (RpcKindName kind))
    by (rewrite Hok; by destruct kind).
  rewrite list_lookup_fmap in H. apply fmap_Some in H as (metric & ? & ->). eauto.
Qed.

Lemma RecordRpcLatency_ok m kind success latency m' :
  metrics_ok m → RecordRpcLatency kind success latency m = Some m' → metrics_ok m'.
Proof.
  intros Hok Hr. destruct (metrics_lookup m kind Hok) as (metric & Hl & Hname).
  unfold RecordRpcLatency in Hr. rewrite Hl in Hr. simplify_eq/=.
  unfold metrics_ok in *. rewrite <- Hok. simpl. rewrite list_fmap_insert.
  apply list_insert_id. rewrite list_lookup_fmap, Hl. by destruct success.
Qed.
