(* ===== verification/Env.v ===== *)
(** The interfaces a node runs against: the host ([HostEnv]: clock, random
    numbers, the few file operations [raft_node.cpp] makes itself) and the three
    abstract classes of the source, [IRaftStorage], [ISnapshotStorage] and
    [IStateMachine].  [E] is the state of everything outside the node object
    (clock, generator, disk); an operation that changes it returns the new one. *)
From S2P Require Import Prelude Command Types.

(** What the node asks of the host. Times are in milliseconds. *)
Class HostEnv (E : Type) := {
  (** [std::chrono::steady_clock::now()] *)
  steady_now : E → Z;
  (** [std::this_thread::sleep_for] *)
  sleep_for : Z → E → E;
  (** [std::uniform_int_distribution<int>(lo, hi)(rng_)] *)
  uniform_int : Z → Z → E → Z * E;
  (** [std::filesystem::create_directories]; [Some message] is the error *)
  create_directories : path → E → option string * E;
  (** truncate, write and flush a binary file: opened, and written *)
  write_file : path → bytes → E → (bool * bool) * E;
  (** the contents of a binary file, [None] when it cannot be opened or read *)
  read_file : path → E → option bytes;
  (** [std::filesystem::exists(path, ec)] *)
  file_exists : path → E → bool;
  (** [std::filesystem::remove(path, ec)], error ignored *)
  remove_file : path → E → E }.

(** [class IRaftStorage].  [storage_Save] returns the flag and the contents of
    [*error]; [storage_Load] the flag, [*state], [*has_state] and [*error]. *)
Class IRaftStorage (E : Type) := {
  storage_Save : PersistentRaftState → E → (bool * string) * E;
  storage_Load : E → (bool * PersistentRaftState * bool * string) * E }.

(** [class ISnapshotStorage].  [Some] is success with the output argument. *)
Class ISnapshotStorage (E : Type) := {
  snapshot_SaveSnapshotFile : path → Z → Z → E → (option SnapshotMeta * string) * E;
  snapshot_ListSnapshots : E → option (list SnapshotMeta) * string;
  snapshot_ListSnapshotsWithDiagnostics : E → option SnapshotListResult * string;
  snapshot_PruneSnapshots : Z → E → (bool * string) * E }.

(** [class IStateMachine]. *)
Class IStateMachine (SM E : Type) := {
  sm_Apply : Z → string → SM → ApplyResult * SM;
  sm_SaveSnapshot : path → SM → E → SnapshotResult * E;
  sm_LoadSnapshot : path → SM → E → SnapshotResult * SM }.

(** ** Contracts *)

(** [PersistentRaftState] after recovery: the boundaries are clamped to the
    recovered log (see [ClampRecoveredHardState] in RaftStorage). *)
Definition last_log_index_of (log : list LogRecord) : Z :=
  match last log with Some r => index r | None => 0 end.

(** [stored st e]: the disk of [e] holds [st].  A [Save] that reports success leaves its
    state there, and drawing a random number does not take it away. *)
Class DurableStorage (E : Type) `{HostEnv E, IRaftStorage E}
    (stored : PersistentRaftState → E → Prop) : Prop := {
  save_stored : ∀ st e e' err, storage_Save st e = ((true, err), e') → stored st e';
  stored_uniform_int : ∀ lo hi st e, stored st e → stored st (uniform_int lo hi e).2 }.

(** A storage is sound when what a successful [Save] wrote is what the next
    [Load] returns, up to [recovered], a failed [Save] leaves either the previous
    or the new state in place, and drawing a random number or sleeping does not
    touch the disk.  Recovery may lower boundaries or shorten the log, but it gives
    back the term and the vote that were written. *)
Class StorageLaws (E : Type) `{HostEnv E, IRaftStorage E}
    (recovered : PersistentRaftState → PersistentRaftState) : Prop := {
  save_load : ∀ st e e' err, storage_Save st e = ((true, err), e') →
    ∃ err', (storage_Load e').1 = (true, recovered st, true, err');
  save_fail : ∀ st e e' err, storage_Save st e = ((false, err), e') →
    (storage_Load e').1 = (storage_Load e).1 ∨
    ∃ err', (storage_Load e').1 = (true, recovered st, true, err');
  load_uniform_int : ∀ lo hi e, (storage_Load (uniform_int lo hi e).2).1 = (storage_Load e).1;
  load_sleep : ∀ d e, (storage_Load (sleep_for d e)).1 = (storage_Load e).1;
  recovered_hard : ∀ st, ps_current_term (recovered st) = ps_current_term st ∧
                         ps_voted_for (recovered st) = ps_voted_for st }.

(** The state on disk, when there is one. *)
Definition disk_state {E} `{IRaftStorage E} (e : E) : option PersistentRaftState :=
  match (storage_Load e).1 with (true, st, true, _) => Some st | _ => None end.

(** A sound storage is durable. *)
#[export] Instance StorageLaws_durable E `{StorageLaws E recovered} :
  DurableStorage E (λ st e, disk_state e = Some (recovered st)).
Proof.
  split; unfold disk_state.
  - intros st e e' err Hs. by destruct (save_load _ _ _ _ Hs) as [err' ->].
  - intros lo hi st e. by rewrite load_uniform_int.
Qed.
