(* ===== verification/Bytes.v ===== *)
(** Byte strings: little-endian integers ([WritePod]/[ReadPod] of an unsigned
    integer on the supported, little-endian targets), length-prefixed strings,
    and the FNV-1a checksum.  A reader is a function of the unread bytes. *)
From S2P Require Import Prelude Types.

(** ** Bytes and strings *)
Definition byte_of_Z (z : Z) : ascii := ascii_of_N (Z.to_N (z mod 256)).
Definition Z_of_byte (b : ascii) : Z := Z.of_N (N_of_ascii b).

(** The characters of a [std::string]. *)
Definition string_bytes (s : string) : bytes := list_ascii_of_string s.
Definition bytes_string (b : bytes) : string := string_of_list_ascii b.

(** The [n] low bytes of [z], least significant first. *)
Fixpoint le_bytes (n : nat) (z : Z) : bytes :=
  match n with
  | O => []
  | S n => byte_of_Z z :: le_bytes n (z / 256)
  end.

(** The integer a byte list spells, least significant first. *)
Fixpoint le_value (b : bytes) : Z :=
  match b with
  | [] => 0
  | x :: b => Z_of_byte x + 256 * le_value b
  end.

(** ** Readers *)
Definition reader (A : Type) : Type := bytes → option (A * bytes).

(** [in.read(buf, n)] on the unread bytes: fails when fewer are left. *)
Definition read_bytes (n : nat) : reader bytes := λ b,
  if decide (n ≤ length b)%nat then Some (take n b, drop n b) else None.

(** [ReadPod] into an [n]-byte unsigned integer. *)
Definition read_le (n : nat) : reader Z := λ b,
  match read_bytes n b with Some (v, rest) => Some (le_value v, rest) | None => None end.

(** ** Lemmas *)
Lemma Z_of_byte_range b : 0 ≤ Z_of_byte b < 256.
Proof. unfold Z_of_byte. pose proof (N_ascii_bounded b). lia. Qed.

Lemma Z_of_byte_of_Z z : Z_of_byte (byte_of_Z z) = z mod 256.
Proof.
  unfold Z_of_byte, byte_of_Z. pose proof (Z.mod_pos_bound z 256).
  rewrite N_ascii_embedding by lia. lia.
Qed.

Lemma length_le_bytes n z : length (le_bytes n z) = n.
Proof. revert z. induction n as [|n IH]; intros z; simpl; [done|by rewrite IH]. Qed.

Lemma le_value_bytes n z : le_value (le_bytes n z) = z mod 256 ^ Z.of_nat n.
Proof.
  revert z. induction n as [|n IH]; intros z; [by rewrite Z.mod_1_r|].
  cbn [le_bytes le_value]. rewrite IH, Z_of_byte_of_Z.
  rewrite Nat2Z.inj_succ, Z.pow_succ_r by lia. rewrite Z.rem_mul_r by lia. lia.
Qed.

Lemma le_value_bytes_id n z : 0 ≤ z < 256 ^ Z.of_nat n → le_value (le_bytes n z) = z.
Proof. intros ?. rewrite le_value_bytes. by apply Z.mod_small. Qed.

Lemma le_value_range b : 0 ≤ le_value b < 256 ^ Z.of_nat (length b).
Proof.
  induction b as [|x b IH]; [simpl; lia|]. cbn [le_value length].
  rewrite Nat2Z.inj_succ, Z.pow_succ_r by lia. pose proof (Z_of_byte_range x). lia.
Qed.

Lemma read_bytes_app v rest n : length v = n → read_bytes n (v ++ rest) = Some (v, rest).
Proof.
  intros <-. unfold read_bytes. rewrite decide_True by (rewrite length_app; lia).
  by rewrite take_app_length, drop_app_length.
Qed.

Lemma read_bytes_Some n b v rest : read_bytes n b = Some (v, rest) → b = v ++ rest ∧ length v = n.
Proof.
  unfold read_bytes. case_decide; [|done]. intros [= <- <-].
  by rewrite take_drop, length_take, Nat.min_l.
Qed.

Lemma read_le_bytes n z rest :
  0 ≤ z < 256 ^ Z.of_nat n → read_le n (le_bytes n z ++ rest) = Some (z, rest).
Proof.
  intros Hz. unfold read_le. rewrite read_bytes_app by apply length_le_bytes.
  by rewrite le_value_bytes_id.
Qed.

Lemma read_le_Some n b z rest :
  read_le n b = Some (z, rest) →
  0 ≤ z < 256 ^ Z.of_nat n ∧ length b = (n + length rest)%nat.
Proof.
  unfold read_le. destruct (read_bytes n b) as [[v r]|] eqn:Hr; [|done]. intros [= <- <-].
  apply read_bytes_Some in Hr as [-> <-]. split; [apply le_value_range|by rewrite length_app].
Qed.

Lemma read_le_short n b : (length b < n)%nat → read_le n b = None.
Proof. intros ?. unfold read_le, read_bytes. by rewrite decide_False by lia. Qed.

Lemma bytes_string_bytes s : bytes_string (string_bytes s) = s.
Proof. apply string_of_list_ascii_of_string. Qed.

Lemma string_bytes_string b : string_bytes (bytes_string b) = b.
Proof. apply list_ascii_of_string_of_list_ascii. Qed.

Lemma length_string_bytes s : length (string_bytes s) = String.length s.
Proof. induction s as [|c s IH]; simpl; [done|by rewrite IH]. Qed.

Lemma string_length_app (v w : string) :
  String.length (v +:+ w) = (String.length v + String.length w)%nat.
Proof. induction v as [|c v IH]; [done|]. by apply (f_equal S). Qed.

(** ** 32-bit integers and FNV-1a *)
Definition u32 (z : Z) : Z := z mod 4294967296.

(** [static_cast<int>] of an integer that was read from 8 bytes. *)
Definition to_int (z : Z) : Z := let m := u32 z in if decide (m < 2147483648) then m else m - 4294967296.

(** [Fnv1aAppend] and [UpdateChecksum]: byte by byte, 32-bit wrap-around. *)
Definition kFnvOffset : Z := 2166136261.
Definition kFnvPrime : Z := 16777619.
Definition Fnv1aAppend (hash : Z) (data : bytes) : Z :=
  foldl (λ h b, u32 (Z.lxor h (Z_of_byte b) * kFnvPrime)) hash data.

Lemma Fnv1aAppend_app h a b : Fnv1aAppend h (a ++ b) = Fnv1aAppend (Fnv1aAppend h a) b.
Proof. apply foldl_app. Qed.

Lemma u32_range z : 0 ≤ u32 z < 256 ^ Z.of_nat 4.
Proof. unfold u32. change (256 ^ Z.of_nat 4) with 4294967296. apply Z.mod_pos_bound. lia. Qed.

Lemma Fnv1aAppend_range h data :
  0 ≤ h < 256 ^ Z.of_nat 4 → 0 ≤ Fnv1aAppend h data < 256 ^ Z.of_nat 4.
Proof.
  unfold Fnv1aAppend. revert h. induction data as [|b data IH]; intros h Hh; [done|].
  cbn [foldl]. apply IH, u32_range.
Qed.

Lemma to_int_id z : -2147483648 ≤ z < 2147483648 → to_int (z mod 18446744073709551616) = z.
Proof.
  intros Hz. unfold to_int, u32. cbv zeta.
  rewrite Z.mod_mod_divide by (by exists 4294967296).
  destruct (decide (0 ≤ z)).
  - rewrite Z.mod_small by lia. by rewrite decide_True by lia.
  - assert (Hm : z mod 4294967296 = z + 4294967296)
      by (symmetry; apply (Z.mod_unique _ _ (-1)); lia).
    rewrite Hm, decide_False by lia. lia.
Qed.
