(* ===== verification/Digits.v ===== *)
(** Decimal file names: [std::setw(20) << std::setfill('0')] of a 64-bit index,
    and [std::stoull] on a string of digits. *)
From S2P Require Import Prelude Types.

Definition is_digit (c : ascii) : bool :=
  let n := N_of_ascii c in bool_decide (48 ≤ n)%N && bool_decide (n ≤ 57)%N.
Definition digit_value (c : ascii) : Z := Z.of_N (N_of_ascii c) - 48.

Fixpoint all_digits (s : string) : bool :=
  match s with "" => true | String c s => is_digit c && all_digits s end.

(** The number a string of digits spells, after the digits of [acc]. *)
Fixpoint digits_from (acc : Z) (s : string) : Z :=
  match s with "" => acc | String c s => digits_from (acc * 10 + digit_value c) s end.

(** The leading digits of a string. *)
Fixpoint digits_prefix (s : string) : string :=
  match s with
  | "" => ""
  | String c s => if is_digit c then String c (digits_prefix s) else ""
  end.

(** [isspace], which [std::stoull] skips at the front. *)
Definition is_space (c : ascii) : bool :=
  let n := N_of_ascii c in bool_decide (n = 32)%N || (bool_decide (9 ≤ n)%N && bool_decide (n ≤ 13)%N).
Fixpoint skip_spaces (s : string) : string :=
  match s with "" => "" | String c s' => if is_space c then skip_spaces s' else s end.

(** [std::stoull]: spaces, a sign, the longest run of digits; [None] when it throws
    (no digit, or out of range).  A minus sign negates modulo 2^64. *)
Definition stoull (s : string) : option Z :=
  let s := skip_spaces s in
  let '(neg, s) := match s with
                   | String "-"%char s => (true, s)
                   | String "+"%char s => (false, s)
                   | _ => (false, s)
                   end in
  let d := digits_prefix s in
  if decide (d = "") then None
  else
    let v := digits_from 0 d in
    if decide (u64_max < v) then None else Some (if neg then u64 (- v) else v).

(** [oss << std::setw(20) << std::setfill('0') << index]. *)
Fixpoint zeros (n : nat) : string := match n with O => "" | S n => String "0" (zeros n) end.
Definition FormatIndex (i : Z) : string :=
  let digits := pretty (Z.to_N i) in zeros (20 - String.length digits) +:+ digits.

(** ** Lemmas *)
Lemma all_digits_app a b : all_digits (a +:+ b) = all_digits a && all_digits b.
Proof. induction a as [|c a IH]; [done|]. change (String c a +:+ b) with (String c (a +:+ b)). cbn [all_digits]. by rewrite IH, andb_assoc. Qed.

Lemma digits_from_app acc a b : digits_from acc (a +:+ b) = digits_from (digits_from acc a) b.
Proof. revert acc. induction a as [|c a IH]; intros acc; [done|]. apply (IH (acc * 10 + digit_value c)). Qed.

Lemma digits_prefix_all s : all_digits s = true → digits_prefix s = s.
Proof.
  induction s as [|c s IH]; [done|]. cbn. intros [Hc Hs]%andb_true_iff. by rewrite Hc, IH.
Qed.

Lemma digit_char d : (d < 10)%N →
  is_digit (pretty_N_char d) = true ∧ digit_value (pretty_N_char d) = Z.of_N d.
Proof.
  intros Hd. assert (Hc : d ∈ [0;1;2;3;4;5;6;7;8;9]%N) by (set_unfold; lia).
  set_unfold. by repeat destruct Hc as [->|Hc].
Qed.

Lemma pretty_go_digits (x : N) s :
  all_digits s = true →
  all_digits (pretty_N_go x s) = true ∧
  digits_from 0 (pretty_N_go x s) = digits_from (Z.of_N x) s.
Proof.
  revert s. induction x as [x IH] using (well_founded_ind N.lt_wf_0); intros s Hs.
  destruct (decide (x = 0)%N) as [->|Hx]; [by rewrite pretty_N_go_0|].
  rewrite pretty_N_go_step by lia.
  pose proof (N.mod_lt x 10). destruct (digit_char (x mod 10)) as [Hd Hv]; [lia|].
  destruct (IH (x / 10)%N) with (s := String (pretty_N_char (x mod 10)) s) as [H1 H2].
  - apply N.div_lt; lia.
  - cbn. by rewrite Hd.
  - split; [done|]. rewrite H2. cbn [digits_from]. rewrite Hv. f_equal.
    rewrite (N.div_mod x 10) at 3 by lia. lia.
Qed.

Lemma pretty_digits (x : N) :
  all_digits (pretty x) = true ∧ digits_from 0 (pretty x) = Z.of_N x ∧ pretty x ≠ "".
Proof.
  unfold pretty, pretty_N. destruct (decide (x = 0)%N) as [->|Hx]; [done|].
  destruct (pretty_go_digits x "") as [H1 H2]; [done|]. split; [done|]. split; [done|].
  intros Heq. rewrite Heq in H2. cbn in H2. lia.
Qed.

Lemma zeros_digits n : all_digits (zeros n) = true ∧ digits_from 0 (zeros n) = 0.
Proof. by induction n as [|n IH]. Qed.

Lemma FormatIndex_digits i :
  0 ≤ i → all_digits (FormatIndex i) = true ∧ digits_from 0 (FormatIndex i) = i ∧ FormatIndex i ≠ "".
Proof.
  intros Hi. unfold FormatIndex. destruct (pretty_digits (Z.to_N i)) as (Hd & Hv & Hne).
  destruct (zeros_digits (20 - String.length (pretty (Z.to_N i)))) as [Hz Hz0].
  rewrite all_digits_app, digits_from_app, Hz, Hz0, Hd, Hv. split_and!; [done|lia|].
  intros Heq. apply (f_equal digits_prefix) in Heq.
  destruct (20 - String.length (pretty (Z.to_N i)))%nat; [|done]. cbn in Heq.
  by rewrite digits_prefix_all in Heq.
Qed.

Lemma stoull_digits s :
  all_digits s = true → s ≠ "" → digits_from 0 s ≤ u64_max → stoull s = Some (digits_from 0 s).
Proof.
  intros Hd Hne Hmax. destruct s as [|c s]; [done|]. unfold stoull.
  assert (Hc : is_digit c = true) by (cbn in Hd; by apply andb_true_iff in Hd as [? _]).
  assert (Hsp : skip_spaces (String c s) = String c s).
  { cbn. unfold is_space. unfold is_digit in Hc. rewrite andb_true_iff, !bool_decide_eq_true in Hc.
    destruct Hc as [Hlo _]. rewrite bool_decide_false by lia.
    rewrite (bool_decide_false (_ ≤ 13)%N) by lia. by rewrite andb_false_r. }
  rewrite Hsp. cbv zeta.
  assert (Hsign : match String c s with
                  | String "-"%char s => (true, s)
                  | String "+"%char s => (false, s)
                  | _ => (false, String c s)
                  end = (false, String c s))
    by (by destruct c as [[] [] [] [] [] [] [] []]).
  rewrite Hsign, digits_prefix_all by done. rewrite decide_False by done. by rewrite decide_False by lia.
Qed.

Lemma stoull_FormatIndex i : is_u64 i → stoull (FormatIndex i) = Some i.
Proof.
  intros Hi. destruct (FormatIndex_digits i) as (Hd & Hv & Hne); [u64_lia|].
  rewrite stoull_digits; [by rewrite Hv|done|done|rewrite Hv; u64_lia].
Qed.

(** ** Substrings *)
Lemma prefix_app a b : String.prefix a (a +:+ b) = true.
Proof. induction a as [|c a IH]; [by destruct b|].
  change (String c a +:+ b) with (String c (a +:+ b)). cbn [String.prefix].
  destruct (ascii_dec c c); [exact IH|done].
Qed.

Lemma substring_skip a b n m :
  n = String.length a → String.substring n m (a +:+ b) = String.substring 0 m b.
Proof. intros ->. induction a as [|c a IH]; [done|]. exact IH. Qed.

Lemma substring_take a b n : n = String.length a → String.substring 0 n (a +:+ b) = a.
Proof.
  intros ->. induction a as [|c a IH]; [by destruct b|].
  change (String c (String.substring 0 (String.length a) (a +:+ b)) = String c a). by rewrite IH.
Qed.

Lemma substring_all a : String.substring 0 (String.length a) a = a.
Proof.
  induction a as [|c a IH]; [done|].
  change (String c (String.substring 0 (String.length a) a) = String c a). by rewrite IH.
Qed.
