(* ===== verification/Fs.v ===== *)
(** A file system, as [std::filesystem] and the file streams of the storage code
    see it, with scripted faults: any single operation can fail, and the process
    can die at any point, leaving the operations done so far on disk. *)
From S2P Require Import Prelude Types Bytes.

(** ** State *)
Inductive FsNode := File (data : bytes) | Dir.
#[export] Instance FsNode_eq_dec : EqDecision FsNode.
Proof. solve_decision. Defined.

(** The fate of the next operation: done; refused with a system message; torn
    (the process dies after [n] units of it: bytes of a write, entries of a
    recursive removal); or the process is dead already: nothing is done any more
    and whatever the code computes from here on is never seen. *)
Inductive FsFault := fOk | fFail (message : string) | fTorn (n : nat) | fDead.

(** An exhausted script means no further fault. *)
Record Fs := mkFs { nodes : gmap path FsNode; script : list FsFault }.

#[export] Instance eta_Fs : Eta Fs := λ s, mkFs (nodes s) (script s).

(** ** Paths *)

(** [path.parent_path()] and [path.filename()]. *)
Definition parent_path (p : path) : path := removelast p.
Definition filename (p : path) : string := List.last p "".

(** [q] is [p] or lies under it. *)
Definition under (p q : path) : bool := bool_decide (p `prefix_of` q).

(** The part of [q] below [p]. *)
Definition below (p q : path) : path := drop (length p) q.

(** ** Operations

    [None] is success ([ec] clear), [Some message] an error. *)

(** Consume one step of the script: whether the operation goes ahead. *)
Definition fs_tick (s : Fs) : option string * Fs :=
  match script s with
  | [] => (None, s)
  | fOk :: l => (None, s <| script := l |>)
  | fFail m :: l => (Some m, s <| script := l |>)
  | fTorn _ :: _ => (Some "", s <| script := [fDead] |>)
  | fDead :: _ => (Some "", s)
  end.

(** An operation that changes the disk in one step when it is not refused. *)
Definition fs_step (f : gmap path FsNode → option string * gmap path FsNode) (s : Fs) :
    option string * Fs :=
  match fs_tick s with
  | (Some m, s) => (Some m, s)
  | (None, s) => let '(r, ns) := f (nodes s) in (r, s <| nodes := ns |>)
  end.

Definition is_dir (p : path) (ns : gmap path FsNode) : bool :=
  match p with [] => true | _ => bool_decide (ns !! p = Some Dir) end.
Definition is_file (p : path) (ns : gmap path FsNode) : bool :=
  match ns !! p with Some (File _) => true | _ => false end.

(** [exists]. *)
Definition fs_exists (p : path) (s : Fs) : bool :=
  match p with [] => true | _ => bool_decide (is_Some (nodes s !! p)) end.

(** [exists(p, ec)] where the caller looks at [ec]: the check itself can fail. *)
Definition fs_exists_ec (p : path) (s : Fs) : (string + bool) * Fs :=
  match fs_tick s with
  | (Some m, s) => (inl m, s)
  | (None, s) => (inr (fs_exists p s), s)
  end.

(** [create_directories]: every component of the path. *)
Fixpoint mkdirs (done todo : path) (ns : gmap path FsNode) : option string * gmap path FsNode :=
  match todo with
  | [] => (None, ns)
  | name :: todo =>
      let p := done ++ [name] in
      match ns !! p with
      | Some (File _) => (Some "Not a directory", ns)
      | Some Dir => mkdirs p todo ns
      | None => mkdirs p todo (<[p := Dir]> ns)
      end
  end.
Definition fs_create_directories (p : path) : Fs → option string * Fs := fs_step (mkdirs [] p).

(** The nodes strictly under a directory. *)
Definition descendants (p : path) (ns : gmap path FsNode) : gmap path FsNode :=
  filter (λ kv, under p kv.1 = true ∧ kv.1 ≠ p) ns.

(** [remove]: a missing path is no error, a non-empty directory is. *)
Definition fs_remove (p : path) : Fs → option string * Fs := fs_step (λ ns,
  if decide (descendants p ns = ∅) then (None, delete p ns)
  else (Some "Directory not empty", ns)).

(** [remove_all]; a torn one has removed some of the entries. *)
Definition prune (p : path) (ns : gmap path FsNode) : gmap path FsNode :=
  filter (λ kv, under p kv.1 = false) ns.
Definition fs_remove_all (p : path) (s : Fs) : option string * Fs :=
  match script s with
  | fTorn n :: _ =>
      let gone := take n (map_to_list (descendants p (nodes s))).*1 in
      (Some "", mkFs (foldr delete (nodes s) gone) [fDead])
  | _ => fs_step (λ ns, (None, prune p ns)) s
  end.

(** [rename]: a file replaces a file, a directory an empty or missing one. *)
Definition swap_prefix (p q r : path) : path :=
  if under p r then q ++ below p r else if under q r then p ++ below q r else r.
Definition move_nodes (src dst : path) (ns : gmap path FsNode) : gmap path FsNode :=
  kmap (swap_prefix src dst) (prune dst ns).
Definition fs_rename (src dst : path) : Fs → option string * Fs := fs_step (λ ns,
  match ns !! src with
  | None => (Some "No such file or directory", ns)
  | Some node =>
      if decide (src = dst) then (None, ns)
      else if under src dst || under dst src then (Some "Invalid argument", ns)
      else if negb (is_dir (parent_path dst) ns) then (Some "No such file or directory", ns)
      else
        match node, ns !! dst with
        | File _, Some Dir => (Some "Is a directory", ns)
        | Dir, Some (File _) => (Some "Not a directory", ns)
        | Dir, Some Dir =>
            if decide (descendants dst ns = ∅) then (None, move_nodes src dst ns)
            else (Some "Directory not empty", ns)
        | _, _ => (None, move_nodes src dst ns)
        end
  end).

(** [resize_file], which pads with zero bytes when it grows the file. *)
Definition resize (n : nat) (b : bytes) : bytes :=
  take n b ++ replicate (n - length b) (byte_of_Z 0).
Definition fs_resize_file (p : path) (n : nat) : Fs → option string * Fs := fs_step (λ ns,
  match ns !! p with
  | Some (File b) => (None, <[p := File (resize n b)]> ns)
  | _ => (Some "No such file or directory", ns)
  end).

(** [open] + [fsync] + [close] of an existing file or directory. *)
Definition fs_sync (p : path) : Fs → option string * Fs := fs_step (λ ns,
  if is_dir p ns || is_file p ns then (None, ns) else (Some "No such file or directory", ns)).

(** [open] with [O_DIRECTORY]. *)
Definition fs_open_dir (p : path) : Fs → option string * Fs := fs_step (λ ns,
  if is_dir p ns then (None, ns) else (Some "Not a directory", ns)).

(** Opening an [ofstream] with [trunc]: whether it is open. *)
Definition fs_open_trunc (p : path) (s : Fs) : bool * Fs :=
  let '(r, s) := fs_step (λ ns,
    if is_dir (parent_path p) ns && negb (bool_decide (ns !! p = Some Dir))
    then (None, <[p := File []]> ns) else (Some "", ns)) s in
  (bool_decide (r = None), s).

(** Writing to an open stream: whether the stream is still good. *)
Definition append_node (p : path) (b : bytes) (ns : gmap path FsNode) : gmap path FsNode :=
  match ns !! p with Some (File d) => <[p := File (d ++ b)]> ns | _ => ns end.
Definition fs_write (p : path) (b : bytes) (s : Fs) : bool * Fs :=
  match script s with
  | fTorn n :: _ => (false, mkFs (append_node p (take n b) (nodes s)) [fDead])
  | _ => let '(r, s) := fs_step (λ ns, (None, append_node p b ns)) s in (bool_decide (r = None), s)
  end.

(** [flush] (and [close]) of an open stream. *)
Definition fs_flush (s : Fs) : bool * Fs :=
  let '(r, s) := fs_tick s in (bool_decide (r = None), s).

(** Opening an [ifstream] and its contents, [None] when it cannot be opened. *)
Definition fs_read (p : path) (s : Fs) : option bytes * Fs :=
  match fs_tick s with
  | (Some _, s) => (None, s)
  | (None, s) => (match nodes s !! p with Some (File b) => Some b | _ => None end, s)
  end.

(** [directory_iterator]: the entries of a directory. *)
Definition fs_list (p : path) (s : Fs) : list (path * FsNode) :=
  filter (λ kv, parent_path kv.1 = p ∧ kv.1 ≠ []) (map_to_list (nodes s)).

(** [directory_iterator(p, ec)]: no entries when the directory cannot be opened. *)
Definition fs_iterate (p : path) (s : Fs) : list (path * FsNode) * Fs :=
  match fs_tick s with
  | (Some _, s) => ([], s)
  | (None, s) => (fs_list p s, s)
  end.

(** ** Lemmas *)

(** No fault ahead. *)
Definition healthy (s : Fs) : Prop := script s = [].

Lemma fs_step_healthy f s :
  healthy s → fs_step f s = ((f (nodes s)).1, s <| nodes := (f (nodes s)).2 |>).
Proof. unfold healthy, fs_step, fs_tick. intros ->. by destruct (f (nodes s)). Qed.

Lemma under_refl p : under p p = true.
Proof. unfold under. by rewrite bool_decide_true. Qed.

Lemma under_app p r : under p (p ++ r) = true.
Proof. unfold under. rewrite bool_decide_true; [done|]. by apply prefix_app_r. Qed.

Lemma below_app p r : below p (p ++ r) = r.
Proof. unfold below. by rewrite drop_app_length. Qed.

Lemma under_spec p q : under p q = true ↔ q = p ++ below p q.
Proof.
  unfold under, below. rewrite bool_decide_eq_true. split.
  - intros [r ->]. by rewrite drop_app_length.
  - intros ->. by apply prefix_app_r.
Qed.

(** Paths apart: neither lies under the other. *)
Definition apart (p q : path) : Prop := under p q = false ∧ under q p = false.

Lemma apart_under p q r : apart p q → under p r = true → under q r = false.
Proof.
  unfold apart, under. rewrite !bool_decide_eq_false, bool_decide_eq_true.
  intros [H1 H2] Hp Hq. destruct (prefix_weak_total p q r Hp Hq); done.
Qed.

Lemma swap_prefix_involutive p q r : apart p q → swap_prefix p q (swap_prefix p q r) = r.
Proof.
  intros Hap. unfold swap_prefix at 2. destruct (under p r) eqn:Hp.
  - unfold swap_prefix. assert (under p (q ++ below p r) = false) as ->
      by (eapply (apart_under q p); [by destruct Hap|apply under_app]).
    rewrite under_app, below_app. symmetry. by apply under_spec.
  - destruct (under q r) eqn:Hq; unfold swap_prefix.
    + rewrite under_app, below_app. symmetry. by apply under_spec.
    + by rewrite Hp, Hq.
Qed.

#[export] Instance apart_sym : Symmetric apart.
Proof. by intros ?? []. Qed.

Lemma swap_prefix_inj p q : apart p q → Inj (=) (=) (swap_prefix p q).
Proof.
  intros Hap r1 r2 Heq. rewrite <- (swap_prefix_involutive p q r1 Hap), Heq.
  by apply swap_prefix_involutive.
Qed.

Lemma lookup_prune p ns q : prune p ns !! q = if under p q then None else ns !! q.
Proof.
  unfold prune. destruct (under p q) eqn:Hu.
  - apply map_lookup_filter_None. right. intros x _. cbn. by rewrite Hu.
  - destruct (ns !! q) as [x|] eqn:Hq.
    + by apply map_lookup_filter_Some.
    + apply map_lookup_filter_None. by left.
Qed.

(** What a rename moves and what it leaves. *)
Lemma lookup_move_nodes src dst ns q :
  apart src dst →
  move_nodes src dst ns !! q =
    if under dst q then ns !! (src ++ below dst q)
    else if under src q then None else ns !! q.
Proof.
  intros Hap. unfold move_nodes. pose proof (swap_prefix_inj src dst Hap).
  rewrite <- (swap_prefix_involutive src dst q Hap) at 1.
  rewrite (lookup_kmap (swap_prefix src dst)), lookup_prune. unfold swap_prefix.
  destruct (under src q) eqn:Hs.
  - rewrite under_app. by rewrite (apart_under _ _ _ Hap Hs).
  - destruct (under dst q) eqn:Hd.
    + rewrite (apart_under src dst (src ++ below dst q) Hap); [done|apply under_app].
    + by rewrite Hd.
Qed.

(** ** Frames *)

(** Only [p] may have changed. *)
Definition only_at (p : path) (s s' : Fs) : Prop :=
  ∀ q, q ≠ p → nodes s' !! q = nodes s !! q.

#[export] Instance only_at_preorder p : PreOrder (only_at p).
Proof. split; [done|]. intros s1 s2 s3 H1 H2 q Hq. by rewrite H2, H1. Qed.

Lemma append_node_other p b ns q : q ≠ p → append_node p b ns !! q = ns !! q.
Proof. intros ?. unfold append_node. repeat case_match; try done. by rewrite lookup_insert_ne. Qed.

Lemma append_node_file p b ns d :
  ns !! p = Some (File d) → append_node p b ns !! p = Some (File (d ++ b)).
Proof. unfold append_node. intros ->. by rewrite lookup_insert_eq. Qed.

Lemma fs_tick_nodes s : nodes (fs_tick s).2 = nodes s.
Proof. unfold fs_tick. by repeat case_match. Qed.

(** A step that succeeds went ahead; one that fails did nothing or what [f] does
    when it fails. *)
Lemma fs_step_cases f s r s' :
  fs_step f s = (r, s') →
  r ≠ None ∧ nodes s' = nodes s ∨ f (nodes s) = (r, nodes s').
Proof.
  unfold fs_step. pose proof (fs_tick_nodes s) as Ht. destruct (fs_tick s) as [[m|] s1].
  - intros [= <- <-]. by left.
  - cbn [snd] in Ht. rewrite Ht. destruct (f (nodes s)) as [r1 ns]. intros [= <- <-]. by right.
Qed.

Lemma fs_flush_nodes s r s' : fs_flush s = (r, s') → nodes s' = nodes s.
Proof.
  unfold fs_flush. pose proof (fs_tick_nodes s). destruct (fs_tick s) as [? s1].
  by intros [= _ <-].
Qed.

Lemma fs_sync_nodes p s r s' : fs_sync p s = (r, s') → nodes s' = nodes s.
Proof.
  intros [[_ ->]|Hf]%fs_step_cases; [done|]. by case_match; simplify_eq.
Qed.

Lemma fs_open_dir_nodes p s r s' : fs_open_dir p s = (r, s') → nodes s' = nodes s.
Proof.
  intros [[_ ->]|Hf]%fs_step_cases; [done|]. by case_match; simplify_eq.
Qed.

Lemma fs_write_only p b s r s' : fs_write p b s = (r, s') → only_at p s s'.
Proof.
  unfold fs_write. intros H q Hq.
  assert (Hw : ∀ b', append_node p b' (nodes s) !! q = nodes s !! q)
    by (intros; by apply append_node_other).
  destruct (script s) as [|[] l]; simplify_eq/=; try by rewrite Hw.
  all: destruct (fs_step _ s) as [r1 s1] eqn:Hs; simplify_eq; apply fs_step_cases in Hs as [[_ ->]|Hf];
    [done|]; simplify_eq; by rewrite <- H0, Hw.
Qed.

Lemma fs_write_true p b s s' d :
  fs_write p b s = (true, s') → nodes s !! p = Some (File d) →
  nodes s' !! p = Some (File (d ++ b)).
Proof.
  unfold fs_write. intros H Hd.
  assert (Hstep : ∃ s1, fs_step (λ ns, (None, append_node p b ns)) s = (None, s1) ∧ s' = s1).
  { destruct (script s) as [|[] l]; try done;
      destruct (fs_step _ s) as [r1 s1]; injection H as Hr ->; apply bool_decide_eq_true in Hr;
      subst; eauto. }
  destruct Hstep as (s1 & Hs & ->). apply fs_step_cases in Hs as [[? _]|Hf]; [done|].
  injection Hf as <-. by apply append_node_file.
Qed.

Lemma fs_open_trunc_only p s r s' : fs_open_trunc p s = (r, s') → only_at p s s'.
Proof.
  unfold fs_open_trunc. destruct (fs_step _ s) as [r1 s1] eqn:Hs. intros [= _ <-] q Hq.
  apply fs_step_cases in Hs as [[_ ->]|Hf]; [done|]. case_match; injection Hf as _ <-; [|done].
  by rewrite lookup_insert_ne.
Qed.

Lemma fs_open_trunc_true p s s' :
  fs_open_trunc p s = (true, s') → nodes s' !! p = Some (File []).
Proof.
  unfold fs_open_trunc. destruct (fs_step _ s) as [r1 s1] eqn:Hs. intros [= Hr <-].
  apply bool_decide_eq_true in Hr as ->.
  apply fs_step_cases in Hs as [[? _]|Hf]; [done|]. case_match; [|done].
  injection Hf as <-. by rewrite lookup_insert_eq.
Qed.

Lemma mkdirs_other done todo ns q :
  ¬ q `prefix_of` (done ++ todo) → (mkdirs done todo ns).2 !! q = ns !! q.
Proof.
  revert done ns. induction todo as [|name todo IH]; intros done ns Hq; [tauto|].
  cbn [mkdirs]. replace (done ++ name :: todo) with ((done ++ [name]) ++ todo) in Hq
    by (by rewrite <- app_assoc).
  destruct (ns !! (done ++ [name])) as [[]|]; [tauto|by apply IH|].
  rewrite IH by done. apply lookup_insert_ne. intros <-. apply Hq. by apply prefix_app_r.
Qed.

(** Creating the directories of [p] touches only the prefixes of [p]. *)
Lemma fs_create_directories_other p s r s' q :
  fs_create_directories p s = (r, s') → ¬ q `prefix_of` p → nodes s' !! q = nodes s !! q.
Proof.
  intros Hs Hq. apply fs_step_cases in Hs as [[_ ->]|Hf]; [done|].
  pose proof (mkdirs_other [] p (nodes s) q Hq) as H. rewrite Hf in H. by rewrite <- H.
Qed.

(** Siblings lie apart. *)
Lemma siblings_apart (d : path) (a b : string) : a ≠ b → apart (d ++ [a]) (d ++ [b]).
Proof.
  intros Hab. unfold apart, under. rewrite !bool_decide_eq_false.
  split; intros [r Hr]; rewrite <- app_assoc in Hr; apply app_inv_head in Hr; simpl in Hr; congruence.
Qed.

(** ** Removing and renaming *)

Lemma apart_neq p q : apart p q → p ≠ q.
Proof. intros [H _] ->. by rewrite under_refl in H. Qed.

Lemma fs_remove_here p s r s' :
  fs_remove p s = (r, s') → nodes s' !! p = nodes s !! p ∨ nodes s' !! p = None.
Proof.
  intros [[_ ->]|Hf]%fs_step_cases; [by left|]. case_decide; injection Hf as _ <-; [right|by left].
  apply lookup_delete_eq.
Qed.

Lemma fs_remove_only p s r s' : fs_remove p s = (r, s') → only_at p s s'.
Proof.
  intros Hs q Hq. apply fs_step_cases in Hs as [[_ ->]|Hf]; [done|]. case_decide; injection Hf as _ <-; [|done].
  by rewrite lookup_delete_ne.
Qed.

(** A rename of apart paths puts the source in place or leaves everything. *)
Lemma fs_rename_here src dst s r s' :
  fs_rename src dst s = (r, s') → apart src dst →
  nodes s' = nodes s ∧ r ≠ None ∨
  r = None ∧ is_Some (nodes s !! src) ∧ nodes s' = move_nodes src dst (nodes s).
Proof.
  intros Hs Hap. pose proof (apart_neq _ _ Hap) as Hne.
  apply fs_step_cases in Hs as [[Hr ->]|Hf]; [by left|].
  destruct (nodes s !! src) as [node|] eqn:Hn; [|injection Hf as <- <-; by left].
  rewrite decide_False in Hf by done. destruct Hap as [H1 H2]. rewrite H1, H2 in Hf. cbn [orb] in Hf.
  assert (Hcases : (r, nodes s') = (None, move_nodes src dst (nodes s)) ∨
                   nodes s' = nodes s ∧ r ≠ None).
  { repeat case_match; injection Hf as <- <-; auto. }
  destruct Hcases as [[= -> ->]|?]; [right; eauto|by left].
Qed.

Lemma fs_rename_None src dst s s' :
  fs_rename src dst s = (None, s') → apart src dst → nodes s' = move_nodes src dst (nodes s).
Proof. intros Hr Hap. by destruct (fs_rename_here _ _ _ _ _ Hr Hap) as [[_ ?]|(_ & _ & ?)]. Qed.

Lemma lookup_foldr_delete (ps : list path) (ns : gmap path FsNode) q :
  q ∉ ps → foldr delete ns ps !! q = ns !! q.
Proof.
  induction ps as [|p ps IH]; [done|]. intros Hq. cbn [foldr].
  rewrite lookup_delete_ne by set_solver. apply IH. set_solver.
Qed.

(** [remove_all] touches only what lies under its path, torn or not. *)
Lemma fs_remove_all_other p s q :
  under p q = false → nodes (fs_remove_all p s).2 !! q = nodes s !! q.
Proof.
  intros Hq.
  assert (Hstep : nodes (fs_step (λ ns, (None, prune p ns)) s).2 !! q = nodes s !! q).
  { destruct (fs_step _ s) as [r s'] eqn:Hs. apply fs_step_cases in Hs as [[_ Hs]|[= _ Hs]];
      cbn [snd]; rewrite Hs || rewrite <- Hs; [done|]. by rewrite lookup_prune, Hq. }
  unfold fs_remove_all. destruct (script s) as [|[] l]; try exact Hstep.
  cbn [snd nodes]. apply lookup_foldr_delete. intros Hin.
  assert (Hd : q ∈ (map_to_list (descendants p (nodes s))).*1)
    by (rewrite <- (take_drop n), elem_of_app; by left).
  apply list_elem_of_fmap in Hd as ([q' x] & -> & Hd%elem_of_map_to_list).
  unfold descendants in Hd. apply map_lookup_filter_Some in Hd as [_ [Hu _]]. cbn in *. congruence.
Qed.

Lemma fs_remove_all_None p s s' :
  fs_remove_all p s = (None, s') → nodes s' = prune p (nodes s).
Proof.
  unfold fs_remove_all. intros H.
  assert (Hs : fs_step (λ ns, (None, prune p ns)) s = (None, s')) by (by destruct (script s) as [|[] ?]).
  by apply fs_step_cases in Hs as [[? _]|[= Hs]].
Qed.

(** What a move does to the two trees. *)
Lemma apart_app p q r : apart p q → under p (q ++ r) = false.
Proof. intros Hap. eapply (apart_under q p); [by symmetry|apply under_app]. Qed.

Lemma move_to src dst ns r : apart src dst → move_nodes src dst ns !! (dst ++ r) = ns !! (src ++ r).
Proof. intros Hap. by rewrite lookup_move_nodes, under_app, below_app. Qed.

Lemma move_from src dst ns r : apart src dst → move_nodes src dst ns !! (src ++ r) = None.
Proof.
  intros Hap. rewrite lookup_move_nodes by done.
  by rewrite (apart_app dst src r) by (by symmetry); rewrite under_app.
Qed.

Lemma move_other src dst ns q :
  apart src dst → under src q = false → under dst q = false → move_nodes src dst ns !! q = ns !! q.
Proof. intros Hap Hs Hd. by rewrite lookup_move_nodes, Hs, Hd. Qed.

(** A directory that was created is there. *)
Lemma mkdirs_there done todo ns ns' :
  todo ≠ [] → mkdirs done todo ns = (None, ns') → ns' !! (done ++ todo) = Some Dir.
Proof.
  revert done ns. induction todo as [|name todo IH]; intros done ns Hne H; [easy|]. clear Hne.
  cbn [mkdirs] in H.
  assert (Hgo : ∀ ns1, ns1 !! (done ++ [name]) = Some Dir → mkdirs (done ++ [name]) todo ns1 = (None, ns') →
    ns' !! (done ++ name :: todo) = Some Dir).
  { intros ns1 Hd Hm. destruct todo as [|name' todo]; [by injection Hm as <-|].
    replace (done ++ name :: name' :: todo) with ((done ++ [name]) ++ name' :: todo)
      by (by rewrite <- app_assoc). by eapply IH. }
  destruct (ns !! (done ++ [name])) as [[]|] eqn:Hn; [easy|by eapply Hgo|].
  eapply Hgo; [|exact H]. by rewrite lookup_insert_eq.
Qed.

Lemma fs_create_directories_there p s s' :
  p ≠ [] → fs_create_directories p s = (None, s') → nodes s' !! p = Some Dir.
Proof.
  intros Hp [[? _]|Hf]%fs_step_cases; [easy|]. by apply (mkdirs_there [] p (nodes s)).
Qed.
