(* ===== verification/FsM.v ===== *)
(** Running the storage code on a file system: a state and error monad over
    [Fs], the wrappers that turn an error code or a stream state into the
    caller's message, and the inversion lemmas with which a run that succeeds is
    taken apart call by call. *)
From S2P Require Import Prelude Types Bytes Fs.

(** A call returns [true] with its outputs, returns [false] after [*error] was
    set, or throws. *)
Inductive Result (A : Type) := Done (a : A) | Fail (message : string) | Throw (what : string).
Arguments Done {_} _.
Arguments Fail {_} _.
Arguments Throw {_} _.

(** ** The monad *)
Definition FsM (A : Type) : Type := Fs → Result A * Fs.

#[export] Instance FsM_ret : MRet FsM := λ A a s, (Done a, s).
#[export] Instance FsM_bind : MBind FsM := λ A B f m s,
  match m s with
  | (Done a, s) => f a s
  | (Fail message, s) => (Fail message, s)
  | (Throw what, s) => (Throw what, s)
  end.

Definition fail {A} (message : string) : FsM A := λ s, (Fail message, s).
Definition throw {A} (what : string) : FsM A := λ s, (Throw what, s).
Definition gets {A} (f : Fs → A) : FsM A := λ s, (Done (f s), s).

(** A call with an [error_code]: a set code becomes the caller's message. *)
Definition with_ec (op : Fs → option string * Fs) (message : string → string) : FsM unit := λ s,
  match op s with
  | (None, s) => (Done (), s)
  | (Some m, s) => (Fail (message m), s)
  end.

(** The same with the code ignored. *)
Definition ignore_ec (op : Fs → option string * Fs) : FsM unit := λ s, (Done (), (op s).2).

(** A stream operation whose failure the caller reports. *)
Definition on_stream (op : Fs → bool * Fs) (message : string) : FsM unit := λ s,
  match op s with
  | (true, s) => (Done (), s)
  | (false, s) => (Fail message, s)
  end.

(** The error text of a call, [None] when it succeeds: [if (!f(&e))]. *)
Definition attempt {A} (m : FsM A) : FsM (option string) := λ s,
  match m s with
  | (Done _, s) => (Done None, s)
  | (Fail message, s) => (Done (Some message), s)
  | (Throw what, s) => (Throw what, s)
  end.

(** [if (!f(..., &e)) { *error = g(e); return false; }]. *)
Definition rename_error {A} (g : string → string) (m : FsM A) : FsM A := λ s,
  match m s with
  | (Fail message, s) => (Fail (g message), s)
  | r => r
  end.

(** The outcome of a call as a value: [if (!f(..., &e)) ...] where both branches go on. *)
Definition try {A} (m : FsM A) : FsM (string + A) := λ s,
  match m s with
  | (Done a, s) => (Done (inr a), s)
  | (Fail message, s) => (Done (inl message), s)
  | (Throw what, s) => (Throw what, s)
  end.

(** [if (!f(...)) { remove_all(dir, ec); return false; }]. *)
Definition or_discard {A} (dir : path) (m : FsM A) : FsM A := λ s,
  match m s with
  | (Fail message, s) => (Fail message, (fs_remove_all dir s).2)
  | r => r
  end.

(** A pure result in the monad. *)
Definition lift {A} (r : Result A) : FsM A := λ s, (r, s).

(** ** Streams and descriptors *)

(** [WritePod] of an [n]-byte integer on the stream of [p]. *)
Definition WritePod (p : path) (n : nat) (v : Z) : FsM unit :=
  on_stream (fs_write p (le_bytes n v)) "write binary field failed".

(** [ReadPod] of [n] bytes from what is left of a file: the error text a stream
    over the whole contents gives. *)
Definition ReadPod (n : nat) (b : bytes) : Result (Z * bytes) :=
  match read_le n b with Some r => Done r | None => Fail "unexpected EOF" end.

(** Readers in sequence: [&&] of calls that each return [false] on failure. *)
Definition and_then {A B} (r : Result A) (f : A → Result B) : Result B :=
  match r with Done a => f a | Fail e => Fail e | Throw w => Throw w end.
Notation "'let!' p := r 'in' k" := (and_then r (λ x, let p := x in k))
  (at level 10, p pattern, r at level 100, k at level 200) : raft_scope.

(** [open], [fsync], [close]: the body of [SyncFile] and [SyncDirectory]. *)
Definition open_fsync_close (opened : Fs → option string * Fs) (m1 m2 m3 : string) (p : path) :
    FsM unit :=
  let say m e := m +:+ path_string p +:+ ": " +:+ e in
  with_ec opened (say m1);; with_ec fs_tick (say m2);; with_ec fs_tick (say m3).

(** ** Inversion of successful runs *)
Section inversion.
Context {A B : Type}.
Implicit Types s : Fs.

Lemma ret_Done (a b : A) s s' : (mret a : FsM A) s = (Done b, s') → b = a ∧ s' = s.
Proof. by intros [= <- <-]. Qed.

Lemma bind_Done (m : FsM A) (f : A → FsM B) s b s' :
  (m ≫= f) s = (Done b, s') → ∃ a s1, m s = (Done a, s1) ∧ f a s1 = (Done b, s').
Proof. unfold mbind, FsM_bind. destruct (m s) as [[a| |] s1]; [eauto|done..]. Qed.

(** A run of a sequence stops in its first call, or goes through it. *)
Lemma bind_cases (m : FsM A) (f : A → FsM B) s r s' :
  (m ≫= f) s = (r, s') →
  (∃ a s1, m s = (Done a, s1) ∧ f a s1 = (r, s')) ∨ ((m s).2 = s' ∧ ∀ b, r ≠ Done b).
Proof.
  unfold mbind, FsM_bind. destruct (m s) as [[a| |] s1]; [eauto|intros [= <- <-]; auto..].
Qed.

Lemma bind_run (m : FsM A) (f : A → FsM B) s a s1 : m s = (Done a, s1) → (m ≫= f) s = f a s1.
Proof. unfold mbind, FsM_bind. by intros ->. Qed.

Lemma bind_Fail (m : FsM A) (f : A → FsM B) s e s1 : m s = (Fail e, s1) → (m ≫= f) s = (Fail e, s1).
Proof. unfold mbind, FsM_bind. by intros ->. Qed.

Lemma gets_Done (f : Fs → A) s a s' : gets f s = (Done a, s') → a = f s ∧ s' = s.
Proof. by intros [= <- <-]. Qed.

Lemma with_ec_Done op g s u s' : with_ec op g s = (Done u, s') → op s = (None, s').
Proof. unfold with_ec. destruct (op s) as [[m|] s1]; [done|]. by intros [= _ <-]. Qed.

Lemma on_stream_Done op e s u s' : on_stream op e s = (Done u, s') → op s = (true, s').
Proof. unfold on_stream. destruct (op s) as [[] s1]; [|done]. by intros [= _ <-]. Qed.

Lemma ignore_ec_Done op s u s' : ignore_ec op s = (Done u, s') → s' = (op s).2.
Proof. by intros [= _ <-]. Qed.

Lemma rename_error_Done g (m : FsM A) s a s' :
  rename_error g m s = (Done a, s') → m s = (Done a, s').
Proof. unfold rename_error. by destruct (m s) as [[] s1]. Qed.

Lemma attempt_Done (m : FsM A) s e s' :
  attempt m s = (Done e, s') → ∃ r, m s = (r, s').
Proof. unfold attempt. destruct (m s) as [[] s1]; intros [= _ <-]; eauto. Qed.

Lemma lift_Done (r : Result A) s a s' : lift r s = (Done a, s') → r = Done a ∧ s' = s.
Proof. by intros [= <- <-]. Qed.
End inversion.

(** Take the first call of the successful run [H] apart. *)
Ltac step_run H s1 Hs :=
  let u := fresh "u" in
  apply bind_Done in H as (u & s1 & Hs & H).

Lemma open_fsync_close_Done opened m1 m2 m3 p s u s' :
  (∀ s r s', opened s = (r, s') → nodes s' = nodes s) →
  open_fsync_close opened m1 m2 m3 p s = (Done u, s') → nodes s' = nodes s.
Proof.
  intros Hop Hrun. unfold open_fsync_close in Hrun.
  step_run Hrun s1 H1. step_run Hrun s2 H2. apply with_ec_Done in H1, H2, Hrun.
  pose proof (fs_tick_nodes s1) as Ht1. pose proof (fs_tick_nodes s2) as Ht2.
  rewrite H2 in Ht1. rewrite Hrun in Ht2. cbn [snd] in *.
  rewrite Ht2, Ht1. by eapply Hop.
Qed.

Lemma WritePod_Done p n v s u s' d :
  WritePod p n v s = (Done u, s') → nodes s !! p = Some (File d) →
  nodes s' !! p = Some (File (d ++ le_bytes n v)) ∧ only_at p s s'.
Proof.
  intros Hw%on_stream_Done Hd. split; [by eapply fs_write_true|by eapply fs_write_only].
Qed.

(** ** Healthy runs *)
Lemma with_ec_step f g s :
  healthy s → with_ec (fs_step f) g s =
    match (f (nodes s)).1 with
    | None => (Done (), s <| nodes := (f (nodes s)).2 |>)
    | Some m => (Fail (g m), s <| nodes := (f (nodes s)).2 |>)
    end.
Proof. intros Hs. unfold with_ec. rewrite fs_step_healthy by done. by destruct (f (nodes s)).1. Qed.

Lemma fs_read_healthy p s :
  healthy s → fs_read p s = (match nodes s !! p with Some (File b) => Some b | _ => None end, s).
Proof. unfold healthy, fs_read, fs_tick. by intros ->. Qed.

(** ** What a run leaves alone

    [keeps R m]: every run of [m], a failing one too, ends in a state related to
    the one it started from. *)
Definition keeps (R : relation Fs) {A} (m : FsM A) : Prop := ∀ s, R s (m s).2.

(** Only what lies under one of [ps] may have changed. *)
Definition only_under (ps : list path) (s s' : Fs) : Prop :=
  ∀ q, Forall (λ p, under p q = false) ps → nodes s' !! q = nodes s !! q.
#[export] Instance only_under_preorder ps : PreOrder (only_under ps).
Proof. split; [done|]. intros s1 s2 s3 H1 H2 q Hq. by rewrite H2, H1. Qed.

Section keeps.
Context (R : relation Fs) `{!PreOrder R}.

Lemma keeps_ret {A} (a : A) : keeps R (mret a : FsM A).
Proof. intros s. reflexivity. Qed.
Lemma keeps_fail {A} e : keeps R (fail e : FsM A).
Proof. intros s. reflexivity. Qed.
Lemma keeps_gets {A} (f : Fs → A) : keeps R (gets f).
Proof. intros s. reflexivity. Qed.
Lemma keeps_lift {A} (r : Result A) : keeps R (lift r).
Proof. intros s. reflexivity. Qed.
Lemma keeps_bind {A B} (m : FsM A) (f : A → FsM B) :
  keeps R m → (∀ a, keeps R (f a)) → keeps R (m ≫= f).
Proof.
  intros Hm Hf s. unfold mbind, FsM_bind. specialize (Hm s). destruct (m s) as [[a| |] s1]; [|done..].
  cbn [snd] in Hm. etrans; [exact Hm|apply Hf].
Qed.
Lemma keeps_with_ec op g : (∀ s, R s (op s).2) → keeps R (with_ec op g).
Proof. intros Hop s. unfold with_ec. specialize (Hop s). by destruct (op s) as [[m|] s1]. Qed.
Lemma keeps_ignore_ec op : (∀ s, R s (op s).2) → keeps R (ignore_ec op).
Proof. intros Hop s. apply Hop. Qed.
Lemma keeps_on_stream op e : (∀ s, R s (op s).2) → keeps R (on_stream op e).
Proof. intros Hop s. unfold on_stream. specialize (Hop s). by destruct (op s) as [[] s1]. Qed.
Lemma keeps_attempt {A} (m : FsM A) : keeps R m → keeps R (attempt m).
Proof. intros Hm s. unfold attempt. specialize (Hm s). by destruct (m s) as [[] s1]. Qed.
End keeps.

Create HintDb keeps discriminated.
#[export] Hint Resolve keeps_ret keeps_fail keeps_gets keeps_lift keeps_bind keeps_with_ec
  keeps_ignore_ec keeps_on_stream keeps_attempt : keeps.

(** [keeps] goes through the structure of a run; the operations are left. *)
Ltac keeps_step :=
  repeat lazymatch goal with
  | |- keeps _ (mret _) => apply keeps_ret; exact _
  | |- keeps _ (fail _) => apply keeps_fail; exact _
  | |- keeps _ (gets _) => apply keeps_gets; exact _
  | |- keeps _ (lift _) => apply keeps_lift; exact _
  | |- keeps _ (_ ≫= _) => apply keeps_bind; [exact _| |intros ?]
  | |- keeps _ (attempt _) => apply keeps_attempt
  | |- keeps _ (with_ec _ _) => apply keeps_with_ec
  | |- keeps _ (ignore_ec _) => apply keeps_ignore_ec
  | |- keeps _ (on_stream _ _) => apply keeps_on_stream
  | |- keeps _ (match ?x with _ => _ end) => destruct x
  end.

Section operations.
Implicit Types p : path.

Lemma only_at_under p ps s s' : p ∈ ps → only_at p s s' → only_under ps s s'.
Proof.
  intros Hp Ho q Hq. apply Ho. intros ->. eapply Forall_forall in Hq; [|exact Hp].
  by rewrite under_refl in Hq.
Qed.

Lemma same_under ps s s' : nodes s' = nodes s → only_under ps s s'.
Proof. by intros Hs q _; rewrite Hs. Qed.

Lemma tick_under ps s : only_under ps s (fs_tick s).2.
Proof. apply same_under, fs_tick_nodes. Qed.
Lemma flush_under ps s : only_under ps s (fs_flush s).2.
Proof. destruct (fs_flush s) eqn:H. apply same_under. by eapply fs_flush_nodes. Qed.
Lemma sync_under ps p s : only_under ps s (fs_sync p s).2.
Proof. destruct (fs_sync p s) eqn:H. apply same_under. by eapply fs_sync_nodes. Qed.
Lemma open_dir_under ps p s : only_under ps s (fs_open_dir p s).2.
Proof. destruct (fs_open_dir p s) eqn:H. apply same_under. by eapply fs_open_dir_nodes. Qed.
Lemma write_under ps p b s : p ∈ ps → only_under ps s (fs_write p b s).2.
Proof. intros Hp. destruct (fs_write p b s) eqn:H. eapply only_at_under; [done|by eapply fs_write_only]. Qed.
Lemma open_trunc_under ps p s : p ∈ ps → only_under ps s (fs_open_trunc p s).2.
Proof. intros Hp. destruct (fs_open_trunc p s) eqn:H. eapply only_at_under; [done|by eapply fs_open_trunc_only]. Qed.
Lemma remove_under ps p s : p ∈ ps → only_under ps s (fs_remove p s).2.
Proof. intros Hp. destruct (fs_remove p s) eqn:H. eapply only_at_under; [done|by eapply fs_remove_only]. Qed.
Lemma remove_all_under ps p s : p ∈ ps → only_under ps s (fs_remove_all p s).2.
Proof.
  intros Hp q Hq. apply fs_remove_all_other. by eapply Forall_forall in Hq.
Qed.
Lemma rename_under ps src dst s :
  src ∈ ps → dst ∈ ps → apart src dst → only_under ps s (fs_rename src dst s).2.
Proof.
  intros Hs Hd Hap q Hq. destruct (fs_rename src dst s) as [r s'] eqn:Hr. cbn [snd].
  destruct (fs_rename_here _ _ _ _ _ Hr Hap) as [[-> _]|(_ & _ & ->)]; [done|].
  apply move_other; [done|by eapply Forall_forall in Hq..].
Qed.
Lemma open_fsync_close_under ps opened m1 m2 m3 p :
  (∀ s, only_under ps s (opened s).2) → keeps (only_under ps) (open_fsync_close opened m1 m2 m3 p).
Proof. intros Hop. unfold open_fsync_close. keeps_step; try done; intros s; apply tick_under. Qed.

(** Files under a directory of the list. *)
Lemma only_under_sub ps d (x : string) s s' :
  d ∈ ps → only_under [d ++ [x]] s s' → only_under ps s s'.
Proof.
  intros Hd Ho q Hq. apply Ho. constructor; [|done].
  eapply Forall_forall in Hq; [|exact Hd]. destruct (under (d ++ [x]) q) eqn:Hu; [|done].
  apply under_spec in Hu. rewrite Hu, <- app_assoc, under_app in Hq. done.
Qed.
End operations.
#[export] Hint Resolve tick_under flush_under sync_under open_dir_under write_under open_trunc_under
  remove_under remove_all_under rename_under open_fsync_close_under : keeps.
