(* ===== verification/Layout.v ===== *)
(** Layouts: what directories and files hold, independently of how they were
    written, and the lemmas with which a run of the storage code is followed from
    one layout to the next; the readers of stored fields. *)
From S2P Require Import Prelude Types Bytes Fs FsM.

(** ** Trees and files *)

(** Directory [d] is there and holds exactly the files of [t], by name. *)
Definition holds (d : path) (t : gmap path bytes) (s : Fs) : Prop :=
  ∀ r, nodes s !! (d ++ r) = match r with [] => Some Dir | _ => File <$> t !! r end.

(** Nothing is left at [d]. *)
Definition gone (d : path) (s : Fs) : Prop := ∀ r, nodes s !! (d ++ r) = None.

(** Directory [d] holds the files of [o], or is not there. *)
Definition tree_is (d : path) (o : option (gmap path bytes)) (s : Fs) : Prop :=
  match o with Some t => holds d t s | None => gone d s end.

(** The file at [p] has the contents [o], or is not there. *)
Definition file_is (p : path) (o : option bytes) (s : Fs) : Prop := nodes s !! p = File <$> o.

Section layouts.
Implicit Types s : Fs.

Lemma holds_nodes d t s s' : nodes s' = nodes s → holds d t s → holds d t s'.
Proof. unfold holds. by intros ->. Qed.

Lemma holds_insert d t x b s s' :
  holds d t s → nodes s' !! (d ++ [x]) = Some (File b) → only_at (d ++ [x]) s s' →
  holds d (<[[x] := b]> t) s'.
Proof.
  intros Hd Hx Ho r. destruct (decide (r = [x])) as [->|Hr].
  - rewrite lookup_insert_eq. exact Hx.
  - rewrite Ho by (by intros Heq%app_inv_head). rewrite (Hd r). destruct r; [done|].
    by rewrite lookup_insert_ne.
Qed.

Lemma tree_is_under ps d o s s' :
  only_under ps s s' → (∀ p, p ∈ ps → apart p d) → tree_is d o s → tree_is d o s'.
Proof.
  intros Ho Hap Ht.
  assert (Hq : ∀ r, nodes s' !! (d ++ r) = nodes s !! (d ++ r)).
  { intros r. apply Ho, Forall_forall. intros p Hp. apply apart_app. by apply Hap. }
  destruct o; intros r; rewrite Hq; apply Ht.
Qed.

Lemma file_is_under ps p o s s' :
  only_under ps s s' → (∀ q, q ∈ ps → under q p = false) → file_is p o s → file_is p o s'.
Proof. intros Ho Hap Hf. unfold file_is. rewrite Ho; [done|]. by apply Forall_forall. Qed.

Lemma under_sibling dir (x y : string) : x ≠ y → under (dir ++ [x]) (dir ++ [y]) = false.
Proof. intros Hxy. by apply siblings_apart. Qed.

(** The temporary directory, emptied and created again. *)
Lemma fresh_directory p s s1 s2 :
  p ≠ [] → fs_remove_all p s = (None, s1) → fs_create_directories p s1 = (None, s2) → holds p ∅ s2.
Proof.
  intros Hp Hr Hc q. destruct q as [|x q].
  - rewrite app_nil_r. by eapply fs_create_directories_there.
  - rewrite (fs_create_directories_other _ _ _ _ _ Hc).
    + apply fs_remove_all_None in Hr. by rewrite Hr, lookup_prune, under_app, lookup_empty.
    + intros Hpre%prefix_length. rewrite length_app in Hpre. cbn in Hpre. lia.
Qed.

Lemma elem_of_fs_list d s p x :
  (p, x) ∈ fs_list d s ↔ nodes s !! p = Some x ∧ parent_path p = d ∧ p ≠ [].
Proof. unfold fs_list. rewrite list_elem_of_filter, elem_of_map_to_list. cbn. tauto. Qed.

(** ** Runs *)
Lemma with_ec_state op g s : (with_ec op g s).2 = (op s).2.
Proof. unfold with_ec. by destruct (op s) as [[m|] s1]. Qed.

Lemma fs_healthy_tick s : healthy s → fs_tick s = (None, s).
Proof. unfold healthy, fs_tick. by intros ->. Qed.

Lemma fs_exists_ec_healthy p s : healthy s → fs_exists_ec p s = (inr (fs_exists p s), s).
Proof. intros Hs. unfold fs_exists_ec. by rewrite fs_healthy_tick. Qed.

Lemma fs_exists_ec_cases p s r s' :
  fs_exists_ec p s = (r, s') → nodes s' = nodes s ∧ (r = inr (fs_exists p s) ∨ ∃ e, r = inl e).
Proof.
  unfold fs_exists_ec. pose proof (fs_tick_nodes s) as Ht. destruct (fs_tick s) as [[m|] s1];
    intros [= <- <-]; cbn [snd] in Ht; split; eauto. left. unfold fs_exists. by rewrite Ht.
Qed.

Lemma fs_read_cases p s r s' :
  fs_read p s = (r, s') → nodes s' = nodes s ∧ ∀ b, r = Some b → nodes s !! p = Some (File b).
Proof.
  unfold fs_read. pose proof (fs_tick_nodes s) as Ht. destruct (fs_tick s) as [[m|] s1];
    intros [= <- <-]; cbn [snd] in Ht; split; try done. intros b. rewrite Ht.
  destruct (nodes s !! p) as [[d|]|]; congruence.
Qed.

(** Nothing happened, where no fault was ahead. *)
Definition still (s s' : Fs) : Prop := healthy s → s' = s.
#[export] Instance still_preorder : PreOrder still.
Proof.
  split; [done|]. intros s1 s2 s3 H1 H2 Hs. pose proof (H1 Hs) as ->. by apply H2.
Qed.

Lemma still_read {A} p (f : bytes → FsM A) e s :
  (∀ b, keeps still (f b)) →
  still s (match fs_read p s with (None, s) => (e, s) | (Some b, s) => f b s end).2.
Proof.
  intros Hf. destruct (fs_read p s) as [[b|] s1] eqn:Hr; intros Hs;
    rewrite fs_read_healthy in Hr by done; injection Hr as _ <-; [by apply Hf|done].
Qed.

Lemma WritePod_under ps p n v : p ∈ ps → keeps (only_under ps) (WritePod p n v).
Proof. intros Hp. unfold WritePod. keeps_step. intros s. by apply write_under. Qed.

Lemma keeps_sub {A} d x (m : FsM A) :
  keeps (only_under [d ++ [x]]) m → keeps (only_under [d]) m.
Proof. intros Hm s. eapply only_under_sub; [by left|apply Hm]. Qed.

(** ** Fields *)
Lemma read_bytes_length n b v rest : read_bytes n b = Some (v, rest) → (length b = n + length rest)%nat.
Proof. intros [-> <-]%read_bytes_Some. by rewrite length_app. Qed.

Lemma read_le_u64 (z : Z) b : is_u64 z → read_le 8 (le_bytes 8 z ++ b) = Some (z, b).
Proof. intros Hz. apply read_le_bytes. unfold is_u64, u64_max in Hz. cbn. lia. Qed.

Lemma ReadPod_Done n b z b' : ReadPod n b = Done (z, b') → 0 ≤ z < 256 ^ Z.of_nat n.
Proof.
  unfold ReadPod. destruct (read_le n b) as [[z0 b0]|] eqn:Hr; [|done]. intros [= <- <-].
  by apply read_le_Some in Hr as [? _].
Qed.

Lemma ReadPod_u64 b z b' : ReadPod 8 b = Done (z, b') → is_u64 z.
Proof. intros Hz%ReadPod_Done. unfold is_u64, u64_max. change (256 ^ Z.of_nat 8) with 18446744073709551616 in Hz. lia. Qed.

Lemma and_then_Done {A B} (r : Result A) (f : A → Result B) b :
  and_then r f = Done b → ∃ a, r = Done a ∧ f a = Done b.
Proof. destruct r; [eauto|done..]. Qed.

Lemma ReadPod_length n b z b' : ReadPod n b = Done (z, b') → (length b = n + length b')%nat.
Proof.
  unfold ReadPod, read_le. destruct (read_bytes n b) as [[v r]|] eqn:Hr; [|done].
  intros [= _ <-]. by eapply read_bytes_length.
Qed.

End layouts.

(** A run under an eta expansion. *)
Ltac eta_run :=
  lazymatch goal with |- keeps ?R (λ s, ?m s) => change (keeps R m) end.
