(* ===== verification/Sim.v ===== *)
(** A concrete environment: an in-memory disk with scripted write failures, a
    clock that only [sleep_for] advances and a generator that returns the lower
    bound.  It instantiates the interfaces of Env, satisfies [StorageLaws], and
    is what the development's concrete runs use. *)
From S2P Require Import Prelude Command Types Env.

(** [sim_faults]: outcome of the next writes of the hard state, [true] = fails;
    an exhausted script means success. *)
Record SimEnv := mkSimEnv {
  sim_now : Z;
  sim_disk : option PersistentRaftState;
  sim_faults : list bool;
  sim_files : gmap (list string) (list ascii);
  sim_snapshots : list SnapshotMeta }.

#[export] Instance eta_SimEnv : Eta SimEnv := λ e,
  mkSimEnv (sim_now e) (sim_disk e) (sim_faults e) (sim_files e) (sim_snapshots e).

Definition sim_init : SimEnv := mkSimEnv 0 None [] ∅ [].

#[export] Instance sim_host : HostEnv SimEnv := {|
  steady_now := sim_now;
  sleep_for d e := e <| sim_now ::= λ t, t + d |>;
  uniform_int lo hi e := (lo, e);
  create_directories p e := (None, e);
  write_file p d e := ((true, true), e <| sim_files ::= <[p := d]> |>);
  read_file p e := sim_files e !! p;
  file_exists p e := bool_decide (is_Some (sim_files e !! p));
  remove_file p e := e <| sim_files ::= delete p |> |}.

#[export] Instance sim_storage : IRaftStorage SimEnv := {|
  storage_Save st e :=
    let fault := default false (head (sim_faults e)) in
    let e := e <| sim_faults ::= tail |> in
    if fault then ((false, "simulated write failure"), e)
    else ((true, ""), e <| sim_disk := Some st |>);
  storage_Load e :=
    match sim_disk e with
    | Some st => ((true, st, true, ""), e)
    | None => ((true, mkPersistentRaftState 0 (-1) 0 0 [], false, ""), e)
    end |}.

(** Snapshots are kept as their metadata, newest first; the data is the file.  An index
    is a 64-bit integer. *)
Definition sim_listed (e : SimEnv) : list SnapshotMeta :=
  filter (λ m, is_u64 (last_included_index m)) (sim_snapshots e).
#[export] Instance sim_snapshot_storage : ISnapshotStorage SimEnv := {|
  snapshot_SaveSnapshotFile p i t e :=
    let meta := mkSnapshotMeta p p p i t 0 0 in
    ((Some meta, ""), e <| sim_snapshots ::= cons meta |>);
  snapshot_ListSnapshots e := (Some (sim_listed e), "");
  snapshot_ListSnapshotsWithDiagnostics e := (Some (mkSnapshotListResult (sim_listed e) []), "");
  snapshot_PruneSnapshots keep e :=
    ((true, ""), e <| sim_snapshots ::= take (Z.to_nat keep) |>) |}.

#[export] Instance sim_laws : StorageLaws SimEnv id.
Proof.
  split.
  - intros st e e' err. cbn. destruct (default false _); [done|].
    intros [= <- <-]. by exists "".
  - intros st e e' err. cbn. destruct (default false _); [|done].
    intros [= <- <-]. left. cbn. by destruct (sim_disk e).
  - done.
  - intros d e. cbn. by destruct (sim_disk e).
  - done.
Qed.

(** A three-node configuration. *)
Definition sim_config (self : Z) : NodeConfig :=
  mkNodeConfig self "127.0.0.1:50051"
    (filter (λ p, peer_node_id p ≠ self)
       [mkPeerConfig 1 "127.0.0.1:50051"; mkPeerConfig 2 "127.0.0.1:50052";
        mkPeerConfig 3 "127.0.0.1:50053"])
    150 300 50 100 ["raft_data"] default_kv_limits.
