(* ===== verification/Node.v ===== *)
(** The state of [RaftNode] (src/modules/raft/node/raft_node.h) and the
    operations every handler shares: persistence, timers, role changes. *)
From S2P Require Import Prelude Command Types Timer Metrics Env.

(** ** State *)

(** [enum class Role]. *)
Inductive Role := kFollower | kCandidate | kLeader.
#[export] Instance Role_eq_dec : EqDecision Role.
Proof. solve_decision. Defined.

(** [RoleName]. *)
Definition RoleName (role : Role) : string :=
  match role with kFollower => "Follower" | kCandidate => "Candidate" | kLeader => "Leader" end.

(** The consensus members of [RaftNode], guarded by [mu_]. *)
Record RaftCore := mkCore {
  role_ : Role;
  current_term_ : Z;
  voted_for_ : Z;
  leader_id_ : Z;
  log_ : list LogRecord;
  commit_index_ : Z;
  last_applied_ : Z;
  last_snapshot_index_ : Z;
  last_snapshot_term_ : Z;
  next_index_ : gmap Z Z;
  match_index_ : gmap Z Z }.

#[export] Instance eta_RaftCore : Eta RaftCore := λ c,
  mkCore (role_ c) (current_term_ c) (voted_for_ c) (leader_id_ c) (log_ c) (commit_index_ c)
    (last_applied_ c) (last_snapshot_index_ c) (last_snapshot_term_ c) (next_index_ c)
    (match_index_ c).

(** The callbacks the node hands to its scheduler; the election callback
    captures the generation of the timer. *)
Inductive TimerCallback := cbElection (timer_generation : Z) | cbHeartbeat | cbSnapshot.
#[export] Instance TimerCallback_eq_dec : EqDecision TimerCallback.
Proof. solve_decision. Defined.

(** [scheduler_] and the timer ids. *)
Record NodeTimers := mkNodeTimers {
  scheduler_ : TimerScheduler TimerCallback;
  election_timer_id_ : option Z;
  election_timer_generation_ : Z;
  heartbeat_timer_id_ : option Z;
  snapshot_timer_id_ : option Z }.

#[export] Instance eta_NodeTimers : Eta NodeTimers := λ t,
  mkNodeTimers (scheduler_ t) (election_timer_id_ t) (election_timer_generation_ t)
    (heartbeat_timer_id_ t) (snapshot_timer_id_ t).

(** The members guarded by [snapshot_mu_]. *)
Record SnapshotWork := mkSnapshotWork {
  snapshot_worker_stop_ : bool;
  snapshot_pending_ : bool;
  snapshot_in_progress_ : bool;
  pending_snapshot_index_ : Z;
  pending_snapshot_term_ : Z }.

#[export] Instance eta_SnapshotWork : Eta SnapshotWork := λ w,
  mkSnapshotWork (snapshot_worker_stop_ w) (snapshot_pending_ w) (snapshot_in_progress_ w)
    (pending_snapshot_index_ w) (pending_snapshot_term_ w).

(** The members of [Replicator] (replication/replicator.h), one per peer. *)
Record Replicator := mkReplicator {
  append_inflight_ : bool;
  snapshot_inflight_ : bool;
  next_retry_time_ : Z;
  retry_backoff_ : Z;
  append_rpc_started_ : Z;
  append_rpc_finished_ : Z;
  snapshot_rpc_started_ : Z;
  snapshot_rpc_finished_ : Z;
  transport_failures_ : Z }.

#[export] Instance eta_Replicator : Eta Replicator := λ r,
  mkReplicator (append_inflight_ r) (snapshot_inflight_ r) (next_retry_time_ r)
    (retry_backoff_ r) (append_rpc_started_ r) (append_rpc_finished_ r)
    (snapshot_rpc_started_ r) (snapshot_rpc_finished_ r) (transport_failures_ r).

Definition kInitialRetryBackoff : Z := 20.
Definition kMaxRetryBackoff : Z := 500.
Definition Replicator_new : Replicator :=
  mkReplicator false false 0 kInitialRetryBackoff 0 0 0 0 0.

(** [class RaftNode]. [storage_], [snapshot_storage_] and the disk behind them
    are part of [env_]; they and [state_machine_] are never null once the
    constructor has run. *)
Record Node (SM E : Type) := mkNode {
  config_ : NodeConfig;
  snapshot_config_ : snapshotConfig;
  core : RaftCore;
  timers : NodeTimers;
  snapw : SnapshotWork;
  metrics_ : Metrics;
  replicators_ : gmap Z Replicator;
  running_ : bool;
  state_machine_ : SM;
  env_ : E }.
Arguments mkNode {SM E} _ _ _ _ _ _ _ _ _ _.
Arguments config_ {SM E} _.
Arguments snapshot_config_ {SM E} _.
Arguments core {SM E} _.
Arguments timers {SM E} _.
Arguments snapw {SM E} _.
Arguments metrics_ {SM E} _.
Arguments replicators_ {SM E} _.
Arguments running_ {SM E} _.
Arguments state_machine_ {SM E} _.
Arguments env_ {SM E} _.

#[export] Instance eta_Node SM E : Eta (Node SM E) := λ n,
  mkNode (config_ n) (snapshot_config_ n) (core n) (timers n) (snapw n) (metrics_ n)
    (replicators_ n) (running_ n) (state_machine_ n) (env_ n).

(** Reduce field reads of updated records. *)
Ltac node_simpl :=
  cbn [set_field fst snd
       config_ snapshot_config_ core timers snapw metrics_ replicators_ running_
       state_machine_ env_
       role_ current_term_ voted_for_ leader_id_ log_ commit_index_ last_applied_
       last_snapshot_index_ last_snapshot_term_ next_index_ match_index_
       scheduler_ election_timer_id_ election_timer_generation_ heartbeat_timer_id_
       snapshot_timer_id_ snapshot_worker_stop_ snapshot_pending_ snapshot_in_progress_
       pending_snapshot_index_ pending_snapshot_term_ ps_current_term ps_voted_for
       ps_commit_index ps_last_applied ps_log].
Tactic Notation "node_simpl" "in" "*" :=
  cbn [set_field fst snd
       config_ snapshot_config_ core timers snapw metrics_ replicators_ running_
       state_machine_ env_
       role_ current_term_ voted_for_ leader_id_ log_ commit_index_ last_applied_
       last_snapshot_index_ last_snapshot_term_ next_index_ match_index_
       scheduler_ election_timer_id_ election_timer_generation_ heartbeat_timer_id_
       snapshot_timer_id_ snapshot_worker_stop_ snapshot_pending_ snapshot_in_progress_
       pending_snapshot_index_ pending_snapshot_term_ ps_current_term ps_voted_for
       ps_commit_index ps_last_applied ps_log] in *.

(** ** Shared operations *)
Section operations.
Context {SM E : Type} `{HostEnv E, IRaftStorage E}.
Implicit Types n : Node SM E.

(** The state [PersistStateLocked] hands to the storage. *)
Definition persistent_state (c : RaftCore) : PersistentRaftState :=
  mkPersistentRaftState (current_term_ c) (voted_for_ c) (commit_index_ c) (last_applied_ c)
    (log_ c).

(** [PersistStateLocked]: the flag and [*reason]. *)
Definition PersistStateLocked n : (bool * string) * Node SM E :=
  let '((ok, reason), e) := storage_Save (persistent_state (core n)) (env_ n) in
  let n := n <| env_ := e |> in
  if ok then ((true, reason), n)
  else ((false, if decide (reason = "") then "persist raft state failed" else reason),
        n <| metrics_ ::= RecordStoragePersistFailure |>).

(** [RandomElectionTimeoutLocked]. *)
Definition RandomElectionTimeoutLocked n : Z * Node SM E :=
  let '(t, e) := uniform_int (election_timeout_min (config_ n))
                             (election_timeout_max (config_ n)) (env_ n) in
  (t, n <| env_ := e |>).

(** [scheduler_.Cancel(id)], result ignored, when the id is set. *)
Definition CancelTimer (i : option Z) (t : NodeTimers) : NodeTimers :=
  match i with Some i => t <| scheduler_ ::= λ s, (Cancel i s).2 |> | None => t end.

(** [CancelElectionTimerLocked]. *)
Definition CancelElectionTimerLocked n : Node SM E :=
  let t := timers n in
  let t := t <| election_timer_generation_ ::= λ g, u64 (g + 1) |> in
  n <| timers := CancelTimer (election_timer_id_ t) t <| election_timer_id_ := None |> |>.

(** [ResetElectionTimerLocked]. *)
Definition ResetElectionTimerLocked n : Node SM E :=
  let n := CancelElectionTimerLocked n in
  if negb (running_ n) || bool_decide (role_ (core n) = kLeader) then n
  else
    let '(timeout, n) := RandomElectionTimeoutLocked n in
    let timer_generation := election_timer_generation_ (timers n) in
    let '(i, s) := ScheduleAfter (steady_now (env_ n)) timeout (cbElection timer_generation)
                                 (scheduler_ (timers n)) in
    n <| timers ::= λ t, t <| scheduler_ := s |> <| election_timer_id_ := Some i |> |>.

(** [if (heartbeat_timer_id_) { scheduler_.Cancel(...); reset(); }]. *)
Definition CancelHeartbeatTimer n : Node SM E :=
  n <| timers ::= λ t, CancelTimer (heartbeat_timer_id_ t) t <| heartbeat_timer_id_ := None |> |>.

(** [ResetHeartbeatTimerLocked]. *)
Definition ResetHeartbeatTimerLocked n : Node SM E :=
  let n := CancelHeartbeatTimer n in
  if decide (role_ (core n) ≠ kLeader) then n
  else
    let '(i, s) := ScheduleAfter (steady_now (env_ n)) (heartbeat_interval (config_ n))
                                 cbHeartbeat (scheduler_ (timers n)) in
    n <| timers ::= λ t, t <| scheduler_ := s |> <| heartbeat_timer_id_ := Some i |> |>.

(** [ResetSnapshotTimerLocked]. *)
Definition ResetSnapshotTimerLocked n : Node SM E :=
  let n := n <| timers ::= λ t,
               CancelTimer (snapshot_timer_id_ t) t <| snapshot_timer_id_ := None |> |> in
  if negb (enabled (snapshot_config_ n)) ||
     bool_decide (snapshot_interval (snapshot_config_ n) ≤ 0) then n
  else
    let '(i, s) := ScheduleAfter (steady_now (env_ n)) (snapshot_interval (snapshot_config_ n))
                                 cbSnapshot (scheduler_ (timers n)) in
    n <| timers ::= λ t, t <| scheduler_ := s |> <| snapshot_timer_id_ := Some i |> |>.

(** [GetOrCreateReplicatorLocked]: the entry of [replicators_] afterwards. *)
Definition GetOrCreateReplicatorLocked (peer_id : Z) n : Node SM E :=
  match replicators_ n !! peer_id with
  | Some _ => n
  | None => n <| replicators_ ::= <[peer_id := Replicator_new]> |>
  end.

(** [AddressForNodeLocked]. *)
Definition AddressForNodeLocked (i : Z) n : string :=
  if decide (i = node_id (config_ n)) then address (config_ n)
  else match list_find (λ p, peer_node_id p = i) (peers (config_ n)) with
       | Some (_, p) => peer_address p
       | None => ""
       end.

(** [BecomeFollowerLocked]: whether the hard state reached the disk. *)
Definition BecomeFollowerLocked (new_term new_leader : Z) n : bool * Node SM E :=
  let old_leader_id := leader_id_ (core n) in
  let hard_state_changed := bool_decide (current_term_ (core n) < new_term) in
  let n := if hard_state_changed
           then n <| core ::= λ c, c <| current_term_ := new_term |> <| voted_for_ := -1 |> |>
           else n in
  let n := n <| core ::= λ c, c <| role_ := kFollower |> <| leader_id_ := new_leader |> |> in
  let n := n <| metrics_ ::= MaybeRecordLeaderChange old_leader_id new_leader |> in
  let n := CancelHeartbeatTimer n in
  let n := ResetElectionTimerLocked n in
  if hard_state_changed then
    let '((persist_ok, _), n) := PersistStateLocked n in (persist_ok, n)
  else (true, n).
End operations.

(** ** Frames: what the shared operations leave alone *)
Section frames.
Context {SM E : Type} `{HostEnv E, IRaftStorage E}.
Implicit Types n : Node SM E.

(** [n'] is [n] up to the timers, the metrics and the environment. *)
Record same_but_host n n' : Prop := {
  sbh_config : config_ n' = config_ n;
  sbh_snapshot_config : snapshot_config_ n' = snapshot_config_ n;
  sbh_core : core n' = core n;
  sbh_snapw : snapw n' = snapw n;
  sbh_replicators : replicators_ n' = replicators_ n;
  sbh_running : running_ n' = running_ n;
  sbh_sm : state_machine_ n' = state_machine_ n }.

#[export] Instance same_but_host_preorder : PreOrder same_but_host.
Proof.
  split; [done|]. intros n1 n2 n3 [] []. split; congruence.
Qed.

Lemma PersistStateLocked_frame n : same_but_host n (PersistStateLocked n).2.
Proof. unfold PersistStateLocked. destruct (storage_Save _ _) as [[[] ?] ?]; done. Qed.

Lemma CancelElectionTimer_frame n : same_but_host n (CancelElectionTimerLocked n).
Proof. done. Qed.

Lemma ResetElectionTimer_frame n : same_but_host n (ResetElectionTimerLocked n).
Proof.
  unfold ResetElectionTimerLocked, RandomElectionTimeoutLocked.
  case_match; [done|]. destruct (uniform_int _ _ _). by destruct (ScheduleAfter _ _ _ _).
Qed.

Lemma CancelHeartbeatTimer_frame n : same_but_host n (CancelHeartbeatTimer n).
Proof. done. Qed.

Lemma ResetHeartbeatTimer_frame n : same_but_host n (ResetHeartbeatTimerLocked n).
Proof.
  unfold ResetHeartbeatTimerLocked. case_decide; [done|]. by destruct (ScheduleAfter _ _ _ _).
Qed.

Lemma ResetSnapshotTimer_frame n : same_but_host n (ResetSnapshotTimerLocked n).
Proof.
  unfold ResetSnapshotTimerLocked. case_match; [done|]. by destruct (ScheduleAfter _ _ _ _).
Qed.

(** The core after [BecomeFollowerLocked]. *)
Definition follower_core (new_term new_leader : Z) (c : RaftCore) : RaftCore :=
  (if decide (current_term_ c < new_term)
   then c <| current_term_ := new_term |> <| voted_for_ := -1 |> else c)
    <| role_ := kFollower |> <| leader_id_ := new_leader |>.

Lemma BecomeFollowerLocked_core t l n :
  core (BecomeFollowerLocked t l n).2 = follower_core t l (core n) ∧
  config_ (BecomeFollowerLocked t l n).2 = config_ n ∧
  running_ (BecomeFollowerLocked t l n).2 = running_ n ∧
  state_machine_ (BecomeFollowerLocked t l n).2 = state_machine_ n ∧
  snapshot_config_ (BecomeFollowerLocked t l n).2 = snapshot_config_ n.
Proof.
  unfold BecomeFollowerLocked, follower_core.
  destruct (bool_decide_reflect (current_term_ (core n) < t)) as [Hlt|Hlt].
  - rewrite decide_True by done.
    match goal with |- context [PersistStateLocked ?m] =>
      pose proof (PersistStateLocked_frame m) as HP; destruct (PersistStateLocked m) as [[? ?] n'] end.
    cbn [snd] in *. destruct HP as [-> -> -> _ _ -> ->].
    match goal with |- context [ResetElectionTimerLocked ?m] =>
      destruct (ResetElectionTimer_frame m) as [-> -> -> _ _ -> ->] end.
    done.
  - rewrite decide_False by done. cbn [snd].
    match goal with |- context [ResetElectionTimerLocked ?m] =>
      destruct (ResetElectionTimer_frame m) as [-> -> -> _ _ -> ->] end.
    done.
Qed.
End frames.
