(* ===== verification/SimNode.v ===== *)
(** Concrete nodes over the environment of Sim, for the development's runs. *)
From S2P Require Import Prelude Command Types Timer Metrics Env Sim Node.

(** A node of the three-node configuration, running, with a given core. *)
Definition sim_node {SM} (self : Z) (c : RaftCore) (sm : SM) (e : SimEnv) : Node SM SimEnv :=
  mkNode (sim_config self) default_snapshotConfig c
    (mkNodeTimers (Timer_Start TimerScheduler_new) None 0 None None)
    (mkSnapshotWork false false false 0 0) Metrics_new ∅ true sm e.

(** The constructor's core: the bootstrap record at index 0. *)
Definition bootstrap_core : RaftCore :=
  mkCore kFollower 0 (-1) (-1) [mkLogRecord 0 0 "bootstrap"] 0 0 0 0 ∅ ∅.

(** A follower of term 2 with records 1 (term 1), 2 (term 1) and 3 (term 2). *)
Definition sim_follower : RaftCore :=
  mkCore kFollower 2 (-1) 3
    [mkLogRecord 0 0 "bootstrap"; mkLogRecord 1 1 "SET|a|1|"; mkLogRecord 2 1 "SET|b|1|";
     mkLogRecord 3 2 "DEL|a|"] 1 1 0 0 ∅ ∅.
