(* ===== verification/NodeLog.v ===== *)
(** The replicated log of a node: the [*LogIndexLocked] queries of
    raft_node.cpp, snapshot compaction, the conflict hint and the vote's log
    comparison; the log invariant [log_ok] and what the queries mean under it. *)
From S2P Require Import Prelude Command Types Node SimNode.

Definition kInternalNoOpCommand : string := "__raft_internal_noop__".
Definition kSnapshotMarkerCommand : string := "snapshot".

(** ** Queries *)

(** [FirstLogIndexLocked], [LastLogIndexLocked], [LastLogTermLocked]. *)
Definition FirstLogIndexLocked (c : RaftCore) : Z :=
  match head (log_ c) with Some r => index r | None => last_snapshot_index_ c end.
Definition LastLogIndexLocked (c : RaftCore) : Z :=
  match last (log_ c) with Some r => index r | None => last_snapshot_index_ c end.
Definition LastLogTermLocked (c : RaftCore) : Z :=
  match last (log_ c) with Some r => term r | None => last_snapshot_term_ c end.

(** [HasLogAtIndexLocked]. *)
Definition HasLogAtIndexLocked (c : RaftCore) (i : Z) : bool :=
  match head (log_ c), last (log_ c) with
  | Some f, Some l => bool_decide (index f ≤ i) && bool_decide (i ≤ index l)
  | _, _ => false
  end.

(** [LogOffsetLocked]: [index - log_.front().index] on [std::size_t]. *)
Definition LogOffsetLocked (c : RaftCore) (i : Z) : nat := Z.to_nat (u64 (i - FirstLogIndexLocked c)).

(** [LogAtIndexLocked]; [None] is the null pointer.  (An offset past the end of
    [log_] would be undefined behaviour; [log_ok] excludes it, see
    [LogAtIndex_offset_in_range].) *)
Definition LogAtIndexLocked (c : RaftCore) (i : Z) : option LogRecord :=
  if HasLogAtIndexLocked c i then log_ c !! LogOffsetLocked c i else None.

(** [TermAtIndexLocked]. *)
Definition TermAtIndexLocked (c : RaftCore) (i : Z) : Z :=
  if decide (i = last_snapshot_index_ c) then last_snapshot_term_ c
  else match LogAtIndexLocked c i with Some r => term r | None => 0 end.

(** [FirstIndexOfTermLocked]. *)
Fixpoint first_index_of_term (t : Z) (log : list LogRecord) : Z :=
  match log with
  | [] => 0
  | r :: log' => if decide (term r = t) then index r else first_index_of_term t log'
  end.
Definition FirstIndexOfTermLocked (c : RaftCore) (t : Z) : Z := first_index_of_term t (log_ c).

(** [IsCandidateLogUpToDateLocked]. *)
Definition IsCandidateLogUpToDateLocked (c : RaftCore) (last_log_index last_log_term : Z) : bool :=
  let my_last_term := LastLogTermLocked c in
  if decide (last_log_term ≠ my_last_term) then bool_decide (my_last_term < last_log_term)
  else bool_decide (LastLogIndexLocked c ≤ last_log_index).

(** [RestoreLogAfterSnapshotLocked] and [CompactLogPrefixLocked]. *)
Definition RestoreLogAfterSnapshotLocked (last_included_index last_included_term : Z)
    (keep_suffix_when_boundary_matches : bool) (c : RaftCore) : RaftCore :=
  if bool_decide (last_included_index ≤ last_snapshot_index_ c) &&
     match head (log_ c) with
     | Some f => bool_decide (index f = last_snapshot_index_ c)
     | None => false
     end
  then c
  else
    let keep_suffix :=
      if keep_suffix_when_boundary_matches then
        let keep := match LogAtIndexLocked c last_included_index with
                    | Some boundary => bool_decide (term boundary = last_included_term)
                    | None => false
                    end in
        if negb keep && bool_decide (last_included_index = last_snapshot_index_ c)
        then bool_decide (last_snapshot_term_ c = last_included_term)
        else keep
      else false in
    let marker := mkLogRecord last_included_index last_included_term kSnapshotMarkerCommand in
    let compacted :=
      marker :: (if keep_suffix
                 then filter (λ r, last_included_index < index r) (log_ c) else []) in
    let c := c <| log_ := compacted |> <| last_snapshot_index_ := last_included_index |>
               <| last_snapshot_term_ := last_included_term |> in
    let c := if decide (commit_index_ c < last_snapshot_index_ c)
             then c <| commit_index_ := last_snapshot_index_ c |> else c in
    if decide (last_applied_ c < last_snapshot_index_ c)
    then c <| last_applied_ := last_snapshot_index_ c |> else c.

Definition CompactLogPrefixLocked (last_included_index last_included_term : Z) (c : RaftCore) :
    RaftCore :=
  RestoreLogAfterSnapshotLocked last_included_index last_included_term true c.

(** [SetAppendEntriesConflictHintLocked] on a non-null response. *)
Definition SetAppendEntriesConflictHintLocked (c : RaftCore) (probe_index : Z)
    (response : AppendEntriesResponse) : AppendEntriesResponse :=
  let response := response <| aresp_last_log_index := LastLogIndexLocked c |>
                           <| aresp_conflict_index := 0 |> <| aresp_conflict_term := 0 |> in
  if decide (probe_index < last_snapshot_index_ c) then
    response <| aresp_conflict_index := SafeAddOne (last_snapshot_index_ c) |>
  else if negb (HasLogAtIndexLocked c probe_index) then
    response <| aresp_conflict_index := SafeAddOne (LastLogIndexLocked c) |>
  else
    let conflict_term := TermAtIndexLocked c probe_index in
    response <| aresp_conflict_term := conflict_term |>
             <| aresp_conflict_index := FirstIndexOfTermLocked c conflict_term |>.

(** ** The log invariant *)

(** [log] holds the indexes [n], [n+1], ... *)
Definition contiguous (n : Z) (log : list LogRecord) : Prop :=
  ∀ (k : nat) r, log !! k = Some r → index r = n + Z.of_nat k.

(** The log starts with the record of the snapshot boundary (the bootstrap
    record when there is no snapshot) and its indexes are consecutive. *)
Record log_ok (c : RaftCore) : Prop := {
  log_front : ∃ cmd, head (log_ c) =
                Some (mkLogRecord (last_snapshot_index_ c) (last_snapshot_term_ c) cmd) ∧
                (0 < last_snapshot_index_ c → cmd = kSnapshotMarkerCommand);
  log_contiguous : contiguous (last_snapshot_index_ c) (log_ c);
  log_low : 0 ≤ last_snapshot_index_ c;
  log_high : LastLogIndexLocked c ≤ u64_max }.

Section contiguous.
Lemma contiguous_nil n : contiguous n [].
Proof. intros k r ?. by rewrite lookup_nil in *. Qed.

Lemma contiguous_cons n r log :
  contiguous n (r :: log) ↔ index r = n ∧ contiguous (n + 1) log.
Proof.
  split.
  - intros H. split.
    + specialize (H 0%nat r eq_refl). lia.
    + intros k r' Hk. specialize (H (S k) r' Hk). lia.
  - intros [Hr H] [|k] r' Hk; simpl in *; simplify_eq; [lia|].
    specialize (H k r' Hk). lia.
Qed.

Lemma contiguous_app n l1 l2 :
  contiguous n (l1 ++ l2) ↔ contiguous n l1 ∧ contiguous (n + Z.of_nat (length l1)) l2.
Proof.
  revert n. induction l1 as [|r l1 IH]; intros n; simpl.
  - rewrite Z.add_0_r. pose proof (contiguous_nil n). tauto.
  - rewrite !contiguous_cons, IH.
    replace (n + 1 + Z.of_nat (length l1)) with (n + Z.of_nat (S (length l1))) by lia. tauto.
Qed.

Lemma contiguous_take n k log : contiguous n log → contiguous n (take k log).
Proof. intros H j r [Hj _]%lookup_take_Some. eauto. Qed.

Lemma contiguous_drop n k log : contiguous n log → contiguous (n + Z.of_nat k) (drop k log).
Proof. intros H j r Hj. rewrite lookup_drop in Hj. specialize (H _ _ Hj). lia. Qed.

Lemma contiguous_elem n log r :
  contiguous n log → r ∈ log → n ≤ index r < n + Z.of_nat (length log).
Proof.
  intros H (k & Hk)%list_elem_of_lookup. specialize (H _ _ Hk).
  apply lookup_lt_Some in Hk. lia.
Qed.

Lemma contiguous_last n log r :
  contiguous n log → last log = Some r → index r = n + Z.of_nat (length log) - 1.
Proof.
  intros H Hl. rewrite last_lookup in Hl. pose proof (lookup_lt_Some _ _ _ Hl).
  specialize (H _ _ Hl). lia.
Qed.

(** Filtering by index is dropping a prefix. *)
Lemma contiguous_filter n log i :
  contiguous n log →
  filter (λ r, i < index r) log = drop (Z.to_nat (i + 1 - n)) log.
Proof.
  revert n. induction log as [|r log IH]; intros n Hc; [by rewrite drop_nil|].
  apply contiguous_cons in Hc as [Hr Hc]. rewrite filter_cons. case_decide.
  - replace (Z.to_nat (i + 1 - n)) with 0%nat by lia. simpl. f_equal.
    rewrite (IH (n + 1)) by done. by replace (Z.to_nat (i + 1 - (n + 1))) with 0%nat by lia.
  - replace (Z.to_nat (i + 1 - n)) with (S (Z.to_nat (i + 1 - (n + 1)))) by lia.
    simpl. by apply IH.
Qed.
End contiguous.

Section queries.
Implicit Types c : RaftCore.

Lemma log_ok_nonempty c : log_ok c → log_ c ≠ [].
Proof. intros [(cmd & Hh & _) _ _ _]. by destruct (log_ c). Qed.

Lemma FirstLogIndex_ok c : log_ok c → FirstLogIndexLocked c = last_snapshot_index_ c.
Proof. intros [(cmd & Hh & _) _ _ _]. unfold FirstLogIndexLocked. by rewrite Hh. Qed.

Lemma LastLogIndex_ok c :
  log_ok c → LastLogIndexLocked c = last_snapshot_index_ c + Z.of_nat (length (log_ c)) - 1.
Proof.
  intros Hok. unfold LastLogIndexLocked. destruct (last (log_ c)) as [r|] eqn:Hl.
  - apply contiguous_last; [apply Hok|done].
  - apply last_None in Hl. by apply log_ok_nonempty in Hok.
Qed.

Lemma LastLogIndex_ge c : log_ok c → last_snapshot_index_ c ≤ LastLogIndexLocked c.
Proof.
  intros Hok. rewrite LastLogIndex_ok by done. pose proof (log_ok_nonempty c Hok).
  destruct (log_ c); simpl in *; [done|lia].
Qed.

Lemma LastLogIndex_u64 c : log_ok c → is_u64 (LastLogIndexLocked c).
Proof. intros Hok. pose proof (LastLogIndex_ge c Hok). destruct Hok. u64_lia. Qed.

Lemma log_length_pos c : log_ok c → (0 < length (log_ c))%nat.
Proof. intros Hok. pose proof (log_ok_nonempty c Hok). destruct (log_ c); simpl; [done|lia]. Qed.

Lemma snapshot_index_u64 c : log_ok c → is_u64 (last_snapshot_index_ c).
Proof. intros Hok. pose proof (LastLogIndex_ge c Hok). destruct Hok. u64_lia. Qed.

(** [HasLogAtIndexLocked] is the index range of the log. *)
Lemma HasLogAtIndex_spec c i :
  log_ok c →
  HasLogAtIndexLocked c i = bool_decide (last_snapshot_index_ c ≤ i ≤ LastLogIndexLocked c).
Proof.
  intros Hok. pose proof (log_ok_nonempty c Hok) as Hne.
  unfold HasLogAtIndexLocked, LastLogIndexLocked.
  destruct (log_front c Hok) as (cmd & -> & _).
  destruct (last (log_ c)) as [l|] eqn:Hl; [|by apply last_None in Hl].
  cbn [index]. by rewrite bool_decide_and.
Qed.

(** The pointer [&log_[offset]] is inside the vector. *)
Lemma LogAtIndex_offset_in_range c i :
  log_ok c → HasLogAtIndexLocked c i = true →
  LogOffsetLocked c i = Z.to_nat (i - last_snapshot_index_ c) ∧
  (LogOffsetLocked c i < length (log_ c))%nat.
Proof.
  intros Hok Hhas. rewrite HasLogAtIndex_spec in Hhas by done.
  apply bool_decide_eq_true in Hhas. unfold LogOffsetLocked.
  pose proof (snapshot_index_u64 c Hok). pose proof (LastLogIndex_u64 c Hok).
  rewrite FirstLogIndex_ok by done. rewrite u64_id by u64_lia.
  rewrite LastLogIndex_ok in * by done. split; [done|lia].
Qed.

(** The log as a map from index to record. *)
Lemma LogAtIndex_lookup c i :
  log_ok c →
  LogAtIndexLocked c i =
    if decide (last_snapshot_index_ c ≤ i)
    then log_ c !! Z.to_nat (i - last_snapshot_index_ c) else None.
Proof.
  intros Hok. unfold LogAtIndexLocked. destruct (HasLogAtIndexLocked c i) eqn:Hhas.
  - pose proof (LogAtIndex_offset_in_range c i Hok Hhas) as [-> _].
    rewrite HasLogAtIndex_spec in Hhas by done. apply bool_decide_eq_true in Hhas.
    by rewrite decide_True by lia.
  - rewrite HasLogAtIndex_spec in Hhas by done. apply bool_decide_eq_false in Hhas.
    case_decide; [|done]. symmetry. apply lookup_ge_None.
    rewrite LastLogIndex_ok in Hhas by done. lia.
Qed.

Lemma LogAtIndex_Some c i r :
  log_ok c → LogAtIndexLocked c i = Some r → index r = i ∧ r ∈ log_ c.
Proof.
  intros Hok. rewrite LogAtIndex_lookup by done. case_decide; [|done]. intros Hl.
  split; [|by eapply list_elem_of_lookup_2].
  pose proof (log_contiguous c Hok _ _ Hl). lia.
Qed.

Lemma HasLog_LogAtIndex c i :
  log_ok c → HasLogAtIndexLocked c i = true ↔ is_Some (LogAtIndexLocked c i).
Proof.
  intros Hok. unfold LogAtIndexLocked. split.
  - intros Hhas. rewrite Hhas. apply lookup_lt_is_Some.
    by apply LogAtIndex_offset_in_range.
  - destruct (HasLogAtIndexLocked c i); [done|]. by intros [? ?].
Qed.

(** [TermAtIndexLocked] is the term of the record, 0 outside the log. *)
Lemma TermAtIndex_ok c i :
  log_ok c →
  TermAtIndexLocked c i = match LogAtIndexLocked c i with Some r => term r | None => 0 end.
Proof.
  intros Hok. unfold TermAtIndexLocked. case_decide as Hi; [|done]. subst.
  destruct (log_front c Hok) as (cmd & Hh & _). rewrite LogAtIndex_lookup by done.
  rewrite decide_True by lia. rewrite Z.sub_diag. simpl.
  rewrite <- head_lookup. by rewrite Hh.
Qed.

Lemma LastLogTerm_ok c :
  log_ok c → LogAtIndexLocked c (LastLogIndexLocked c) = last (log_ c).
Proof.
  intros Hok. pose proof (LastLogIndex_ge c Hok). rewrite LogAtIndex_lookup by done.
  rewrite decide_True by lia. rewrite last_lookup. f_equal.
  rewrite LastLogIndex_ok by done. pose proof (log_length_pos c Hok). lia.
Qed.
End queries.

(** ** Snapshot compaction *)
Section compaction.
Implicit Types c : RaftCore.

(** The core after the compaction has been decided. *)
Definition compacted_core (i t : Z) (suffix : list LogRecord) (c : RaftCore) : RaftCore :=
  c <| log_ := mkLogRecord i t kSnapshotMarkerCommand :: suffix |>
    <| last_snapshot_index_ := i |> <| last_snapshot_term_ := t |>
    <| commit_index_ := Z.max (commit_index_ c) i |>
    <| last_applied_ := Z.max (last_applied_ c) i |>.

(** The boundary record, when present with the snapshot's term, keeps the
    records after it. *)
Definition boundary_matches (i t : Z) c : bool :=
  match LogAtIndexLocked c i with Some r => bool_decide (term r = t) | None => false end.

(** Compaction, case by case: a boundary at or below the current one changes
    nothing; otherwise the log becomes the marker and, when the boundary record
    is present with the right term, the records after it. *)
Lemma RestoreLog_cases i t keep c :
  log_ok c →
  RestoreLogAfterSnapshotLocked i t keep c =
    if decide (i ≤ last_snapshot_index_ c) then c
    else compacted_core i t
           (if keep && boundary_matches i t c
            then drop (Z.to_nat (i + 1 - last_snapshot_index_ c)) (log_ c) else []) c.
Proof.
  intros Hok. unfold RestoreLogAfterSnapshotLocked.
  destruct (log_front c Hok) as (cmd & Hh & _). rewrite Hh. cbn [index].
  rewrite (bool_decide_true (last_snapshot_index_ c = last_snapshot_index_ c)) by done.
  rewrite andb_true_r. destruct (decide (i ≤ last_snapshot_index_ c)) as [Hi|Hi].
  { by rewrite bool_decide_true. }
  rewrite bool_decide_false by done.
  rewrite (bool_decide_false (i = last_snapshot_index_ c)) by lia.
  rewrite andb_false_r, (contiguous_filter _ _ i (log_contiguous c Hok)).
  unfold compacted_core, boundary_matches. node_simpl.
  replace (if keep then _ else false) with
    (keep && match LogAtIndexLocked c i with
             | Some r => bool_decide (term r = t) | None => false end) by (by destruct keep).
  set (log' := _ :: _).
  destruct (decide (commit_index_ c < i));
    [rewrite (Z.max_r (commit_index_ c)) by lia|rewrite (Z.max_l (commit_index_ c)) by lia];
    (destruct (decide (last_applied_ c < i));
     [rewrite (Z.max_r (last_applied_ c)) by lia|rewrite (Z.max_l (last_applied_ c)) by lia]);
    node_simpl; rewrite ?decide_True, ?decide_False by done; by destruct c.
Qed.

Lemma compacted_log_ok i t suffix c :
  0 ≤ i → i + Z.of_nat (length suffix) ≤ u64_max → contiguous (i + 1) suffix →
  log_ok (compacted_core i t suffix c).
Proof.
  intros Hi Hlen Hc.
  assert (Hcont : contiguous i (mkLogRecord i t kSnapshotMarkerCommand :: suffix))
    by (by apply contiguous_cons).
  split; unfold compacted_core; node_simpl; try done.
  - by eexists.
  - unfold LastLogIndexLocked. node_simpl.
    destruct (last _) as [r|] eqn:Hl; [|lia].
    rewrite (contiguous_last _ _ _ Hcont Hl). simpl. lia.
Qed.

Lemma suffix_length i c :
  log_ok c → last_snapshot_index_ c < i → i ≤ u64_max →
  i + Z.of_nat (length (drop (Z.to_nat (i + 1 - last_snapshot_index_ c)) (log_ c))) ≤ u64_max.
Proof.
  intros Hok Hi Hmax. pose proof (LastLogIndex_ok c Hok). pose proof (log_high c Hok).
  rewrite length_drop. lia.
Qed.

Lemma RestoreLog_log_ok i t keep c :
  log_ok c → is_u64 i → log_ok (RestoreLogAfterSnapshotLocked i t keep c).
Proof.
  intros Hok Hi. rewrite RestoreLog_cases by done. case_decide; [done|].
  pose proof (log_low c Hok). destruct (keep && boundary_matches i t c).
  - apply compacted_log_ok; [lia|apply suffix_length; [done|lia|u64_lia]|].
    replace (i + 1) with (last_snapshot_index_ c + Z.of_nat (Z.to_nat (i + 1 - last_snapshot_index_ c)))
      at 1 by lia.
    apply contiguous_drop. apply (log_contiguous c Hok).
  - apply compacted_log_ok; [lia|simpl; u64_lia|apply contiguous_nil].
Qed.
End compaction.

(** ** The invariant of the consensus members *)
Record core_ok (c : RaftCore) : Prop := {
  core_log : log_ok c;
  core_snapshot_applied : last_snapshot_index_ c ≤ last_applied_ c;
  core_applied_commit : last_applied_ c ≤ commit_index_ c;
  core_commit_max : commit_index_ c ≤ u64_max }.

Lemma RestoreLog_core_ok i t keep c :
  core_ok c → is_u64 i → core_ok (RestoreLogAfterSnapshotLocked i t keep c).
Proof.
  intros [Hok Hs Ha Hm] [Hi1 Hi2]. split; [by apply RestoreLog_log_ok|..];
    rewrite RestoreLog_cases by done; case_decide; try done; unfold compacted_core; node_simpl; lia.
Qed.


Lemma sim_follower_log_ok : log_ok sim_follower.
Proof.
  split; [by eexists| |done|done].
  intros k r Hk. do 4 (destruct k; [by simplify_eq/=|]). done.
Defined.

