(* ===== verification/Election.v ===== *)
(** Elections (src/modules/raft/node/raft_node.cpp): the vote handler, the
    candidate's side of an election, and the transition to leader. *)
From S2P Require Import Prelude Command Types Timer Metrics Env Sim Node SimNode.
From S2P Require Import NodeLog.

Section operations.
Context {SM E : Type} `{HostEnv E, IRaftStorage E}.
Implicit Types n : Node SM E.

(** [OnRequestVote]. *)
Definition OnRequestVote (request : VoteRequest) n : VoteResponse * Node SM E :=
  if decide (vreq_term request < current_term_ (core n)) then
    (mkVoteResponse (current_term_ (core n)) false, n)
  else
    let '(followed, n) :=
      if decide (current_term_ (core n) < vreq_term request)
      then BecomeFollowerLocked (vreq_term request) (-1) n else (true, n) in
    if negb followed then (mkVoteResponse (current_term_ (core n)) false, n)
    else
      let up_to_date := IsCandidateLogUpToDateLocked (core n)
                          (vreq_last_log_index request) (vreq_last_log_term request) in
      let can_vote := bool_decide (voted_for_ (core n) = -1 ∨
                                   voted_for_ (core n) = vreq_candidate_id request) in
      if can_vote && up_to_date then
        let old_voted_for := voted_for_ (core n) in
        let n := n <| core ::= λ c, c <| voted_for_ := vreq_candidate_id request |> |> in
        let '((persisted, _), n) := PersistStateLocked n in
        if persisted then
          let n := ResetElectionTimerLocked n in
          (mkVoteResponse (current_term_ (core n)) true, n)
        else
          let n := n <| core ::= λ c, c <| voted_for_ := old_voted_for |> |> in
          (mkVoteResponse (current_term_ (core n)) false, n)
      else (mkVoteResponse (current_term_ (core n)) false, n).

(** What [StartElection] does once it has released [mu_]. *)
Inductive ElectionStart :=
  | ElectionAborted                       (** not running, leader, or persist failed *)
  | ElectionWonAlone (t : Z)              (** [quorum <= 1]: [OnElectionWon] at once *)
  | ElectionAsk (t : Z) (quorum : Z) (requests : list (Z * VoteRequest)).

#[export] Instance aborted_dec (r : ElectionStart) : Decision (r = ElectionAborted).
Proof. destruct r; [by left|by right..]. Defined.

(** [quorum] of [StartElection], [majority] of the commit rules. *)
Definition quorum_of (config : NodeConfig) : Z := (Z.of_nat (length (peers config)) + 1) / 2 + 1.

(** [StartElection], up to the submission of the vote requests. *)
Definition StartElection n : ElectionStart * Node SM E :=
  let n := n <| metrics_ ::= RecordElectionStarted |> in
  if negb (running_ n) || bool_decide (role_ (core n) = kLeader) then (ElectionAborted, n)
  else
    let old := core n in
    let n := n <| core ::= λ c,
               c <| role_ := kCandidate |> <| current_term_ ::= λ t, u64 (t + 1) |>
                 <| voted_for_ := node_id (config_ n) |> <| leader_id_ := -1 |> |> in
    let '((persisted, _), n) := PersistStateLocked n in
    if negb persisted then
      let n := n <| core ::= λ c,
                 c <| role_ := role_ old |> <| current_term_ := current_term_ old |>
                   <| voted_for_ := voted_for_ old |> <| leader_id_ := leader_id_ old |> |> in
      (ElectionAborted, ResetElectionTimerLocked n)
    else
      let t := current_term_ (core n) in
      let last_log_index := LastLogIndexLocked (core n) in
      let last_log_term := LastLogTermLocked (core n) in
      let quorum := quorum_of (config_ n) in
      let n := ResetElectionTimerLocked n in
      if decide (quorum ≤ 1) then (ElectionWonAlone t, n)
      else (ElectionAsk t quorum
              ((λ peer, (peer_node_id peer,
                 mkVoteRequest t (node_id (config_ n)) last_log_index last_log_term))
               <$> peers (config_ n)), n).

(** The vote task after its RPC returned [response], inside [mu_]: whether it
    goes on to count the answer. *)
Definition OnVoteResponseLocked (t : Z) (response : VoteResponse) n : bool * Node SM E :=
  if negb (running_ n) then (false, n)
  else if decide (current_term_ (core n) < vresp_term response) then
    (false, (BecomeFollowerLocked (vresp_term response) (-1) n).2)
  else if bool_decide (role_ (core n) ≠ kCandidate) || bool_decide (current_term_ (core n) ≠ t)
  then (false, n)
  else (true, n).

(** The rest of the vote task, on the shared atomics [votes] and [won]: whether
    this vote wins the election, and the atomics afterwards. *)
Definition CountVote (quorum : Z) (vote_granted : bool) (votes : Z) (won : bool) :
    bool * (Z * bool) :=
  if negb vote_granted then (false, (votes, won))
  else
    let total := votes + 1 in
    if bool_decide (quorum ≤ total) && negb won then (true, (total, true))
    else (false, (total, won)).

(** [BecomeLeaderLocked]. *)
Definition BecomeLeaderLocked n : Node SM E :=
  let old_leader_id := leader_id_ (core n) in
  let self := node_id (config_ n) in
  let n := n <| core ::= λ c, c <| role_ := kLeader |> <| leader_id_ := self |> |> in
  let n := n <| metrics_ ::= MaybeRecordLeaderChange old_leader_id self |> in
  let n := CancelElectionTimerLocked n in
  let last_log_index := LastLogIndexLocked (core n) in
  let n := n <| core ::= λ c,
             c <| next_index_ := {[self := SafeAddOne last_log_index]} |>
               <| match_index_ := {[self := last_log_index]} |> |> in
  let n := foldl (λ n peer,
             let n := n <| core ::= λ c,
                        c <| next_index_ ::= <[peer_node_id peer := SafeAddOne last_log_index]> |>
                          <| match_index_ ::= <[peer_node_id peer := 0]> |> |> in
             GetOrCreateReplicatorLocked (peer_node_id peer) n) n (peers (config_ n)) in
  ResetHeartbeatTimerLocked n.

(** [OnElectionWon] up to the release of [mu_]: whether it proposes the no-op
    entry and sends heartbeats. *)
Definition OnElectionWonLocked (t : Z) n : bool * Node SM E :=
  if negb (running_ n) then (false, n)
  else if bool_decide (role_ (core n) ≠ kCandidate) || bool_decide (current_term_ (core n) ≠ t)
  then (false, n)
  else (true, BecomeLeaderLocked n).

(** [OnElectionTimeout] up to the call of [StartElection]: whether it is made. *)
Definition OnElectionTimeoutLocked (timer_generation : Z) n : bool * Node SM E :=
  if negb (running_ n) then (false, n)
  else if decide (timer_generation ≠ election_timer_generation_ (timers n)) then (false, n)
  else if decide (role_ (core n) = kLeader) then (false, n)
  else (true, n <| timers ::= λ t, t <| election_timer_id_ := None |> |>).

Definition OnElectionTimeout (timer_generation : Z) n : ElectionStart * Node SM E :=
  let '(go, n) := OnElectionTimeoutLocked timer_generation n in
  if go then StartElection n else (ElectionAborted, n).
End operations.

(** ** The order of hard states

    A node's (term, vote) pair only moves forward: to a higher term, or within a
    term from "no vote" to a vote. *)
Definition hard_state : Type := Z * Z.
Definition hs_of (c : RaftCore) : hard_state := (current_term_ c, voted_for_ c).
Definition hs_le (a b : hard_state) : Prop :=
  a.1 < b.1 ∨ a.1 = b.1 ∧ (a.2 = -1 ∨ a.2 = b.2).

#[export] Instance hs_le_preorder : PreOrder hs_le.
Proof. split; unfold hs_le; [intros ?|intros ???]; lia. Qed.

(** Two votes cast in one term are for one candidate. *)
Lemma hs_le_same_term t v v' : hs_le (t, v) (t, v') → v ≠ -1 → v = v'.
Proof. unfold hs_le. simpl. lia. Qed.

Lemma follower_core_hs (t l : Z) c :
  current_term_ c ≤ t → hs_le (hs_of c) (hs_of (follower_core t l c)).
Proof.
  intros Ht. unfold follower_core, hs_of, hs_le. case_decide; node_simpl; lia.
Qed.

Section facts.
Context {SM E : Type} `{HostEnv E, IRaftStorage E}.
Implicit Types n : Node SM E.

(** Replace a helper call by its frame: the node after it agrees with the node
    before it on everything but the host. *)
Ltac frame_call :=
  match goal with
  | |- context [PersistStateLocked ?m] =>
      let Hf := fresh "Hf" in let ok := fresh "ok" in let n' := fresh "n" in
      pose proof (PersistStateLocked_frame m) as Hf;
      destruct (PersistStateLocked m) as [[ok ?] n'] eqn:?; cbn [snd] in Hf
  | |- context [ResetElectionTimerLocked ?m] =>
      let Hf := fresh "Hf" in let n' := fresh "n" in
      pose proof (ResetElectionTimer_frame m) as Hf;
      set (n' := ResetElectionTimerLocked m) in *; clearbody n'
  end.

(** The vote handler, as a function of the core: what it answers and the new
    core depend on the host only through the outcomes of the two writes. *)
Definition vote_core (request : VoteRequest) (followed persisted : bool) (c : RaftCore) :
    VoteResponse * RaftCore :=
  if decide (vreq_term request < current_term_ c) then
    (mkVoteResponse (current_term_ c) false, c)
  else
    let c' := if decide (current_term_ c < vreq_term request)
              then follower_core (vreq_term request) (-1) c else c in
    if followed &&
       bool_decide (voted_for_ c' = -1 ∨ voted_for_ c' = vreq_candidate_id request) &&
       IsCandidateLogUpToDateLocked c' (vreq_last_log_index request)
         (vreq_last_log_term request) && persisted
    then (mkVoteResponse (current_term_ c') true,
          c' <| voted_for_ := vreq_candidate_id request |>)
    else (mkVoteResponse (current_term_ c') false, c').

Lemma core_eta c : c = mkCore (role_ c) (current_term_ c) (voted_for_ c) (leader_id_ c) (log_ c)
  (commit_index_ c) (last_applied_ c) (last_snapshot_index_ c) (last_snapshot_term_ c)
  (next_index_ c) (match_index_ c).
Proof. by destruct c. Qed.

Lemma OnRequestVote_core request n :
  ∃ followed persisted,
    vote_core request followed persisted (core n) =
      ((OnRequestVote request n).1, core (OnRequestVote request n).2).
Proof.
  unfold OnRequestVote, vote_core. case_decide as Hstale; [by exists true, true|].
  destruct (decide (current_term_ (core n) < vreq_term request)) as [Hnew|Hold].
  - destruct (BecomeFollowerLocked_core (vreq_term request) (-1) n) as [Hc _].
    destruct (BecomeFollowerLocked _ _ n) as [followed n1]. cbn [snd] in Hc.
    exists followed. destruct followed; cbn [negb]; rewrite <- Hc; [|by exists true; cbn [andb fst snd]].
    cbn [andb]. destruct (bool_decide _ && _) eqn:Hcan; cbn [andb]; [|by exists true].
    frame_call. exists ok. apply sbh_core in Hf. node_simpl in *.
    destruct ok; [frame_call; apply sbh_core in Hf0|]; node_simpl;
      rewrite ?Hf0, Hf; node_simpl; [done|]. f_equal. apply core_eta.
  - exists true. cbn [negb andb].
    cbn [andb]. destruct (bool_decide _ && _) eqn:Hcan; cbn [andb]; [|by exists true].
    frame_call. exists ok. apply sbh_core in Hf. node_simpl in *.
    destruct ok; [frame_call; apply sbh_core in Hf0|]; node_simpl;
      rewrite ?Hf0, Hf; node_simpl; [done|]. f_equal. apply core_eta.
Qed.

(** The part of the core a role change leaves alone. *)
Record same_log (c c' : RaftCore) : Prop := {
  sl_log : log_ c' = log_ c;
  sl_commit : commit_index_ c' = commit_index_ c;
  sl_applied : last_applied_ c' = last_applied_ c;
  sl_snapshot_index : last_snapshot_index_ c' = last_snapshot_index_ c;
  sl_snapshot_term : last_snapshot_term_ c' = last_snapshot_term_ c }.

Lemma follower_core_same_log t l c : same_log c (follower_core t l c).
Proof. unfold follower_core. by case_decide. Qed.

Lemma core_same_log c c' :
  same_log c c' → LastLogIndexLocked c' = LastLogIndexLocked c ∧
                  LastLogTermLocked c' = LastLogTermLocked c.
Proof.
  intros [Hl _ _ Hi Ht]. unfold LastLogIndexLocked, LastLogTermLocked.
  by rewrite Hl, Hi, Ht.
Qed.

Lemma up_to_date_spec c i t :
  IsCandidateLogUpToDateLocked c i t = true ↔
  LastLogTermLocked c < t ∨ LastLogTermLocked c = t ∧ LastLogIndexLocked c ≤ i.
Proof.
  unfold IsCandidateLogUpToDateLocked. case_decide; rewrite bool_decide_eq_true; lia.
Qed.

Lemma vote_core_grant request followed persisted c resp c' :
  vote_core request followed persisted c = (resp, c') → vresp_vote_granted resp = true →
  ∃ c1, c' = c1 <| voted_for_ := vreq_candidate_id request |> ∧ same_log c c1 ∧
    vresp_term resp = vreq_term request ∧ current_term_ c1 = vreq_term request ∧
    hs_le (hs_of c) (vreq_term request, vreq_candidate_id request) ∧
    (LastLogTermLocked c < vreq_last_log_term request ∨
     LastLogTermLocked c = vreq_last_log_term request ∧
     LastLogIndexLocked c ≤ vreq_last_log_index request).
Proof.
  unfold vote_core. case_decide as Hstale; [by intros [= <- <-]|].
  set (c1 := if decide (current_term_ c < vreq_term request) then _ else c).
  destruct (_ && persisted) eqn:Hcond; intros [= <- <-]; [|done]. intros _.
  apply andb_prop in Hcond as [[[_ Hcan]%andb_prop Hup]%andb_prop _].
  apply bool_decide_eq_true in Hcan. apply up_to_date_spec in Hup.
  assert (Hsl : same_log c c1)
    by (unfold c1; case_decide; [apply follower_core_same_log|by split]).
  assert (Ht : current_term_ c1 = vreq_term request ∧ hs_le (hs_of c) (hs_of c1)).
  { unfold c1. case_decide; [|split; [lia|reflexivity]].
    split; [unfold follower_core; by rewrite decide_True|apply follower_core_hs; lia]. }
  destruct (core_same_log _ _ Hsl) as [<- <-]. destruct Ht as [Ht Hhs].
  exists c1. split_and!; try done. etrans; [exact Hhs|].
  unfold hs_le, hs_of. simpl. lia.
Qed.
End facts.

(** ** Effects on the core *)
Section effects.
Context {SM E : Type} `{HostEnv E, IRaftStorage E}.
Implicit Types n : Node SM E.

(** The configuration and the running flag, which no handler writes. *)
Definition same_identity n n' : Prop :=
  config_ n' = config_ n ∧ running_ n' = running_ n.

Lemma sbh_identity n n' : same_but_host n n' → same_identity n n'.
Proof. by intros []. Qed.

Lemma OnRequestVote_identity request n : same_identity n (OnRequestVote request n).2.
Proof.
  unfold OnRequestVote, same_identity. case_decide; [done|].
  destruct (BecomeFollowerLocked_core (vreq_term request) (-1) n) as (_ & Hcfg & Hrun & _).
  match goal with |- context [if ?b then BecomeFollowerLocked ?t ?l n else _] =>
    assert (Hsame : let r := (if b then BecomeFollowerLocked t l n else (true, n)) in
                    config_ r.2 = config_ n ∧ running_ r.2 = running_ n)
      by (by case_decide);
    destruct (if b then BecomeFollowerLocked t l n else (true, n)) as [followed n1] end.
  cbn [snd] in Hsame. destruct Hsame as [<- <-].
  destruct followed; cbn [negb]; [|done]. case_match; [|done].
  match goal with |- context [PersistStateLocked ?m] =>
    destruct (PersistStateLocked_frame m) as [Hc _ _ _ _ Hr _];
    destruct (PersistStateLocked m) as [[[] ?] n2] end; node_simpl in *; [|done].
  destruct (ResetElectionTimer_frame n2) as [-> _ _ _ _ -> _]. done.
Qed.

(** The core of a candidate that starts an election. *)
Definition candidate_core (self : Z) (c : RaftCore) : RaftCore :=
  c <| role_ := kCandidate |> <| current_term_ ::= λ t, u64 (t + 1) |>
    <| voted_for_ := self |> <| leader_id_ := -1 |>.

Lemma StartElection_effect n r n' :
  StartElection n = (r, n') →
  same_identity n n' ∧
  (r = ElectionAborted ∧ core n' = core n ∨
   running_ n = true ∧ role_ (core n) ≠ kLeader ∧
   core n' = candidate_core (node_id (config_ n)) (core n) ∧
   let t := current_term_ (core n') in
   (r = ElectionWonAlone t ∧ quorum_of (config_ n) ≤ 1 ∨
    r = ElectionAsk t (quorum_of (config_ n))
          ((λ peer, (peer_node_id peer,
              mkVoteRequest t (node_id (config_ n)) (LastLogIndexLocked (core n))
                (LastLogTermLocked (core n)))) <$> peers (config_ n)))).
Proof.
  unfold StartElection. set (m := n <| metrics_ ::= RecordElectionStarted |>).
  assert (Hm : core m = core n ∧ config_ m = config_ n ∧ running_ m = running_ n) by done.
  clearbody m. destruct Hm as (Hmc & Hmg & Hmr). unfold same_identity.
  rewrite <- Hmc, <- Hmg, <- Hmr. clear Hmc Hmg Hmr n.
  destruct (running_ m) eqn:Hrun; cbn [negb orb]; [|by intros [= <- <-]; split; auto].
  case_bool_decide as Hrole; [by intros [= <- <-]; split; auto|]. cbv zeta.
  match goal with |- context [PersistStateLocked ?m] =>
    pose proof (PersistStateLocked_frame m) as Hf; destruct (PersistStateLocked m) as [[ok ?] n1] end.
  destruct Hf as [Hcfg _ Hcore _ _ Hr _]. node_simpl in *.
  destruct ok; cbn [negb].
  - pose proof (ResetElectionTimer_frame n1) as [Hcfg' _ Hcore' _ _ Hr' _].
    assert (Hc : core (ResetElectionTimerLocked n1) = candidate_core (node_id (config_ m)) (core m))
      by (by rewrite Hcore', Hcore).
    rewrite Hcfg', Hcfg, Hcore.
    case_decide; intros [= <- <-]; rewrite Hcfg', Hcfg, Hr', Hr, Hc; (split; [done|right]);
      (split_and!; [done..|]); [left|right]; done.
  - intros [= <- <-].
    match goal with |- context [ResetElectionTimerLocked ?m] =>
      destruct (ResetElectionTimer_frame m) as [-> _ -> _ _ -> _] end.
    node_simpl. rewrite Hcfg, Hcore, Hr. split; [done|left].
    split; [done|]. destruct (core m); done.
Qed.

Lemma BecomeFollowerLocked_identity t l n : same_identity n (BecomeFollowerLocked t l n).2.
Proof. by destruct (BecomeFollowerLocked_core t l n) as (_ & ? & ? & _). Qed.

Lemma OnVoteResponseLocked_effect t response n go n' :
  OnVoteResponseLocked t response n = (go, n') →
  same_identity n n' ∧
  (core n' = core n ∧ (go = true → role_ (core n) = kCandidate ∧ current_term_ (core n) = t) ∨
   go = false ∧ current_term_ (core n) < vresp_term response ∧
   core n' = follower_core (vresp_term response) (-1) (core n)).
Proof.
  unfold OnVoteResponseLocked. destruct (running_ n); cbn [negb]; [|by intros [= <- <-]; split; [split|left; split]].
  case_decide as Hhigh.
  - intros [= <- <-]. split; [apply BecomeFollowerLocked_identity|right].
    split_and!; [done..|]. by destruct (BecomeFollowerLocked_core (vresp_term response) (-1) n).
  - repeat case_bool_decide; cbn [orb]; intros [= <- <-]; (split; [done|left]); naive_solver.
Qed.

(** [BecomeLeaderLocked] changes the role, the leader and the progress maps. *)
Record leader_step (self : Z) (c c' : RaftCore) : Prop := {
  ls_role : role_ c' = kLeader;
  ls_leader : leader_id_ c' = self;
  ls_term : current_term_ c' = current_term_ c;
  ls_vote : voted_for_ c' = voted_for_ c;
  ls_log : log_ c' = log_ c;
  ls_commit : commit_index_ c' = commit_index_ c;
  ls_applied : last_applied_ c' = last_applied_ c;
  ls_snapshot_index : last_snapshot_index_ c' = last_snapshot_index_ c;
  ls_snapshot_term : last_snapshot_term_ c' = last_snapshot_term_ c }.

Lemma leader_fold_frame (l : list PeerConfig) (last_log_index self : Z) c n :
  leader_step self c (core n) →
  let n' := foldl (λ n peer,
             let n := n <| core ::= λ c,
                        c <| next_index_ ::= <[peer_node_id peer := SafeAddOne last_log_index]> |>
                          <| match_index_ ::= <[peer_node_id peer := 0]> |> |> in
             GetOrCreateReplicatorLocked (peer_node_id peer) n) n l in
  leader_step self c (core n') ∧ same_identity n n'.
Proof.
  revert n. induction l as [|p l IH]; intros n Hls; [done|]. cbn [foldl].
  match goal with |- context [foldl _ (GetOrCreateReplicatorLocked ?i ?m) l] =>
    set (n1 := GetOrCreateReplicatorLocked i m) end.
  assert (Hn1 : leader_step self c (core n1) ∧ same_identity n n1).
  { unfold n1, GetOrCreateReplicatorLocked, same_identity. case_match; node_simpl;
      (split; [|done]); destruct Hls; by split. }
  destruct Hn1 as [Hls1 [Hc1 Hr1]]. destruct (IH n1 Hls1) as [? [Hc2 Hr2]].
  split; [done|].
  split; [exact (eq_trans Hc2 Hc1)|exact (eq_trans Hr2 Hr1)].
Qed.

Lemma BecomeLeaderLocked_effect n :
  leader_step (node_id (config_ n)) (core n) (core (BecomeLeaderLocked n)) ∧
  same_identity n (BecomeLeaderLocked n).
Proof.
  unfold BecomeLeaderLocked. cbv zeta.
  match goal with |- context [ResetHeartbeatTimerLocked (foldl ?f ?m ?l)] =>
    destruct (ResetHeartbeatTimer_frame (foldl f m l)) as [Hc _ Hk _ _ Hr _];
    destruct (leader_fold_frame l (LastLogIndexLocked (core n)) (node_id (config_ n)) (core n) m)
      as [Hls [Hc' Hr']]; [by split|] end.
  unfold same_identity. rewrite Hk, Hc, Hr. split; [exact Hls|]. split; [exact Hc'|exact Hr'].
Qed.

(** Taking office writes nothing. *)
Lemma BecomeLeader_env n : env_ (BecomeLeaderLocked n) = env_ n.
Proof.
  assert (Hf : ∀ (f : Node SM E → PeerConfig → Node SM E) l,
            (∀ m p, env_ (f m p) = env_ m) → ∀ m, env_ (foldl f m l) = env_ m).
  { intros f l Hf. induction l as [|p l IH]; intros m; [done|]. cbn [foldl]. by rewrite IH. }
  unfold BecomeLeaderLocked, ResetHeartbeatTimerLocked. cbv zeta.
  case_decide; [|destruct (ScheduleAfter _ _ _ _)]; node_simpl;
    (etrans; [apply Hf|done]); intros m p; unfold GetOrCreateReplicatorLocked; by case_match.
Qed.

Lemma OnElectionWon_env t n go n' : OnElectionWonLocked t n = (go, n') → env_ n' = env_ n.
Proof.
  unfold OnElectionWonLocked. repeat case_match; intros [= _ <-]; [done|done|]. apply BecomeLeader_env.
Qed.

Lemma OnElectionWonLocked_effect t n go n' :
  OnElectionWonLocked t n = (go, n') →
  same_identity n n' ∧
  (go = false ∧ core n' = core n ∨
   go = true ∧ role_ (core n) = kCandidate ∧ current_term_ (core n) = t ∧
   leader_step (node_id (config_ n)) (core n) (core n')).
Proof.
  unfold OnElectionWonLocked. destruct (running_ n); cbn [negb]; [|by intros [= <- <-]; split; [split|left; split]].
  repeat case_bool_decide; cbn [orb]; intros [= <- <-]; try (by split; [split|left]).
  destruct (BecomeLeaderLocked_effect n). split; [done|right]. naive_solver.
Qed.
End effects.

(** ** Durability *)
Section stored.
Context {SM E : Type} `{HostEnv E, IRaftStorage E}.
Context (stored : PersistentRaftState → E → Prop) `{!DurableStorage E stored}.
Implicit Types n : Node SM E.

(** A successful write puts the node's state on disk. *)
Lemma PersistStateLocked_stored n err n' :
  PersistStateLocked n = ((true, err), n') → stored (persistent_state (core n)) (env_ n').
Proof.
  unfold PersistStateLocked. destruct (storage_Save _ _) as [[ok err0] e] eqn:Hs.
  destruct ok; [|done]. intros [= <- <-]. by eapply save_stored.
Qed.

Lemma ResetElectionTimer_stored st n :
  stored st (env_ n) → stored st (env_ (ResetElectionTimerLocked n)).
Proof.
  unfold ResetElectionTimerLocked, RandomElectionTimeoutLocked. case_match; [done|]. intros Hst.
  match goal with |- context [uniform_int ?lo ?hi ?e] =>
    pose proof (stored_uniform_int lo hi _ e Hst) as Hl; destruct (uniform_int lo hi e) end.
  by destruct (ScheduleAfter _ _ _ _).
Qed.

(** A granted vote went through a successful write. *)
Lemma OnRequestVote_stored request n resp n' :
  OnRequestVote request n = (resp, n') → vresp_vote_granted resp = true →
  stored (persistent_state (core n')) (env_ n').
Proof.
  unfold OnRequestVote. case_decide; [by intros [= <- <-]|].
  destruct (if decide (current_term_ (core n) < vreq_term request) then _ else _) as [[] n1];
    cbn [negb]; [|by intros [= <- <-]].
  case_match; [|by intros [= <- <-]].
  match goal with |- context [PersistStateLocked ?m] =>
    pose proof (PersistStateLocked_frame m) as Hf;
    destruct (PersistStateLocked m) as [[[] err] n2] eqn:Hp end; intros [= <- <-]; [|done].
  intros _. apply ResetElectionTimer_stored.
  rewrite (sbh_core _ _ (ResetElectionTimer_frame n2)). cbn [snd] in Hf.
  rewrite (sbh_core _ _ Hf). by apply (PersistStateLocked_stored _ _ _ Hp).
Qed.
End stored.

Section durability.
Context {SM E : Type} `{HostEnv E, IRaftStorage E}.
Context (recovered : PersistentRaftState → PersistentRaftState) `{!StorageLaws E recovered}.
Implicit Types n : Node SM E.

Lemma PersistStateLocked_disk n err n' :
  PersistStateLocked n = ((true, err), n') →
  disk_state (env_ n') = Some (recovered (persistent_state (core n))).
Proof. exact (PersistStateLocked_stored (λ st e, disk_state e = Some (recovered st)) n err n'). Qed.

(** A failed write leaves the old state or the new one. *)
Lemma PersistStateLocked_disk_fail n err n' :
  PersistStateLocked n = ((false, err), n') →
  disk_state (env_ n') = disk_state (env_ n) ∨
  disk_state (env_ n') = Some (recovered (persistent_state (core n))).
Proof.
  unfold PersistStateLocked. destruct (storage_Save _ _) as [[ok err0] e] eqn:Hs.
  destruct ok; [done|]. intros [= <- <-]. node_simpl. unfold disk_state.
  destruct (save_fail _ _ _ _ Hs) as [->|[err' ->]]; auto.
Qed.

Lemma ResetElectionTimer_disk n :
  disk_state (env_ (ResetElectionTimerLocked n)) = disk_state (env_ n).
Proof.
  unfold ResetElectionTimerLocked, RandomElectionTimeoutLocked. case_match; [done|].
  match goal with |- context [uniform_int ?lo ?hi ?e] =>
    pose proof (load_uniform_int lo hi e) as Hl; destruct (uniform_int lo hi e) end.
  destruct (ScheduleAfter _ _ _ _). node_simpl in *. unfold disk_state. by rewrite Hl.
Qed.

Lemma OnRequestVote_disk request n resp n' :
  OnRequestVote request n = (resp, n') → vresp_vote_granted resp = true →
  disk_state (env_ n') = Some (recovered (persistent_state (core n'))).
Proof.
  exact (OnRequestVote_stored (λ st e, disk_state e = Some (recovered st)) request n resp n').
Qed.
End durability.

(** ** Properties of the vote handler *)

(** C24: a granted vote.  When [OnRequestVote] grants, the node's term is the
    request's, its vote is recorded for the candidate, the candidate's log is at
    least as up to date as its own, it had not voted for anyone else in that
    term, its log and boundaries are untouched, and the vote is on disk: what the
    storage would load on restart is the state holding it. *)
Theorem OnRequestVote_grant {SM E} `{HostEnv E, IRaftStorage E}
    (recovered : PersistentRaftState → PersistentRaftState) `{!StorageLaws E recovered}
    (request : VoteRequest) (n n' : Node SM E) resp :
  OnRequestVote request n = (resp, n') → vresp_vote_granted resp = true →
  let c := core n in let c' := core n' in
  vresp_term resp = vreq_term request ∧ current_term_ c' = vreq_term request ∧
  voted_for_ c' = vreq_candidate_id request ∧
  hs_le (hs_of c) (vreq_term request, vreq_candidate_id request) ∧
  (LastLogTermLocked c < vreq_last_log_term request ∨
   LastLogTermLocked c = vreq_last_log_term request ∧
   LastLogIndexLocked c ≤ vreq_last_log_index request) ∧
  (log_ c', commit_index_ c', last_applied_ c') = (log_ c, commit_index_ c, last_applied_ c) ∧
  disk_state (env_ n') = Some (recovered (persistent_state c')).
Proof.
  intros Hrun Hgrant. cbv zeta.
  pose proof (OnRequestVote_disk recovered _ _ _ _ Hrun Hgrant) as Hdisk.
  destruct (OnRequestVote_core request n) as (followed & persisted & Hcore).
  rewrite Hrun in Hcore. cbn [fst snd] in Hcore.
  destruct (vote_core_grant _ _ _ _ _ _ Hcore Hgrant) as (c1 & Hc' & Hsame & ?).
  destruct (core_same_log _ _ Hsame) as [Hli Hlt].
  rewrite Hc' in *. destruct Hsame as []. node_simpl.
  rewrite <- Hli, <- Hlt. split_and!; naive_solver congruence.
Qed.

(** A candidate of term 4 whose log ends at (3, 2) asks [sim_follower]. *)
Lemma OnRequestVote_grant_witness :
  let n := sim_node 2 sim_follower tt sim_init in
  let '(resp, n') := OnRequestVote (mkVoteRequest 4 1 3 2) n in
  vresp_vote_granted resp = true ∧ voted_for_ (core n') = 1 ∧
  disk_state (env_ n') = Some (persistent_state (core n')).
Proof.
  cbv zeta. destruct (OnRequestVote _ _) as [resp n'] eqn:Hrun.
  assert (Hg : vresp_vote_granted resp = true)
    by (vm_compute in Hrun; by injection Hrun as <- <-).
  pose proof (OnRequestVote_grant Datatypes.id _ _ _ _ Hrun Hg)
    as (_ & _ & Hv & _ & _ & _ & Hdisk).
  by split_and!.
Defined.
