(* ===== verification/AppendEntries.v ===== *)
(** Log replication on the follower: [OnAppendEntries]
    (src/modules/raft/node/raft_node.cpp). *)
From S2P Require Import Prelude Command Types Timer Metrics Env Sim Node SimNode.
From S2P Require Import NodeLog Election.

(** ** The handler *)

(** How the entry loop ends: [return] on a gap before the entry (with the index
    to probe), or normally with [log_changed], [old_log] and [match_index]. *)
Inductive EntryLoop :=
  | LoopGap (c : RaftCore) (probe_index : Z)
  | LoopDone (c : RaftCore) (log_changed : bool) (old_log : option (list LogRecord))
             (match_index : Z).

(** The loop over [request.entries()]. *)
Fixpoint AppendEntriesLoop (entries : list LogRecord) (c : RaftCore) (log_changed : bool)
    (old_log : option (list LogRecord)) (match_index : Z) : EntryLoop :=
  match entries with
  | [] => LoopDone c log_changed old_log match_index
  | req_entry :: rest =>
      (* log_.push_back(...), with old_log saved the first time *)
      let push c old_log :=
        let old_log := match old_log with Some l => l | None => log_ c end in
        AppendEntriesLoop rest (c <| log_ := log_ c ++ [req_entry] |>) true (Some old_log)
          (index req_entry) in
      if decide (index req_entry ≤ last_snapshot_index_ c) then
        AppendEntriesLoop rest c log_changed old_log (Z.max match_index (index req_entry))
      else if decide (SafeAddOne (LastLogIndexLocked c) < index req_entry) then
        LoopGap c (u64 (index req_entry - 1))
      else if HasLogAtIndexLocked c (index req_entry) then
        let offset := LogOffsetLocked c (index req_entry) in
        match log_ c !! offset with
        | Some r =>
            if decide (term r ≠ term req_entry) then
              let old_log := match old_log with Some l => l | None => log_ c end in
              push (c <| log_ := take offset (log_ c) |>) (Some old_log)
            else AppendEntriesLoop rest c log_changed old_log (index req_entry)
        | None => push c old_log   (* out of range: excluded by log_ok *)
        end
      else push c old_log
  end.

Section operations.
Context {SM E : Type} `{HostEnv E, IRaftStorage E}.
Implicit Types n : Node SM E.

(** [OnAppendEntries] after the entry loop: persist the log, move the commit
    index, answer. *)
Definition FinishAppendEntries (request : AppendEntriesRequest) (log_changed : bool)
    (old_log : option (list LogRecord)) (match_index : Z) (response : AppendEntriesResponse) n :
    (AppendEntriesResponse * bool) * Node SM E :=
  let answer (success : bool) n :=
    response <| aresp_term := current_term_ (core n) |> <| aresp_success := success |>
      <| aresp_match_index := match_index |>
      <| aresp_last_log_index := LastLogIndexLocked (core n) |> in
  let '((persisted, _), n) :=
    if log_changed then PersistStateLocked n else ((true, ""), n) in
  if negb persisted then
    let n := match old_log with
             | Some l => n <| core ::= λ c, c <| log_ := l |> |>
             | None => n
             end in
    ((answer false n, false), n)
  else if decide (commit_index_ (core n) < areq_leader_commit request) then
    let new_commit := Z.min (areq_leader_commit request) (LastLogIndexLocked (core n)) in
    if decide (commit_index_ (core n) < new_commit) then
      let old_commit_index := commit_index_ (core n) in
      let n := n <| core ::= λ c, c <| commit_index_ := new_commit |> |> in
      let '((committed, _), n) := PersistStateLocked n in
      if negb committed then
        let n := n <| core ::= λ c, c <| commit_index_ := old_commit_index |> |> in
        ((answer false n, false), n)
      else ((answer true n, true), n)
    else ((answer true n, false), n)
  else ((answer true n, false), n).

(** The role update at the head of [OnAppendEntries]. *)
Definition FollowLeaderLocked (request : AppendEntriesRequest) n : bool * Node SM E :=
  if bool_decide (current_term_ (core n) < areq_term request) ||
     bool_decide (role_ (core n) ≠ kFollower) ||
     bool_decide (leader_id_ (core n) ≠ areq_leader_id request)
  then BecomeFollowerLocked (areq_term request) (areq_leader_id request) n
  else (true, ResetElectionTimerLocked
                (n <| core ::= λ c, c <| leader_id_ := areq_leader_id request |> |>)).

(** [OnAppendEntries] up to the release of [mu_]: the response, and
    [should_apply]. *)
Definition OnAppendEntriesLocked (request : AppendEntriesRequest) n :
    (AppendEntriesResponse * bool) * Node SM E :=
  let response := mkAppendEntriesResponse (current_term_ (core n)) false
                    (last_snapshot_index_ (core n)) (LastLogIndexLocked (core n)) 0 0 in
  if decide (areq_term request < current_term_ (core n)) then ((response, false), n)
  else
    let '(followed, n) := FollowLeaderLocked request n in
    let response := response <| aresp_term := current_term_ (core n) |> in
    if negb followed then
      ((response <| aresp_last_log_index := LastLogIndexLocked (core n) |>, false), n)
    else
      let prev := areq_prev_log_index request in
      if decide (prev < last_snapshot_index_ (core n)) then
        ((SetAppendEntriesConflictHintLocked (core n) prev response, false), n)
      else if negb (HasLogAtIndexLocked (core n) prev) then
        ((SetAppendEntriesConflictHintLocked (core n) prev response, false), n)
      else if decide (TermAtIndexLocked (core n) prev ≠ areq_prev_log_term request) then
        ((SetAppendEntriesConflictHintLocked (core n) prev response, false), n)
      else
        match AppendEntriesLoop (areq_entries request) (core n) false None prev with
        | LoopGap c probe_index =>
            ((SetAppendEntriesConflictHintLocked c probe_index response, false),
             n <| core := c |>)
        | LoopDone c log_changed old_log match_index =>
            FinishAppendEntries request log_changed old_log match_index response
              (n <| core := c |>)
        end.
End operations.

(** ** The specification of the entry loop *)

(** What the follower's log becomes: keep the records that agree with the
    request's, and from the first record whose term differs (or that is missing)
    on take the request's. *)
Fixpoint merge_entries (tail entries : list LogRecord) {struct entries} : list LogRecord :=
  match entries, tail with
  | [], _ => tail
  | e :: es, r :: tail' =>
      if decide (term r = term e) then r :: merge_entries tail' es else entries
  | _, [] => entries
  end.

(** Whether anything is written. *)
Fixpoint merge_changes (tail entries : list LogRecord) {struct entries} : bool :=
  match entries, tail with
  | [], _ => false
  | e :: es, r :: tail' => if decide (term r = term e) then merge_changes tail' es else true
  | _, [] => true
  end.

(** A request is well formed when its entries follow [prev_log_index] without a
    gap and stay in range; [BuildAppendEntriesRequest] only builds such requests. *)
Definition entries_ok (prev : Z) (entries : list LogRecord) : Prop :=
  contiguous (prev + 1) entries ∧ prev + Z.of_nat (length entries) ≤ u64_max.

Section loop.
Implicit Types c : RaftCore.

Lemma merge_unchanged tail es : merge_changes tail es = false → merge_entries tail es = tail.
Proof.
  revert tail. induction es as [|e es IH]; intros [|r tail]; simpl; try done.
  case_decide; [|done]. intros ?. f_equal. auto.
Qed.

Lemma snoc_log_ok c e :
  log_ok c → index e = LastLogIndexLocked c + 1 → index e ≤ u64_max →
  log_ok (c <| log_ := log_ c ++ [e] |>) ∧
  LastLogIndexLocked (c <| log_ := log_ c ++ [e] |>) = LastLogIndexLocked c + 1.
Proof.
  intros Hok He Hmax.
  assert (Hlast : LastLogIndexLocked (c <| log_ := log_ c ++ [e] |>) = LastLogIndexLocked c + 1).
  { unfold LastLogIndexLocked at 1. node_simpl. by rewrite last_snoc. }
  split; [|done]. split; [| |apply (log_low c Hok)|lia].
  - destruct (log_front c Hok) as (cmd & Hh & ?). exists cmd. node_simpl.
    split; [|done]. by destruct (log_ c).
  - node_simpl. apply contiguous_app. split; [apply (log_contiguous c Hok)|].
    apply contiguous_cons. split; [|apply contiguous_nil].
    rewrite He, LastLogIndex_ok by done. lia.
Qed.

Lemma last_index_cons (e : LogRecord) es m :
  match last (e :: es) with Some e' => index e' | None => m end =
  match last es with Some e' => index e' | None => index e end.
Proof.
  destruct es as [|e' es]; [done|]. rewrite last_cons_cons.
  destruct (last (e' :: es)) eqn:Hl; [done|]. by apply last_None in Hl.
Qed.

(** Once the tail is exhausted every remaining entry is appended. *)
Lemma AppendLoop_append es c changed old m :
  log_ok c → contiguous (LastLogIndexLocked c + 1) es →
  LastLogIndexLocked c + Z.of_nat (length es) ≤ u64_max →
  AppendEntriesLoop es c changed (Some old) m =
    LoopDone (c <| log_ := log_ c ++ es |>) (changed || negb (bool_decide (es = [])))
      (Some old) (match last es with Some e => index e | None => m end).
Proof.
  revert c changed m. induction es as [|e es IH]; intros c changed m Hok Hc Hlen.
  { simpl. rewrite app_nil_r, orb_false_r. by destruct c. }
  apply contiguous_cons in Hc as [He Hc]. cbn [length] in Hlen.
  pose proof (LastLogIndex_ge c Hok). pose proof (log_low c Hok).
  destruct (snoc_log_ok c e Hok) as [Hok' Hlast]; [lia..|].
  cbn [AppendEntriesLoop]. rewrite decide_False by lia.
  rewrite SafeAddOne_lt by (try apply LastLogIndex_u64; done || lia).
  rewrite decide_False by lia. rewrite HasLogAtIndex_spec, bool_decide_false by (done || lia).
  rewrite IH; [|done|by rewrite Hlast|rewrite Hlast; lia].
  rewrite (bool_decide_false (e :: es = [])) by done. rewrite orb_true_r, last_index_cons. node_simpl.
  by rewrite <- app_assoc.
Qed.

Lemma AppendLoop_push e es c old :
  log_ok c → contiguous (LastLogIndexLocked c + 1) (e :: es) →
  LastLogIndexLocked c + Z.of_nat (length (e :: es)) ≤ u64_max →
  AppendEntriesLoop es (c <| log_ := log_ c ++ [e] |>) true (Some old) (index e) =
    LoopDone (c <| log_ := log_ c ++ e :: es |>) true (Some old)
      (match last (e :: es) with Some e' => index e' | None => 0 end).
Proof.
  intros Hok [He Hc]%contiguous_cons Hlen. cbn [length] in Hlen.
  destruct (snoc_log_ok c e Hok) as [Hok' Hlast]; [lia..|].
  rewrite AppendLoop_append; [|done|by rewrite Hlast|rewrite Hlast; lia].
  rewrite last_index_cons. node_simpl. by rewrite <- app_assoc.
Qed.

(** Cutting the log after the boundary record keeps it well formed. *)
Lemma truncate_log_ok c (k : nat) :
  log_ok c → (0 < k ≤ length (log_ c))%nat →
  log_ok (c <| log_ := take k (log_ c) |>) ∧
  LastLogIndexLocked (c <| log_ := take k (log_ c) |>) = last_snapshot_index_ c + Z.of_nat k - 1.
Proof.
  intros Hok Hk.
  assert (Hlast : LastLogIndexLocked (c <| log_ := take k (log_ c) |>) =
                  last_snapshot_index_ c + Z.of_nat k - 1).
  { unfold LastLogIndexLocked. node_simpl.
    destruct (last (take k (log_ c))) as [r|] eqn:Hl.
    - rewrite (contiguous_last _ _ _ (contiguous_take _ k _ (log_contiguous c Hok)) Hl).
      rewrite length_take. lia.
    - apply last_None in Hl. apply (f_equal length) in Hl. rewrite length_take in Hl.
      simpl in Hl. lia. }
  split; [|done]. pose proof (LastLogIndex_ok c Hok). pose proof (log_high c Hok).
  split; [| |apply (log_low c Hok)|lia].
  - destruct (log_front c Hok) as (cmd & Hh & ?). exists cmd. node_simpl. split; [|done].
    destruct (log_ c), k; done || lia.
  - node_simpl. apply contiguous_take, (log_contiguous c Hok).
Qed.

Lemma LastLogIndex_set_log c l :
  LastLogIndexLocked (c <| log_ := l |>) =
    match last l with Some r => index r | None => last_snapshot_index_ c end.
Proof. done. Qed.

(** The loop computes [merge_entries] on the part of the log after
    [prev_log_index]. *)
Lemma AppendLoop_merge entries c (k : nat) m :
  log_ok c → (0 < k ≤ length (log_ c))%nat →
  contiguous (last_snapshot_index_ c + Z.of_nat k) entries →
  last_snapshot_index_ c + Z.of_nat k - 1 + Z.of_nat (length entries) ≤ u64_max →
  let tail := drop k (log_ c) in
  AppendEntriesLoop entries c false None m =
    LoopDone (c <| log_ := take k (log_ c) ++ merge_entries tail entries |>)
      (merge_changes tail entries)
      (if merge_changes tail entries then Some (log_ c) else None)
      (match last entries with Some e => index e | None => m end).
Proof.
  intros Hok. revert k m. induction entries as [|e es IH]; intros k m Hk Hc Hlen.
  { simpl. rewrite take_drop. by destruct c. }
  apply contiguous_cons in Hc as [He Hc]. cbn [length] in Hlen. cbn [AppendEntriesLoop].
  pose proof (LastLogIndex_ok c Hok) as Hlast. pose proof (log_low c Hok).
  rewrite decide_False by lia.
  assert (HS : ¬ SafeAddOne (LastLogIndexLocked c) < index e).
  { destruct (SafeAddOne_cases (LastLogIndexLocked c) (LastLogIndex_u64 c Hok)); lia. }
  rewrite decide_False by done. rewrite HasLogAtIndex_spec by done.
  destruct (decide (k < length (log_ c))%nat) as [Hin|Hend].
  - assert (Hhas : HasLogAtIndexLocked c (index e) = true)
      by (rewrite HasLogAtIndex_spec, bool_decide_true by (done || lia); done).
    rewrite bool_decide_true by lia.
    destruct (LogAtIndex_offset_in_range c _ Hok Hhas) as [Hoff _].
    replace (LogOffsetLocked c (index e)) with k by (rewrite Hoff; lia).
    destruct (lookup_lt_is_Some_2 _ _ Hin) as [r Hr]. rewrite Hr.
    rewrite (drop_S _ _ _ Hr). cbn [merge_entries merge_changes].
    destruct (decide (term r = term e)) as [Ht|Ht].
    + rewrite decide_False by naive_solver.
      rewrite (IH (S k)) by (try lia; by replace (last_snapshot_index_ c + Z.of_nat (S k)) with
        (last_snapshot_index_ c + Z.of_nat k + 1) by lia).
      rewrite (take_S_r _ _ _ Hr), <- app_assoc. cbn [app]. f_equal.
      by rewrite last_index_cons.
    + rewrite decide_True by done.
      destruct (truncate_log_ok c k Hok) as [Hok' Hlast']; [lia|].
      rewrite AppendLoop_push; [|done|rewrite Hlast'; apply contiguous_cons|].
      * cbn [last]. node_simpl. by rewrite !last_index_cons.
      * split; [lia|]. by replace (last_snapshot_index_ c + Z.of_nat k - 1 + 1 + 1) with
          (last_snapshot_index_ c + Z.of_nat k + 1) by lia.
      * rewrite Hlast'. cbn [length]. lia.
  - rewrite bool_decide_false by lia. rewrite drop_ge, take_ge by lia.
    cbn [merge_entries merge_changes].
    rewrite AppendLoop_push; [|done|apply contiguous_cons; split; [lia|]|cbn [length]; lia].
    + by rewrite !last_index_cons.
    + rewrite Hlast. by replace (last_snapshot_index_ c + Z.of_nat (length (log_ c)) - 1 + 1 + 1)
        with (last_snapshot_index_ c + Z.of_nat k + 1) by lia.
Qed.
End loop.

(** ** Arbitrary requests

    Whatever a request holds, the loop keeps the log well formed: a record is only
    stored at the index its position gives it. *)
Section arbitrary.
Implicit Types c : RaftCore.

Definition set_log (l : list LogRecord) (c : RaftCore) : RaftCore := c <| log_ := l |>.

Lemma set_log_id c : set_log (log_ c) c = c.
Proof. by destruct c. Qed.

(** The loop writes nothing but the log. *)
Lemma AppendLoop_log_only entries c changed old m :
  match AppendEntriesLoop entries c changed old m with
  | LoopGap c' _ | LoopDone c' _ _ _ => ∃ l, c' = set_log l c
  end.
Proof.
  revert c changed old m. induction entries as [|e es IH]; intros c changed old m.
  { exists (log_ c). by rewrite set_log_id. }
  assert (Hstep : ∀ l changed old m,
    match AppendEntriesLoop es (set_log l c) changed old m with
    | LoopGap c' _ | LoopDone c' _ _ _ => ∃ l, c' = set_log l c
    end).
  { intros l ch o k. specialize (IH (set_log l c) ch o k).
    by destruct (AppendEntriesLoop _ _ _ _ _); destruct IH as [l' ->]; exists l'. }
  cbn [AppendEntriesLoop]. case_decide; [apply IH|].
  case_decide; [exists (log_ c); by rewrite set_log_id|].
  destruct (HasLogAtIndexLocked c (index e)); [|apply Hstep].
  destruct (log_ c !! _) as [r|]; [|apply Hstep].
  destruct (decide (term r ≠ term e)); [apply (Hstep (_ ++ [e]))|apply IH].
Qed.

(** What the loop may return, started from a core with log [l0]. *)
Definition loop_ok (c : RaftCore) (r : EntryLoop) : Prop :=
  match r with
  | LoopGap c' _ => ∃ l, c' = set_log l c ∧ log_ok c'
  | LoopDone c' changed old _ =>
      ∃ l, c' = set_log l c ∧ log_ok c' ∧
           (changed = true → old = Some (log_ c)) ∧ (changed = false → l = log_ c)
  end.

(** The loop in the middle of a request: [c] holds the log at entry. *)
Lemma AppendLoop_arbitrary entries c l changed old m :
  log_ok c → log_ok (set_log l c) → Forall (λ e, is_u64 (index e)) entries →
  (changed = true → old = Some (log_ c)) → (changed = false → old = None ∧ l = log_ c) →
  loop_ok c (AppendEntriesLoop entries (set_log l c) changed old m).
Proof.
  intros Hok. revert l changed old m.
  induction entries as [|e es IH]; intros l changed old m Hl Hu Hold Hsame.
  { exists l. split_and!; try done. naive_solver. }
  apply Forall_cons in Hu as [He Hu]. cbn [AppendEntriesLoop].
  assert (Hold' : Some (match old with Some l1 => l1 | None => l end) = Some (log_ c)).
  { destruct changed; [by rewrite Hold|]. by destruct Hsame as [-> ->]. }
  change (log_ (set_log l c)) with l.
  change (last_snapshot_index_ (set_log l c)) with (last_snapshot_index_ c).
  pose proof (LastLogIndex_u64 _ Hl) as Hlu. pose proof (LastLogIndex_ok _ Hl) as Hll.
  pose proof (log_high _ Hl) as Hhigh.
  change (last_snapshot_index_ (set_log l c)) with (last_snapshot_index_ c) in Hll.
  change (log_ (set_log l c)) with l in Hll.
  case_decide as Hsnap; [by apply IH|]. case_decide as Hgap; [by exists l|].
  destruct (HasLogAtIndexLocked (set_log l c) (index e)) eqn:Hhas.
  - destruct (LogAtIndex_offset_in_range _ _ Hl Hhas) as [Hoff Hlt].
    rewrite HasLogAtIndex_spec, bool_decide_eq_true in Hhas by done.
    change (last_snapshot_index_ (set_log l c)) with (last_snapshot_index_ c) in *.
    change (log_ (set_log l c)) with l in *.
    destruct (lookup_lt_is_Some_2 _ _ Hlt) as [r Hr]. rewrite Hr.
    case_decide as Ht; [|by apply IH].
    set (k := LogOffsetLocked _ _) in *.
    destruct (truncate_log_ok _ k Hl) as [Hok' Hlast]; [change (log_ (set_log l c)) with l; lia|].
    change (log_ (set_log l c)) with l in *.
    change (last_snapshot_index_ (set_log l c)) with (last_snapshot_index_ c) in *.
    apply (IH (take k l ++ [e]) true _ (index e)); [|done|by intros _|done].
    apply (snoc_log_ok _ e Hok'); [rewrite Hlast; lia|u64_lia].
  - rewrite HasLogAtIndex_spec, bool_decide_eq_false in Hhas by done.
    change (last_snapshot_index_ (set_log l c)) with (last_snapshot_index_ c) in *.
    apply (IH (l ++ [e]) true _ (index e)); [|done|by intros _|done].
    apply (snoc_log_ok _ e Hl); [|u64_lia].
    destruct (SafeAddOne_cases _ Hlu); lia.
Qed.

Lemma AppendLoop_start entries c m :
  log_ok c → Forall (λ e, is_u64 (index e)) entries →
  loop_ok c (AppendEntriesLoop entries c false None m).
Proof.
  intros Hok Hu. pose proof (AppendLoop_arbitrary entries c (log_ c) false None m) as Hloop.
  assert (Hc : set_log (log_ c) c = c) by (by destruct c).
  rewrite Hc in Hloop. by apply Hloop.
Qed.
End arbitrary.

(** ** The handler as a function of the core *)
Section effects.
Context {SM E : Type} `{HostEnv E, IRaftStorage E}.
Implicit Types n : Node SM E.

(** [FinishAppendEntries] on the core, given the outcomes of the two writes:
    success, [should_apply], and the new core. *)
Definition finish_core (leader_commit : Z) (log_changed : bool) (old_log : option (list LogRecord))
    (persisted committed : bool) (c : RaftCore) : bool * bool * RaftCore :=
  if log_changed && negb persisted then
    (false, false, match old_log with Some l => set_log l c | None => c end)
  else
    let new_commit := Z.min leader_commit (LastLogIndexLocked c) in
    if decide (commit_index_ c < new_commit) then
      if committed then (true, true, c <| commit_index_ := new_commit |>) else (false, false, c)
    else (true, false, c).

Lemma FinishAppendEntries_core request changed old m response n r b n' :
  FinishAppendEntries request changed old m response n = ((r, b), n') →
  same_identity n n' ∧ aresp_match_index r = m ∧
  ∃ persisted committed,
    finish_core (areq_leader_commit request) changed old persisted committed (core n) =
      (aresp_success r, b, core n').
Proof.
  unfold FinishAppendEntries, finish_core, same_identity.
  assert (Hp : let r := if changed then PersistStateLocked n else ((true, ""), n) in
               same_but_host n r.2 ∧ (changed = false → r.1.1 = true)).
  { destruct changed; [split; [apply PersistStateLocked_frame|done]|done]. }
  destruct (if changed then _ else _) as [[persisted ?] n1]. cbn [fst snd] in Hp.
  destruct Hp as [[Hc1 _ Hcore1 _ _ Hr1 _] Hch].
  destruct persisted; cbn [negb]; rewrite ?andb_true_r, ?andb_false_r.
  2:{ destruct changed; [|by specialize (Hch eq_refl)].
      intros [= <- <- <-]. destruct old; node_simpl; (split; [by rewrite ?Hc1|split; [done|]]);
        exists false, true; rewrite <- Hcore1; done. }
  destruct (decide (commit_index_ (core n1) < areq_leader_commit request)) as [Hlc|Hlc].
  - case_decide as Hnew.
    + match goal with |- context [PersistStateLocked ?m] =>
        destruct (PersistStateLocked_frame m) as [Hc2 _ Hcore2 _ _ Hr2 _];
        destruct (PersistStateLocked m) as [[[] ?] n2] end; node_simpl in *; intros [= <- <- <-];
        node_simpl; rewrite ?Hc2, ?Hr2; (split; [done|split; [done|]]).
      * exists true, true. cbn [negb andb]. rewrite andb_false_r. rewrite Hcore2, <- Hcore1.
        by rewrite decide_True.
      * exists true, false. cbn [negb andb]. rewrite andb_false_r. rewrite Hcore2, <- Hcore1.
        rewrite decide_True by done. node_simpl. by destruct (core n1).
    + intros [= <- <- <-]. split; [done|split; [done|]]. exists true, true. rewrite andb_false_r.
      rewrite <- Hcore1. by rewrite decide_False.
  - intros [= <- <- <-]. split; [done|split; [done|]]. exists true, true. rewrite andb_false_r.
    rewrite <- Hcore1. rewrite decide_False by lia. done.
Qed.

(** The consistency check on [prev_log_index] and [prev_log_term]. *)
Definition prev_matches (request : AppendEntriesRequest) (c : RaftCore) : Prop :=
  let prev := areq_prev_log_index request in
  last_snapshot_index_ c ≤ prev ∧ HasLogAtIndexLocked c prev = true ∧
  TermAtIndexLocked c prev = areq_prev_log_term request.

(** What the request leaves of the core, once accepted as coming from the
    leader of the term. *)
Definition leader_seen (request : AppendEntriesRequest) : RaftCore → RaftCore :=
  follower_core (areq_term request) (areq_leader_id request).

Lemma FollowLeader_core request n :
  same_identity n (FollowLeaderLocked request n).2 ∧
  core (FollowLeaderLocked request n).2 = leader_seen request (core n).
Proof.
  unfold FollowLeaderLocked. case_match eqn:Hb.
  - destruct (BecomeFollowerLocked_core (areq_term request) (areq_leader_id request) n)
      as (? & ? & ? & _). done.
  - apply orb_false_elim in Hb as [[H1 H2]%orb_false_elim H3].
    apply bool_decide_eq_false in H1, H2, H3. apply dec_stable in H2, H3. cbn [snd].
    match goal with |- context [ResetElectionTimerLocked ?m] =>
      destruct (ResetElectionTimer_frame m) as [Hc _ Hcore _ _ Hr _] end.
    unfold same_identity. rewrite Hc, Hr, Hcore. split; [done|].
    unfold leader_seen, follower_core. rewrite decide_False by done. node_simpl.
    rewrite (core_eta (core n)) at 1. by rewrite <- H2, <- H3.
Qed.

(** Following a leader and answering leave the state machine alone. *)
Lemma FollowLeader_machine request n :
  state_machine_ (FollowLeaderLocked request n).2 = state_machine_ n ∧
  snapshot_config_ (FollowLeaderLocked request n).2 = snapshot_config_ n.
Proof.
  unfold FollowLeaderLocked. case_match.
  - by destruct (BecomeFollowerLocked_core (areq_term request) (areq_leader_id request) n)
      as (_ & _ & _ & -> & ->).
  - cbn [snd]. match goal with |- context [ResetElectionTimerLocked ?m] =>
      by destruct (ResetElectionTimer_frame m) as [_ -> _ _ _ _ ->] end.
Qed.

Lemma FinishAppendEntries_machine request changed old m response n :
  state_machine_ (FinishAppendEntries request changed old m response n).2 = state_machine_ n.
Proof.
  unfold FinishAppendEntries. cbv zeta.
  assert (Hp : state_machine_ (if changed then PersistStateLocked n else ((true, ""), n)).2 =
               state_machine_ n) by (destruct changed; [apply PersistStateLocked_frame|done]).
  destruct (if changed then _ else _) as [[[] ?] n1]; cbn [snd negb] in *; [|by destruct old].
  case_decide; [|done]. case_decide; [|done].
  match goal with |- context [PersistStateLocked ?m] =>
    pose proof (sbh_sm _ _ (PersistStateLocked_frame m)) as Hp2;
    destruct (PersistStateLocked m) as [[[] ?] n2] end; cbn [snd negb] in *; by rewrite <- Hp.
Qed.

Lemma OnAppendEntriesLocked_machine request n :
  state_machine_ (OnAppendEntriesLocked request n).2 = state_machine_ n.
Proof.
  unfold OnAppendEntriesLocked. cbv zeta. case_decide; [done|].
  destruct (FollowLeader_machine request n) as [Hm _].
  destruct (FollowLeaderLocked request n) as [[] n1]; cbn [snd negb] in *; [|done].
  case_decide; [done|]. case_match; [done|]. case_decide; [done|].
  destruct (AppendEntriesLoop _ _ _ _ _); [done|]. by rewrite FinishAppendEntries_machine.
Qed.

(** The outcomes of [OnAppendEntries] on the core. *)
Inductive append_effect (request : AppendEntriesRequest) (c : RaftCore) :
    AppendEntriesResponse → bool → RaftCore → Prop :=
  | append_stale resp :
      areq_term request < current_term_ c → aresp_success resp = false →
      append_effect request c resp false c
  | append_rejected resp :
      current_term_ c ≤ areq_term request → aresp_success resp = false →
      append_effect request c resp false (leader_seen request c)
  | append_gap resp c' probe :
      current_term_ c ≤ areq_term request → aresp_success resp = false →
      prev_matches request (leader_seen request c) →
      AppendEntriesLoop (areq_entries request) (leader_seen request c) false None
        (areq_prev_log_index request) = LoopGap c' probe →
      append_effect request c resp false c'
  | append_done resp b c1 c' changed old m persisted committed :
      current_term_ c ≤ areq_term request → prev_matches request (leader_seen request c) →
      AppendEntriesLoop (areq_entries request) (leader_seen request c) false None
        (areq_prev_log_index request) = LoopDone c1 changed old m →
      aresp_match_index resp = m →
      finish_core (areq_leader_commit request) changed old persisted committed c1 =
        (aresp_success resp, b, c') →
      append_effect request c resp b c'.

Lemma OnAppendEntries_effect request n resp b n' :
  OnAppendEntriesLocked request n = ((resp, b), n') →
  same_identity n n' ∧ append_effect request (core n) resp b (core n').
Proof.
  unfold OnAppendEntriesLocked. cbv zeta.
  case_decide as Hstale; [by intros [= <- <- <-]; split; [|by apply append_stale]|].
  destruct (FollowLeader_core request n) as [Hid Hcore].
  destruct (FollowLeaderLocked request n) as [followed n1]. cbn [snd] in Hid, Hcore.
  unfold same_identity in Hid.
  destruct followed; cbn [negb]; rewrite ?Hcore.
  2:{ intros [= <- <- <-]. rewrite Hcore. split; [done|by apply append_rejected; [lia|]]. }
  assert (Hhint : ∀ c probe r, aresp_success r = false →
    aresp_success (SetAppendEntriesConflictHintLocked c probe r) = false).
  { intros c probe r Hr. unfold SetAppendEntriesConflictHintLocked. repeat case_match; done. }
  case_decide as H1; [intros [= <- <- <-]; rewrite Hcore; split; [done|apply append_rejected; [lia|by apply Hhint]]|].
  case_match eqn:H2; [intros [= <- <- <-]; rewrite Hcore; split; [done|apply append_rejected; [lia|by apply Hhint]]|].
  case_decide as H3; [intros [= <- <- <-]; rewrite Hcore; split; [done|apply append_rejected; [lia|by apply Hhint]]|].
  apply negb_false_iff in H2.
  destruct (AppendEntriesLoop _ _ _ _ _) as [c probe|c changed old m] eqn:Hloop.
  - intros [= <- <- <-]. split; [exact Hid|]. eapply append_gap; [lia|by apply Hhint|split_and!; [lia|done..]|done].
  - intros Hfin. apply FinishAppendEntries_core in Hfin as (Hid' & Hm & persisted & committed & Hfin).
    destruct Hid' as [Hc' Hr']. destruct Hid as [Hc1 Hr1]. node_simpl in *.
    split; [by split; congruence|].
    eapply append_done; [lia|split_and!; [lia|done..]|done..].
Qed.
End effects.

(** ** What the handler does to a well-formed log *)
Section results.
Implicit Types c : RaftCore.

Lemma same_log_log_ok c c' : same_log c c' → log_ok c → log_ok c'.
Proof.
  intros Hs [? ? ? ?]. destruct (core_same_log _ _ Hs) as [Hl _]. destruct Hs as [H1 _ _ H2 H3].
  by split; rewrite ?Hl, ?H1, ?H2, ?H3.
Qed.

Lemma same_log_core_ok c c' : same_log c c' → core_ok c → core_ok c'.
Proof.
  intros Hs [Hok ? ? ?]. split; [by eapply same_log_log_ok|destruct Hs; congruence..].
Qed.

Lemma set_log_core_ok c l : core_ok c → log_ok (set_log l c) → core_ok (set_log l c).
Proof. intros [_ ? ? ?] Hl. by split. Qed.

Lemma same_log_lookup c c' i : same_log c c' → LogAtIndexLocked c' i = LogAtIndexLocked c i.
Proof.
  intros [Hl _ _ Hi _].
  unfold LogAtIndexLocked, HasLogAtIndexLocked, LogOffsetLocked, FirstLogIndexLocked.
  by rewrite Hl, Hi.
Qed.

Lemma LastLogIndex_log c c' :
  log_ c' = log_ c → last_snapshot_index_ c' = last_snapshot_index_ c →
  LastLogIndexLocked c' = LastLogIndexLocked c.
Proof. unfold LastLogIndexLocked. by intros -> ->. Qed.

Lemma log_ok_commit c i : log_ok c → log_ok (c <| commit_index_ := i |>).
Proof. by intros []. Qed.

Lemma finish_core_log lc changed old persisted committed c s b c' :
  finish_core lc changed old persisted committed c = (s, b, c') →
  (log_ c' = log_ c ∨ changed = true ∧ s = false ∧ Some (log_ c') = old ∨
   changed = true ∧ s = false ∧ old = None) ∧
  commit_index_ c ≤ commit_index_ c' ∧
  (s = false → commit_index_ c' = commit_index_ c) ∧
  (s = true → log_ c' = log_ c ∧
     commit_index_ c' = Z.max (commit_index_ c) (Z.min lc (LastLogIndexLocked c))) ∧
  (b = true → s = true) ∧ commit_index_ c' ≤ Z.max (commit_index_ c) (LastLogIndexLocked c) ∧
  c' = c <| log_ := log_ c' |> <| commit_index_ := commit_index_ c' |>.
Proof.
  unfold finish_core. destruct (changed && negb persisted) eqn:Hc.
  - apply andb_prop in Hc as [-> _].
    intros [= <- <- <-].
    destruct old; node_simpl; (split_and!; try done; try (by destruct c)); solve [tauto|simpl; lia].
  - case_decide; [destruct committed|]; intros [= <- <- <-]; node_simpl;
      (split_and!; try done; try lia; try tauto); try (by destruct c); intros _; (split; [done|lia]).
Qed.

(** The log and the boundaries stay well formed, whatever the request holds and
    whichever writes fail. *)
Lemma append_effect_core_ok request c resp b c' :
  append_effect request c resp b c' → core_ok c →
  Forall (λ e, is_u64 (index e)) (areq_entries request) →
  core_ok c' ∧ commit_index_ c ≤ commit_index_ c' ∧
  (aresp_success resp = false → commit_index_ c' = commit_index_ c) ∧
  hs_le (hs_of c) (hs_of c') ∧ last_applied_ c' = last_applied_ c.
Proof.
  intros Heff Hok Hu.
  assert (Hseen : core_ok (leader_seen request c)) by
    (eapply same_log_core_ok; [apply follower_core_same_log|done]).
  assert (Hcm : commit_index_ (leader_seen request c) = commit_index_ c)
    by apply follower_core_same_log.
  assert (Hap : last_applied_ (leader_seen request c) = last_applied_ c)
    by apply follower_core_same_log.
  pose proof (AppendLoop_start (areq_entries request) _ (areq_prev_log_index request)
                (core_log _ Hseen) Hu) as Hloop.
  destruct Heff as [resp Hst Hs|resp Ht Hs|resp c' probe Ht Hs Hp Hl
                   |resp b c1 c' changed old m persisted committed Ht Hp Hl Hm Hf].
  - by split_and!.
  - split_and!; [done|lia|done|by apply follower_core_hs|done].
  - rewrite Hl in Hloop. destruct Hloop as (l & -> & Hok').
    split_and!; [by apply set_log_core_ok|by rewrite <- Hcm|done|by apply follower_core_hs|exact Hap].
  - rewrite Hl in Hloop. destruct Hloop as (l & -> & Hok' & Hch & Hunch).
    apply finish_core_log in Hf as (Hlog & Hge & Hfail & _ & _ & Hmax & Hc').
    change (commit_index_ (set_log l ?c)) with (commit_index_ c) in *. rewrite Hcm in *.
    split_and!; [|done|done|rewrite Hc'; by apply follower_core_hs|by rewrite Hc'].
    assert (Hlok : log_ok (set_log (log_ c') (leader_seen request c))).
    { destruct Hlog as [->|[(Hc & _ & Ho)|(Hc & _ & Ho)]]; [done|..].
      - assert (log_ c' = log_ (leader_seen request c)) as -> by (rewrite Hch in Ho; congruence).
        rewrite set_log_id. apply Hseen.
      - by rewrite Ho in Hch; specialize (Hch Hc). }
    rewrite Hc'. destruct Hseen as [_ H1 H2 H3]. split; [by apply log_ok_commit|done|..].
    + change (last_applied_ (leader_seen request c) ≤ commit_index_ c'). lia.
    + change (commit_index_ c' ≤ u64_max). pose proof (log_high _ Hok'). lia.
Qed.

Lemma append_effect_should_apply request c resp b c' :
  append_effect request c resp b c' → b = true → aresp_success resp = true.
Proof. by destruct 1 as [| | |????????????? [_ [_ [_ [_ [? _]]]]]%finish_core_log]. Qed.
End results.

(** ** Well-formed requests: the log matches the leader's *)
Section matching.
Implicit Types c : RaftCore.

(** The number of records up to and including [prev]. *)
Definition prefix_size (prev : Z) (c : RaftCore) : nat :=
  Z.to_nat (prev + 1 - last_snapshot_index_ c).

(** The log a well-formed request asks for. *)
Definition merged_log (request : AppendEntriesRequest) (c : RaftCore) : list LogRecord :=
  let k := prefix_size (areq_prev_log_index request) c in
  take k (log_ c) ++ merge_entries (drop k (log_ c)) (areq_entries request).

Lemma merge_lookup tail es (j : nat) e :
  es !! j = Some e →
  ∃ r, merge_entries tail es !! j = Some r ∧ term r = term e ∧
       (r = e ∨ tail !! j = Some r).
Proof.
  revert tail j. induction es as [|e0 es IH]; intros tail j Hj; [done|].
  destruct tail as [|r tail]; cbn [merge_entries]; [by eauto 6|].
  case_decide as Ht; [|by eauto 6]. destruct j as [|j]; cbn in *; simplify_eq; [by eauto 6|].
  by apply IH.
Qed.

Lemma merge_agree tail es :
  (∀ (j : nat) e, es !! j = Some e → ∃ r, tail !! j = Some r ∧ term r = term e) →
  merge_entries tail es = tail.
Proof.
  revert tail. induction es as [|e es IH]; intros tail Hag; [by destruct tail|].
  destruct (Hag 0%nat e eq_refl) as (r & Hr & Ht). destruct tail as [|r0 tail]; [done|].
  cbn in Hr |- *. simplify_eq. rewrite decide_True by done. f_equal. apply IH.
  intros j e' Hj. apply (Hag (S j) e' Hj).
Qed.

Lemma prev_matches_prefix request c :
  log_ok c → prev_matches request c →
  (0 < prefix_size (areq_prev_log_index request) c ≤ length (log_ c))%nat ∧
  last_snapshot_index_ c + Z.of_nat (prefix_size (areq_prev_log_index request) c) =
    areq_prev_log_index request + 1.
Proof.
  intros Hok (Hlow & Hhas & _). rewrite HasLogAtIndex_spec, bool_decide_eq_true in Hhas by done.
  rewrite LastLogIndex_ok in Hhas by done. unfold prefix_size. lia.
Qed.

(** The loop on a well-formed request: no gap, and the merged log. *)
Lemma AppendLoop_merged request c :
  log_ok c → prev_matches request c →
  entries_ok (areq_prev_log_index request) (areq_entries request) →
  ∃ changed,
  AppendEntriesLoop (areq_entries request) c false None (areq_prev_log_index request) =
    LoopDone (set_log (merged_log request c) c) changed (if changed then Some (log_ c) else None)
      (areq_prev_log_index request + Z.of_nat (length (areq_entries request))) ∧
  (changed = false → merged_log request c = log_ c).
Proof.
  intros Hok Hp [Hc Hlen]. destruct (prev_matches_prefix _ _ Hok Hp) as [Hk Heq].
  unfold merged_log. set (k := prefix_size _ _) in *. eexists. split.
  - rewrite (AppendLoop_merge _ c k) by (done || rewrite Heq; try done; lia). f_equal.
    destruct (last (areq_entries request)) as [e|] eqn:Hl.
    + rewrite (contiguous_last _ _ _ Hc Hl). lia.
    + apply last_None in Hl. rewrite Hl. simpl. lia.
  - cbv beta. intros Hch. by rewrite (merge_unchanged _ _ Hch), take_drop.
Qed.

Lemma merged_log_ok request c :
  log_ok c → prev_matches request c →
  entries_ok (areq_prev_log_index request) (areq_entries request) →
  log_ok (set_log (merged_log request c) c).
Proof.
  intros Hok Hp He. destruct (AppendLoop_merged request c Hok Hp He) as (ch & Hl & _).
  assert (Hu : Forall (λ e, is_u64 (index e)) (areq_entries request)).
  { apply Forall_forall. intros e Hin. destruct He as [Hc Hlen].
    destruct (prev_matches_prefix _ _ Hok Hp). pose proof (log_low c Hok).
    pose proof (contiguous_elem _ _ _ Hc Hin). u64_lia. }
  pose proof (AppendLoop_start _ c (areq_prev_log_index request) Hok Hu) as H.
  rewrite Hl in H. by destruct H as (l & [= <-] & H & _).
Qed.

Lemma merged_log_lookup request c :
  log_ok c → prev_matches request c →
  entries_ok (areq_prev_log_index request) (areq_entries request) →
  let c' := set_log (merged_log request c) c in
  (∀ i, i ≤ areq_prev_log_index request → LogAtIndexLocked c' i = LogAtIndexLocked c i) ∧
  (∀ e, e ∈ areq_entries request → ∃ r, LogAtIndexLocked c' (index e) = Some r ∧
     term r = term e ∧ (r = e ∨ LogAtIndexLocked c (index e) = Some r)).
Proof.
  intros Hok Hp He c'. pose proof (merged_log_ok _ _ Hok Hp He) as Hok'. fold c' in Hok'.
  destruct (prev_matches_prefix _ _ Hok Hp) as [Hk Heq]. unfold merged_log in c'.
  set (k := prefix_size _ _) in *.
  assert (Hlook : ∀ i, LogAtIndexLocked c' i =
    if decide (last_snapshot_index_ c ≤ i) then
      (take k (log_ c) ++ merge_entries (drop k (log_ c)) (areq_entries request))
        !! Z.to_nat (i - last_snapshot_index_ c) else None)
    by (intros i; by rewrite LogAtIndex_lookup).
  split.
  - intros i Hi. rewrite Hlook, LogAtIndex_lookup by done. case_decide; [|done].
    rewrite lookup_app_l by (rewrite length_take; lia). apply lookup_take_lt. lia.
  - intros e (j & Hj)%list_elem_of_lookup. destruct He as [Hc _]. pose proof (Hc _ _ Hj) as Hidx.
    destruct (merge_lookup (drop k (log_ c)) _ _ _ Hj) as (r & Hr & Ht & Hor).
    rewrite Hlook, LogAtIndex_lookup by done. rewrite !decide_True by lia.
    replace (Z.to_nat (index e - last_snapshot_index_ c)) with (k + j)%nat by lia.
    rewrite lookup_app_r by (rewrite length_take; lia). rewrite length_take.
    replace (k + j - _)%nat with j by lia. rewrite lookup_drop in Hor. eauto.
Qed.
End matching.

Section properties.
Context {SM E : Type} `{HostEnv E, IRaftStorage E}.
Implicit Types n : Node SM E.

(** What a request makes of a log does not depend on the term. *)
Lemma merged_same_log request c c' :
  same_log c c' → merged_log request c' = merged_log request c.
Proof. intros [Hl _ _ Hi _]. unfold merged_log, prefix_size. by rewrite Hl, Hi. Qed.

Lemma prev_matches_same_log request c c' :
  same_log c c' → log_ok c → prev_matches request c' → prev_matches request c.
Proof.
  intros Hsl Hok. pose proof (same_log_log_ok _ _ Hsl Hok) as Hok'. unfold prev_matches.
  rewrite !TermAtIndex_ok by done. rewrite (same_log_lookup _ _ _ Hsl).
  rewrite !HasLogAtIndex_spec by done. destruct (core_same_log _ _ Hsl) as [-> _].
  by destruct Hsl as [_ _ _ -> _].
Qed.

(** What a request the node accepted does, when it is well formed. *)
Lemma append_effect_well_formed request c resp b c' :
  append_effect request c resp b c' → log_ok c →
  entries_ok (areq_prev_log_index request) (areq_entries request) →
  (aresp_success resp = false → log_ c' = log_ c ∨
     prev_matches request c ∧ log_ c' = merged_log request c) ∧
  (aresp_success resp = true →
     current_term_ c ≤ areq_term request ∧ prev_matches request c ∧
     log_ c' = merged_log request c ∧
     c' = (leader_seen request c) <| log_ := log_ c' |> <| commit_index_ := commit_index_ c' |> ∧
     commit_index_ c' =
       Z.max (commit_index_ c) (Z.min (areq_leader_commit request) (LastLogIndexLocked c')) ∧
     aresp_match_index resp =
       areq_prev_log_index request + Z.of_nat (length (areq_entries request))).
Proof.
  intros Heff Hok He.
  assert (Hsl : same_log c (leader_seen request c)) by apply follower_core_same_log.
  pose proof (same_log_log_ok _ _ Hsl Hok) as Hok1.
  pose proof (merged_same_log request _ _ Hsl) as Hmerge.
  pose proof (prev_matches_same_log request _ _ Hsl Hok) as Hprev.
  destruct Heff as [resp Hst Hs|resp Ht Hs|resp c' probe Ht Hs Hp Hl
                   |resp b c1 c' changed old m persisted committed Ht Hp Hl Hm Hf].
  - split; [by left|congruence].
  - split; [left; apply Hsl|congruence].
  - (* a well-formed request has no gap *)
    destruct (AppendLoop_merged request _ Hok1 Hp He) as (ch & Hl' & _). congruence.
  - destruct (AppendLoop_merged request _ Hok1 Hp He) as (ch & Hl' & Hch).
    rewrite Hl in Hl'. injection Hl' as -> -> -> ->. rewrite Hmerge in *.
    apply finish_core_log in Hf as (Hlog & _ & _ & Hsucc & _ & _ & Hc').
    split.
    + intros Hs. destruct Hlog as [->|[(-> & _ & [= ->])|(-> & _ & ?)]]; [by eauto| |done].
      left. apply Hsl.
    + intros Hs. destruct (Hsucc Hs) as [Hlog' Hcm].
      split_and!; [done|by apply Hprev|done|exact Hc'| |done].
      change (commit_index_ (set_log ?l ?c)) with (commit_index_ c) in Hcm.
      rewrite (sl_commit _ _ Hsl) in Hcm. rewrite Hcm. do 2 f_equal.
      apply LastLogIndex_log; [done|]. by rewrite Hc'.
Qed.
End properties.

(** A successful append that changed the log or the commit index is on disk. *)
Section durability.
Context {SM E : Type} `{HostEnv E, IRaftStorage E}.
Context (stored : PersistentRaftState → E → Prop) `{!DurableStorage E stored}.
Implicit Types n : Node SM E.

Lemma FinishAppendEntries_stored request changed old m response n r b n' :
  FinishAppendEntries request changed old m response n = ((r, b), n') →
  aresp_success r = true →
  stored (persistent_state (core n')) (env_ n') ∨
  changed = false ∧ core n' = core n.
Proof.
  unfold FinishAppendEntries. intros Hrun Hs.
  destruct changed.
  - destruct (PersistStateLocked n) as [[ok err] n1] eqn:Hp1.
    pose proof (PersistStateLocked_frame n) as Hf1. rewrite Hp1 in Hf1. apply sbh_core in Hf1.
    destruct ok; cbn [negb] in Hrun; [|by simplify_eq/=].
    apply (PersistStateLocked_stored stored) in Hp1. cbn [snd] in Hf1. rewrite <- Hf1 in Hp1.
    repeat case_decide; [|by simplify_eq/=; left..].
    match type of Hrun with context [PersistStateLocked ?m] =>
      pose proof (PersistStateLocked_frame m) as Hf2;
      destruct (PersistStateLocked m) as [[[] ?] n2] eqn:Hp2 end;
      cbn [negb] in Hrun; simplify_eq/=. left.
    rewrite (sbh_core _ _ Hf2). by apply (PersistStateLocked_stored stored) in Hp2.
  - cbn [negb] in Hrun. repeat case_decide; [|by simplify_eq/=; right..].
    match type of Hrun with context [PersistStateLocked ?m] =>
      pose proof (PersistStateLocked_frame m) as Hf2;
      destruct (PersistStateLocked m) as [[[] ?] n2] eqn:Hp2 end;
      cbn [negb] in Hrun; simplify_eq/=. left.
    rewrite (sbh_core _ _ Hf2). by apply (PersistStateLocked_stored stored) in Hp2.
Qed.

Lemma OnAppendEntries_stored request n resp b n' :
  OnAppendEntriesLocked request n = ((resp, b), n') →
  aresp_success resp = true → log_ok (core n) →
  Forall (λ e, is_u64 (index e)) (areq_entries request) →
  stored (persistent_state (core n')) (env_ n') ∨
  core n' = leader_seen request (core n).
Proof.
  unfold OnAppendEntriesLocked. cbv zeta. intros Hrun Hs Hok Hu.
  case_decide; [by simplify_eq/=|].
  destruct (FollowLeader_core request n) as [_ Hcore].
  destruct (FollowLeaderLocked request n) as [followed n1]. cbn [snd] in Hcore.
  assert (Hhint : ∀ c probe r, aresp_success (SetAppendEntriesConflictHintLocked c probe r) =
                               aresp_success r).
  { intros c probe r. unfold SetAppendEntriesConflictHintLocked. repeat case_match; done. }
  destruct followed; cbn [negb] in Hrun; [|by simplify_eq/=].
  do 3 (case_match; [simplify_eq/=; by rewrite Hhint in Hs|]).
  pose proof (AppendLoop_start (areq_entries request) (core n1) (areq_prev_log_index request))
    as Hloop.
  destruct (AppendEntriesLoop _ _ _ _ _) as [c probe|c changed old m].
  { simplify_eq/=. by rewrite Hhint in Hs. }
  destruct (FinishAppendEntries_stored _ _ _ _ _ _ _ _ _ Hrun Hs) as [|[-> Hc]]; [by left|right].
  rewrite Hc. node_simpl. rewrite Hcore in Hloop.
  destruct Hloop as (l & -> & _ & _ & Hl); [by eapply same_log_log_ok; [apply follower_core_same_log|]|done|].
  rewrite Hl by done. apply set_log_id.
Qed.
End durability.

(** ** Properties *)

(** C25: a successful append.  When a node with a well-formed log answers a
    well-formed request with success, its log now holds, at the index of every
    entry of the request, a record of that entry's term; everything up to
    [prev_log_index] is untouched and [prev_log_term] matched; [match_index]
    covers exactly the entries sent; the commit index moved, never backwards, to
    the leader's, bounded by the end of the log; and if the log or the commit
    index changed, the new state is the one on disk. *)
Theorem OnAppendEntries_success {SM E} `{HostEnv E, IRaftStorage E}
    (recovered : PersistentRaftState → PersistentRaftState) `{!StorageLaws E recovered}
    (request : AppendEntriesRequest) (n n' : Node SM E) resp b :
  OnAppendEntriesLocked request n = ((resp, b), n') →
  log_ok (core n) → entries_ok (areq_prev_log_index request) (areq_entries request) →
  aresp_success resp = true →
  let c := core n in let c' := core n' in
  log_ok c' ∧ current_term_ c' = areq_term request ∧ role_ c' = kFollower ∧
  TermAtIndexLocked c (areq_prev_log_index request) = areq_prev_log_term request ∧
  (∀ i, i ≤ areq_prev_log_index request → LogAtIndexLocked c' i = LogAtIndexLocked c i) ∧
  (∀ e, e ∈ areq_entries request → ∃ r, LogAtIndexLocked c' (index e) = Some r ∧
     term r = term e ∧ (r = e ∨ LogAtIndexLocked c (index e) = Some r)) ∧
  aresp_match_index resp =
    areq_prev_log_index request + Z.of_nat (length (areq_entries request)) ∧
  commit_index_ c' =
    Z.max (commit_index_ c) (Z.min (areq_leader_commit request) (LastLogIndexLocked c')) ∧
  (disk_state (env_ n') = Some (recovered (persistent_state c')) ∨
   c' = leader_seen request c).
Proof.
  intros Hrun Hok He Hs. cbv zeta.
  destruct (OnAppendEntries_effect _ _ _ _ _ Hrun) as [_ Heff].
  destruct (append_effect_well_formed _ _ _ _ _ Heff Hok He) as [_ Hsucc].
  destruct (Hsucc Hs) as (Hterm & Hp & Hlog & Hc' & Hcommit & Hmatch).
  pose proof (merged_log_ok _ _ Hok Hp He) as Hok'.
  destruct (merged_log_lookup _ _ Hok Hp He) as [Hbelow Hent].
  assert (Hsl : same_log (leader_seen request (core n)) (core n)).
  { pose proof (follower_core_same_log (areq_term request) (areq_leader_id request) (core n)) as [].
    by split. }
  assert (Hlook : ∀ i, LogAtIndexLocked (core n') i =
                       LogAtIndexLocked (set_log (merged_log request (core n)) (core n)) i).
  { intros i. rewrite Hc', Hlog. unfold LogAtIndexLocked, HasLogAtIndexLocked, LogOffsetLocked,
      FirstLogIndexLocked. node_simpl. by rewrite <- (sl_snapshot_index _ _ Hsl). }
  split_and!; try done.
  - rewrite Hc', Hlog. apply log_ok_commit.
    eapply (same_log_log_ok (set_log (merged_log request (core n)) (core n))); [|done].
    destruct Hsl. by split.
  - rewrite Hc'. node_simpl. unfold leader_seen, follower_core. case_decide; node_simpl; lia.
  - by rewrite Hc'.
  - by destruct Hp as (_ & _ & ?).
  - intros i Hi. rewrite Hlook. by apply Hbelow.
  - intros e Hin. rewrite Hlook. by apply Hent.
  - eapply (OnAppendEntries_stored (λ st e, disk_state e = Some (recovered st))); try done. apply Forall_forall. intros e Hin.
    destruct He as [Hc Hlen]. pose proof (contiguous_elem _ _ _ Hc Hin).
    destruct (prev_matches_prefix _ _ Hok Hp). pose proof (log_low _ Hok). u64_lia.
Qed.

(** The leader of term 3 overwrites record 3 of [sim_follower]. *)
Definition sim_append : AppendEntriesRequest :=
  mkAppendEntriesRequest 3 1 2 1 [mkLogRecord 3 3 "SET|c|1|"; mkLogRecord 4 3 "SET|d|1|"] 3.

Lemma sim_append_ok : entries_ok (areq_prev_log_index sim_append) (areq_entries sim_append).
Proof.
  split; [|done]. intros k r Hk. do 2 (destruct k; [by simplify_eq/=|]). done.
Defined.

Lemma OnAppendEntries_success_witness :
  let n := sim_node 2 sim_follower tt sim_init in
  let '((resp, b), n') := OnAppendEntriesLocked sim_append n in
  aresp_success resp = true ∧ log_ok (core n') ∧
  LogAtIndexLocked (core n') 3 = Some (mkLogRecord 3 3 "SET|c|1|") ∧ commit_index_ (core n') = 3.
Proof.
  cbv zeta. destruct (OnAppendEntriesLocked sim_append (sim_node 2 sim_follower tt sim_init))
    as [[resp b] n'] eqn:Hrun.
  assert (Hs : aresp_success resp = true) by (vm_compute in Hrun; by injection Hrun as <- <- <-).
  pose proof (OnAppendEntries_success Datatypes.id _ _ _ _ _ Hrun sim_follower_log_ok sim_append_ok Hs)
    as (Hok & _).
  vm_compute in Hrun. injection Hrun as <- <- <-. by split_and!.
Defined.

(** No request breaks the node.  Whatever an [AppendEntries] request holds
    (entries with gaps, out of order, below the snapshot, of any term) and
    whichever disk writes fail, a node whose log and boundaries are well formed
    stays so: indexes stay consecutive from the snapshot marker,
    [last_snapshot_index <= last_applied <= commit_index], the commit index never
    moves back and moves only on success, and the (term, vote) pair only moves
    forward. *)
Theorem OnAppendEntries_core_ok {SM E} `{HostEnv E, IRaftStorage E}
    (request : AppendEntriesRequest) (n n' : Node SM E) resp b :
  OnAppendEntriesLocked request n = ((resp, b), n') → core_ok (core n) →
  Forall (λ e, is_u64 (index e)) (areq_entries request) →
  core_ok (core n') ∧ commit_index_ (core n) ≤ commit_index_ (core n') ∧
  (aresp_success resp = false → commit_index_ (core n') = commit_index_ (core n)) ∧
  hs_le (hs_of (core n)) (hs_of (core n')).
Proof.
  intros Hrun Hok Hu. destruct (OnAppendEntries_effect _ _ _ _ _ Hrun) as [_ Heff].
  by destruct (append_effect_core_ok _ _ _ _ _ Heff Hok Hu) as (? & ? & ? & ? & _).
Qed.

Lemma sim_follower_core_ok : core_ok sim_follower.
Proof. split; [apply sim_follower_log_ok|done..]. Defined.

(** A request with a gap, a duplicate and an out-of-order entry; the first two
    writes fail. *)
Lemma OnAppendEntries_core_ok_witness :
  let request := mkAppendEntriesRequest 4 1 3 2
    [mkLogRecord 2 7 "x"; mkLogRecord 4 3 "SET|c|1|"; mkLogRecord 3 9 "y"; mkLogRecord 9 3 "z"] 3 in
  let n := sim_node 2 sim_follower tt (sim_init <| sim_faults := [false; true] |>) in
  let '((resp, b), n') := OnAppendEntriesLocked request n in
  aresp_success resp = false ∧ core_ok (core n').
Proof.
  cbv zeta. match goal with |- context [OnAppendEntriesLocked ?r ?n] =>
    destruct (OnAppendEntriesLocked r n) as [[resp b] n'] eqn:Hrun end.
  assert (Hu : Forall (λ e, is_u64 (index e))
    [mkLogRecord 2 7 "x"; mkLogRecord 4 3 "SET|c|1|"; mkLogRecord 3 9 "y"; mkLogRecord 9 3 "z"])
    by (repeat constructor; done).
  pose proof (OnAppendEntries_core_ok _ _ _ _ _ Hrun sim_follower_core_ok Hu) as (Hok & _).
  split; [|done]. vm_compute in Hrun. by injection Hrun as <- <- <-.
Defined.

(** Late and duplicate requests are harmless.  When every entry of a
    well-formed request is already in the log with the same term, the log is left
    exactly as it is: records beyond the request are not truncated, whether or
    not the request succeeds. *)
Theorem OnAppendEntries_retransmission {SM E} `{HostEnv E, IRaftStorage E}
    (request : AppendEntriesRequest) (n n' : Node SM E) resp b :
  OnAppendEntriesLocked request n = ((resp, b), n') → log_ok (core n) →
  entries_ok (areq_prev_log_index request) (areq_entries request) →
  (∀ e, e ∈ areq_entries request →
     ∃ r, LogAtIndexLocked (core n) (index e) = Some r ∧ term r = term e) →
  log_ (core n') = log_ (core n).
Proof.
  intros Hrun Hok He Hag. destruct (OnAppendEntries_effect _ _ _ _ _ Hrun) as [_ Heff].
  destruct (append_effect_well_formed _ _ _ _ _ Heff Hok He) as [Hfail Hsucc].
  assert (Hmerged : prev_matches request (core n) →
                    merged_log request (core n) = log_ (core n)).
  { intros Hp. destruct (prev_matches_prefix _ _ Hok Hp) as [Hk Heq]. unfold merged_log.
    rewrite merge_agree; [by rewrite take_drop|]. intros j e Hj.
    destruct (Hag e (list_elem_of_lookup_2 _ _ _ Hj)) as (r & Hr & Ht). exists r.
    split; [|done]. destruct He as [Hc _]. pose proof (Hc _ _ Hj) as Hidx.
    rewrite LogAtIndex_lookup in Hr by done. rewrite decide_True in Hr by lia.
    rewrite lookup_drop. rewrite <- Hr. f_equal. lia. }
  destruct (aresp_success resp).
  - destruct (Hsucc eq_refl) as (_ & Hp & -> & _). by apply Hmerged.
  - destruct (Hfail eq_refl) as [|[Hp ->]]; [done|by apply Hmerged].
Qed.

(** A resent first record, with the log already holding three. *)
Lemma OnAppendEntries_retransmission_witness :
  let request := mkAppendEntriesRequest 2 3 0 0 [mkLogRecord 1 1 "SET|a|1|"] 1 in
  let n := sim_node 2 sim_follower tt sim_init in
  let '((resp, b), n') := OnAppendEntriesLocked request n in
  aresp_success resp = true ∧ log_ (core n') = log_ sim_follower.
Proof.
  cbv zeta. match goal with |- context [OnAppendEntriesLocked ?r ?n] =>
    destruct (OnAppendEntriesLocked r n) as [[resp b] n'] eqn:Hrun end.
  assert (He : entries_ok 0 [mkLogRecord 1 1 "SET|a|1|"]).
  { split; [|done]. intros k r Hk. destruct k; [by simplify_eq/=|done]. }
  split.
  - vm_compute in Hrun. by injection Hrun as <- <- <-.
  - apply (OnAppendEntries_retransmission _ _ _ _ _ Hrun sim_follower_log_ok He).
    intros e ->%list_elem_of_singleton. by eexists.
Defined.
