(* ===== verification/StateMachine.v ===== *)
(** [KvStateMachine] (src/modules/raft/state_machine/state_machine.h and .cpp):
    the replicated key-value map, how committed commands change it, and its
    snapshot file. *)
From S2P Require Import Prelude Command Types Bytes Fs Env NodeLog.

(** [kv_] of [KvStateMachine]. *)
Record KvStateMachine := mkKv { kv_ : gmap string string }.
#[export] Instance eta_Kv : Eta KvStateMachine := λ m, mkKv (kv_ m).

Definition kSnapshotMagic : Z := 1263948593.   (* 0x4B565331 *)
Definition kSnapshotVersion : Z := 1.

(** ** Operations *)

(** [KvStateMachine::Apply]; the index is not used. *)
Definition Apply (i : Z) (command_data : string) (m : KvStateMachine) : ApplyResult * KvStateMachine :=
  if decide (command_data = kInternalNoOpCommand) then (mkApplyResult true "ok", m)
  else
    let '(parsed, cmd) := Deserialize command_data (mkCommand kUnknown "" "") in
    if negb parsed then (mkApplyResult false "failed to deserialize command", m)
    else if negb (IsValid cmd) then (mkApplyResult false "invalid command", m)
    else
      match type cmd with
      | kSet => (mkApplyResult true "ok", m <| kv_ ::= <[key cmd := value cmd]> |>)
      | kDelete => (mkApplyResult true "ok", m <| kv_ ::= delete (key cmd) |>)
      | kUnknown => (mkApplyResult false "unknown command type", m)
      end.

(** [KvStateMachine::Get] with a non-null [value]: [Some] when found. *)
Definition Get (k : string) (m : KvStateMachine) : option string := kv_ m !! k.

(** [items.assign(kv_.begin(), kv_.end())] and the sort by key. *)
Definition key_le (a b : string * string) : Prop := String.leb a.1 b.1 = true.
#[export] Instance key_le_dec : RelDecision key_le.
Proof. unfold key_le. intros a b. apply _. Defined.
Definition sorted_items (m : KvStateMachine) : list (string * string) :=
  merge_sort key_le (map_to_list (kv_ m)).

(** [KvStateMachine::DebugString]. *)
Definition DebugString (m : KvStateMachine) : string :=
  let fix join (items : list (string * string)) : string :=
    match items with
    | [] => ""
    | [x] => x.1 +:+ "=" +:+ x.2
    | x :: items => x.1 +:+ "=" +:+ x.2 +:+ ", " +:+ join items
    end in
  "{" +:+ join (sorted_items m) +:+ "}".

(** [WritePod] of an [n]-byte integer and [WriteString], on the stream of [p]. *)
Definition WritePod (p : path) (n : nat) (v : Z) (s : Fs) : bool * Fs := fs_write p (le_bytes n v) s.
Definition WriteString (p : path) (v : string) (s : Fs) : bool * Fs :=
  let '(ok, s) := WritePod p 8 (Z.of_nat (String.length v)) s in
  if negb ok then (false, s)
  else if decide (String.length v = 0%nat) then (true, s)
  else fs_write p (string_bytes v) s.

(** The loop over [items]. *)
Fixpoint WriteItems (p : path) (items : list (string * string)) (s : Fs) : bool * Fs :=
  match items with
  | [] => (true, s)
  | (k, v) :: items =>
      let '(ok, s) := WriteString p k s in
      if negb ok then (false, s)
      else
        let '(ok, s) := WriteString p v s in
        if negb ok then (false, s) else WriteItems p items s
  end.

Definition io_error (message : string) : SnapshotResult := mkSnapshotResult ssIoError message.
Definition corrupted (message : string) : SnapshotResult := mkSnapshotResult ssCorruptedData message.
Definition snapshot_ok : SnapshotResult := mkSnapshotResult ssOk "ok".

(** The block of [SaveSnapshot] that writes the temporary file: [None] when it
    runs to its end. *)
Definition WriteSnapshotTemp (temp_path : path) (items : list (string * string)) (s : Fs) :
    option SnapshotResult * Fs :=
  let '(open, s) := fs_open_trunc temp_path s in
  if negb open then (Some (io_error ("open temp snapshot file failed: " +:+ path_string temp_path)), s)
  else
    let '(ok1, s) := WritePod temp_path 4 kSnapshotMagic s in
    if negb ok1 then (Some (io_error "write snapshot header failed"), s)
    else
      let '(ok2, s) := WritePod temp_path 4 kSnapshotVersion s in
      if negb ok2 then (Some (io_error "write snapshot header failed"), s)
      else
        let '(ok3, s) := WritePod temp_path 8 (Z.of_nat (length items)) s in
        if negb ok3 then (Some (io_error "write snapshot header failed"), s)
        else
          let '(ok, s) := WriteItems temp_path items s in
          if negb ok then (Some (io_error "write snapshot kv entry failed"), s)
          else
            let '(flushed, s) := fs_flush s in
            if negb flushed then (Some (io_error "flush snapshot file failed"), s) else (None, s).

(** [KvStateMachine::SaveSnapshot]. *)
Definition temp_of (p : path) : path := parent_path p ++ [filename p +:+ ".tmp"].
Definition SaveSnapshot (file_path : path) (m : KvStateMachine) (s : Fs) : SnapshotResult * Fs :=
  if decide (file_path = []) then
    (mkSnapshotResult ssInvalidArgument "snapshot file path is empty", s)
  else
    let items := sorted_items m in
    let temp_path := temp_of file_path in
    let '(mk, s) := if decide (parent_path file_path = []) then (None, s)
                    else fs_create_directories (parent_path file_path) s in
    match mk with
    | Some e => (io_error ("create snapshot directory failed: " +:+ e), s)
    | None =>
        let '(written, s) := WriteSnapshotTemp temp_path items s in
        match written with
        | Some r => (r, s)
        | None =>
            let '(removed, s) := if fs_exists file_path s then fs_remove file_path s else (None, s) in
            match removed with
            | Some e => (io_error ("remove old snapshot file failed: " +:+ e), s)
            | None =>
                let '(renamed, s) := fs_rename temp_path file_path s in
                match renamed with
                | Some e => (io_error ("rename snapshot file failed: " +:+ e), s)
                | None => (snapshot_ok, s)
                end
            end
        end
    end.

(** [ReadString] on the unread bytes, with memory for whatever size it reads. *)
Definition ReadString : reader string := λ b,
  match read_le 8 b with
  | None => None
  | Some (size, rest) =>
      if decide (size = 0) then Some ("", rest)
      else match read_bytes (Z.to_nat size) rest with
           | Some (v, rest) => Some (bytes_string v, rest)
           | None => None
           end
  end.

(** The loop of [LoadSnapshot] over [kv_count] entries.  Each turn reads at least
    16 bytes, so at most [length b] turns succeed: [fuel] bounds the recursion,
    not the count. *)
Fixpoint ReadItems (fuel : nat) (kv_count : Z) (b : bytes) (new_kv : gmap string string) :
    option (gmap string string) :=
  if decide (kv_count = 0) then Some new_kv
  else
    match fuel with
    | O => None
    | S fuel =>
        match ReadString b with
        | None => None
        | Some (k, b) =>
            match ReadString b with
            | None => None
            | Some (v, b) => ReadItems fuel (kv_count - 1) b (<[k := v]> new_kv)
            end
        end
    end.

(** What [LoadSnapshot] makes of the bytes of the file. *)
Definition ParseSnapshot (b : bytes) : SnapshotResult + gmap string string :=
  match read_le 4 b with
  | None => inl (corrupted "failed to read snapshot header")
  | Some (magic, b) =>
      match read_le 4 b with
      | None => inl (corrupted "failed to read snapshot header")
      | Some (version, b) =>
          match read_le 8 b with
          | None => inl (corrupted "failed to read snapshot header")
          | Some (kv_count, b) =>
              if decide (magic ≠ kSnapshotMagic) then inl (corrupted "invalid snapshot magic")
              else if decide (version ≠ kSnapshotVersion) then
                inl (mkSnapshotResult ssVersionMismatch "unsupported snapshot version")
              else
                match ReadItems (length b) kv_count b ∅ with
                | None => inl (corrupted "failed to read snapshot kv entry")
                | Some kv => inr kv
                end
          end
      end
  end.

(** [KvStateMachine::LoadSnapshot]. *)
Definition LoadSnapshot (file_path : path) (m : KvStateMachine) (s : Fs) :
    (SnapshotResult * KvStateMachine) * Fs :=
  if decide (file_path = []) then
    ((mkSnapshotResult ssInvalidArgument "snapshot file path is empty", m), s)
  else if negb (fs_exists file_path s) then
    ((mkSnapshotResult ssNotFound ("snapshot file not found: " +:+ path_string file_path), m), s)
  else
    let '(contents, s) := fs_read file_path s in
    match contents with
    | None => ((io_error ("failed to open snapshot file: " +:+ path_string file_path), m), s)
    | Some b =>
        match ParseSnapshot b with
        | inl r => ((r, m), s)
        | inr kv => ((snapshot_ok, m <| kv_ := kv |>), s)
        end
    end.

(** ** The snapshot file *)
Definition enc_string (v : string) : bytes :=
  le_bytes 8 (Z.of_nat (String.length v)) ++ string_bytes v.
Definition enc_item (x : string * string) : bytes := enc_string x.1 ++ enc_string x.2.
Definition enc_items (items : list (string * string)) : bytes := concat (enc_item <$> items).

(** The file of a map: header, count, and the items in key order. *)
Definition snapshot_bytes (m : KvStateMachine) : bytes :=
  le_bytes 4 kSnapshotMagic ++ le_bytes 4 kSnapshotVersion ++
  le_bytes 8 (Z.of_nat (length (sorted_items m))) ++ enc_items (sorted_items m).

(** Sizes that a [std::uint64_t] can hold. *)
Definition fits (v : string) : Prop := Z.of_nat (String.length v) ≤ u64_max.
Definition map_fits (m : KvStateMachine) : Prop :=
  Z.of_nat (size (kv_ m)) ≤ u64_max ∧ map_Forall (λ k v, fits k ∧ fits v) (kv_ m).

Section codec.
Lemma ReadString_enc v rest : fits v → ReadString (enc_string v ++ rest) = Some (v, rest).
Proof.
  intros Hv. unfold ReadString, enc_string. rewrite <- app_assoc.
  rewrite read_le_bytes by (unfold fits, u64_max in Hv; simpl; lia).
  case_decide as H0.
  - destruct v; [done|simpl in H0; lia].
  - rewrite Nat2Z.id, read_bytes_app by apply length_string_bytes.
    by rewrite bytes_string_bytes.
Qed.

Lemma length_enc_items items : (length items ≤ length (enc_items items))%nat.
Proof.
  induction items as [|x items IH]; [done|]. unfold enc_items. cbn [fmap list_fmap concat].
  fold (enc_items items). rewrite length_app. unfold enc_item at 1, enc_string at 1.
  rewrite !length_app, length_le_bytes. simpl. lia.
Qed.

(** Reading back the items of a list inserts them one after the other. *)
Lemma ReadItems_enc items fuel rest kv :
  Forall (λ x, fits x.1 ∧ fits x.2) items → (length items ≤ fuel)%nat →
  ReadItems fuel (Z.of_nat (length items)) (enc_items items ++ rest) kv =
    Some (foldl (λ m x, <[x.1 := x.2]> m) kv items).
Proof.
  revert fuel kv. induction items as [|[k v] items IH]; intros fuel kv Hf Hlen.
  { by destruct fuel. }
  apply Forall_cons in Hf as [[Hk Hv] Hf]. cbn [fst snd] in *.
  destruct fuel as [|fuel]; [simpl in Hlen; lia|]. cbn [ReadItems length].
  rewrite decide_False by lia. change (enc_items ((k, v) :: items)) with
    ((enc_string k ++ enc_string v) ++ enc_items items).
  rewrite <- !app_assoc, !ReadString_enc by done.
  replace (Z.of_nat (S (length items)) - 1) with (Z.of_nat (length items)) by lia.
  rewrite IH by (done || simpl in Hlen; lia). done.
Qed.

Lemma foldl_insert_perm (items : list (string * string)) (kv : gmap string string) :
  NoDup items.*1 →
  foldl (λ m x, <[x.1 := x.2]> m) kv items = list_to_map items ∪ kv.
Proof.
  revert kv. induction items as [|[k v] items IH]; intros kv Hnd.
  { simpl. by rewrite (left_id ∅ (∪)). }
  apply NoDup_cons in Hnd as [Hk Hnd]. cbn [foldl fst snd]. rewrite IH by done. simpl.
  rewrite <- insert_union_r by (by apply not_elem_of_list_to_map).
  by rewrite insert_union_l.
Qed.

Lemma sorted_items_perm m : sorted_items m ≡ₚ map_to_list (kv_ m).
Proof. apply merge_sort_Permutation. Qed.

Lemma ParseSnapshot_bytes m rest :
  map_fits m → ParseSnapshot (snapshot_bytes m ++ rest) = inr (kv_ m).
Proof.
  intros [Hsize Hall]. unfold snapshot_bytes, ParseSnapshot. rewrite <- !app_assoc.
  rewrite !read_le_bytes by done.
  assert (Hlen : length (sorted_items m) = size (kv_ m)).
  { rewrite (Permutation_length (sorted_items_perm m)). apply length_map_to_list. }
  rewrite read_le_bytes by (rewrite Hlen; unfold u64_max in Hsize; simpl; lia).
  rewrite !decide_False by (intros ?; done).
  rewrite ReadItems_enc.
  - f_equal. assert (Hnd : NoDup (sorted_items m).*1).
    { rewrite (sorted_items_perm m). apply NoDup_fst_map_to_list. }
    rewrite foldl_insert_perm by done. rewrite (right_id ∅ (∪)).
    transitivity (list_to_map (map_to_list (kv_ m)) : gmap string string);
      [|apply list_to_map_to_list].
    apply list_to_map_proper; [done|apply sorted_items_perm].
  - rewrite (sorted_items_perm m). apply Forall_forall. intros [k v] Hin.
    apply elem_of_map_to_list in Hin. by apply (Hall k v).
  - rewrite length_app. pose proof (length_enc_items (sorted_items m)). lia.
Qed.
End codec.

(** ** Writing *)
Section writing.
Implicit Types s : Fs.

(** Peel the next call of a state-passing function in [H]. *)
Ltac peel H ok s1 Hs :=
  match type of H with
  | context [let '(_, _) := ?e in _] => destruct e as [ok s1] eqn:Hs
  end.

Lemma WriteString_only p v s r s' : WriteString p v s = (r, s') → only_at p s s'.
Proof.
  unfold WriteString, WritePod. intros H. peel H ok s1 H1. apply fs_write_only in H1.
  destruct ok; cbn [negb] in H; [|by simplify_eq]. case_decide; [by simplify_eq|].
  apply fs_write_only in H. by etrans.
Qed.

Lemma WriteString_true p v s s' d :
  WriteString p v s = (true, s') → nodes s !! p = Some (File d) →
  nodes s' !! p = Some (File (d ++ enc_string v)).
Proof.
  unfold WriteString, WritePod, enc_string. intros H Hd. peel H ok s1 H1.
  destruct ok; cbn [negb] in H; [|done]. pose proof (fs_write_true _ _ _ _ _ H1 Hd) as Hd1.
  case_decide as H0.
  - injection H as <-. destruct v; [|done]. by rewrite app_nil_r.
  - rewrite app_assoc. by eapply fs_write_true.
Qed.

Lemma WriteItems_only p items s r s' : WriteItems p items s = (r, s') → only_at p s s'.
Proof.
  revert s. induction items as [|[k v] items IH]; intros s H; [by simplify_eq/=|].
  cbn [WriteItems] in H. peel H ok s1 H1. apply WriteString_only in H1.
  destruct ok; cbn [negb] in H; [|by simplify_eq]. peel H ok s2 H2. apply WriteString_only in H2.
  destruct ok; cbn [negb] in H; [|by simplify_eq; etrans]. apply IH in H.
  by etrans; [|etrans].
Qed.

Lemma WriteItems_true p items s s' d :
  WriteItems p items s = (true, s') → nodes s !! p = Some (File d) →
  nodes s' !! p = Some (File (d ++ enc_items items)).
Proof.
  revert s d. induction items as [|[k v] items IH]; intros s d H Hd.
  { simplify_eq/=. by rewrite app_nil_r. }
  cbn [WriteItems] in H. peel H ok s1 H1. destruct ok; cbn [negb] in H; [|done].
  peel H ok s2 H2. destruct ok; cbn [negb] in H; [|done].
  pose proof (WriteString_true _ _ _ _ _ H1 Hd) as Hd1.
  pose proof (WriteString_true _ _ _ _ _ H2 Hd1) as Hd2.
  rewrite (IH _ _ H Hd2). do 2 f_equal. change (enc_items ((k, v) :: items)) with
    ((enc_string k ++ enc_string v) ++ enc_items items). by rewrite <- !app_assoc.
Qed.

Lemma WriteSnapshotTemp_only p items s r s' :
  WriteSnapshotTemp p items s = (r, s') → only_at p s s'.
Proof.
  unfold WriteSnapshotTemp, WritePod. intros H.
  peel H ok s1 H1. apply fs_open_trunc_only in H1. destruct ok; cbn [negb] in H; [|by simplify_eq].
  peel H ok s2 H2. apply fs_write_only in H2. rewrite <- H1 in H2.
  destruct ok; cbn [negb] in H; [|by simplify_eq].
  peel H ok s3 H3. apply fs_write_only in H3. rewrite <- H2 in H3.
  destruct ok; cbn [negb] in H; [|by simplify_eq].
  peel H ok s4 H4. apply fs_write_only in H4. rewrite <- H3 in H4.
  destruct ok; cbn [negb] in H; [|by simplify_eq].
  peel H ok s5 H5. apply WriteItems_only in H5. rewrite <- H4 in H5.
  destruct ok; cbn [negb] in H; [|by simplify_eq].
  peel H ok s6 H6. apply fs_flush_nodes in H6. unfold only_at in *.
  destruct ok; simplify_eq/=; by rewrite H6.
Qed.

Lemma WriteSnapshotTemp_None p m s s' :
  WriteSnapshotTemp p (sorted_items m) s = (None, s') →
  nodes s' !! p = Some (File (snapshot_bytes m)).
Proof.
  unfold WriteSnapshotTemp, WritePod. intros H.
  peel H ok s1 H1. destruct ok; cbn [negb] in H; [|done]. apply fs_open_trunc_true in H1.
  peel H ok s2 H2. destruct ok; cbn [negb] in H; [|done].
  pose proof (fs_write_true _ _ _ _ _ H2 H1) as Hd2.
  peel H ok s3 H3. destruct ok; cbn [negb] in H; [|done].
  pose proof (fs_write_true _ _ _ _ _ H3 Hd2) as Hd3.
  peel H ok s4 H4. destruct ok; cbn [negb] in H; [|done].
  pose proof (fs_write_true _ _ _ _ _ H4 Hd3) as Hd4.
  peel H ok s5 H5. destruct ok; cbn [negb] in H; [|done].
  pose proof (WriteItems_true _ _ _ _ _ H5 Hd4) as Hd5.
  peel H ok s6 H6. destruct ok; cbn [negb] in H; [|done]. apply fs_flush_nodes in H6.
  injection H as <-. rewrite H6, Hd5. unfold snapshot_bytes. by rewrite <- !app_assoc.
Qed.

(** The temporary file is a sibling of the snapshot file. *)
Lemma string_app_neq (v w : string) : w ≠ "" → v +:+ w ≠ v.
Proof.
  intros Hw Heq. apply (f_equal String.length) in Heq. rewrite string_length_app in Heq.
  destruct w; [done|simpl in Heq; lia].
Qed.

Lemma path_split p : p ≠ [] → p = parent_path p ++ [filename p].
Proof. intros ?. by apply app_removelast_last. Qed.

Lemma temp_apart p : p ≠ [] → apart (temp_of p) p.
Proof.
  intros Hp. rewrite (path_split p Hp) at 2. apply siblings_apart. by apply string_app_neq.
Qed.

End writing.

(** ** Properties *)

Lemma SaveSnapshot_effect p m s r s' :
  SaveSnapshot p m s = (r, s') → p ≠ [] →
  SnapshotResult_Ok r = false ∧ (nodes s' !! p = nodes s !! p ∨ nodes s' !! p = None) ∨
  r = snapshot_ok ∧ nodes s' !! p = Some (File (snapshot_bytes m)).
Proof.
  unfold SaveSnapshot. intros H Hp. rewrite decide_False in H by done. cbv zeta in H.
  pose proof (temp_apart p Hp) as Hap. pose proof (apart_neq _ _ Hap) as Hne.
  destruct (if decide (parent_path p = []) then _ else _) as [mk s1] eqn:Hmk.
  assert (H1 : nodes s1 !! p = nodes s !! p).
  { case_decide; [by simplify_eq|]. apply (fs_create_directories_other _ _ _ _ p Hmk).
    intros Hpre. apply prefix_length in Hpre. rewrite (path_split p Hp), length_app in Hpre at 1.
    simpl in Hpre. lia. }
  destruct mk; [injection H as <- <-; auto|].
  destruct (WriteSnapshotTemp _ _ s1) as [written s2] eqn:Hw.
  pose proof (WriteSnapshotTemp_only _ _ _ _ _ Hw p (not_eq_sym Hne)) as H2. rewrite H1 in H2.
  destruct written as [r0|].
  { injection H as <- <-. left. split; [|by left].
    clear -Hw. unfold WriteSnapshotTemp in Hw.
    repeat (case_match; simplify_eq; try done). }
  apply WriteSnapshotTemp_None in Hw.
  destruct (if fs_exists p s2 then _ else _) as [removed s3] eqn:Hr.
  assert (H3 : (nodes s3 !! p = nodes s !! p ∨ nodes s3 !! p = None) ∧
               nodes s3 !! temp_of p = Some (File (snapshot_bytes m))).
  { rewrite <- H2, <- Hw. destruct (fs_exists p s2); [|simplify_eq; auto].
    split; [by eapply fs_remove_here|]. by eapply fs_remove_only. }
  destruct H3 as [H3 Hw3]. destruct removed; [injection H as <- <-; auto|].
  destruct (fs_rename _ _ s3) as [renamed s4] eqn:Hren.
  apply fs_rename_here in Hren as [[H4 Hr4]|(-> & _ & H4)]; [| |done].
  - destruct renamed; [|done]. injection H as <- <-. rewrite H4. auto.
  - injection H as <- <-. right. split; [done|]. rewrite H4, lookup_move_nodes by done.
    rewrite under_refl. replace (below p p) with (@nil string); [by rewrite app_nil_r|].
    unfold below. by rewrite drop_ge.
Qed.



(** C27: snapshot round trip.  After a successful [SaveSnapshot], a fault-free
    [LoadSnapshot] of the file into any state machine succeeds and rebuilds
    exactly the saved map. *)
Theorem LoadSnapshot_SaveSnapshot p m m0 s r s' :
  SaveSnapshot p m s = (r, s') → SnapshotResult_Ok r = true → map_fits m → healthy s' →
  LoadSnapshot p m0 s' = ((snapshot_ok, m), s').
Proof.
  intros H Hr Hfit Hs. assert (Hp : p ≠ []).
  { intros ->. unfold SaveSnapshot in H. rewrite decide_True in H by done. by simplify_eq. }
  destruct (SaveSnapshot_effect _ _ _ _ _ H Hp) as [[? _]|[-> Hfile]]; [congruence|].
  unfold LoadSnapshot. rewrite decide_False by done.
  assert (Hex : fs_exists p s' = true).
  { unfold fs_exists. destruct p; [done|]. by rewrite Hfile. }
  rewrite Hex. cbn [negb]. unfold fs_read, fs_tick. rewrite Hs, Hfile.
  rewrite <- (app_nil_r (snapshot_bytes m)), ParseSnapshot_bytes by done. by destruct m.
Qed.

Lemma LoadSnapshot_SaveSnapshot_witness :
  let s := mkFs {[["d"] := Dir]} [] in
  let m := mkKv {["b" := "2"; "a" := ""]} in
  let '(r, s') := SaveSnapshot ["d"; "f"] m s in
  LoadSnapshot ["d"; "f"] (mkKv {["z" := "9"]}) s' = ((snapshot_ok, m), s').
Proof.
  cbv zeta. match goal with |- context [SaveSnapshot ?p ?m ?s] =>
    destruct (SaveSnapshot p m s) as [r s'] eqn:H end.
  apply (LoadSnapshot_SaveSnapshot _ _ _ _ _ _ H).
  - vm_compute in H. by injection H as <- <-.
  - split; [done|]. apply map_Forall_insert_2; [split; unfold fits; cbn; u64_lia|].
    apply map_Forall_insert_2; [split; unfold fits; cbn; u64_lia|]. apply map_Forall_empty.
  - vm_compute in H. by injection H as <- <-.
Defined.

(** ** Commands *)

(** The map a command is meant to produce. *)
Definition kv_effect (c : Command) (kv : gmap string string) : gmap string string :=
  match type c with kSet => <[key c := value c]> kv | kDelete => delete (key c) kv | kUnknown => kv end.

Lemma Serialize_not_noop c : IsValid c = true → Serialize c ≠ kInternalNoOpCommand.
Proof. unfold Serialize. by destruct c as [[] ? ?]. Qed.

Lemma Apply_parsed i data c m :
  data ≠ kInternalNoOpCommand → Deserialize data (mkCommand kUnknown "" "") = (true, c) →
  IsValid c = true →
  Apply i data m = (mkApplyResult true "ok", mkKv (kv_effect c (kv_ m))).
Proof.
  intros Hd Hp Hv. unfold Apply, kv_effect. rewrite decide_False, Hp, Hv by done. cbn [negb].
  by destruct (type c) eqn:Ht; [unfold IsValid in Hv; rewrite Ht in Hv|..].
Qed.

(** Applying a command.  Applying the log form of a valid command whose key
    and value hold no separator, and which does not set the empty value, succeeds
    and performs exactly that command's effect on the map: one key set or erased,
    every other key untouched. *)
Theorem Apply_Serialize c i m :
  IsValid c = true → contains sep (key c) = false → contains sep (value c) = false →
  (type c = kSet → value c ≠ "") →
  Apply i (Serialize c) m = (mkApplyResult true "ok", mkKv (kv_effect c (kv_ m))) ∧
  (∀ k, k ≠ key c → Get k (Apply i (Serialize c) m).2 = Get k m) ∧
  Get (key c) (Apply i (Serialize c) m).2 = match type c with kSet => Some (value c) | _ => None end.
Proof.
  intros Hv Hk Hval Hne.
  assert (Ha : Apply i (Serialize c) m = (mkApplyResult true "ok", mkKv (kv_effect c (kv_ m)))).
  { assert (Heff : kv_effect c (kv_ m) = kv_effect (transmitted c) (kv_ m))
      by (by destruct c as [[] ? ?]).
    rewrite Heff. apply Apply_parsed; [by apply Serialize_not_noop| |by destruct c as [[] ? ?]].
    rewrite Deserialize_Serialize_aux by done. rewrite decide_False; [done|naive_solver]. }
  rewrite Ha. split; [done|]. unfold Get, kv_effect, IsValid in *. cbn [snd kv_].
  destruct (type c); [done|split|split].
  - intros k Hkk. by rewrite lookup_insert_ne.
  - by rewrite lookup_insert_eq.
  - intros k Hkk. by rewrite lookup_delete_ne.
  - by rewrite lookup_delete_eq.
Qed.

Lemma Apply_Serialize_witness :
  Get "a" (Apply 7 (Serialize (mkCommand kSet "a" "1")) (mkKv ∅)).2 = Some "1".
Proof. by apply (Apply_Serialize (mkCommand kSet "a" "1") 7 (mkKv ∅)). Defined.

(** A [SET] of the empty value does not survive its own serialization. *)
Lemma Apply_empty_value i k m :
  k ≠ "" → contains sep k = false →
  Apply i (Serialize (mkCommand kSet k "")) m =
    (mkApplyResult false "failed to deserialize command", m).
Proof.
  intros Hk Hs. unfold Apply.
  assert (Hv : IsValid (mkCommand kSet k "") = true).
  { unfold IsValid. cbn. by rewrite bool_decide_false. }
  rewrite decide_False by (by apply Serialize_not_noop).
  rewrite Deserialize_Serialize_aux by done. by rewrite decide_True.
Qed.

(** ** As an [IStateMachine] over the file system *)
#[export] Instance kv_state_machine : IStateMachine KvStateMachine Fs := {|
  sm_Apply := Apply;
  sm_SaveSnapshot := SaveSnapshot;
  sm_LoadSnapshot p m s := (LoadSnapshot p m s).1 |}.
