(* ===== verification/Commit.v ===== *)
(** The commit index and the application of committed entries
    (src/modules/raft/node/raft_node.cpp): [AdvanceCommitIndexUnlocked],
    [ApplyCommittedEntries], [MaybeScheduleSnapshotLocked]. *)
From S2P Require Import Prelude Command Types Timer Metrics Env Sim Node SimNode.
From S2P Require Import NodeLog Election AppendEntries Bytes Fs StateMachine.

(** ** The commit rule *)

(** [replicated_count] over the peers, the node itself included. *)
Definition replicated_count (i : Z) (config : NodeConfig) (c : RaftCore) : Z :=
  foldl (λ count peer,
    match match_index_ c !! peer_node_id peer with
    | Some m => if decide (i ≤ m) then count + 1 else count
    | None => count
    end) 1 (peers config).

(** The index the loop of [AdvanceCommitIndexUnlocked] stops at: [k] candidates
    remain, the highest being [commit_index_ + k]. *)
Fixpoint advance_from (k : nat) (config : NodeConfig) (c : RaftCore) : option Z :=
  match k with
  | O => None
  | S k' =>
      let i := commit_index_ c + Z.of_nat k in
      if negb (HasLogAtIndexLocked c i) then advance_from k' config c
      else if decide (TermAtIndexLocked c i ≠ current_term_ c) then advance_from k' config c
      else if decide (quorum_of config ≤ replicated_count i config c) then Some i
      else advance_from k' config c
  end.

Section operations.
Context {SM E : Type} `{HostEnv E, IRaftStorage E}.
Implicit Types n : Node SM E.

(** [AdvanceCommitIndexUnlocked]; a failed write is only logged. *)
Definition AdvanceCommitIndexUnlocked n : Node SM E :=
  if decide (role_ (core n) ≠ kLeader) then n
  else if decide (log_ (core n) = []) then n
  else
    let last_index := LastLogIndexLocked (core n) in
    match advance_from (Z.to_nat (last_index - commit_index_ (core n))) (config_ n) (core n) with
    | Some i => (PersistStateLocked (n <| core ::= λ c, c <| commit_index_ := i |> |>)).2
    | None => n
    end.

(** [MaybeScheduleSnapshotLocked]. *)
Definition MaybeScheduleSnapshotLocked (force_by_timer : bool) n : Node SM E :=
  let c := core n in
  if negb (enabled (snapshot_config_ n)) then n
  else if decide (last_applied_ c ≤ last_snapshot_index_ c) then n
  else if negb force_by_timer &&
          bool_decide (last_applied_ c - last_snapshot_index_ c < log_threshold (snapshot_config_ n))
  then n
  else if snapshot_pending_ (snapw n) || snapshot_in_progress_ (snapw n) then n
  else n <| snapw ::= λ w,
         w <| pending_snapshot_index_ := last_applied_ c |>
           <| pending_snapshot_term_ := TermAtIndexLocked c (last_applied_ c) |>
           <| snapshot_pending_ := true |> |>.

Context `{IStateMachine SM E}.

(** The first locked section of an iteration of [ApplyCommittedEntries]: the
    result to return, or the index and the command to apply. *)
Definition ApplyFetchLocked n : (ApplyResult + Z * string) * Node SM E :=
  let n := if decide (last_applied_ (core n) < last_snapshot_index_ (core n))
           then n <| core ::= λ c, c <| last_applied_ := last_snapshot_index_ c |> |> else n in
  let c := core n in
  let describe (what : string) (apply_index : Z) : string :=
    what +:+ pretty apply_index +:+ ", commit_index=" +:+ pretty (commit_index_ c) +:+
    ", last_applied=" +:+ pretty (last_applied_ c) +:+
    ", last_snapshot_index=" +:+ pretty (last_snapshot_index_ c) +:+
    ", first_log_index=" +:+ pretty (FirstLogIndexLocked c) +:+
    ", last_log_index=" +:+ pretty (LastLogIndexLocked c) in
  if decide (commit_index_ c ≤ last_applied_ c) then
    (inl (mkApplyResult true "nothing to apply"), n)
  else
    let apply_index := u64 (last_applied_ c + 1) in
    if negb (HasLogAtIndexLocked c apply_index) then
      (inl (mkApplyResult false (describe "apply index out of range, apply_index=" apply_index)), n)
    else
      match LogAtIndexLocked c apply_index with
      | None => (inl (mkApplyResult false
                   (describe "apply log record is missing, apply_index=" apply_index)), n)
      | Some record => (inr (apply_index, command record), n)
      end.

(** The second locked section, once the command has been applied. *)
Definition ApplyDoneLocked (apply_index : Z) n : option ApplyResult * Node SM E :=
  if decide (last_applied_ (core n) < apply_index) then
    let n := n <| core ::= λ c, c <| last_applied_ := apply_index |> |> in
    let '((persisted, persist_error), n) := PersistStateLocked n in
    if negb persisted then (Some (mkApplyResult false persist_error), n)
    else (None, MaybeScheduleSnapshotLocked false n)
  else (None, MaybeScheduleSnapshotLocked false n).

(** One iteration: the result, when the function returns. *)
Definition ApplyIteration n : option ApplyResult * Node SM E :=
  let '(fetched, n) := ApplyFetchLocked n in
  match fetched with
  | inl r => (Some r, n)
  | inr (apply_index, command_data) =>
      let '(r, sm) := sm_Apply apply_index command_data (state_machine_ n) in
      let n := n <| state_machine_ := sm |> in
      if negb (Ok r) then (Some r, n) else ApplyDoneLocked apply_index n
  end.

(** [ApplyCommittedEntries], run under [apply_mu_] without other threads moving
    the boundaries meanwhile; [None] when [fuel] runs out. *)
Fixpoint ApplyLoop (fuel : nat) n : option ApplyResult * Node SM E :=
  match fuel with
  | O => (None, n)
  | S fuel =>
      let '(r, n) := ApplyIteration n in
      match r with Some r => (Some r, n) | None => ApplyLoop fuel n end
  end.

(** Every iteration but the last applies one entry. *)
Definition apply_fuel n : nat :=
  S (Z.to_nat (commit_index_ (core n) - last_applied_ (core n))).
Definition ApplyCommittedEntries n : ApplyResult * Node SM E :=
  match ApplyLoop (apply_fuel n) n with
  | (Some r, n) => (r, n)
  | (None, n) => (mkApplyResult false "", n)   (* excluded: ApplyLoop_spec *)
  end.

(** [OnAppendEntries]: the locked part, then the application of what it
    committed (a failure there is only logged). *)
Definition OnAppendEntries (request : AppendEntriesRequest) n :
    AppendEntriesResponse * Node SM E :=
  let '((response, should_apply), n) := OnAppendEntriesLocked request n in
  if should_apply then (response, (ApplyCommittedEntries n).2) else (response, n).
End operations.

(** ** Applying in order *)

(** A failed [Apply] leaves the state machine as it was. *)
Class ApplyAtomic (SM E : Type) `{IStateMachine SM E} : Prop :=
  apply_failed : ∀ i data m r m', sm_Apply i data m = (r, m') → Ok r = false → m' = m.

#[export] Instance kv_apply_atomic : ApplyAtomic KvStateMachine Fs.
Proof.
  intros i data m r m'. change (Apply i data m = (r, m') → Ok r = false → m' = m).
  unfold Apply. case_decide; [by intros [= <- <-]|].
  destruct (Deserialize _ _) as [[] cmd]; cbn [negb]; [|by intros [= <- <-]].
  destruct (IsValid cmd); cbn [negb]; [|by intros [= <- <-]].
  by destruct (type cmd); intros [= <- <-].
Qed.

(** The records with index in [(a, b]]. *)
Definition log_between (a b : Z) (c : RaftCore) : list LogRecord :=
  take (Z.to_nat (b - a)) (drop (Z.to_nat (a + 1 - last_snapshot_index_ c)) (log_ c)).

(** Applying records one after the other. *)
Definition replay {SM E} `{IStateMachine SM E} (l : list LogRecord) (m : SM) : SM :=
  foldl (λ m r, (sm_Apply (index r) (command r) m).2) m l.

Section applying.
Context {SM E : Type} `{HostEnv E, IRaftStorage E, !IStateMachine SM E, !ApplyAtomic SM E}.
Implicit Types n : Node SM E.

Lemma MaybeScheduleSnapshot_core force n :
  core (MaybeScheduleSnapshotLocked force n) = core n ∧
  state_machine_ (MaybeScheduleSnapshotLocked force n) = state_machine_ n ∧
  same_identity n (MaybeScheduleSnapshotLocked force n).
Proof. unfold MaybeScheduleSnapshotLocked. by repeat case_match. Qed.

Definition set_applied (i : Z) (c : RaftCore) : RaftCore := c <| last_applied_ := i |>.

Lemma set_applied_id c : set_applied (last_applied_ c) c = c.
Proof. by destruct c. Qed.

Lemma set_applied_core_ok i c :
  core_ok c → last_applied_ c ≤ i ≤ commit_index_ c → core_ok (set_applied i c).
Proof. intros [[] ? ? ?] ?. split; [by split|..]; unfold set_applied; node_simpl; lia. Qed.

Lemma ApplyDone_effect i n r n' :
  ApplyDoneLocked i n = (r, n') → last_applied_ (core n) < i →
  core n' = set_applied i (core n) ∧ state_machine_ n' = state_machine_ n ∧
  same_identity n n' ∧ (∀ r0, r = Some r0 → Ok r0 = false).
Proof.
  unfold ApplyDoneLocked. intros Hrun Hi. rewrite decide_True in Hrun by done.
  match type of Hrun with context [PersistStateLocked ?m] =>
    destruct (PersistStateLocked_frame m) as [Hc _ Hcore _ _ Hr Hsm];
    destruct (PersistStateLocked m) as [[ok err] n1] end.
  node_simpl in *. destruct ok; cbn [negb] in Hrun; injection Hrun as <- <-.
  - destruct (MaybeScheduleSnapshot_core false n1) as (-> & -> & [Hc' Hr']).
    unfold same_identity. rewrite Hcore, Hsm, Hc', Hr', Hc, Hr. by split_and!.
  - unfold same_identity. rewrite Hcore, Hsm, Hc, Hr. split_and!; try done. by intros ? [= <-].
Qed.

(** What an iteration does, by its outcome. *)
Lemma ApplyIteration_effect n r n' :
  core_ok (core n) → ApplyIteration n = (r, n') →
  same_identity n n' ∧
  let a := last_applied_ (core n) in
  (core n' = core n ∧ state_machine_ n' = state_machine_ n ∧
   (∃ r0, r = Some r0 ∧ (Ok r0 = true → a = commit_index_ (core n))) ∨
  ∃ record, LogAtIndexLocked (core n) (a + 1) = Some record ∧ a + 1 ≤ commit_index_ (core n) ∧
    core n' = set_applied (a + 1) (core n) ∧
    state_machine_ n' = (sm_Apply (a + 1) (command record) (state_machine_ n)).2 ∧
    Ok (sm_Apply (a + 1) (command record) (state_machine_ n)).1 = true ∧
    (∀ r0, r = Some r0 → Ok r0 = false)).
Proof.
  intros [Hlog Hsn Hap Hmax] Hrun. unfold ApplyIteration, ApplyFetchLocked in Hrun.
  rewrite (decide_False (P := last_applied_ (core n) < _)) in Hrun by lia. cbv zeta in *.
  destruct (decide (commit_index_ (core n) ≤ last_applied_ (core n))) as [Hdone|Hmore].
  { injection Hrun as <- <-. split; [done|left]. split_and!; [done..|]. eexists. split; [done|lia]. }
  pose proof (log_low _ Hlog).
  replace (u64 (last_applied_ (core n) + 1)) with (last_applied_ (core n) + 1) in Hrun
    by (symmetry; apply u64_id; u64_lia).
  destruct (negb (HasLogAtIndexLocked _ _)).
  { injection Hrun as <- <-. split; [done|left]. split_and!; [done..|]. eexists. by split. }
  destruct (LogAtIndexLocked (core n) (last_applied_ (core n) + 1)) as [record|] eqn:Hrec.
  2:{ injection Hrun as <- <-. split; [done|left]. split_and!; [done..|]. eexists. by split. }
  destruct (sm_Apply _ _ (state_machine_ n)) as [r0 sm] eqn:Hsm. cbn [fst snd].
  destruct (Ok r0) eqn:Hok; cbn [negb] in Hrun.
  - apply ApplyDone_effect in Hrun as (Hc & Hm & Hid & Hr); [|node_simpl; lia].
    split; [exact Hid|right]. exists record. rewrite Hsm. cbn [fst snd].
    split_and!; [done|lia|done|done|done|done].
  - injection Hrun as <- <-. rewrite (apply_failed _ _ _ _ _ Hsm Hok).
    split; [done|left]. split_and!; [done..|]. eexists. split; [done|congruence].
Qed.

Lemma log_between_cons a b c record :
  log_ok c → last_snapshot_index_ c ≤ a < b → LogAtIndexLocked c (a + 1) = Some record →
  log_between a b c = record :: log_between (a + 1) b c.
Proof.
  intros Hok Hab. rewrite LogAtIndex_lookup by done. rewrite decide_True by lia. intros Hrec.
  unfold log_between. rewrite (drop_S _ record) by done.
  replace (Z.to_nat (b - a)) with (S (Z.to_nat (b - (a + 1)))) by lia. cbn [take]. do 3 f_equal. lia.
Qed.

Lemma log_between_nil a c : log_between a a c = [].
Proof. unfold log_between. by rewrite Z.sub_diag. Qed.

(** What the loop leaves behind. *)
Definition applied_to n (r : ApplyResult) n' (b : Z) : Prop :=
  same_identity n n' ∧ last_applied_ (core n) ≤ b ≤ commit_index_ (core n) ∧
  core n' = set_applied b (core n) ∧
  state_machine_ n' = replay (log_between (last_applied_ (core n)) b (core n)) (state_machine_ n) ∧
  (Ok r = true → b = commit_index_ (core n)).

Lemma ApplyLoop_spec fuel n ro n' :
  core_ok (core n) → (Z.to_nat (commit_index_ (core n) - last_applied_ (core n)) < fuel)%nat →
  ApplyLoop fuel n = (ro, n') → ∃ r b, ro = Some r ∧ applied_to n r n' b.
Proof.
  revert n. induction fuel as [|fuel IH]; intros n Hok Hfuel Hrun; [lia|].
  cbn [ApplyLoop] in Hrun. destruct (ApplyIteration n) as [r n1] eqn:Hit.
  pose proof (core_applied_commit _ Hok).
  destruct (ApplyIteration_effect _ _ _ Hok Hit) as
    [Hid [(Hc & Hm & r0 & -> & Hr0)|(record & Hrec & Hle & Hc & Hm & Hsucc & Hr)]].
  - injection Hrun as <- <-. exists r0, (last_applied_ (core n)).
    split; [done|]. split_and!; [done|lia|lia| | |done].
    + by rewrite set_applied_id.
    + by rewrite log_between_nil.
  - assert (Hrep : ∀ b, last_applied_ (core n) + 1 ≤ b →
      replay (log_between (last_applied_ (core n)) b (core n)) (state_machine_ n) =
      replay (log_between (last_applied_ (core n) + 1) b (core n)) (state_machine_ n1)).
    { intros b Hb. pose proof (core_snapshot_applied _ Hok).
      rewrite (log_between_cons _ b _ record (core_log _ Hok)) by (done || lia).
      cbn [replay foldl]. rewrite Hm. unfold replay.
      by destruct (LogAtIndex_Some _ _ _ (core_log _ Hok) Hrec) as [-> _]. }
    destruct r as [r|].
    + injection Hrun as <- <-. exists r, (last_applied_ (core n) + 1). split; [done|].
      split_and!; [done|lia|lia|done| |].
      * rewrite Hrep by lia. by rewrite log_between_nil.
      * intros Ht. by rewrite (Hr r eq_refl) in Ht.
    + apply IH in Hrun as (r & b & -> & [Hid1 Hid2] & Hb & Hc' & Hm' & Hfull).
      * exists r, b. split; [done|]. rewrite Hc in Hb, Hc', Hm', Hfull. destruct Hid as [Hi1 Hi2].
        unfold set_applied in Hb, Hc', Hm', Hfull. node_simpl in *.
        split_and!; [by split; congruence|lia|lia|done| |done].
        rewrite Hrep by lia. rewrite Hm'. done.
      * rewrite Hc. apply set_applied_core_ok; [done|lia].
      * rewrite Hc. unfold set_applied. node_simpl. lia.
Qed.

Lemma ApplyCommittedEntries_spec n r n' :
  core_ok (core n) → ApplyCommittedEntries n = (r, n') →
  ApplyLoop (apply_fuel n) n = (Some r, n') ∧ ∃ b, applied_to n r n' b.
Proof.
  intros Hok. unfold ApplyCommittedEntries.
  destruct (ApplyLoop (apply_fuel n) n) as [ro n1] eqn:Hloop. intros Hrun. pose proof Hloop as Hl.
  apply ApplyLoop_spec in Hl as (r' & b & -> & Hb); [|done|unfold apply_fuel; lia].
  injection Hrun as <- <-. split; [done|by exists b].
Qed.
End applying.


(** Two committed records, the second of which fails to apply (an empty value). *)
Definition sim_committed : RaftCore :=
  mkCore kFollower 1 (-1) 3
    [mkLogRecord 0 0 "bootstrap"; mkLogRecord 1 1 "SET|a|1"; mkLogRecord 2 1 "SET|b|"] 2 0 0 0 ∅ ∅.

Lemma sim_committed_ok : core_ok sim_committed.
Proof.
  split; [split; [by eexists| |done|done]|done..].
  intros k r Hk. do 3 (destruct k; [by simplify_eq/=|]). done.
Defined.

(** [KvStateMachine] over the simulated environment: its snapshot files hold
    [snapshot_bytes]. *)
#[export] Instance sim_state_machine : IStateMachine KvStateMachine SimEnv := {|
  sm_Apply := Apply;
  sm_SaveSnapshot p m e := (snapshot_ok, e <| sim_files ::= <[p := snapshot_bytes m]> |>);
  sm_LoadSnapshot p m e :=
    match sim_files e !! p with
    | None => (mkSnapshotResult ssNotFound "snapshot file not found", m)
    | Some b => match ParseSnapshot b with
                | inl r => (r, m)
                | inr kv => (snapshot_ok, mkKv kv)
                end
    end |}.
#[export] Instance sim_apply_atomic : ApplyAtomic KvStateMachine SimEnv := kv_apply_atomic.


(** The state machine follows the log.  Whatever [OnAppendEntries] does with a
    request, on a node whose boundaries are well formed: the state machine is
    afterwards the old one with exactly the records of the new log between the old
    and the new [last_applied] applied in index order, nothing is applied beyond
    the commit index, and nothing at all when the request is refused. *)
Theorem OnAppendEntries_applies {SM E}
    `{HostEnv E, IRaftStorage E, !IStateMachine SM E, !ApplyAtomic SM E}
    (request : AppendEntriesRequest) (n n' : Node SM E) resp :
  OnAppendEntries request n = (resp, n') → core_ok (core n) →
  Forall (λ e, is_u64 (index e)) (areq_entries request) →
  let a := last_applied_ (core n) in let b := last_applied_ (core n') in
  core_ok (core n') ∧ a ≤ b ≤ commit_index_ (core n') ∧
  state_machine_ n' = replay (log_between a b (core n')) (state_machine_ n) ∧
  (aresp_success resp = false → n' = (OnAppendEntriesLocked request n).2 ∧ b = a).
Proof.
  unfold OnAppendEntries. intros Hrun Hok Hu. cbv zeta.
  pose proof (OnAppendEntriesLocked_machine request n) as Hm.
  destruct (OnAppendEntriesLocked request n) as [[resp1 should_apply] n1] eqn:Hlock. cbn [snd] in *.
  destruct (OnAppendEntries_effect _ _ _ _ _ Hlock) as [_ Heff].
  destruct (append_effect_core_ok _ _ _ _ _ Heff Hok Hu) as (Hok1 & _ & _ & _ & Ha).
  pose proof (core_applied_commit _ Hok1). pose proof (append_effect_should_apply _ _ _ _ _ Heff) as Hsucc.
  destruct should_apply.
  - destruct (ApplyCommittedEntries n1) as [r n2] eqn:Hap. injection Hrun as <- <-. cbn [snd].
    apply ApplyCommittedEntries_spec in Hap as (_ & b & Hid & Hb & Hc & Hm' & _); [|done].
    rewrite Hc. rewrite Ha in *. unfold set_applied. node_simpl.
    split_and!; [apply set_applied_core_ok; [done|lia]|lia|lia| |intros Hs; by rewrite Hsucc in Hs].
    by rewrite Hm', Hm.
  - injection Hrun as <- <-. rewrite Ha. split_and!; [done|lia|lia| |done].
    by rewrite log_between_nil.
Qed.

(** The leader of term 3 overwrites record 3 of [sim_follower] and commits it. *)
Lemma OnAppendEntries_applies_witness :
  let n := sim_node 2 sim_follower (mkKv ∅) sim_init in
  let '(resp, n') := OnAppendEntries sim_append n in
  aresp_success resp = true ∧ last_applied_ (core n') = 3 ∧
  Get "c" (state_machine_ n') = Some "1" ∧ core_ok (core n').
Proof.
  cbv zeta. destruct (OnAppendEntries _ _) as [resp n'] eqn:Hrun.
  assert (Hu : Forall (λ e, is_u64 (index e)) (areq_entries sim_append))
    by (repeat constructor; done).
  destruct (OnAppendEntries_applies _ (sim_node 2 sim_follower (mkKv ∅) sim_init) n' resp Hrun
              sim_follower_core_ok Hu) as (Hok & _ & Hsm & _).
  assert (Hr : aresp_success resp = true ∧ last_applied_ (core n') = 3 ∧
               Get "c" (state_machine_ n') = Some "1").
  { vm_compute in Hrun. injection Hrun as <- <-. by split_and!. }
  destruct Hr as (? & ? & ?). by split_and!.
Defined.

(** ** The commit rule *)
Section commit.
Context {SM E : Type} `{HostEnv E, IRaftStorage E}.
Implicit Types n : Node SM E.

(** An index a leader may commit: a record of its own term on a majority. *)
Definition committable (config : NodeConfig) (c : RaftCore) (i : Z) : Prop :=
  HasLogAtIndexLocked c i = true ∧ TermAtIndexLocked c i = current_term_ c ∧
  quorum_of config ≤ replicated_count i config c.

Lemma set_commit_id c : c = c <| commit_index_ := commit_index_ c |>.
Proof. by destruct c. Qed.

Lemma advance_from_spec k config c :
  match advance_from k config c with
  | Some i => commit_index_ c < i ≤ commit_index_ c + Z.of_nat k ∧ committable config c i ∧
              (∀ j, i < j ≤ commit_index_ c + Z.of_nat k → ¬ committable config c j)
  | None => ∀ j, commit_index_ c < j ≤ commit_index_ c + Z.of_nat k → ¬ committable config c j
  end.
Proof.
  induction k as [|k IH]; [intros j ?; lia|]. cbn [advance_from].
  set (i := commit_index_ c + Z.of_nat (S k)) in *.
  destruct (decide (committable config c i)) as [Hc|Hc].
  { destruct Hc as (H1 & H2 & H3). rewrite H1. cbn [negb].
    rewrite decide_False by (by intros ?). rewrite decide_True by done.
    split_and!; [lia|lia|by split_and!|intros j ?; lia]. }
  assert (Hskip : (if negb (HasLogAtIndexLocked c i) then advance_from k config c
    else if decide (TermAtIndexLocked c i ≠ current_term_ c) then advance_from k config c
    else if decide (quorum_of config ≤ replicated_count i config c) then Some i
    else advance_from k config c) = advance_from k config c).
  { unfold committable in Hc. destruct (HasLogAtIndexLocked c i); cbn [negb]; [|done].
    case_decide; [done|]. case_decide; [|done]. exfalso. naive_solver. }
  rewrite Hskip. assert (Hj : ∀ j, j ≤ i → j = i ∨ j ≤ commit_index_ c + Z.of_nat k) by lia.
  destruct (advance_from k config c) as [i'|].
  - destruct IH as (? & ? & IH). split_and!; [lia|lia|done|].
    intros j Hlt. destruct (Hj j) as [->|]; [lia|done|apply IH; lia].
  - intros j Hlt. destruct (Hj j) as [->|]; [lia|done|apply IH; lia].
Qed.

Lemma set_commit_core_ok i c :
  core_ok c → commit_index_ c ≤ i ≤ u64_max → core_ok (c <| commit_index_ := i |>).
Proof. intros [[] ? ? ?] ?. split; [by split|node_simpl; lia..]. Qed.

(** The two outcomes of [AdvanceCommitIndexUnlocked]. *)
Lemma AdvanceCommitIndex_cases n :
  log_ok (core n) →
  let c := core n in
  core (AdvanceCommitIndexUnlocked n) = c ∧
    (role_ c = kLeader → ∀ j, commit_index_ c < j → ¬ committable (config_ n) c j) ∨
  ∃ i, commit_index_ c < i ∧ role_ c = kLeader ∧ committable (config_ n) c i ∧
       (∀ j, i < j → ¬ committable (config_ n) c j) ∧
       core (AdvanceCommitIndexUnlocked n) = c <| commit_index_ := i |>.
Proof.
  intros Hok. cbv zeta. unfold AdvanceCommitIndexUnlocked.
  destruct (decide (role_ (core n) ≠ kLeader)) as [Hr|Hr]; [by left|].
  apply dec_stable in Hr. rewrite decide_False by (by apply log_ok_nonempty).
  pose proof (advance_from_spec (Z.to_nat (LastLogIndexLocked (core n) - commit_index_ (core n)))
                (config_ n) (core n)) as Hspec.
  assert (Htop : ∀ j, committable (config_ n) (core n) j → j ≤ LastLogIndexLocked (core n)).
  { intros j (Hh & _). rewrite HasLogAtIndex_spec, bool_decide_eq_true in Hh by done. lia. }
  destruct (advance_from _ _ (core n)) as [i|].
  - right. exists i. rewrite (sbh_core _ _ (PersistStateLocked_frame _)). node_simpl.
    destruct Hspec as (Hi & Hc & Hmax). split_and!; [lia|done|done| |done].
    intros j Hj Hcj. apply (Hmax j); [|done]. pose proof (Htop j Hcj). lia.
  - left. split; [done|]. intros _ j Hj Hcj. apply (Hspec j); [|done].
    pose proof (Htop j Hcj). lia.
Qed.
End commit.

(** C29: the leader's commit rule.  [AdvanceCommitIndexUnlocked] changes nothing
    but the commit index, never moves it back, and moves it only on a leader, to
    an index that holds a record of the leader's own term which a majority of the
    cluster (the leader included) has acknowledged; and it is complete: no such
    index is left above the new commit index. *)
Theorem AdvanceCommitIndex_rule {SM E} `{HostEnv E, IRaftStorage E} (n : Node SM E) :
  log_ok (core n) →
  let c := core n in
  let c' := core (AdvanceCommitIndexUnlocked n) in
  c' = c <| commit_index_ := commit_index_ c' |> ∧ commit_index_ c ≤ commit_index_ c' ∧
  (commit_index_ c < commit_index_ c' →
     role_ c = kLeader ∧ committable (config_ n) c (commit_index_ c')) ∧
  (role_ c = kLeader → ∀ j, commit_index_ c' < j → ¬ committable (config_ n) c j).
Proof.
  intros Hok. cbv zeta.
  destruct (AdvanceCommitIndex_cases n Hok) as [[-> Hno]|(i & Hi & Hr & Hc & Hmax & ->)].
  - split_and!; [apply set_commit_id|done|lia|done].
  - node_simpl. split_and!; [done|lia|done|done].
Qed.

(** A leader of term 2 whose record 3 is on peer 1 as well. *)
Lemma AdvanceCommitIndex_rule_witness :
  let c := sim_follower <| role_ := kLeader |> <| match_index_ := {[1 := 3; 3 := 0]} |> in
  let n := sim_node 2 c tt sim_init in
  commit_index_ (core (AdvanceCommitIndexUnlocked n)) = 3 ∧
  committable (config_ n) c 3.
Proof.
  cbv zeta. match goal with |- context [AdvanceCommitIndexUnlocked ?n] =>
    destruct (AdvanceCommitIndex_rule n) as (_ & _ & Hrule & _) end.
  { destruct sim_follower_log_ok. by split. }
  split; [vm_compute; reflexivity|]. apply Hrule. vm_compute. reflexivity.
Defined.
