(* ===== verification/Replicator.v ===== *)
(** Replication to one peer (src/modules/raft/replication/replicator.cpp), the
    RPC wrappers of raft_node.cpp and [SendInstallSnapshotToPeer]. *)
From S2P Require Import Prelude Command Types Timer Metrics Env Sim Node SimNode.
From S2P Require Import NodeLog Election AppendEntries Bytes Fs StateMachine Commit.

(** ** The network

    The outcome of a gRPC call ([None] when its status is not OK) together with
    the node as it is when the call returns: [mu_] is free during the call, so
    other threads may have run any of the node's operations meanwhile. *)
Class PeerNet (SM E : Type) := {
  net_RequestVote : Z → VoteRequest → Node SM E → option VoteResponse * Node SM E;
  net_AppendEntries : Z → AppendEntriesRequest → Node SM E →
    option AppendEntriesResponse * Node SM E;
  net_InstallSnapshot : Z → InstallSnapshotRequest → Node SM E →
    option InstallSnapshotResponse * Node SM E }.

Definition is_some {A} (x : option A) : bool := match x with Some _ => true | None => false end.

Definition kMaxAppendEntriesPerRpc : nat := 256.
Definition kMaxAppendEntriesBytes : Z := 512 * 1024.

(** What [BuildAppendEntriesRequest] produces. *)
Inductive BuildResult :=
  | BuildFailed                                  (** returned false *)
  | BuildSnapshot                                (** [*should_install_snapshot = true] *)
  | BuildRequest (request : AppendEntriesRequest).

(** The loop that fills the request: [k] more entries may be added. *)
Fixpoint collect_entries (k : nat) (i : Z) (entry_count bytes_count : Z) (c : RaftCore) :
    list LogRecord :=
  match k with
  | O => []
  | S k =>
      if decide (LastLogIndexLocked c < i) then []
      else
        match LogAtIndexLocked c i with
        | None => []
        | Some record =>
            let next_bytes := bytes_count + Z.of_nat (String.length (command record)) in
            if bool_decide (0 < entry_count) && bool_decide (kMaxAppendEntriesBytes < next_bytes)
            then []
            else record :: collect_entries k (u64 (i + 1)) (entry_count + 1) next_bytes c
        end
  end.

(** The hint of a rejected request: the last index of [conflict_term] in the
    leader's log, plus one. *)
Definition last_of_term (t : Z) (log : list LogRecord) : option LogRecord :=
  head (filter (λ r, term r = t) (reverse log)).
Definition hinted_next (response : AppendEntriesResponse) (c : RaftCore) : Z :=
  let hinted :=
    if decide (aresp_conflict_term response ≠ 0) then
      let hinted := match last_of_term (aresp_conflict_term response) (log_ c) with
                    | Some r => SafeAddOne (index r)
                    | None => 0
                    end in
      if decide (hinted = 0) then aresp_conflict_index response else hinted
    else if decide (aresp_conflict_index response ≠ 0) then aresp_conflict_index response
    else SafeAddOne (aresp_last_log_index response) in
  Z.min hinted (SafeAddOne (LastLogIndexLocked c)).

Section operations.
Context {SM E : Type} `{HostEnv E, IRaftStorage E, ISnapshotStorage E, PeerNet SM E}.
Implicit Types n : Node SM E.

(** ** RPC wrappers

    [clients_] holds one client per configured peer ([InitClients]). *)
Definition has_client (peer_id : Z) n : bool :=
  existsb (λ p, bool_decide (peer_node_id p = peer_id)) (peers (config_ n)).
(* The table has an entry per kind ([RecordRpcLatency_ok]): [at] does not throw. *)
Definition RecordLatencySince (kind : RpcKind) (ok : bool) (start : Z) n : Node SM E :=
  n <| metrics_ ::= λ m,
    default m (RecordRpcLatency kind ok ((steady_now (env_ n) - start) * 1000) m) |>.

Definition RequestVoteRpc (peer_id : Z) (request : VoteRequest) n :
    option VoteResponse * Node SM E :=
  if negb (has_client peer_id n) then (None, n)
  else
    let start := steady_now (env_ n) in
    let '(response, n) := net_RequestVote peer_id request n in
    (response, RecordLatencySince kRequestVote (is_some response) start n).

Definition AppendEntriesRpc (peer_id : Z) (request : AppendEntriesRequest) n :
    option AppendEntriesResponse * Node SM E :=
  if negb (has_client peer_id n) then (None, n)
  else
    let start := steady_now (env_ n) in
    let '(response, n) := net_AppendEntries peer_id request n in
    (response, RecordLatencySince kAppendEntries (is_some response) start n).

Definition InstallSnapshotRpc (peer_id : Z) (request : InstallSnapshotRequest) n :
    option InstallSnapshotResponse * Node SM E :=
  if negb (has_client peer_id n) then (None, n)
  else
    let start := steady_now (env_ n) in
    let '(response, n) := net_InstallSnapshot peer_id request n in
    (response, RecordLatencySince kInstallSnapshot (is_some response) start n).

(** ** [Replicator] *)

(** [IsTargetMatched]. *)
Definition IsTargetMatched (peer_id target_index : Z) n : bool :=
  if decide (target_index = 0) then false
  else match match_index_ (core n) !! peer_id with
       | Some m => bool_decide (target_index ≤ m)
       | None => false
       end.

(** [IsBackoffActiveLocked], [ResetBackoffLocked],
    [RecordTransportFailureLocked], [Finish*RpcLocked]. *)
Definition IsBackoffActiveLocked (now : Z) (r : Replicator) : bool :=
  bool_decide (next_retry_time_ r ≠ 0) && bool_decide (now < next_retry_time_ r).
Definition ResetBackoffLocked (r : Replicator) : Replicator :=
  r <| retry_backoff_ := kInitialRetryBackoff |> <| next_retry_time_ := 0 |>.
Definition RecordTransportFailureLocked (now : Z) (r : Replicator) : Replicator :=
  r <| transport_failures_ ::= incr |>
    <| next_retry_time_ := now + retry_backoff_ r |>
    <| retry_backoff_ := Z.min kMaxRetryBackoff (retry_backoff_ r * 2) |>.
Definition FinishAppendRpcLocked (r : Replicator) : Replicator :=
  r <| append_inflight_ := false |> <| append_rpc_finished_ ::= incr |>.
Definition FinishSnapshotRpcLocked (r : Replicator) : Replicator :=
  r <| snapshot_inflight_ := false |> <| snapshot_rpc_finished_ ::= incr |>.

(** Update the replicator of a peer. *)
Definition on_replicator (peer_id : Z) (f : Replicator → Replicator) n : Node SM E :=
  n <| replicators_ ::= alter f peer_id |>.

(** [BuildAppendEntriesRequest]; [next_index_[peer]] creates the entry. *)
Definition BuildAppendEntriesRequest (peer_id leader_term : Z) n : BuildResult * Node SM E :=
  let c := core n in
  if negb (running_ n) || bool_decide (role_ c ≠ kLeader) ||
     bool_decide (current_term_ c ≠ leader_term)
  then (BuildFailed, n)
  else
    let next_index := default 0 (next_index_ c !! peer_id) in
    let next_index := if decide (next_index = 0) then SafeAddOne (LastLogIndexLocked c)
                      else next_index in
    let n := n <| core ::= λ c, c <| next_index_ ::= <[peer_id := next_index]> |> |> in
    if decide (next_index ≤ FirstLogIndexLocked c) then (BuildSnapshot, n)
    else
      let prev_log_index := u64 (next_index - 1) in
      let prev_log_term := TermAtIndexLocked c prev_log_index in
      if bool_decide (prev_log_term = 0) && bool_decide (prev_log_index ≠ 0)
      then (BuildSnapshot, n)
      else
        (BuildRequest (mkAppendEntriesRequest leader_term (node_id (config_ n)) prev_log_index
           prev_log_term (collect_entries kMaxAppendEntriesPerRpc next_index 0 0 c)
           (commit_index_ c)), n).

(** [HandleAppendEntriesResponse]: the result and [*should_apply] (which is
    false on entry). *)
Definition HandleAppendEntriesResponse (peer_id leader_term target_index : Z)
    (response : AppendEntriesResponse) n : (bool * bool) * Node SM E :=
  if negb (running_ n) then ((false, false), n)
  else if decide (current_term_ (core n) < aresp_term response) then
    ((false, false), (BecomeFollowerLocked (aresp_term response) (-1) n).2)
  else if bool_decide (role_ (core n) ≠ kLeader) ||
          bool_decide (current_term_ (core n) ≠ leader_term)
  then ((false, false), n)
  else if aresp_success response then
    let match_index := Z.max (default 0 (match_index_ (core n) !! peer_id))
                             (aresp_match_index response) in
    let next_index := Z.max (default 0 (next_index_ (core n) !! peer_id))
                            (SafeAddOne (aresp_match_index response)) in
    let n := n <| core ::= λ c, c <| match_index_ ::= <[peer_id := match_index]> |>
                                  <| next_index_ ::= <[peer_id := next_index]> |> |> in
    let old_commit_index := commit_index_ (core n) in
    let n := AdvanceCommitIndexUnlocked n in
    ((bool_decide (target_index = 0) || bool_decide (target_index ≤ match_index),
      bool_decide (old_commit_index < commit_index_ (core n))), n)
  else
    let next_index := default 0 (next_index_ (core n) !! peer_id) in
    let hinted := hinted_next response (core n) in
    let next_index := if decide (0 < hinted) then hinted
                      else if decide (1 < next_index) then next_index - 1 else 1 in
    ((false, false),
     n <| core ::= λ c, c <| next_index_ ::= <[peer_id := next_index]> |> |>).

(** [SendInstallSnapshotToPeer] once the peer has answered, inside [mu_]; [i] is
    the index of the snapshot sent. *)
Definition HandleInstallSnapshotResponse (peer_id t i : Z) (response : InstallSnapshotResponse) n :
    bool * Node SM E :=
  if decide (current_term_ (core n) < iresp_term response) then
    (false, (BecomeFollowerLocked (iresp_term response) (-1) n).2)
  else if negb (running_ n) || bool_decide (role_ (core n) ≠ kLeader) ||
          bool_decide (current_term_ (core n) ≠ t)
  then (false, n)
  else if negb (iresp_success response) then
    let hinted_next := SafeAddOne (iresp_last_log_index response) in
    let next_index := default 0 (next_index_ (core n) !! peer_id) in
    let next_index := if decide (0 < hinted_next) then hinted_next else next_index in
    (false, n <| core ::= λ c, c <| next_index_ ::= <[peer_id := next_index]> |> |>)
  else
    (true, n <| core ::= λ c,
       c <| match_index_ ::= λ m, <[peer_id := Z.max (default 0 (m !! peer_id)) i]> m |>
         <| next_index_ ::= λ m,
              <[peer_id := Z.max (default 0 (m !! peer_id)) (SafeAddOne i)]> m |> |>).

(** [SendInstallSnapshotToPeer]. *)
Definition SendInstallSnapshotToPeer (peer_id t : Z) n : bool * Node SM E :=
  let c := core n in
  if negb (running_ n) || bool_decide (role_ c ≠ kLeader) || bool_decide (current_term_ c ≠ t)
  then (false, n)
  else if decide (last_snapshot_index_ c = 0) then (false, n)
  else
    match (snapshot_ListSnapshots (env_ n)).1 with
    | None => (false, n)
    | Some list =>
        let found :=
          match list_find (λ m, last_included_index m = last_snapshot_index_ c ∧
                                last_included_term m = last_snapshot_term_ c) list with
          | Some (_, m) => Some m
          | None => head list
          end in
        match found with
        | None => (false, n)
        | Some meta =>
            match read_file (snapshot_path meta) (env_ n) with
            | None => (false, n)
            | Some snapshot_data =>
                let request := mkInstallSnapshotRequest t (node_id (config_ n))
                  (last_included_index meta) (last_included_term meta) snapshot_data in
                let '(response, n) := InstallSnapshotRpc peer_id request n in
                match response with
                | None => (false, n)
                | Some response =>
                    HandleInstallSnapshotResponse peer_id t (last_included_index meta) response n
                end
            end
        end
    end.

(** [ReplicateOnce]: the result and [*should_apply]. *)
Definition ReplicateOnce (peer_id leader_term target_index : Z) n : (bool * bool) * Node SM E :=
  if IsTargetMatched peer_id target_index n then ((true, false), n)
  else
    match replicators_ n !! peer_id with
    | None => ((false, false), n)       (* the callers create the replicator first *)
    | Some r =>
        if append_inflight_ r || snapshot_inflight_ r then ((false, false), n)
        else if IsBackoffActiveLocked (steady_now (env_ n)) r then ((false, false), n)
        else
          let '(built, n) := BuildAppendEntriesRequest peer_id leader_term n in
          match built with
          | BuildFailed => ((false, false), n)
          | BuildSnapshot =>
              let n := on_replicator peer_id (λ r,
                r <| snapshot_inflight_ := true |> <| snapshot_rpc_started_ ::= incr |>) n in
              let '(ok, n) := SendInstallSnapshotToPeer peer_id leader_term n in
              let n := on_replicator peer_id (λ r,
                let r := FinishSnapshotRpcLocked r in
                if ok then ResetBackoffLocked r
                else RecordTransportFailureLocked (steady_now (env_ n)) r) n in
              if decide (target_index = 0) then ((ok, false), n)
              else ((ok && IsTargetMatched peer_id target_index n, false), n)
          | BuildRequest request =>
              let n := on_replicator peer_id (λ r,
                r <| append_inflight_ := true |> <| append_rpc_started_ ::= incr |>) n in
              let '(response, n) := AppendEntriesRpc peer_id request n in
              match response with
              | None =>
                  ((false, false), on_replicator peer_id (λ r,
                     RecordTransportFailureLocked (steady_now (env_ n))
                       (FinishAppendRpcLocked r)) n)
              | Some response =>
                  let '((matched, should_apply), n) :=
                    HandleAppendEntriesResponse peer_id leader_term target_index response n in
                  ((matched, should_apply), on_replicator peer_id (λ r,
                     let r := FinishAppendRpcLocked r in
                     if aresp_success response then ResetBackoffLocked r
                     else r <| next_retry_time_ := steady_now (env_ n) |>) n)
              end
          end
    end.
End operations.

(** ** The request *)
Section building.
Implicit Types c : RaftCore.

(** The loop copies consecutive records of the leader's log. *)
Lemma collect_entries_spec k i entry_count bytes_count c :
  log_ok c → LastLogIndexLocked c < u64_max → 0 ≤ i →
  let es := collect_entries k i entry_count bytes_count c in
  contiguous i es ∧ (length es ≤ k)%nat ∧
  (es = [] ∨ i + Z.of_nat (length es) - 1 ≤ LastLogIndexLocked c) ∧
  (∀ e, e ∈ es → LogAtIndexLocked c (index e) = Some e).
Proof.
  intros Hok Hmax. revert i entry_count bytes_count.
  assert (Hnil : ∀ k i, contiguous i [] ∧ (length (@nil LogRecord) ≤ k)%nat ∧
    (@nil LogRecord = [] ∨ i + Z.of_nat (length (@nil LogRecord)) - 1 ≤ LastLogIndexLocked c) ∧
    (∀ e : LogRecord, e ∈ [] → LogAtIndexLocked c (index e) = Some e)).
  { intros. split_and!; [apply contiguous_nil|simpl; lia|by left|by intros e ?%elem_of_nil]. }
  induction k as [|k IH]; intros i ec bc Hi; [apply Hnil|].
  cbn [collect_entries]. case_decide as Hlast; [apply Hnil|].
  destruct (LogAtIndexLocked c i) as [r|] eqn:Hr; [|apply Hnil].
  destruct (LogAtIndex_Some c i r Hok Hr) as [Hidx _].
  case_match; [apply Hnil|]. rewrite (u64_id (i + 1)) by u64_lia.
  destruct (IH (i + 1) (ec + 1) (bc + Z.of_nat (String.length (command r))))
    as (Hc & Hlen & Hend & Hin); [lia|].
  split_and!.
  - by apply contiguous_cons.
  - simpl. lia.
  - right. cbn [length]. destruct Hend as [->|]; [simpl|]; lia.
  - intros e [->|?]%elem_of_cons; [by rewrite Hidx|by apply Hin].
Qed.
End building.

Section requests.
Context {SM E : Type} `{HostEnv E, IRaftStorage E}.
Implicit Types n : Node SM E.

Lemma BuildRequest_shape n n' peer_id t request :
  log_ok (core n) → is_u64 (default 0 (next_index_ (core n) !! peer_id)) →
  BuildAppendEntriesRequest peer_id t n = (BuildRequest request, n') →
  let c := core n in let prev := areq_prev_log_index request in
  role_ c = kLeader ∧ current_term_ c = t ∧ areq_term request = t ∧
  areq_leader_commit request = commit_index_ c ∧
  (∃ r, LogAtIndexLocked c prev = Some r ∧ term r = areq_prev_log_term request) ∧
  areq_entries request = collect_entries kMaxAppendEntriesPerRpc (prev + 1) 0 0 c ∧
  core n' = c <| next_index_ := next_index_ (core n') |>.
Proof.
  intros Hok Hnext. unfold BuildAppendEntriesRequest. cbv zeta.
  destruct (running_ n); cbn [negb orb]; [|done].
  case_bool_decide as Hrole; cbn [orb]; [done|]. case_bool_decide as Hterm; [done|].
  set (next := if decide (default 0 (next_index_ (core n) !! peer_id) = 0) then _ else _).
  assert (Hnu : is_u64 next).
  { unfold next. case_decide; [|done]. by apply SafeAddOne_range, LastLogIndex_u64. }
  clearbody next. pose proof (log_low _ Hok). rewrite FirstLogIndex_ok by done.
  case_decide as Hfirst; [done|]. rewrite (u64_id (next - 1)) by u64_lia.
  set (collect := collect_entries). case_match eqn:Hprev; [done|].
  assert (Hrec : is_Some (LogAtIndexLocked (core n) (next - 1))).
  { destruct (decide (next - 1 = 0)) as [Hz|Hz].
    - apply HasLog_LogAtIndex; [done|]. rewrite HasLogAtIndex_spec by done.
      apply bool_decide_eq_true. pose proof (LastLogIndex_ge _ Hok). lia.
    - rewrite (bool_decide_true (next - 1 ≠ 0)), andb_true_r in Hprev by done.
      apply bool_decide_eq_false in Hprev. rewrite TermAtIndex_ok in Hprev by done.
      destruct (LogAtIndexLocked (core n) (next - 1)); [eauto|done]. }
  clearbody collect. intros [= <- <-]. node_simpl.
  cbn [areq_term areq_leader_commit areq_prev_log_index areq_entries areq_prev_log_term].
  replace (next - 1 + 1) with next by lia. split_and!; try done.
  destruct Hrec as [r Hr]. exists r. split; [done|]. rewrite TermAtIndex_ok by done. by rewrite Hr.
Qed.

Lemma BuildRequest_entries n n' peer_id t request :
  log_ok (core n) → LastLogIndexLocked (core n) < u64_max →
  is_u64 (default 0 (next_index_ (core n) !! peer_id)) →
  BuildAppendEntriesRequest peer_id t n = (BuildRequest request, n') →
  entries_ok (areq_prev_log_index request) (areq_entries request) ∧
  (length (areq_entries request) ≤ kMaxAppendEntriesPerRpc)%nat ∧
  (∀ e, e ∈ areq_entries request → LogAtIndexLocked (core n) (index e) = Some e).
Proof.
  intros Hok Hmax Hnext Hbuild.
  destruct (BuildRequest_shape _ _ _ _ _ Hok Hnext Hbuild) as (_ & _ & _ & _ & (r & Hr & _) & Hes & _).
  assert (Hprev : 0 ≤ areq_prev_log_index request ≤ LastLogIndexLocked (core n)).
  { assert (Hh : HasLogAtIndexLocked (core n) (areq_prev_log_index request) = true)
      by (by apply HasLog_LogAtIndex; [|rewrite Hr]).
    rewrite HasLogAtIndex_spec, bool_decide_eq_true in Hh by done. pose proof (log_low _ Hok). lia. }
  destruct (collect_entries_spec kMaxAppendEntriesPerRpc (areq_prev_log_index request + 1) 0 0
              (core n) Hok Hmax) as (Hc & Hlen & Hend & Hin); [lia|].
  rewrite <- Hes in *. split_and!; [split; [done|]|done|done].
  destruct Hend as [->|]; [simpl|]; u64_lia.
Qed.
End requests.


(** The leader of term 2 with record 3, building for a peer at next index 2. *)
Definition sim_leader : RaftCore :=
  sim_follower <| role_ := kLeader |> <| next_index_ := {[1 := 2; 3 := 4]} |>
               <| match_index_ := {[1 := 0; 3 := 3]} |>.

Lemma sim_leader_log_ok : log_ok sim_leader.
Proof. destruct sim_follower_log_ok. by split. Defined.


(** ** The response *)
Section handling.
Context {SM E : Type} `{HostEnv E, IRaftStorage E}.
Implicit Types n : Node SM E.

Lemma hinted_next_le response c : hinted_next response c ≤ SafeAddOne (LastLogIndexLocked c).
Proof. unfold hinted_next. lia. Qed.
End handling.

(** The leader's bookkeeping for a peer.  When a running leader handles an
    answer from its own term, the log, term, vote and role are untouched, the other
    peers' indexes are untouched, the peer's [match_index] never decreases and
    after a success covers the acknowledged index; its [next_index] ends at least
    1; after a rejection it is at most one past the leader's log, so the next
    request can be built; and the commit index moves only by the commit rule. *)
Theorem HandleAppendEntriesResponse_progress {SM E} `{HostEnv E, IRaftStorage E}
    (n n' : Node SM E) peer_id t target response matched should_apply :
  HandleAppendEntriesResponse peer_id t target response n = ((matched, should_apply), n') →
  running_ n = true → role_ (core n) = kLeader → current_term_ (core n) = t →
  aresp_term response ≤ t → log_ok (core n) → is_u64 (aresp_match_index response) →
  let c := core n in let c' := core n' in
  (log_ c', current_term_ c', voted_for_ c', role_ c') = (log_ c, t, voted_for_ c, kLeader) ∧
  (∀ q, q ≠ peer_id → match_index_ c' !! q = match_index_ c !! q ∧
                      next_index_ c' !! q = next_index_ c !! q) ∧
  default 0 (match_index_ c !! peer_id) ≤ default 0 (match_index_ c' !! peer_id) ∧
  1 ≤ default 0 (next_index_ c' !! peer_id) ∧
  (if aresp_success response then
     aresp_match_index response ≤ default 0 (match_index_ c' !! peer_id) ∧
     (aresp_match_index response < u64_max →
      aresp_match_index response + 1 ≤ default 0 (next_index_ c' !! peer_id))
   else default 0 (next_index_ c' !! peer_id) ≤ SafeAddOne (LastLogIndexLocked c) ∨
        default 0 (next_index_ c' !! peer_id) < default 0 (next_index_ c !! peer_id) ∨
        default 0 (next_index_ c' !! peer_id) = 1) ∧
  commit_index_ c ≤ commit_index_ c' ∧
  (commit_index_ c < commit_index_ c' → aresp_success response = true ∧ should_apply = true ∧
     committable (config_ n) c' (commit_index_ c')).
Proof.
  intros Hrun Hrunning Hrole Hterm Hresp Hok Hu. cbv zeta.
  unfold HandleAppendEntriesResponse in Hrun. rewrite Hrunning in Hrun. cbn [negb] in Hrun.
  rewrite decide_False in Hrun by lia.
  rewrite !bool_decide_false in Hrun by (intros ?; congruence). cbn [orb] in Hrun.
  destruct (aresp_success response).
  - match type of Hrun with context [AdvanceCommitIndexUnlocked ?m] => set (n1 := m) in Hrun end.
    injection Hrun as _ <- <-.
    assert (Hok1 : log_ok (core n1)) by (destruct Hok; by split).
    assert (Hadv : let c' := core (AdvanceCommitIndexUnlocked n1) in
      c' = (core n1) <| commit_index_ := commit_index_ c' |> ∧
      commit_index_ (core n1) ≤ commit_index_ c' ∧
      (commit_index_ (core n1) < commit_index_ c' →
       committable (config_ n1) (core n1) (commit_index_ c'))).
    { cbv zeta. destruct (AdvanceCommitIndex_cases n1 Hok1) as [[-> _]|(i & ? & ? & ? & _ & ->)];
        [split_and!; [apply set_commit_id|done|lia]|split_and!; [done|node_simpl; lia|done]]. }
    destruct Hadv as (Hc & Hle & Hrule). set (c' := core (AdvanceCommitIndexUnlocked n1)) in *.
    assert (Hfields : log_ c' = log_ (core n) ∧ current_term_ c' = current_term_ (core n) ∧
      voted_for_ c' = voted_for_ (core n) ∧ role_ c' = role_ (core n) ∧
      match_index_ c' = match_index_ (core n1) ∧ next_index_ c' = next_index_ (core n1)).
    { rewrite Hc. by split_and!. }
    destruct Hfields as (-> & -> & -> & -> & Hm & Hn). rewrite Hm, Hn.
    unfold n1. node_simpl. rewrite !lookup_insert_eq. cbn [default].
    pose proof (SafeAddOne_pos _ Hu).
    split; [congruence|]. split; [intros q Hq; by rewrite !lookup_insert_ne by done|].
    split; [simpl; lia|]. split; [simpl; lia|].
    split; [split; [simpl; lia|intros Hlt; rewrite SafeAddOne_lt by done; simpl; lia]|].
    split; [done|]. intros Hlt. pose proof (Hrule Hlt) as Hcom.
    split; [done|]. split; [by apply bool_decide_true|]. rewrite Hc. exact Hcom.
  - injection Hrun as _ _ <-. node_simpl. rewrite lookup_insert_eq. cbn [default].
    pose proof (hinted_next_le response (core n)).
    split; [congruence|]. split; [intros q Hq; by rewrite lookup_insert_ne by done|].
    split; [done|]. split; [repeat case_decide; simpl; lia|].
    split; [|split; [done|lia]]. repeat case_decide; simpl; lia.
Qed.

(** Peer 1 of [sim_leader] acknowledges record 3: the leader commits it. *)
Lemma HandleAppendEntriesResponse_progress_witness :
  let n := sim_node 2 sim_leader tt sim_init in
  let response := mkAppendEntriesResponse 2 true 3 3 0 0 in
  let '((matched, should_apply), n') := HandleAppendEntriesResponse 1 2 3 response n in
  matched = true ∧ should_apply = true ∧ commit_index_ (core n') = 3 ∧
  committable (config_ n) (core n') 3.
Proof.
  cbv zeta. destruct (HandleAppendEntriesResponse _ _ _ _ _) as [[matched b] n'] eqn:Hrun.
  destruct (HandleAppendEntriesResponse_progress _ _ _ _ _ _ _ _ Hrun eq_refl eq_refl eq_refl)
    as (_ & _ & _ & _ & _ & _ & Hcom); [done|apply sim_leader_log_ok|done|].
  assert (Hc : matched = true ∧ commit_index_ (core n') = 3)
    by (vm_compute in Hrun; injection Hrun as <- <- <-; by split).
  destruct Hc as [Hm Hc]. rewrite Hc in Hcom. destruct Hcom as (_ & Hb & Hcom); [done|].
  by split_and!.
Defined.


(** [sim_leader] sends records 2 and 3 to a follower that holds only record 1. *)
Definition sim_lagging : RaftCore :=
  mkCore kFollower 1 (-1) (-1)
    [mkLogRecord 0 0 "bootstrap"; mkLogRecord 1 1 "SET|a|1|"; mkLogRecord 2 1 "old"] 0 0 0 0 ∅ ∅.

Lemma sim_lagging_log_ok : log_ok sim_lagging.
Proof.
  split; [by eexists| |done|done].
  intros k r Hk. do 3 (destruct k; [by simplify_eq/=|]). done.
Defined.

