(* ===== verification/Propose.v ===== *)
(** Client proposals (src/modules/raft/node/raft_node.cpp): validation, the local
    append, replication to a majority, [Propose] and the leader's no-op entry,
    heartbeats and the election driver. *)
From S2P Require Import Prelude Command Types Timer Metrics Env Sim Node SimNode.
From S2P Require Import NodeLog Election AppendEntries Bytes Fs StateMachine Commit.
From S2P Require Import Replicator.

(** [enum class ReplicationOutcome]. *)
Inductive ReplicationOutcome := kReplicated | kTimeout | kLostLeadership | kLogUnavailable.
#[export] Instance ReplicationOutcome_eq_dec : EqDecision ReplicationOutcome.
Proof. solve_decision. Defined.

(** ** Validation: [None] when accepted, [Some reason] otherwise *)
Definition size_of (s : string) : Z := Z.of_nat (String.length s).

Definition ValidateKeyUnlocked (limits : KvRequestLimits) (k : string) : option string :=
  if decide (k = "") then Some "key must not be empty"
  else if contains sep k then Some "key must not contain '|'"
  else if decide (max_key_bytes limits < size_of k) then Some "key size exceeds limit"
  else None.

Definition ValidateValueUnlocked (limits : KvRequestLimits) (v : string) : option string :=
  if contains sep v then Some "value must not contain '|'"
  else if decide (max_value_bytes limits < size_of v) then Some "value size exceeds limit"
  else None.

Definition ValidateCommandUnlocked (limits : KvRequestLimits) (cmd : Command) : option string :=
  if negb (IsValid cmd) then Some "invalid command"
  else
    match ValidateKeyUnlocked limits (key cmd) with
    | Some reason => Some reason
    | None =>
        match (if decide (type cmd = kSet) then ValidateValueUnlocked limits (value cmd) else None) with
        | Some reason => Some reason
        | None =>
            let serialized := Serialize cmd in
            if decide (serialized = "") then Some "command serialization result is empty"
            else if decide (max_command_bytes limits < size_of serialized) then
              Some "command size exceeds limit"
            else None
        end
    end.

Section operations.
Context {SM E : Type} `{HostEnv E, IRaftStorage E, ISnapshotStorage E, PeerNet SM E,
  !IStateMachine SM E}.
Implicit Types n : Node SM E.

(** [AppendLocalLogUnlocked]: 0 when the entry could not be persisted. *)
Definition AppendLocalLogUnlocked (command_data : string) n : Z * Node SM E :=
  let self := node_id (config_ n) in
  let new_index := SafeAddOne (LastLogIndexLocked (core n)) in
  let record := mkLogRecord new_index (current_term_ (core n)) command_data in
  let n := n <| core ::= λ c, c <| log_ := log_ c ++ [record] |>
                                <| match_index_ ::= <[self := new_index]> |>
                                <| next_index_ ::= <[self := SafeAddOne new_index]> |> |> in
  let '((persisted, _), n) := PersistStateLocked n in
  if negb persisted then
    let n := n <| core ::= λ c, c <| log_ ::= λ l, removelast l |> |> in
    let last := LastLogIndexLocked (core n) in
    (0, n <| core ::= λ c, c <| match_index_ ::= <[self := last]> |>
                            <| next_index_ ::= <[self := SafeAddOne last]> |> |>)
  else (new_index, n).

Definition matched_at (peer_id log_index : Z) (c : RaftCore) : bool :=
  match match_index_ c !! peer_id with Some m => bool_decide (log_index ≤ m) | None => false end.

(** The [for] loop over the peers: [Some] when the function returns from it. *)
Fixpoint ReplicateToPeers (todo : list PeerConfig) (t log_index : Z) n :
    option ReplicationOutcome * Node SM E :=
  match todo with
  | [] => (None, n)
  | peer :: todo =>
      if negb (running_ n) || bool_decide (role_ (core n) ≠ kLeader) ||
         bool_decide (current_term_ (core n) ≠ t)
      then (Some kLostLeadership, n)
      else if matched_at (peer_node_id peer) log_index (core n) then
        ReplicateToPeers todo t log_index n
      else
        let n := GetOrCreateReplicatorLocked (peer_node_id peer) n in
        let '((_, should_apply), n) := ReplicateOnce (peer_node_id peer) t log_index n in
        let n := if should_apply then (ApplyCommittedEntries n).2 else n in
        if negb (running_ n) then (Some kLostLeadership, n)
        else if bool_decide (role_ (core n) ≠ kLeader) || bool_decide (current_term_ (core n) ≠ t)
        then (Some kLostLeadership, n)
        else if decide (quorum_of (config_ n) ≤ replicated_count log_index (config_ n) (core n))
        then (Some kReplicated, n)
        else ReplicateToPeers todo t log_index n
  end.

(** One turn of the [while] loop, the final sleep included. *)
Definition ReplicateRound (log_index : Z) n : option ReplicationOutcome * Node SM E :=
  if negb (running_ n) || bool_decide (role_ (core n) ≠ kLeader) then (Some kLostLeadership, n)
  else if negb (HasLogAtIndexLocked (core n) log_index) then
    (Some (if decide (log_index ≤ last_snapshot_index_ (core n)) then kReplicated
           else kLogUnavailable), n)
  else
    let t := current_term_ (core n) in
    let n := foldl (λ n p, GetOrCreateReplicatorLocked (peer_node_id p) n) n (peers (config_ n)) in
    if decide (quorum_of (config_ n) ≤ 1) then (Some kReplicated, n)
    else if decide (quorum_of (config_ n) ≤ replicated_count log_index (config_ n) (core n))
    then (Some kReplicated, n)
    else
      let '(r, n) := ReplicateToPeers (peers (config_ n)) t log_index n in
      match r with
      | Some r => (Some r, n)
      | None => (None, n <| env_ ::= sleep_for 20 |>)
      end.

(** The [while] loop; [None] when [fuel] runs out. *)
Fixpoint ReplicateLoop (fuel : nat) (deadline log_index : Z) n :
    option ReplicationOutcome * Node SM E :=
  if decide (deadline ≤ steady_now (env_ n)) then (Some kTimeout, n)
  else
    match fuel with
    | O => (None, n)
    | S fuel =>
        let '(r, n) := ReplicateRound log_index n in
        match r with Some r => (Some r, n) | None => ReplicateLoop fuel deadline log_index n end
    end.

(** [ReplicateLogEntryToMajority]: each turn sleeps 20 ms, so [rpc_deadline]
    turns reach the deadline of [20 * rpc_deadline]. *)
Definition replicate_fuel n : nat := Z.to_nat (rpc_deadline (config_ n)).
Definition ReplicateLogEntryToMajority (log_index : Z) n : ReplicationOutcome * Node SM E :=
  match ReplicateLoop (replicate_fuel n) (steady_now (env_ n) + rpc_deadline (config_ n) * 20)
          log_index n with
  | (Some r, n) => (r, n)
  | (None, n) => (kTimeout, n)        (* excluded: ReplicateLogEntryToMajority_terminates *)
  end.

(** [Propose] up to the release of [mu_]: an early result, or the index of the
    appended entry and the result so far. *)
Definition ProposeLocked (cmd : Command) n : (ProposeResult + Z * ProposeResult) * Node SM E :=
  let self := node_id (config_ n) in
  let t := current_term_ (core n) in
  let fail r n := (inl r, n <| metrics_ ::= RecordProposeResult false |>) in
  if negb (running_ n) then
    fail (mkProposeResult psNodeStopping (leader_id_ (core n)) t 0 "node is stopping") n
  else if decide (role_ (core n) ≠ kLeader) then
    fail (mkProposeResult psNotLeader (leader_id_ (core n)) t 0 "node is not the leader") n
  else
    match ValidateCommandUnlocked (kv_limits (config_ n)) cmd with
    | Some reason => fail (mkProposeResult psInvalidCommand self t 0 reason) n
    | None =>
        let command_data := Serialize cmd in
        if decide (command_data = "") then
          fail (mkProposeResult psInvalidCommand self t 0 "failed to serialize command") n
        else
          let '(log_index, n) := AppendLocalLogUnlocked command_data n in
          if decide (log_index = 0) then
            fail (mkProposeResult psReplicationFailed self (current_term_ (core n)) 0
                    "failed to append and persist local log entry") n
          else (inr (log_index, mkProposeResult psReplicationFailed self t log_index
                                  "log appended locally"), n)
    end.

(** [Propose]. *)
Definition Propose (cmd : Command) n : ProposeResult * Node SM E :=
  let '(started, n) := ProposeLocked cmd n in
  match started with
  | inl result => (result, n)
  | inr (log_index, result) =>
      let '(replicated, n) := ReplicateLogEntryToMajority log_index n in
      let finish (ok : bool) r n := (r, n <| metrics_ ::= RecordProposeResult ok |>) in
      if decide (replicated ≠ kReplicated) then
        let result := result <| pr_leader_id := leader_id_ (core n) |>
                             <| pr_term := current_term_ (core n) |> in
        finish false
          (match replicated with
           | kTimeout => result <| pr_status := psTimeout |>
               <| pr_message := "timed out waiting for majority replication" |>
           | kLostLeadership => result <| pr_status := psNotLeader |>
               <| pr_message := "lost leadership before the log entry reached a majority" |>
           | _ => result <| pr_status := psReplicationFailed |>
               <| pr_message := "failed to replicate log entry to majority" |>
           end) n
      else
        let n := AdvanceCommitIndexUnlocked n in
        let '(apply_result, n) := ApplyCommittedEntries n in
        if negb (Ok apply_result) then
          finish false (result <| pr_status := psApplyFailed |>
                               <| pr_message := ar_message apply_result |>) n
        else if decide (last_applied_ (core n) < log_index) then
          finish false (result <| pr_status := psApplyFailed |>
                               <| pr_message := "log committed but not applied" |>) n
        else
          finish true (result <| pr_status := psOk |>
                              <| pr_message := "command committed and applied" |>) n
  end.

(** [ProposeNoOpEntry]. *)
Definition ProposeNoOpEntry n : bool * Node SM E :=
  if negb (running_ n) || bool_decide (role_ (core n) ≠ kLeader) then (false, n)
  else
    let '(log_index, n) := AppendLocalLogUnlocked kInternalNoOpCommand n in
    if decide (log_index = 0) then (false, n)
    else
      let '(replicated, n) := ReplicateLogEntryToMajority log_index n in
      if decide (replicated ≠ kReplicated) then (false, n)
      else
        let n := AdvanceCommitIndexUnlocked n in
        let '(apply_result, n) := ApplyCommittedEntries n in
        (Ok apply_result, n).

(** The task [SendHeartbeats] submits for a peer, in the term it was submitted. *)
Definition HeartbeatTask (peer_id t : Z) n : Node SM E :=
  if negb (running_ n) || bool_decide (role_ (core n) ≠ kLeader) ||
     bool_decide (current_term_ (core n) ≠ t)
  then n
  else
    let n := GetOrCreateReplicatorLocked peer_id n in
    let '((_, should_apply), n) := ReplicateOnce peer_id t 0 n in
    if should_apply then (ApplyCommittedEntries n).2 else n.

(** [SendHeartbeats]: the tasks to submit, as (peer, term). *)
Definition SendHeartbeats n : list (Z * Z) * Node SM E :=
  if negb (running_ n) || bool_decide (role_ (core n) ≠ kLeader) then ([], n)
  else
    ((λ p, (peer_node_id p, current_term_ (core n))) <$> peers (config_ n),
     foldl (λ n p, GetOrCreateReplicatorLocked (peer_node_id p) n) n (peers (config_ n))).

(** The callback of [ResetHeartbeatTimerLocked]. *)
Definition OnHeartbeatTimer n : list (Z * Z) * Node SM E :=
  let '(tasks, n) := SendHeartbeats n in
  (tasks, if running_ n && bool_decide (role_ (core n) = kLeader)
          then ResetHeartbeatTimerLocked n else n).

(** [OnElectionWon]: the heartbeats submitted. *)
Definition OnElectionWon (t : Z) n : list (Z * Z) * Node SM E :=
  let '(should_send_heartbeat, n) := OnElectionWonLocked t n in
  if should_send_heartbeat then
    let '(_, n) := ProposeNoOpEntry n in SendHeartbeats n
  else ([], n).

(** The task [StartElection] submits for a peer: its vote counted on the shared
    [votes] and [won]. *)
Definition VoteTask (peer_id t quorum : Z) (request : VoteRequest) (votes : Z) (won : bool) n :
    (Z * bool) * Node SM E :=
  if negb (running_ n) then ((votes, won), n)
  else
    let '(response, n) := RequestVoteRpc peer_id request n in
    match response with
    | None => ((votes, won), n)
    | Some response =>
        let '(go, n) := OnVoteResponseLocked t response n in
        if negb go then ((votes, won), n)
        else
          let '(wins, counters) := CountVote quorum (vresp_vote_granted response) votes won in
          (counters, if wins then (OnElectionWon t n).2 else n)
    end.

(** [OnSnapshotTimer]. *)
Definition OnSnapshotTimer n : Node SM E :=
  if negb (running_ n) then n
  else ResetSnapshotTimerLocked (MaybeScheduleSnapshotLocked true n).
End operations.

(** ** Validation *)

Lemma ValidateKey_None limits k :
  ValidateKeyUnlocked limits k = None →
  k ≠ "" ∧ contains sep k = false ∧ size_of k ≤ max_key_bytes limits.
Proof.
  unfold ValidateKeyUnlocked. case_decide; [done|]. case_match; [done|]. case_decide; [done|].
  intros _. split_and!; [done|done|lia].
Qed.

Lemma ValidateValue_None limits v :
  ValidateValueUnlocked limits v = None →
  contains sep v = false ∧ size_of v ≤ max_value_bytes limits.
Proof.
  unfold ValidateValueUnlocked. case_match; [done|]. case_decide; [done|]. intros _. split; [done|lia].
Qed.

Lemma ValidateCommand_None limits cmd :
  ValidateCommandUnlocked limits cmd = None →
  IsValid cmd = true ∧ key cmd ≠ "" ∧ contains sep (key cmd) = false ∧
  (type cmd = kSet → contains sep (value cmd) = false) ∧
  Serialize cmd ≠ "" ∧ size_of (Serialize cmd) ≤ max_command_bytes limits.
Proof.
  unfold ValidateCommandUnlocked. destruct (IsValid cmd); cbn [negb]; [|done].
  destruct (ValidateKeyUnlocked limits (key cmd)) eqn:Hk; [done|].
  apply ValidateKey_None in Hk as (? & ? & _).
  destruct (if decide (type cmd = kSet) then _ else _) eqn:Hv; [done|].
  destruct (decide (Serialize cmd = "")); [done|].
  destruct (decide (max_command_bytes limits < _)); [done|]. intros _.
  split_and!; try done; [|lia].
  intros Ht. rewrite decide_True in Hv by done. by apply ValidateValue_None in Hv as [? _].
Qed.

(** A [DEL]'s value is not serialized. *)
Lemma Deserialize_valid cmd out :
  IsValid cmd = true → contains sep (key cmd) = false →
  (type cmd = kSet → contains sep (value cmd) = false ∧ value cmd ≠ "") →
  Deserialize (Serialize cmd) out = (true, transmitted cmd).
Proof.
  intros Hv Hk Hval. destruct cmd as [[] k v]; [done| |].
  - destruct (Hval eq_refl). rewrite Deserialize_Serialize_aux by done.
    by rewrite decide_False by naive_solver.
  - change (Serialize (mkCommand kDelete k v)) with (Serialize (mkCommand kDelete k "")).
    change (transmitted (mkCommand kDelete k v)) with (transmitted (mkCommand kDelete k "")).
    rewrite Deserialize_Serialize_aux by done. by rewrite decide_False by naive_solver.
Qed.

Lemma Apply_valid cmd i m :
  IsValid cmd = true → contains sep (key cmd) = false →
  (type cmd = kSet → contains sep (value cmd) = false ∧ value cmd ≠ "") →
  Apply i (Serialize cmd) m = (mkApplyResult true "ok", mkKv (kv_effect cmd (kv_ m))).
Proof.
  intros Hv Hk Hval.
  assert (Heff : kv_effect cmd (kv_ m) = kv_effect (transmitted cmd) (kv_ m))
    by (by destruct cmd as [[] ? ?]).
  rewrite Heff. apply Apply_parsed; [by apply Serialize_not_noop|by apply Deserialize_valid|].
  by destruct cmd as [[] ? ?].
Qed.

(** C32: what validation lets into the log.  A command [ValidateCommandUnlocked]
    accepts is within the size limits, and its log form applies successfully on
    every replica, with exactly the command's effect on the map; the one
    exception is a [SET] of the empty value, which is accepted but whose log form
    no state machine can apply. *)
Theorem ValidateCommand_applies limits cmd i m :
  ValidateCommandUnlocked limits cmd = None →
  size_of (Serialize cmd) ≤ max_command_bytes limits ∧
  Apply i (Serialize cmd) m =
    if decide (type cmd = kSet ∧ value cmd = "")
    then (mkApplyResult false "failed to deserialize command", m)
    else (mkApplyResult true "ok", mkKv (kv_effect cmd (kv_ m))).
Proof.
  intros (Hv & Hne & Hk & Hval & _ & Hsize)%ValidateCommand_None. split; [done|].
  case_decide as Hempty.
  - destruct cmd as [ty k v], Hempty as [Ht Hvv]. cbn [type value key] in *. subst.
    by apply Apply_empty_value.
  - apply Apply_valid; [done|done|]. intros Ht. split; [by apply Hval|naive_solver].
Qed.

Lemma ValidateCommand_applies_witness :
  Apply 1 (Serialize (mkCommand kSet "k" "v")) (mkKv ∅) =
    (mkApplyResult true "ok", mkKv {["k" := "v"]}) ∧
  Apply 1 (Serialize (mkCommand kSet "k" "")) (mkKv ∅) =
    (mkApplyResult false "failed to deserialize command", mkKv ∅).
Proof.
  split.
  - exact (proj2 (ValidateCommand_applies default_kv_limits (mkCommand kSet "k" "v") 1 (mkKv ∅)
             ltac:(vm_compute; reflexivity))).
  - exact (proj2 (ValidateCommand_applies default_kv_limits (mkCommand kSet "k" "") 1 (mkKv ∅)
             ltac:(vm_compute; reflexivity))).
Defined.

(** ** Termination *)

(** The clock never goes back, and sleeping advances it. *)
Class ClockLaws (SM E : Type) `{HostEnv E, IRaftStorage E, PeerNet SM E} : Prop := {
  clock_sleep : ∀ d (e : E), steady_now e + d ≤ steady_now (sleep_for d e);
  clock_save : ∀ st (e : E), steady_now e ≤ steady_now (storage_Save st e).2;
  clock_uniform : ∀ lo hi (e : E), steady_now e ≤ steady_now (uniform_int lo hi e).2;
  clock_append : ∀ p r (n : Node SM E),
    steady_now (env_ n) ≤ steady_now (env_ (net_AppendEntries p r n).2);
  clock_install : ∀ p r (n : Node SM E),
    steady_now (env_ n) ≤ steady_now (env_ (net_InstallSnapshot p r n).2) }.

Section termination.
Context {SM E : Type} `{HostEnv E, IRaftStorage E, ISnapshotStorage E, PeerNet SM E,
  !IStateMachine SM E, !ClockLaws SM E}.
Implicit Types n : Node SM E.

Definition clock_le n n' : Prop := steady_now (env_ n) ≤ steady_now (env_ n').

#[export] Instance clock_le_preorder : PreOrder clock_le.
Proof. unfold clock_le. split; [intros ?|intros ???]; lia. Qed.

(** Take the next call of the goal apart, with a fact on its clock. *)
Ltac clock_call Hf :=
  let Hc := fresh "Hc" in
  match type of Hf with
  | clock_le _ ?e.2 => pose proof Hf as Hc; destruct e as [? ?]; cbn [snd] in Hc
  end.

Lemma PersistState_clock n : clock_le n (PersistStateLocked n).2.
Proof.
  unfold PersistStateLocked, clock_le.
  pose proof (clock_save (SM := SM) (persistent_state (core n)) (env_ n)).
  by destruct (storage_Save _ _) as [[[] ?] ?].
Qed.

Lemma ResetElectionTimer_clock n : clock_le n (ResetElectionTimerLocked n).
Proof.
  unfold ResetElectionTimerLocked, RandomElectionTimeoutLocked, clock_le. case_match; [done|].
  match goal with |- context [uniform_int ?lo ?hi ?e] =>
    pose proof (clock_uniform (SM := SM) lo hi e); destruct (uniform_int lo hi e) end.
  by destruct (ScheduleAfter _ _ _ _).
Qed.

Lemma BecomeFollower_clock t l n : clock_le n (BecomeFollowerLocked t l n).2.
Proof.
  unfold BecomeFollowerLocked. cbv zeta.
  match goal with |- context [ResetElectionTimerLocked ?m] =>
    pose proof (ResetElectionTimer_clock m) as Hr;
    assert (Hm : clock_le n m) by (by unfold clock_le; case_bool_decide);
    set (n1 := ResetElectionTimerLocked m) in *; clearbody n1 end.
  case_bool_decide; [|etrans; [exact Hm|exact Hr]].
  clock_call (PersistState_clock n1). case_match.
  etrans; [exact Hm|]. etrans; [exact Hr|exact Hc].
Qed.

Lemma AdvanceCommit_clock n : clock_le n (AdvanceCommitIndexUnlocked n).
Proof.
  unfold AdvanceCommitIndexUnlocked. destruct (decide (role_ _ ≠ kLeader)); [done|].
  destruct (decide (log_ _ = [])); [done|]. destruct (advance_from _ _ _); [|done].
  match goal with |- clock_le _ (PersistStateLocked ?m).2 => exact (PersistState_clock m) end.
Qed.

Lemma MaybeSchedule_clock force n : clock_le n (MaybeScheduleSnapshotLocked force n).
Proof. unfold MaybeScheduleSnapshotLocked, clock_le. by repeat case_match. Qed.

Lemma ApplyIteration_clock n : clock_le n (ApplyIteration n).2.
Proof.
  unfold ApplyIteration.
  assert (Hf : clock_le n (ApplyFetchLocked n).2).
  { unfold ApplyFetchLocked, clock_le. by repeat case_match. }
  destruct (ApplyFetchLocked n) as [fetched n1]. cbn [snd] in Hf.
  destruct fetched as [r|[i data]]; [done|].
  destruct (sm_Apply _ _ _) as [r sm]. destruct (Ok r); cbn [negb]; [|done].
  unfold ApplyDoneLocked. case_decide.
  - match goal with |- context [PersistStateLocked ?m] =>
      pose proof (PersistState_clock m) as Hp; destruct (PersistStateLocked m) as [[ok err] n2] end.
    etrans; [exact Hf|]. etrans; [exact Hp|]. destruct ok; cbn [negb]; [|done].
    apply MaybeSchedule_clock.
  - match goal with |- context [MaybeScheduleSnapshotLocked _ ?m] =>
      pose proof (MaybeSchedule_clock false m) as Hm end.
    etrans; [exact Hf|exact Hm].
Qed.

Lemma ApplyLoop_clock fuel n : clock_le n (ApplyLoop fuel n).2.
Proof.
  revert n. induction fuel as [|fuel IH]; intros n; [done|]. cbn [ApplyLoop].
  clock_call (ApplyIteration_clock n). case_match; [done|]. etrans; [exact Hc|apply IH].
Qed.

Lemma ApplyCommitted_clock n : clock_le n (ApplyCommittedEntries n).2.
Proof.
  unfold ApplyCommittedEntries. clock_call (ApplyLoop_clock (apply_fuel n) n). by case_match.
Qed.

Lemma GetOrCreate_clock p n : clock_le n (GetOrCreateReplicatorLocked p n).
Proof. unfold GetOrCreateReplicatorLocked, clock_le. by case_match. Qed.

Lemma GetOrCreate_fold_clock (l : list PeerConfig) n :
  clock_le n (foldl (λ n p, GetOrCreateReplicatorLocked (peer_node_id p) n) n l).
Proof.
  revert n. induction l as [|p l IH]; intros n; [done|]. cbn [foldl].
  etrans; [apply GetOrCreate_clock|apply IH].
Qed.

Lemma AppendEntriesRpc_clock p r n : clock_le n (AppendEntriesRpc p r n).2.
Proof.
  unfold AppendEntriesRpc. case_match; [done|].
  pose proof (clock_append p r n). by destruct (net_AppendEntries _ _ _).
Qed.

Lemma InstallSnapshotRpc_clock p r n : clock_le n (InstallSnapshotRpc p r n).2.
Proof.
  unfold InstallSnapshotRpc. case_match; [done|].
  pose proof (clock_install p r n). by destruct (net_InstallSnapshot _ _ _).
Qed.

Lemma HandleInstall_clock p t i r n : clock_le n (HandleInstallSnapshotResponse p t i r n).2.
Proof.
  unfold HandleInstallSnapshotResponse. case_decide; [apply BecomeFollower_clock|].
  unfold clock_le. by repeat case_match.
Qed.

Lemma SendInstallSnapshot_clock p t n : clock_le n (SendInstallSnapshotToPeer p t n).2.
Proof.
  unfold SendInstallSnapshotToPeer. case_match; [done|].
  destruct (decide (last_snapshot_index_ _ = 0)); [done|].
  destruct (snapshot_ListSnapshots _).1 as [list|]; [|done].
  set (found := match list_find _ list with Some _ => _ | None => _ end).
  destruct found as [meta|]; [|done]. destruct (read_file _ _); [|done].
  match goal with |- context [InstallSnapshotRpc ?p ?r n] =>
    clock_call (InstallSnapshotRpc_clock p r n) end.
  case_match; [|done]. etrans; [exact Hc|]. apply HandleInstall_clock.
Qed.

Lemma Handle_clock p t target r n : clock_le n (HandleAppendEntriesResponse p t target r n).2.
Proof.
  unfold HandleAppendEntriesResponse. case_match; [done|]. case_decide; [apply BecomeFollower_clock|].
  case_match; [done|]. case_match; [|by unfold clock_le].
  match goal with |- context [AdvanceCommitIndexUnlocked ?m] => exact (AdvanceCommit_clock m) end.
Qed.

Lemma Build_clock p t n : clock_le n (BuildAppendEntriesRequest p t n).2.
Proof. unfold BuildAppendEntriesRequest, clock_le. by repeat case_match. Qed.

Lemma ReplicateOnce_clock p t target n : clock_le n (ReplicateOnce p t target n).2.
Proof.
  unfold ReplicateOnce. case_match; [done|]. case_match; [|done]. do 2 (case_match; [done|]).
  clock_call (Build_clock p t n). case_match; [done|..].
  - match goal with |- context [SendInstallSnapshotToPeer _ _ ?m] =>
      clock_call (SendInstallSnapshot_clock p t m) end.
    unfold clock_le, on_replicator in *. case_decide; node_simpl in *; lia.
  - match goal with |- context [AppendEntriesRpc _ ?r ?m] =>
      clock_call (AppendEntriesRpc_clock p r m) end.
    case_match; [|unfold clock_le, on_replicator in *; node_simpl in *; lia].
    match goal with |- context [HandleAppendEntriesResponse _ _ _ ?r ?m] =>
      clock_call (Handle_clock p t target r m) end.
    case_match. unfold clock_le, on_replicator in *. node_simpl in *. lia.
Qed.

Lemma ReplicateToPeers_clock todo t i n : clock_le n (ReplicateToPeers todo t i n).2.
Proof.
  revert n. induction todo as [|p todo IH]; intros n; [done|]. cbn [ReplicateToPeers].
  case_match; [done|]. case_match; [apply IH|].
  match goal with |- context [ReplicateOnce _ _ _ ?m] =>
    pose proof (GetOrCreate_clock (peer_node_id p) n);
    clock_call (ReplicateOnce_clock (peer_node_id p) t i m) end.
  case_match. match goal with |- context [if ?b then (ApplyCommittedEntries ?m).2 else ?m] =>
    assert (Ha : clock_le m (if b then (ApplyCommittedEntries m).2 else m))
      by (destruct b; [apply ApplyCommitted_clock|done]);
    set (n2 := if b then (ApplyCommittedEntries m).2 else m) in *; clearbody n2 end.
  assert (clock_le n n2) by (etrans; [done|etrans; done]).
  repeat (case_match; [done|]). case_decide; [done|]. etrans; [done|apply IH].
Qed.

(** A turn that does not return took at least 20 ms. *)
Lemma ReplicateRound_clock i n n' :
  ReplicateRound i n = (None, n') → steady_now (env_ n) + 20 ≤ steady_now (env_ n').
Proof.
  unfold ReplicateRound. case_match; [done|]. case_match; [done|].
  pose proof (GetOrCreate_fold_clock (peers (config_ n)) n) as Hg.
  set (n1 := foldl _ n _) in *. clearbody n1.
  destruct (decide (quorum_of _ ≤ 1)); [done|]. destruct (decide (quorum_of _ ≤ _)); [done|].
  clock_call (ReplicateToPeers_clock (peers (config_ n1)) (current_term_ (core n)) i n1).
  case_match; [done|]. intros [= <-]. node_simpl.
  match goal with |- _ ≤ steady_now (sleep_for 20 ?e) => pose proof (clock_sleep (SM := SM) 20 e) end.
  unfold clock_le in *. lia.
Qed.

Lemma ReplicateLoop_terminates fuel deadline i n :
  deadline - steady_now (env_ n) ≤ 20 * Z.of_nat fuel →
  is_Some (ReplicateLoop fuel deadline i n).1.
Proof.
  revert n. induction fuel as [|fuel IH]; intros n Hf; cbn [ReplicateLoop];
    (case_decide; [done|]); [lia|].
  destruct (ReplicateRound i n) as [[r|] n1] eqn:Hr; [done|].
  apply ReplicateRound_clock in Hr. apply IH. lia.
Qed.
End termination.


(** A network on which every call fails. *)
#[local] Instance silent_net SM E : PeerNet SM E := {|
  net_RequestVote p r n := (None, n);
  net_AppendEntries p r n := (None, n);
  net_InstallSnapshot p r n := (None, n) |}.

#[local] Instance silent_clock SM : ClockLaws SM SimEnv.
Proof.
  split; intros; cbn; try lia. by destruct (default false _).
Qed.


(** ** The local append *)
Section append.
Context {SM E : Type} `{HostEnv E, IRaftStorage E}.
Implicit Types n : Node SM E.

(** The core with an entry appended at its end. *)
Definition appended_core (self : Z) (data : string) (c : RaftCore) : RaftCore :=
  let i := LastLogIndexLocked c + 1 in
  c <| log_ := log_ c ++ [mkLogRecord i (current_term_ c) data] |>
    <| match_index_ ::= <[self := i]> |> <| next_index_ ::= <[self := SafeAddOne i]> |>.

(** The core after a failed append: only the node's own progress entries. *)
Definition unappended_core (self : Z) (c : RaftCore) : RaftCore :=
  c <| match_index_ ::= <[self := LastLogIndexLocked c]> |>
    <| next_index_ ::= <[self := SafeAddOne (LastLogIndexLocked c)]> |>.

Lemma AppendLocalLog_effect data n i n' :
  AppendLocalLogUnlocked data n = (i, n') → log_ok (core n) →
  LastLogIndexLocked (core n) < u64_max →
  config_ n' = config_ n ∧ running_ n' = running_ n ∧ state_machine_ n' = state_machine_ n ∧
  (i = 0 ∧ core n' = unappended_core (node_id (config_ n)) (core n) ∨
   i = LastLogIndexLocked (core n) + 1 ∧
   core n' = appended_core (node_id (config_ n)) data (core n) ∧
   PersistStateLocked (n <| core ::= appended_core (node_id (config_ n)) data |>) =
     ((true, (PersistStateLocked (n <| core ::= appended_core (node_id (config_ n)) data |>)).1.2), n')).
Proof.
  unfold AppendLocalLogUnlocked. intros Hrun Hok Hmax.
  rewrite (SafeAddOne_lt (LastLogIndexLocked (core n))) in Hrun by (done || by apply LastLogIndex_u64).
  match type of Hrun with context [PersistStateLocked ?m] =>
    change m with (n <| core ::= appended_core (node_id (config_ n)) data |>) in Hrun end.
  pose proof (PersistStateLocked_frame (n <| core ::= appended_core (node_id (config_ n)) data |>))
    as [Hc _ Hcore _ _ Hr Hsm].
  destruct (PersistStateLocked _) as [[ok err] n1] eqn:Hp. node_simpl in *.
  destruct ok; cbn [negb] in Hrun; injection Hrun as <- <-.
  - split_and!; [done..|]. right. split_and!; [done|done|done].
  - node_simpl. split_and!; [done..|]. left. split; [done|]. rewrite Hcore.
    unfold appended_core, unappended_core. node_simpl. unfold LastLogIndexLocked. node_simpl.
    rewrite removelast_last. node_simpl. by rewrite !insert_insert_eq.
Qed.

Lemma appended_core_ok self data c :
  core_ok c → LastLogIndexLocked c < u64_max →
  core_ok (appended_core self data c) ∧
  LastLogIndexLocked (appended_core self data c) = LastLogIndexLocked c + 1.
Proof.
  intros [Hok ? ? ?] Hmax. set (e := mkLogRecord (LastLogIndexLocked c + 1) (current_term_ c) data).
  destruct (snoc_log_ok c e Hok) as [Hok' Hlast]; [done|cbn; lia|].
  split; [|done]. split; [|done..]. destruct Hok'. by split.
Qed.

(** The records up to the old end are where they were. *)
Lemma appended_lookup self data c i :
  log_ok c → LastLogIndexLocked c < u64_max →
  LogAtIndexLocked (appended_core self data c) i =
    if decide (i = LastLogIndexLocked c + 1)
    then Some (mkLogRecord i (current_term_ c) data) else LogAtIndexLocked c i.
Proof.
  intros Hok Hmax. set (e := mkLogRecord (LastLogIndexLocked c + 1) (current_term_ c) data).
  destruct (snoc_log_ok c e Hok) as [Hok' _]; [done|cbn; lia|].
  assert (Hok2 : log_ok (appended_core self data c)) by (destruct Hok'; by split).
  rewrite (LogAtIndex_lookup _ _ Hok2), (LogAtIndex_lookup _ _ Hok).
  unfold appended_core. node_simpl. fold e. pose proof (LastLogIndex_ge c Hok).
  pose proof (LastLogIndex_ok c Hok) as Hl. case_decide as Hlow.
  - case_decide as Hi.
    + rewrite lookup_app_r by lia.
      replace (Z.to_nat _ - _)%nat with 0%nat by lia. cbn. by rewrite Hi.
    + destruct (decide (i ≤ LastLogIndexLocked c)); [by rewrite lookup_app_l by lia|].
      rewrite (lookup_ge_None_2 (log_ c)) by lia. apply lookup_ge_None_2.
      rewrite length_app. simpl. lia.
  - rewrite decide_False by lia. done.
Qed.
End append.

(** ** A single-node cluster *)

Section committing.
Context {E : Type} `{HostEnv E, IRaftStorage E}.
Implicit Types n : Node KvStateMachine E.

Lemma AdvanceCommit_identity n :
  config_ (AdvanceCommitIndexUnlocked n) = config_ n ∧
  state_machine_ (AdvanceCommitIndexUnlocked n) = state_machine_ n ∧
  running_ (AdvanceCommitIndexUnlocked n) = running_ n.
Proof.
  unfold AdvanceCommitIndexUnlocked. destruct (decide (role_ _ ≠ kLeader)); [done|].
  destruct (decide (log_ _ = [])); [done|]. destruct (advance_from _ _ _); [|done].
  match goal with |- context [PersistStateLocked ?m] =>
    by destruct (PersistStateLocked_frame m) as [-> _ _ _ _ -> ->] end.
Qed.

(** Alone, a leader commits its whole log as soon as it ends in its term. *)
Lemma AdvanceCommit_single n :
  log_ok (core n) → role_ (core n) = kLeader → peers (config_ n) = [] →
  let last := LastLogIndexLocked (core n) in
  commit_index_ (core n) < last → TermAtIndexLocked (core n) last = current_term_ (core n) →
  core (AdvanceCommitIndexUnlocked n) = (core n) <| commit_index_ := last |>.
Proof.
  intros Hok Hrole Hpeers last Hlt Hterm.
  assert (Hcom : committable (config_ n) (core n) last).
  { split_and!; [|done|unfold quorum_of, replicated_count; by rewrite Hpeers].
    rewrite HasLogAtIndex_spec by done. apply bool_decide_eq_true.
    pose proof (LastLogIndex_ge _ Hok). lia. }
  destruct (AdvanceCommitIndex_cases n Hok) as [[_ Hno]|(i & Hi & _ & (Hh & _) & Hmax & ->)].
  - by destruct (Hno Hrole last Hlt).
  - rewrite HasLogAtIndex_spec, bool_decide_eq_true in Hh by done.
    replace i with last; [done|]. destruct (decide (i < last)) as [Hil|]; [|lia].
    by destruct (Hmax last Hil).
Qed.

End committing.

(** Every write of the hard state succeeds. *)
Class ReliableStorage (E : Type) `{IRaftStorage E} : Prop :=
  save_ok : ∀ st e, ∃ err e', storage_Save st e = ((true, err), e').

Section single.
Context {E : Type} `{HostEnv E, IRaftStorage E, ISnapshotStorage E, PeerNet KvStateMachine E,
  !IStateMachine KvStateMachine E, !ReliableStorage E}.
Implicit Types n : Node KvStateMachine E.

Lemma Persist_reliable n : ∃ err, PersistStateLocked n =
  ((true, err), n <| env_ := (storage_Save (persistent_state (core n)) (env_ n)).2 |>).
Proof.
  unfold PersistStateLocked. destruct (save_ok (persistent_state (core n)) (env_ n)) as (err & e & ->).
  by exists err.
Qed.

Lemma AppendLocalLog_reliable data n :
  log_ok (core n) → LastLogIndexLocked (core n) < u64_max →
  ∃ n', AppendLocalLogUnlocked data n = (LastLogIndexLocked (core n) + 1, n') ∧
    core n' = appended_core (node_id (config_ n)) data (core n) ∧
    config_ n' = config_ n ∧ running_ n' = running_ n ∧ state_machine_ n' = state_machine_ n.
Proof.
  intros Hok Hmax. unfold AppendLocalLogUnlocked.
  rewrite (SafeAddOne_lt (LastLogIndexLocked (core n))) by (done || by apply LastLogIndex_u64).
  match goal with |- context [PersistStateLocked ?m] =>
    destruct (Persist_reliable m) as [err ->] end. cbn [negb]. by eexists.
Qed.

Lemma ApplyDone_reliable i n :
  last_applied_ (core n) < i → (ApplyDoneLocked i n).1 = None.
Proof.
  intros Hi. unfold ApplyDoneLocked. rewrite decide_True by done.
  match goal with |- context [PersistStateLocked ?m] =>
    destruct (Persist_reliable m) as [err ->] end. done.
Qed.

Lemma ApplyIteration_reliable n record :
  core_ok (core n) → last_applied_ (core n) < commit_index_ (core n) →
  LogAtIndexLocked (core n) (last_applied_ (core n) + 1) = Some record →
  let a := last_applied_ (core n) + 1 in
  Ok (sm_Apply a (command record) (state_machine_ n)).1 = true →
  (ApplyIteration n).1 = None ∧
  core (ApplyIteration n).2 = set_applied a (core n) ∧
  state_machine_ (ApplyIteration n).2 = (sm_Apply a (command record) (state_machine_ n)).2 ∧
  same_identity n (ApplyIteration n).2.
Proof.
  intros Hok Hlt Hrec a Hap. destruct Hok as [Hlog Hsn Hac Hmax].
  unfold ApplyIteration, ApplyFetchLocked.
  rewrite (decide_False (P := last_applied_ (core n) < _)) by lia. cbv zeta.
  rewrite (decide_False (P := commit_index_ (core n) ≤ _)) by lia.
  pose proof (log_low _ Hlog). rewrite (u64_id (last_applied_ (core n) + 1)) by u64_lia.
  assert (Hhas : HasLogAtIndexLocked (core n) (last_applied_ (core n) + 1) = true)
    by (apply HasLog_LogAtIndex; [done|by rewrite Hrec]).
  rewrite Hhas, Hrec. cbn [negb]. fold a. destruct (sm_Apply a _ _) as [r sm] eqn:Hsm.
  cbn [fst snd] in *. rewrite Hap. cbn [negb].
  match goal with |- context [ApplyDoneLocked a ?m] =>
    pose proof (ApplyDone_reliable a m) as Hd;
    destruct (ApplyDoneLocked a m) as [r' n'] eqn:Hrun end.
  apply ApplyDone_effect in Hrun as (Hc & Hm & Hid & _); [|node_simpl; lia].
  cbn [fst snd] in *. rewrite Hd by (node_simpl; lia). by split_and!.
Qed.

Lemma ApplyCommitted_one n record :
  core_ok (core n) → commit_index_ (core n) = last_applied_ (core n) + 1 →
  LogAtIndexLocked (core n) (last_applied_ (core n) + 1) = Some record →
  let a := last_applied_ (core n) + 1 in
  Ok (sm_Apply a (command record) (state_machine_ n)).1 = true →
  ∃ n', ApplyCommittedEntries n = (mkApplyResult true "nothing to apply", n') ∧
    core n' = set_applied a (core n) ∧
    state_machine_ n' = (sm_Apply a (command record) (state_machine_ n)).2 ∧ same_identity n n'.
Proof.
  intros Hok Hc Hrec a Hap. pose proof (core_snapshot_applied _ Hok).
  destruct (ApplyIteration_reliable n record Hok) as (Hi1 & Hi2 & Hi3 & Hi4); [lia|done|done|].
  unfold ApplyCommittedEntries, apply_fuel. replace (Z.to_nat _) with 1%nat by lia.
  cbn [ApplyLoop]. destruct (ApplyIteration n) as [r1 n1]. cbn [fst snd] in *. subst r1.
  exists n1. split; [|done].
  assert (Hl : last_applied_ (core n1) = a ∧ commit_index_ (core n1) = a ∧
               last_snapshot_index_ (core n1) ≤ a)
    by (rewrite Hi2; unfold set_applied; node_simpl; lia).
  destruct Hl as (Hl1 & Hl2 & Hl3).
  unfold ApplyIteration, ApplyFetchLocked. rewrite Hl1.
  rewrite (decide_False (P := a < _)) by lia. rewrite Hl1, Hl2. cbv zeta. by rewrite decide_True.
Qed.
End single.

Lemma ReplicateLoop_single {E}
    `{HostEnv E, IRaftStorage E, ISnapshotStorage E, PeerNet KvStateMachine E,
      !IStateMachine KvStateMachine E} (n : Node KvStateMachine E) i :
  running_ n = true → role_ (core n) = kLeader → peers (config_ n) = [] →
  0 < rpc_deadline (config_ n) → HasLogAtIndexLocked (core n) i = true →
  ReplicateLogEntryToMajority i n = (kReplicated, n).
Proof.
  intros Hrun Hrole Hpeers Hd Hhas. unfold ReplicateLogEntryToMajority, replicate_fuel.
  destruct (Z.to_nat (rpc_deadline (config_ n))) as [|fuel] eqn:Hf; [lia|]. cbn [ReplicateLoop].
  rewrite decide_False by lia. unfold ReplicateRound. rewrite Hrun, Hhas, Hrole, Hpeers.
  rewrite bool_decide_false by (by intros []). cbn [negb orb foldl].
  rewrite decide_True; [done|]. unfold quorum_of. by rewrite Hpeers.
Qed.

Section proposing.
Context {E : Type} `{HostEnv E, IRaftStorage E, ISnapshotStorage E, PeerNet KvStateMachine E,
  !IStateMachine KvStateMachine E}.
Implicit Types n : Node KvStateMachine E.

(** A running leader without peers, whose log has room. *)
Record alone n : Prop := {
  al_running : running_ n = true;
  al_leader : role_ (core n) = kLeader;
  al_peers : peers (config_ n) = [];
  al_deadline : 0 < rpc_deadline (config_ n);
  al_core : core_ok (core n);
  al_commit : commit_index_ (core n) ≤ LastLogIndexLocked (core n) }.

(** The core once a proposal is in the log and committed. *)
Definition committed_core (self : Z) (data : string) (c : RaftCore) : RaftCore :=
  appended_core self data c <| commit_index_ := LastLogIndexLocked c + 1 |>.

(** What [Propose] does with the outcome of [ApplyCommittedEntries]. *)
Definition proposal_outcome (self t log_index : Z) (applied : ApplyResult * Node KvStateMachine E) :
    ProposeResult * Node KvStateMachine E :=
  let '(r, n) := applied in
  if negb (Ok r) then
    (mkProposeResult psApplyFailed self t log_index (ar_message r),
     n <| metrics_ ::= RecordProposeResult false |>)
  else if decide (last_applied_ (core n) < log_index) then
    (mkProposeResult psApplyFailed self t log_index "log committed but not applied",
     n <| metrics_ ::= RecordProposeResult false |>)
  else (mkProposeResult psOk self t log_index "command committed and applied",
        n <| metrics_ ::= RecordProposeResult true |>).

(** Alone, a valid command is refused by the disk, or it reaches the log and the commit
    index and what is left of [Propose] is the application. *)
Lemma Propose_appended n cmd :
  alone n → LastLogIndexLocked (core n) < u64_max →
  ValidateCommandUnlocked (kv_limits (config_ n)) cmd = None →
  let '(i, n1) := AppendLocalLogUnlocked (Serialize cmd) n in
  let n2 := AdvanceCommitIndexUnlocked n1 in
  i = 0 ∧ ProposeResult_Ok (Propose cmd n).1 = false ∨
  i = LastLogIndexLocked (core n) + 1 ∧
    Propose cmd n = proposal_outcome (node_id (config_ n)) (current_term_ (core n)) i
                      (ApplyCommittedEntries n2) ∧
    core n2 = committed_core (node_id (config_ n)) (Serialize cmd) (core n) ∧
    config_ n2 = config_ n ∧ running_ n2 = true ∧ state_machine_ n2 = state_machine_ n ∧
    core_ok (core n2).
Proof.
  intros [Hrun Hrole Hpeers Hd Hok Hcl] Hmax Hval.
  destruct (ValidateCommand_None _ _ Hval) as (_ & _ & _ & _ & Hser & _).
  unfold Propose, ProposeLocked. rewrite Hrun, Hrole, Hval. cbn [negb].
  rewrite decide_False by (by intros []). rewrite decide_False by done.
  destruct (AppendLocalLogUnlocked (Serialize cmd) n) as [i n1] eqn:Happ. cbv zeta.
  apply AppendLocalLog_effect in Happ as (Hcfg1 & Hrun1 & Hsm1 & [[-> Hc1]|(-> & Hc1 & _)]);
    [by left| |by apply Hok|done].
  right. pose proof (LastLogIndex_ge _ (core_log _ Hok)). pose proof (log_low _ (core_log _ Hok)).
  rewrite (decide_False (P := _ + 1 = 0)) by lia.
  destruct (appended_core_ok (node_id (config_ n)) (Serialize cmd) _ Hok Hmax) as [Hok1 Hlast1].
  rewrite <- Hc1 in Hok1, Hlast1.
  assert (Hrec : LogAtIndexLocked (core n1) (LastLogIndexLocked (core n) + 1) =
    Some (mkLogRecord (LastLogIndexLocked (core n) + 1) (current_term_ (core n)) (Serialize cmd))).
  { rewrite Hc1, appended_lookup by (done || apply Hok). by rewrite decide_True. }
  assert (Hhas : HasLogAtIndexLocked (core n1) (LastLogIndexLocked (core n) + 1) = true)
    by (apply HasLog_LogAtIndex; [apply Hok1|by rewrite Hrec]).
  assert (Hrole1 : role_ (core n1) = kLeader) by (by rewrite Hc1).
  rewrite ReplicateLoop_single by (congruence || lia).
  rewrite decide_False by (by intros []).
  pose proof (AdvanceCommit_single n1 (core_log _ Hok1) Hrole1) as Ha. cbv zeta in Ha.
  rewrite Hlast1 in Ha. rewrite TermAtIndex_ok, Hrec in Ha by apply Hok1.
  assert (Hci1 : commit_index_ (core n1) = commit_index_ (core n)) by (by rewrite Hc1).
  assert (Hadv := Ha ltac:(congruence) ltac:(lia) ltac:(by rewrite Hc1)). clear Ha.
  destruct (AdvanceCommit_identity n1) as (Hcfg2 & Hsm2 & Hrun2).
  set (n2 := AdvanceCommitIndexUnlocked n1) in *. clearbody n2.
  rewrite Hadv. split_and!; try congruence.
  - unfold proposal_outcome. destruct (ApplyCommittedEntries n2) as [r n3].
    destruct (Ok r); cbn [negb]; [|done]. by case_decide.
  - rewrite Hc1. done.
  - apply set_commit_core_ok; [done|lia].
Qed.

Lemma Propose_commits `{!ReliableStorage E} n cmd :
  alone n → LastLogIndexLocked (core n) < u64_max →
  ValidateCommandUnlocked (kv_limits (config_ n)) cmd = None →
  ∃ n2, Propose cmd n =
      proposal_outcome (node_id (config_ n)) (current_term_ (core n))
        (LastLogIndexLocked (core n) + 1) (ApplyCommittedEntries n2) ∧
    core n2 = committed_core (node_id (config_ n)) (Serialize cmd) (core n) ∧
    config_ n2 = config_ n ∧ running_ n2 = true ∧ state_machine_ n2 = state_machine_ n ∧
    core_ok (core n2).
Proof.
  intros Hal Hmax Hval. pose proof (core_log _ (al_core _ Hal)) as Hlog.
  pose proof (Propose_appended n cmd Hal Hmax Hval) as Hp.
  destruct (AppendLocalLog_reliable (Serialize cmd) n Hlog Hmax) as (n1 & Happ & _).
  rewrite Happ in Hp. pose proof (LastLogIndex_ge _ Hlog). pose proof (log_low _ Hlog).
  destruct Hp as [[? _]|(_ & ?)]; [lia|eauto].
Qed.

(** The committed record, and that it is all there is to apply. *)
Lemma committed_lookup self data c :
  log_ok c → LastLogIndexLocked c < u64_max →
  ∀ i, LogAtIndexLocked (committed_core self data c) i =
    if decide (i = LastLogIndexLocked c + 1)
    then Some (mkLogRecord i (current_term_ c) data) else LogAtIndexLocked c i.
Proof. intros Hok Hmax i. rewrite <- appended_lookup with (self := self) by done. done. Qed.

(** The healthy case: everything before is applied. *)
Lemma Propose_single_spec `{!ReliableStorage E, !ApplyAtomic KvStateMachine E} n cmd :
  (∀ i data (m : KvStateMachine), sm_Apply i data m = Apply i data m) → alone n →
  let last := LastLogIndexLocked (core n) in
  last_applied_ (core n) = last → last < u64_max →
  ValidateCommandUnlocked (kv_limits (config_ n)) cmd = None →
  (type cmd = kSet → value cmd ≠ "") →
  ∃ n', Propose cmd n = (mkProposeResult psOk (node_id (config_ n)) (current_term_ (core n))
                           (last + 1) "command committed and applied", n') ∧
    core n' = set_applied (last + 1) (committed_core (node_id (config_ n)) (Serialize cmd) (core n)) ∧
    state_machine_ n' = mkKv (kv_effect cmd (kv_ (state_machine_ n))) ∧
    config_ n' = config_ n ∧ running_ n' = true.
Proof.
  intros Hsm Hal last Hla Hmax Hval Hne. pose proof (al_core _ Hal) as Hok.
  destruct (ValidateCommand_None _ _ Hval) as (Hv & _ & Hk & Hvs & _).
  destruct (Propose_commits n cmd Hal Hmax Hval) as (n2 & -> & Hc2 & Hcfg & Hrun & Hm & Hok2).
  assert (Hla2 : last_applied_ (core n2) = last) by (by rewrite Hc2).
  assert (Hsucc : sm_Apply (last + 1) (Serialize cmd) (state_machine_ n2) =
                  (mkApplyResult true "ok", mkKv (kv_effect cmd (kv_ (state_machine_ n))))).
  { rewrite Hsm, Hm. apply Apply_valid; auto. }
  destruct (ApplyCommitted_one n2 (mkLogRecord (last + 1) (current_term_ (core n)) (Serialize cmd)) Hok2)
    as (n3 & -> & Hc3 & Hsm3 & [Hid1 Hid2]).
  - by rewrite Hla2, Hc2.
  - rewrite Hla2, Hc2, committed_lookup by (done || apply Hok). by rewrite decide_True.
  - rewrite Hla2. cbn [command]. by rewrite Hsucc.
  - rewrite Hla2 in *. cbn [command] in Hsm3. rewrite Hsucc in Hsm3. unfold proposal_outcome.
    cbn [Ok negb]. rewrite decide_False by (rewrite Hc3; unfold set_applied; node_simpl; lia).
    eexists. split; [reflexivity|]. node_simpl. rewrite Hc3, Hc2. split_and!; [done|done|congruence..].
Qed.
End proposing.

(** Proposals on a single-node cluster, end to end.  A running leader without
    peers whose log is fully applied, given a valid command (not a [SET] of the
    empty value) and a disk that takes its writes, answers [kOk] with the next log
    index; afterwards the command is in the log at that index, committed and
    applied, and the map is the old one with exactly the command's effect. *)
Theorem Propose_single_node {E}
    `{HostEnv E, IRaftStorage E, ISnapshotStorage E, PeerNet KvStateMachine E,
      !IStateMachine KvStateMachine E, !ReliableStorage E, !ApplyAtomic KvStateMachine E}
    (n : Node KvStateMachine E) cmd :
  (∀ i data (m : KvStateMachine), sm_Apply i data m = Apply i data m) →
  running_ n = true → role_ (core n) = kLeader → peers (config_ n) = [] →
  0 < rpc_deadline (config_ n) → core_ok (core n) →
  let last := LastLogIndexLocked (core n) in
  last_applied_ (core n) = last → commit_index_ (core n) = last → last < u64_max →
  ValidateCommandUnlocked (kv_limits (config_ n)) cmd = None →
  (type cmd = kSet → value cmd ≠ "") →
  ∃ n', Propose cmd n = (mkProposeResult psOk (node_id (config_ n)) (current_term_ (core n))
                           (last + 1) "command committed and applied", n') ∧
    LogAtIndexLocked (core n') (last + 1) =
      Some (mkLogRecord (last + 1) (current_term_ (core n)) (Serialize cmd)) ∧
    commit_index_ (core n') = last + 1 ∧ last_applied_ (core n') = last + 1 ∧
    state_machine_ n' = mkKv (kv_effect cmd (kv_ (state_machine_ n))).
Proof.
  intros Hsm Hrun Hrole Hpeers Hd Hok last Hla Hci Hmax Hval Hne.
  destruct (Propose_single_spec n cmd) as (n' & Hp & Hc & Hkv); [done|by split; try lia|done..|].
  exists n'. split; [exact Hp|]. rewrite Hc. fold last.
  split_and!; [|done|done|apply Hkv].
  etrans; [apply (committed_lookup (node_id (config_ n)) (Serialize cmd) (core n));
           [apply Hok|done]|]. by rewrite decide_True.
Qed.

#[local] Instance reliable_sim : IRaftStorage SimEnv := {|
  storage_Save st e := ((true, ""), e <| sim_disk := Some st |>);
  storage_Load := storage_Load |}.
#[local] Instance reliable_sim_ok : ReliableStorage SimEnv.
Proof. intros st e. by do 2 eexists. Qed.

Lemma Propose_single_node_witness :
  let config := sim_config 1 in
  let n := mkNode (mkNodeConfig 1 "a" [] 150 300 50 100 [] default_kv_limits)
    default_snapshotConfig (bootstrap_core <| role_ := kLeader |> <| current_term_ := 1 |>)
    (mkNodeTimers TimerScheduler_new None 0 None None) (mkSnapshotWork false false false 0 0)
    Metrics_new ∅ true (mkKv ∅) sim_init in
  ∃ n', (Propose (mkCommand kSet "k" "v") n).1 =
          mkProposeResult psOk 1 1 1 "command committed and applied" ∧
    Get "k" (state_machine_ n') = Some "v" ∧ (Propose (mkCommand kSet "k" "v") n).2 = n'.
Proof.
  cbv zeta. match goal with |- context [Propose ?cmd ?n] =>
    destruct (Propose_single_node n cmd) as (n' & Hp & _ & _ & _ & Hkv);
      [done|done|done|done|done| |done|done|done|done|done|] end.
  { split; [split; [by eexists| |done|done]|done..].
    intros k r Hk. destruct k; [by simplify_eq/=|done]. }
  exists n'. rewrite Hp. split; [reflexivity|]. split; [|done]. rewrite Hkv. reflexivity.
Defined.
