(* ===== verification/SnapshotNode.v ===== *)
(** Snapshots and recovery in [RaftNode] (src/modules/raft/node/raft_node.cpp):
    [OnInstallSnapshot], the snapshot worker, the identity file, the constructor's
    recovery, [Start] and [Stop]. *)
From S2P Require Import Prelude Command Types Timer Metrics Env Sim Node SimNode.
From S2P Require Import NodeLog Election AppendEntries Bytes Fs StateMachine Commit.

(** ** The identity file *)

(** [Trim]: drop leading and trailing blanks. *)
Definition is_blank (c : ascii) : bool :=
  bool_decide (c ∈ [" "; "009"; "013"; "010"]%char).
Fixpoint drop_blanks (s : bytes) : bytes :=
  match s with [] => [] | c :: s' => if is_blank c then drop_blanks s' else s end.
Definition Trim (text : string) : string :=
  bytes_string (reverse (drop_blanks (reverse (drop_blanks (string_bytes text))))).

(** [std::getline] on the whole file: the lines, without a last empty one. *)
Definition lines (data : bytes) : list string := Split (bytes_string data) "010"%char.

(** [line.find('=')] and the two [substr]s. *)
Fixpoint cut_at (c : ascii) (s : string) : option (string * string) :=
  match s with
  | EmptyString => None
  | String c' s' =>
      if decide (c' = c) then Some ("", s')
      else match cut_at c s' with Some (a, b) => Some (String c' a, b) | None => None end
  end.

(** The loop of [ReadIdentityFile]; [emplace] keeps the first value of a key, and
    an exception is its message. *)
Fixpoint read_identity (l : list string) (values : gmap string string) :
    string + gmap string string :=
  match l with
  | [] => inr values
  | line :: l =>
      let line := Trim line in
      if decide (line = "") then read_identity l values
      else
        match cut_at "="%char line with
        | None => inl ("invalid identity line: " +:+ line)
        | Some (k, v) =>
            read_identity l (match values !! Trim k with
                             | Some _ => values
                             | None => <[Trim k := Trim v]> values
                             end)
        end
  end.

(** [std::stoi]: blanks, a sign, at least one digit, in the range of [int];
    [None] is an exception. *)
Definition digit (c : ascii) : option Z :=
  let d := Z_of_byte c - 48 in if decide (0 ≤ d ≤ 9) then Some d else None.
Fixpoint stoi_digits (s : bytes) (acc : option Z) : option Z :=
  match s with
  | [] => acc
  | c :: s =>
      match digit c with
      | Some d => stoi_digits s (Some (10 * default 0 acc + d))
      | None => acc
      end
  end.
Definition stoi_blank (c : ascii) : bool :=
  bool_decide (c ∈ [" "; "009"; "010"; "011"; "012"; "013"]%char).
Fixpoint drop_stoi_blanks (s : bytes) : bytes :=
  match s with [] => [] | c :: s' => if stoi_blank c then drop_stoi_blanks s' else s end.
Definition stoi (s : string) : option Z :=
  let value :=
    match drop_stoi_blanks (string_bytes s) with
    | "-"%char :: b => Z.opp <$> stoi_digits b None
    | "+"%char :: b => stoi_digits b None
    | b => stoi_digits b None
    end in
  match value with
  | Some v => if decide (-2147483648 ≤ v ≤ 2147483647) then Some v else None
  | None => None
  end.

Definition kIdentityFileName : string := "node_identity.txt".
Definition newline : string := String "010"%char "".

Section identity.
Context {E : Type} `{HostEnv E}.

(** [ReadIdentityFile]. *)
Definition ReadIdentityFile (p : path) (e : E) : string + gmap string string :=
  match read_file p e with
  | None => inl ("failed to open identity file: " +:+ path_string p)
  | Some data => read_identity (lines data) ∅
  end.

(** [ValidateNodeIdentity]: [Some message] is the exception thrown. *)
Definition ValidateNodeIdentity (config : NodeConfig) (e : E) : option string * E :=
  let '(failed, e) := create_directories (data_dir config) e in
  match failed with
  | Some m => (Some ("failed to create data directory " +:+ path_string (data_dir config) +:+
                     ": " +:+ m), e)
  | None =>
      let identity_path := data_dir config ++ [kIdentityFileName] in
      if file_exists identity_path e then
        match ReadIdentityFile identity_path e with
        | inl m => (Some m, e)
        | inr values =>
            match values !! "node_id" with
            | None => (Some ("identity file missing node_id: " +:+ path_string identity_path), e)
            | Some v =>
                match stoi v with
                | None => (Some "stoi", e)
                | Some stored_node_id =>
                    if decide (stored_node_id ≠ node_id config) then
                      (Some ("data directory identity mismatch: data_dir=" +:+
                             path_string (data_dir config) +:+ ", expected node_id=" +:+
                             pretty (node_id config) +:+ ", found node_id=" +:+
                             pretty stored_node_id), e)
                    else (None, e)
                end
            end
        end
      else
        let text := "node_id=" +:+ pretty (node_id config) +:+ newline +:+
                    "address=" +:+ address config +:+ newline in
        let '((opened, written), e) := write_file identity_path (string_bytes text) e in
        if negb opened then
          (Some ("failed to create identity file: " +:+ path_string identity_path), e)
        else if negb written then
          (Some ("failed to write identity file: " +:+ path_string identity_path), e)
        else (None, e)
  end.
End identity.

(** [DefaultDataDir] and [DefaultSnapshotDir]. *)
Definition DefaultDataDir (i : Z) : path := ["."; "raft_data"; "node_" +:+ pretty i].
Definition DefaultSnapshotDir (i : Z) : path := ["."; "raft_snapshots"; "node_" +:+ pretty i].

Section operations.
Context {SM E : Type} `{HostEnv E, IRaftStorage E, ISnapshotStorage E, !IStateMachine SM E}.
Implicit Types n : Node SM E.

(** ** [OnInstallSnapshot] *)

(** The locked section that decides whether the snapshot is wanted: [Some] is
    the response to return. *)
Definition InstallCheckLocked (request : InstallSnapshotRequest)
    (response : InstallSnapshotResponse) n :
    (option InstallSnapshotResponse * InstallSnapshotResponse) * Node SM E :=
  let response := response <| iresp_term := current_term_ (core n) |>
                           <| iresp_last_log_index := LastLogIndexLocked (core n) |> in
  if decide (ireq_term request < current_term_ (core n)) then
    ((Some (response <| iresp_message := "stale term" |>), response), n)
  else
    let '(followed, n) :=
      if bool_decide (current_term_ (core n) < ireq_term request) ||
         bool_decide (role_ (core n) ≠ kFollower) ||
         bool_decide (leader_id_ (core n) ≠ ireq_leader_id request)
      then BecomeFollowerLocked (ireq_term request) (ireq_leader_id request) n
      else (true, ResetElectionTimerLocked
                    (n <| core ::= λ c, c <| leader_id_ := ireq_leader_id request |> |>)) in
    if negb followed then
      ((Some (response <| iresp_term := current_term_ (core n) |>
                       <| iresp_message := "persist higher term failed" |>), response), n)
    else if decide (ireq_last_included_index request ≤ last_snapshot_index_ (core n)) then
      ((Some (response <| iresp_term := current_term_ (core n) |> <| iresp_success := true |>
                       <| iresp_last_log_index := LastLogIndexLocked (core n) |>
                       <| iresp_message := "snapshot already installed" |>), response), n)
    else ((None, response), n).

(** The section under [apply_mu_]: load the snapshot and move the log. *)
Definition InstallLoadLocked (request : InstallSnapshotRequest) (saved : path)
    (response : InstallSnapshotResponse) n : InstallSnapshotResponse * Node SM E :=
  let '(load_result, sm) := sm_LoadSnapshot saved (state_machine_ n) (env_ n) in
  let n := n <| state_machine_ := sm |> in
  if negb (SnapshotResult_Ok load_result) then
    (response <| iresp_message := "load installed snapshot failed: " +:+ sr_message load_result |>, n)
  else if decide (ireq_term request < current_term_ (core n)) then
    (response <| iresp_term := current_term_ (core n) |>
              <| iresp_message := "term changed while installing snapshot" |>, n)
  else
    let i := ireq_last_included_index request in
    let n := n <| core ::= λ c,
               let c := CompactLogPrefixLocked i (ireq_last_included_term request) c in
               c <| commit_index_ ::= λ x, Z.max x i |> <| last_applied_ ::= λ x, Z.max x i |> |> in
    let '((persisted, persist_error), n) := PersistStateLocked n in
    let response := response <| iresp_term := current_term_ (core n) |>
                             <| iresp_last_log_index := LastLogIndexLocked (core n) |> in
    if negb persisted then
      (response <| iresp_message :=
         "persist installed snapshot raft state failed: " +:+ persist_error |>, n)
    else (response <| iresp_success := true |> <| iresp_message := "snapshot installed" |>, n).

(** [OnInstallSnapshot]. *)
Definition install_temp_path n : path :=
  cfg_snapshot_dir (snapshot_config_ n) ++
    ["install_snapshot_node_" +:+ pretty (node_id (config_ n)) +:+ ".bin.tmp"].
Definition OnInstallSnapshot (request : InstallSnapshotRequest) n :
    InstallSnapshotResponse * Node SM E :=
  let response := mkInstallSnapshotResponse (current_term_ (core n)) false
                    (LastLogIndexLocked (core n)) "" in
  if negb (enabled (snapshot_config_ n)) then
    (response <| iresp_message := "snapshot is disabled" |>, n)
  else
    let '((early, response), n) := InstallCheckLocked request response n in
    match early with
    | Some response => (response, n)
    | None =>
        let '(failed, e) := create_directories (cfg_snapshot_dir (snapshot_config_ n)) (env_ n) in
        let n := n <| env_ := e |> in
        match failed with
        | Some m => (response <| iresp_message := "create snapshot directory failed: " +:+ m |>, n)
        | None =>
            let temp_path := install_temp_path n in
            let '((opened, written), e) :=
              write_file temp_path (ireq_snapshot_data request) (env_ n) in
            let n := n <| env_ := e |> in
            if negb opened then
              (response <| iresp_message := "open install snapshot temp file failed" |>, n)
            else if negb written then
              (response <| iresp_message := "write install snapshot temp file failed" |>, n)
            else
              let '((saved, save_error), e) :=
                snapshot_SaveSnapshotFile temp_path (ireq_last_included_index request)
                  (ireq_last_included_term request) (env_ n) in
              let n := n <| env_ := e |> in
              match saved with
              | None =>
                  (response <| iresp_message := "persist installed snapshot failed: " +:+ save_error |>,
                   n <| env_ ::= remove_file temp_path |>)
              | Some saved_meta =>
                  let '(response, n) :=
                    InstallLoadLocked request (snapshot_path saved_meta) response n in
                  if iresp_success response then
                    (response, n <| env_ ::= λ e, (snapshot_PruneSnapshots
                                     (max_snapshot_count (snapshot_config_ n)) e).2 |>)
                  else (response, n)
              end
        end
    end.

(** ** The snapshot worker: one turn of [SnapshotWorkerLoop] once it has been
    woken; whether the loop goes on. *)
Definition worker_temp_path n : path :=
  cfg_snapshot_dir (snapshot_config_ n) ++
    ["snapshot_work_node_" +:+ pretty (node_id (config_ n)) +:+ ".bin"].

(** The sections under [apply_mu_]: the boundary and the file saved. *)
Definition WorkerSave n : (Z * Z * SnapshotResult) * Node SM E :=
  let snapshot_index := last_applied_ (core n) in
  let snapshot_term := TermAtIndexLocked (core n) snapshot_index in
  let '(r, e) := sm_SaveSnapshot (worker_temp_path n) (state_machine_ n) (env_ n) in
  ((snapshot_index, snapshot_term, r), n <| env_ := e |>).

(** The section under [mu_] once the snapshot is published. *)
Definition WorkerCompactLocked (snapshot_index snapshot_term : Z) n : Node SM E :=
  if decide (last_snapshot_index_ (core n) < snapshot_index) then
    (PersistStateLocked (n <| core ::= CompactLogPrefixLocked snapshot_index snapshot_term |>)).2
  else n.

Definition SnapshotWorkerTurn n : bool * Node SM E :=
  if snapshot_worker_stop_ (snapw n) then (false, n)
  else
    let n := n <| snapw ::= λ w, w <| snapshot_pending_ := false |>
                                   <| snapshot_in_progress_ := true |> |> in
    let '((snapshot_index, snapshot_term, save_result), n) := WorkerSave n in
    let n :=
      if negb (SnapshotResult_Ok save_result) then
        n <| metrics_ ::= RecordSnapshotOutcome false |>
      else
        let '((saved, _), e) := snapshot_SaveSnapshotFile (worker_temp_path n) snapshot_index
                                  snapshot_term (env_ n) in
        let n := n <| env_ := e |> in
        match saved with
        | Some _ =>
            let n := WorkerCompactLocked snapshot_index snapshot_term n in
            n <| env_ ::= λ e, (snapshot_PruneSnapshots
                                  (max_snapshot_count (snapshot_config_ n)) e).2 |>
              <| metrics_ ::= RecordSnapshotOutcome true |>
        | None => n <| metrics_ ::= RecordSnapshotOutcome false |>
        end in
    let n := n <| snapw ::= λ w, w <| snapshot_in_progress_ := false |> |> in
    (true, MaybeScheduleSnapshotLocked false n).

(** ** Recovery *)

(** [LoadLatestSnapshotOnStartup], over the listed snapshots: the first that
    loads; the flag and [*reason]. *)
Fixpoint LoadFirstSnapshot (l : list SnapshotMeta) n : (bool * string) * Node SM E :=
  match l with
  | [] => ((true, ""), n)
  | meta :: l =>
      let '(load_result, sm) := sm_LoadSnapshot (snapshot_path meta) (state_machine_ n) (env_ n) in
      let n := n <| state_machine_ := sm |> in
      if negb (SnapshotResult_Ok load_result) then LoadFirstSnapshot l n
      else
        let i := last_included_index meta in
        let n := n <| core ::= λ c,
                   let c := CompactLogPrefixLocked i (last_included_term meta) c in
                   c <| commit_index_ ::= λ x, Z.max x i |> <| last_applied_ := i |> |> in
        let '((persisted, persist_error), n) := PersistStateLocked n in
        if negb persisted then ((false, persist_error), n) else ((true, ""), n)
  end.

Definition LoadLatestSnapshotOnStartup n : (bool * string) * Node SM E :=
  if negb (enabled (snapshot_config_ n)) || negb (load_on_startup (snapshot_config_ n)) then
    ((true, ""), n)
  else
    match snapshot_ListSnapshotsWithDiagnostics (env_ n) with
    | (None, list_error) => ((false, list_error), n)
    | (Some r, _) => LoadFirstSnapshot (snapshots r) n
    end.

(** The members the constructor sets from the persisted state. *)
Definition bootstrap_record : LogRecord := mkLogRecord 0 0 "bootstrap".
Definition recovered_core (st : option PersistentRaftState) : RaftCore :=
  match st with
  | None => mkCore kFollower 0 (-1) (-1) [bootstrap_record] 0 0 0 0 ∅ ∅
  | Some st =>
      let log := match ps_log st with [] => [bootstrap_record] | l => l end in
      let marker :=
        match ps_log st with
        | f :: _ => bool_decide (0 < index f) && bool_decide (command f = kSnapshotMarkerCommand)
        | [] => false
        end in
      let boundary := match head log with
                      | Some f => if marker then (index f, term f) else (0, 0)
                      | None => (0, 0)
                      end in
      let c := mkCore kFollower (ps_current_term st) (ps_voted_for st) (-1) log
                 (Z.max (ps_commit_index st) (ps_last_applied st)) 0 boundary.1 boundary.2 ∅ ∅ in
      if decide (LastLogIndexLocked c < commit_index_ c)
      then c <| commit_index_ := LastLogIndexLocked c |> else c
  end.

(** The constructor: [inl message] is the exception thrown. *)
Definition RaftNode_new (config : NodeConfig) (snapshot_config : snapshotConfig) (sm : SM) (e : E) :
    (string + Node SM E) * E :=
  let config := if decide (data_dir config = [])
                then mkNodeConfig (node_id config) (address config) (peers config)
                       (election_timeout_min config) (election_timeout_max config)
                       (heartbeat_interval config) (rpc_deadline config)
                       (DefaultDataDir (node_id config)) (kv_limits config)
                else config in
  let snapshot_config := if decide (cfg_snapshot_dir snapshot_config = [])
                         then mkSnapshotConfig (enabled snapshot_config)
                                (DefaultSnapshotDir (node_id config)) (log_threshold snapshot_config)
                                (snapshot_interval snapshot_config)
                                (max_snapshot_count snapshot_config)
                                (load_on_startup snapshot_config) (file_prefix snapshot_config)
                         else snapshot_config in
  let '(invalid, e) := ValidateNodeIdentity config e in
  match invalid with
  | Some m => (inl m, e)
  | None =>
      let '((ok, st, has_state, error), e) := storage_Load e in
      if negb ok then
        (inl ("failed to load raft state for node " +:+ pretty (node_id config) +:+ ": " +:+ error), e)
      else
        let n := mkNode config snapshot_config
                   (recovered_core (if has_state then Some st else None))
                   (mkNodeTimers TimerScheduler_new None 0 None None)
                   (mkSnapshotWork false false false 0 0) Metrics_new ∅ false sm e in
        let '((loaded, snapshot_error), n) := LoadLatestSnapshotOnStartup n in
        if negb loaded && negb (bool_decide (snapshot_error = "")) then
          (inl ("failed to load snapshot for node " +:+ pretty (node_id config) +:+ ": " +:+
                snapshot_error), env_ n)
        else if decide (last_applied_ (core n) < commit_index_ (core n)) then
          let '(replay_result, n) := ApplyCommittedEntries n in
          if negb (Ok replay_result) then
            (inl ("failed to replay committed log entries for node " +:+ pretty (node_id config) +:+
                  ": " +:+ ar_message replay_result +:+
                  ", commit_index=" +:+ pretty (commit_index_ (core n)) +:+
                  ", last_applied=" +:+ pretty (last_applied_ (core n)) +:+
                  ", last_snapshot_index=" +:+ pretty (last_snapshot_index_ (core n)) +:+
                  ", last_snapshot_term=" +:+ pretty (last_snapshot_term_ (core n)) +:+
                  ", last_log_index=" +:+ pretty (LastLogIndexLocked (core n))), env_ n)
          else (inr n, env_ n)
        else (inr n, env_ n)
  end.

(** ** [Start] and [Stop] *)

(** [Start]; [server_started]: whether gRPC bound the address ([InitServer]
    throws when it did not, and [running_] is false again). *)
Definition StartSnapshotWorker n : Node SM E :=
  n <| snapw ::= λ w, w <| snapshot_worker_stop_ := false |> |>.
Definition StopSnapshotWorker n : Node SM E :=
  n <| snapw ::= λ w, w <| snapshot_worker_stop_ := true |> <| snapshot_pending_ := false |> |>.
Definition Start (server_started : bool) n : bool * Node SM E :=
  if running_ n then (true, n)
  else
    let n := n <| running_ := true |> <| timers ::= λ t, t <| scheduler_ ::= Timer_Start |> |> in
    let n := StartSnapshotWorker n in
    if negb server_started then (false, n <| running_ := false |>)
    else (true, ResetSnapshotTimerLocked (ResetElectionTimerLocked n)).

(** [Stop]. *)
Definition Stop n : Node SM E :=
  if negb (running_ n) then n
  else
    let n := n <| running_ := false |> in
    let n := CancelElectionTimerLocked n in
    let n := CancelHeartbeatTimer n in
    let n := n <| timers ::= λ t,
               CancelTimer (snapshot_timer_id_ t) (t <| snapshot_timer_id_ := None |>) |> in
    let n := StopSnapshotWorker n in
    let n := n <| timers ::= λ t, t <| scheduler_ ::= Timer_Stop |> |> in
    (PersistStateLocked n).2.
End operations.

(** ** Installing a snapshot *)
Section install.
Context {SM E : Type} `{HostEnv E, IRaftStorage E, ISnapshotStorage E, !IStateMachine SM E}.
Implicit Types n : Node SM E.

(** The core a successful installation leaves. *)
Definition installed_core (i t : Z) (c : RaftCore) : RaftCore :=
  let c := CompactLogPrefixLocked i t c in
  c <| commit_index_ ::= λ x, Z.max x i |> <| last_applied_ ::= λ x, Z.max x i |>.

Lemma installed_core_ok i t c : core_ok c → is_u64 i → core_ok (installed_core i t c).
Proof.
  intros Hok Hi. destruct (RestoreLog_core_ok i t true c Hok Hi) as [[] Hs Ha Hm].
  unfold installed_core, CompactLogPrefixLocked in *.
  split; [by split|..]; node_simpl; [lia|lia|u64_lia].
Qed.

(** The check: nothing but the role, the term and the vote can change. *)
Lemma InstallCheck_core request response n early response' n' :
  InstallCheckLocked request response n = ((early, response'), n') →
  same_identity n n' ∧ snapshot_config_ n' = snapshot_config_ n ∧
  state_machine_ n' = state_machine_ n ∧
  (core n' = core n ∧ early ≠ None ∨
   current_term_ (core n) ≤ ireq_term request ∧
   core n' = follower_core (ireq_term request) (ireq_leader_id request) (core n)) ∧
  (early = None → iresp_success response' = iresp_success response ∧
     current_term_ (core n') = ireq_term request ∧
     last_snapshot_index_ (core n') < ireq_last_included_index request) ∧
  (∀ r, early = Some r → iresp_success response = false → iresp_success r = true →
     ireq_last_included_index request ≤ last_snapshot_index_ (core n)).
Proof.
  unfold InstallCheckLocked. cbv zeta. case_decide as Hst.
  { intros [= <- <- <-]. split_and!; [done..|by left|done|]. intros r [= <-]. cbn. congruence. }
  set (req := mkAppendEntriesRequest (ireq_term request) (ireq_leader_id request) 0 0 [] 0).
  match goal with |- context [let '(_, _) := ?f in _] =>
    change f with (FollowLeaderLocked req n) end.
  destruct (FollowLeader_core req n) as [Hid Hcore].
  destruct (FollowLeader_machine req n) as [Hsm Hsc].
  destruct (FollowLeaderLocked req n) as [followed n1]. cbn [snd] in *.
  assert (Hc : current_term_ (core n) ≤ ireq_term request ∧
    core n1 = follower_core (ireq_term request) (ireq_leader_id request) (core n))
    by (split; [lia|exact Hcore]).
  destruct followed; cbn [negb].
  - case_decide as Hidx; intros [= <- <- <-]; (split_and!; [done|done|done|by right|..]); try done.
    + intros r [= <-] _ _. rewrite (proj2 Hc) in Hidx.
      by rewrite (sl_snapshot_index _ _ (follower_core_same_log _ _ _)) in Hidx.
    + intros _. split_and!; [done| |lia]. rewrite (proj2 Hc). unfold follower_core.
      case_decide; node_simpl; lia.
  - intros [= <- <- <-]. split_and!; [done|done|done|by right|done|].
    intros r [= <-]. cbn. congruence.
Qed.

(** The installation proper: success means the machine is the loaded one and the
    core the installed one; on disk, too. *)
Lemma InstallLoad_effect request saved response n response' n' :
  InstallLoadLocked request saved response n = (response', n') →
  iresp_success response = false →
  same_identity n n' ∧
  let load := sm_LoadSnapshot saved (state_machine_ n) (env_ n) in
  let i := ireq_last_included_index request in let t := ireq_last_included_term request in
  state_machine_ n' = load.2 ∧
  (core n' = core n ∧ iresp_success response' = false ∨
   SnapshotResult_Ok load.1 = true ∧ core n' = installed_core i t (core n)) ∧
  (iresp_success response' = true →
     SnapshotResult_Ok load.1 = true ∧ core n' = installed_core i t (core n)).
Proof.
  unfold InstallLoadLocked. intros Hrun Hs. cbv zeta.
  destruct (sm_LoadSnapshot saved _ _) as [r sm]. cbn [fst snd].
  destruct (SnapshotResult_Ok r); cbn [negb] in Hrun.
  2:{ injection Hrun as <- <-. split_and!; [done|done|by left|cbn; congruence]. }
  case_decide.
  { injection Hrun as <- <-. split_and!; [done|done|by left|cbn; congruence]. }
  match type of Hrun with context [PersistStateLocked ?m] =>
    destruct (PersistStateLocked_frame m) as [Hc _ Hcore _ _ Hr Hsm];
    destruct (PersistStateLocked m) as [[ok err] n1] end. node_simpl in *.
  destruct ok; cbn [negb] in Hrun; injection Hrun as <- <-; unfold same_identity;
    rewrite Hc, Hr, Hsm, Hcore; (split_and!; [done|done|done|by right|done]).
Qed.

(** The outcomes of [OnInstallSnapshot]. *)
Lemma OnInstallSnapshot_effect request n response n' :
  OnInstallSnapshot request n = (response, n') →
  let i := ireq_last_included_index request in let t := ireq_last_included_term request in
  let c1 := follower_core (ireq_term request) (ireq_leader_id request) (core n) in
  same_identity n n' ∧
  (core n' = core n ∨
   current_term_ (core n) ≤ ireq_term request ∧
   (core n' = c1 ∨ core n' = installed_core i t c1)) ∧
  (iresp_success response = true →
     i ≤ last_snapshot_index_ (core n) ∨
     last_snapshot_index_ (core n) < i ∧ core n' = installed_core i t c1 ∧
     ∃ saved e r, sm_LoadSnapshot saved (state_machine_ n) e = (r, state_machine_ n') ∧
                  SnapshotResult_Ok r = true).
Proof.
  unfold OnInstallSnapshot. cbv zeta.
  destruct (enabled (snapshot_config_ n)); cbn [negb].
  2:{ intros [= <- <-]. split; [done|split; [by left|done]]. }
  destruct (InstallCheckLocked request _ n) as [[early response1] n1] eqn:Hcheck.
  apply InstallCheck_core in Hcheck as ([Hi1 Hi2] & Hsc & Hsm & Hcore & Hnone & Hearly).
  destruct early as [r|].
  { intros [= <- <-]. split; [done|split; [naive_solver|]]. intros Hr. left. by eapply Hearly. }
  destruct (Hnone eq_refl) as (Hs1 & Ht & Hlt). cbn [iresp_success] in Hs1.
  destruct Hcore as [[_ ?]|[Hle Hc]]; [done|].
  assert (Hlt0 : last_snapshot_index_ (core n) < ireq_last_included_index request).
  { rewrite Hc in Hlt. by rewrite (sl_snapshot_index _ _ (follower_core_same_log _ _ _)) in Hlt. }
  destruct (create_directories _ _) as [[m|] e1].
  { intros [= <- <-]. node_simpl. split; [by split|split; [right; auto|cbn; congruence]]. }
  destruct (write_file _ _ _) as [[opened written] e2].
  destruct opened; cbn [negb].
  2:{ intros [= <- <-]. node_simpl. split; [by split|split; [right; auto|cbn; congruence]]. }
  destruct written; cbn [negb].
  2:{ intros [= <- <-]. node_simpl. split; [by split|split; [right; auto|cbn; congruence]]. }
  destruct (snapshot_SaveSnapshotFile _ _ _ _) as [[saved err] e3].
  destruct saved as [meta|].
  2:{ intros [= <- <-]. node_simpl. split; [by split|split; [right; auto|cbn; congruence]]. }
  match goal with |- context [InstallLoadLocked request ?p ?r ?m] =>
    destruct (InstallLoadLocked request p r m) as [response2 n2] eqn:Hload end.
  apply InstallLoad_effect in Hload as ([Hj1 Hj2] & Hsm2 & Hcore2 & Hsucc); [|done].
  node_simpl in *. rewrite Hc in Hcore2, Hsucc. rewrite Hsm in Hsm2, Hcore2, Hsucc.
  assert (Hfinal : ∀ n3, core n3 = core n2 → state_machine_ n3 = state_machine_ n2 →
            config_ n3 = config_ n2 → running_ n3 = running_ n2 →
    same_identity n n3 ∧
    (core n3 = core n ∨
     current_term_ (core n) ≤ ireq_term request ∧
     (core n3 = follower_core (ireq_term request) (ireq_leader_id request) (core n) ∨
      core n3 = installed_core (ireq_last_included_index request)
        (ireq_last_included_term request)
        (follower_core (ireq_term request) (ireq_leader_id request) (core n)))) ∧
    (iresp_success response2 = true →
     ireq_last_included_index request ≤ last_snapshot_index_ (core n) ∨
     last_snapshot_index_ (core n) < ireq_last_included_index request ∧
     core n3 = installed_core (ireq_last_included_index request)
        (ireq_last_included_term request)
        (follower_core (ireq_term request) (ireq_leader_id request) (core n)) ∧
     ∃ saved e r, sm_LoadSnapshot saved (state_machine_ n) e = (r, state_machine_ n3) ∧
                  SnapshotResult_Ok r = true)).
  { intros n3 H1c H2c H3c H4c. unfold same_identity. rewrite H1c, H2c, H3c, H4c.
    split; [split; congruence|]. split; [right; naive_solver|].
    intros Hr. destruct (Hsucc Hr) as [Hok Hcc]. right. split_and!; [done|done|].
    do 3 eexists. split; [|exact Hok]. rewrite Hsm2. apply surjective_pairing. }
  destruct (iresp_success response2) eqn:Hr2; intros [= <- <-]; rewrite Hr2; by apply Hfinal.
Qed.
End install.

(** No installation request breaks the node.  Whatever an [InstallSnapshot]
    request holds and wherever the installation fails, a well-formed node stays
    well formed, its (term, vote) pair only moves forward, and its commit, apply
    and snapshot boundaries never move back; on success the snapshot boundary
    covers the request's index. *)
Theorem OnInstallSnapshot_core_ok {SM E}
    `{HostEnv E, IRaftStorage E, ISnapshotStorage E, !IStateMachine SM E}
    request (n n' : Node SM E) response :
  OnInstallSnapshot request n = (response, n') → core_ok (core n) →
  is_u64 (ireq_last_included_index request) →
  let c := core n in let c' := core n' in
  core_ok c' ∧ hs_le (hs_of c) (hs_of c') ∧ commit_index_ c ≤ commit_index_ c' ∧
  last_applied_ c ≤ last_applied_ c' ∧ last_snapshot_index_ c ≤ last_snapshot_index_ c' ∧
  (iresp_success response = true →
     ireq_last_included_index request ≤ last_snapshot_index_ c').
Proof.
  intros Hrun Hok Hi. cbv zeta.
  destruct (OnInstallSnapshot_effect _ _ _ _ Hrun) as (_ & Hcore & Hsucc).
  set (i := ireq_last_included_index request) in *.
  set (t := ireq_last_included_term request) in *.
  set (c1 := follower_core _ _ _) in *.
  assert (Hsl : same_log (core n) c1) by apply follower_core_same_log.
  assert (Hok1 : core_ok c1) by (by eapply same_log_core_ok).
  assert (Hinst : let c' := installed_core i t c1 in
    hs_of c' = hs_of c1 ∧ commit_index_ c1 ≤ commit_index_ c' ∧ last_applied_ c1 ≤ last_applied_ c' ∧
    last_snapshot_index_ c1 ≤ last_snapshot_index_ c' ∧ i ≤ last_snapshot_index_ c').
  { unfold installed_core, CompactLogPrefixLocked. rewrite RestoreLog_cases by apply Hok1.
    case_decide; unfold compacted_core; node_simpl; unfold hs_of; split_and!; done || lia. }
  destruct Hinst as (Hh & Hc & Ha & Hs & His).
  destruct Hsl as [_ Hc1 Ha1 Hs1 _].
  destruct Hcore as [Hcore|[Hle [Hcore|Hcore]]]; rewrite Hcore.
  - split_and!; try done. intros Hr. destruct (Hsucc Hr) as [?|(? & Hcc & _)]; [done|].
    rewrite <- Hcore, Hcc. done.
  - assert (hs_le (hs_of (core n)) (hs_of c1)) by (by apply follower_core_hs).
    split_and!; try done; try lia. intros Hr. destruct (Hsucc Hr) as [?|(? & Hcc & _)]; [lia|].
    rewrite <- Hcore, Hcc. done.
  - assert (hs_le (hs_of (core n)) (hs_of c1)) by (by apply follower_core_hs).
    split_and!; try lia; [by apply installed_core_ok|by rewrite Hh].
Qed.

(** [sim_follower] is sent the snapshot at record 2 by the leader of term 3. *)
Definition sim_install : InstallSnapshotRequest :=
  mkInstallSnapshotRequest 3 1 2 1 (snapshot_bytes (mkKv {["a" := "1"; "b" := "1"]})).

Lemma OnInstallSnapshot_core_ok_witness :
  let n := sim_node 2 sim_follower (mkKv ∅) sim_init in
  let '(response, n') := OnInstallSnapshot sim_install n in
  iresp_success response = true ∧ core_ok (core n') ∧ 2 ≤ last_snapshot_index_ (core n').
Proof.
  cbv zeta. destruct (OnInstallSnapshot _ _) as [response n'] eqn:Hrun.
  assert (Hr : iresp_success response = true) by (vm_compute in Hrun; by injection Hrun as <- <-).
  assert (Hu : is_u64 (ireq_last_included_index sim_install)) by (split; vm_compute; by intros).
  pose proof (OnInstallSnapshot_core_ok sim_install _ n' response Hrun sim_follower_core_ok Hu) as Hall.
  cbv zeta in Hall. destruct Hall as (Hok & _ & _ & _ & _ & Hs).
  split; [exact Hr|]. split; [exact Hok|]. exact (Hs Hr).
Defined.



(** ** Recovery *)
Section recovery.
Context {SM E : Type} `{HostEnv E, IRaftStorage E, !IStateMachine SM E, !ApplyAtomic SM E}.
Implicit Types n : Node SM E.

(** A boundary at index 0 is the bootstrap record, of term 0. *)
Definition boundary_ok (c : RaftCore) : Prop :=
  last_snapshot_index_ c = 0 → last_snapshot_term_ c = 0.

(** What the constructor makes of the state a node had persisted. *)
Lemma recovered_core_persistent c :
  core_ok c → boundary_ok c → commit_index_ c ≤ LastLogIndexLocked c →
  recovered_core (Some (persistent_state c)) =
    mkCore kFollower (current_term_ c) (voted_for_ c) (-1) (log_ c) (commit_index_ c) 0
      (last_snapshot_index_ c) (last_snapshot_term_ c) ∅ ∅.
Proof.
  intros [Hlog Hs Ha Hm] Hb Hci. unfold recovered_core, persistent_state. node_simpl.
  destruct (log_front c Hlog) as (cmd & Hh & Hcmd). pose proof (log_low c Hlog).
  destruct (log_ c) as [|f l] eqn:Hl; [done|]. cbn [head] in Hh |- *. injection Hh as ->.
  cbn [index term command].
  assert (Hbound : (if bool_decide (0 < last_snapshot_index_ c) &&
                       bool_decide (cmd = kSnapshotMarkerCommand)
                    then (last_snapshot_index_ c, last_snapshot_term_ c) else (0, 0)) =
                   (last_snapshot_index_ c, last_snapshot_term_ c)).
  { destruct (decide (0 < last_snapshot_index_ c)) as [Hpos|Hz].
    - by rewrite (bool_decide_true _ Hpos), Hcmd, bool_decide_true.
    - rewrite bool_decide_false by done. cbn [andb].
      assert (Hz0 : last_snapshot_index_ c = 0) by lia. by rewrite Hz0, Hb. }
  rewrite Hbound. cbn [fst snd]. rewrite Z.max_l by lia. rewrite decide_False; [done|].
  node_simpl. unfold LastLogIndexLocked in *. node_simpl. rewrite Hl in Hci. lia.
Qed.

(** Replay skips what the boundary covers. *)
Lemma ApplyFetch_bump n :
  last_applied_ (core n) < last_snapshot_index_ (core n) →
  ApplyFetchLocked n =
    ApplyFetchLocked (n <| core ::= set_applied (last_snapshot_index_ (core n)) |>).
Proof.
  intros Hlt. unfold ApplyFetchLocked.
  rewrite (decide_True (P := last_applied_ (core n) < last_snapshot_index_ (core n))) by done.
  unfold set_applied. node_simpl.
  by rewrite (decide_False (P := last_snapshot_index_ (core n) < last_snapshot_index_ (core n)))
    by lia.
Qed.

Lemma ApplyCommitted_bump n :
  let n1 := n <| core ::= set_applied (last_snapshot_index_ (core n)) |> in
  last_applied_ (core n) < last_snapshot_index_ (core n) → core_ok (core n1) →
  ∃ r n' b, ApplyCommittedEntries n = (r, n') ∧ applied_to n1 r n' b.
Proof.
  intros n1 Hlt Hok. unfold ApplyCommittedEntries.
  assert (Hloop : ApplyLoop (apply_fuel n) n = ApplyLoop (apply_fuel n) n1).
  { unfold apply_fuel. cbn [ApplyLoop]. unfold ApplyIteration. by rewrite ApplyFetch_bump. }
  rewrite Hloop. destruct (ApplyLoop (apply_fuel n) n1) as [ro n'] eqn:Hl.
  apply ApplyLoop_spec in Hl as (r & b & -> & Hto); [by exists r, n', b|done|].
  unfold apply_fuel, n1, set_applied. node_simpl. lia.
Qed.

(** The replay starts at the boundary. *)
Lemma ApplyCommitted_recovered c n0 r n :
  core_ok c →
  core n0 = mkCore kFollower (current_term_ c) (voted_for_ c) (-1) (log_ c) (commit_index_ c) 0
              (last_snapshot_index_ c) (last_snapshot_term_ c) ∅ ∅ →
  ApplyCommittedEntries n0 = (r, n) →
  ∃ b, applied_to (n0 <| core ::= set_applied (last_snapshot_index_ c) |>) r n b.
Proof.
  intros Hok Hc0 Ha. pose proof (core_snapshot_applied _ Hok). pose proof (core_applied_commit _ Hok).
  pose proof (log_low _ (core_log _ Hok)). pose proof (core_commit_max _ Hok).
  assert (Hok0 : core_ok (set_applied (last_snapshot_index_ c) (core n0))).
  { rewrite Hc0. destruct (core_log _ Hok). split; [by split|unfold set_applied; node_simpl; lia..]. }
  destruct (decide (0 < last_snapshot_index_ c)) as [Hpos|Hz].
  - pose proof (ApplyCommitted_bump n0) as Hbump. cbv zeta in Hbump. rewrite Hc0 in Hbump.
    destruct Hbump as (r' & n' & b & Hr' & Hto); [done|node_simpl; exact Hok0|].
    rewrite Ha in Hr'. injection Hr' as <- <-. by eexists b.
  - assert (Hn0 : n0 <| core ::= set_applied (last_snapshot_index_ c) |> = n0).
    { replace (last_snapshot_index_ c) with 0 by lia.
      pose proof (set_applied_id (core n0)) as Hs. rewrite Hc0 in Hs at 1. destruct n0.
      unfold set_field. cbn in *. by rewrite Hs. }
    rewrite Hn0. apply (ApplyCommittedEntries_spec n0); [|done].
    replace (last_snapshot_index_ c) with (last_applied_ (core n0)) in Hok0 by (rewrite Hc0; node_simpl; lia).
    by rewrite set_applied_id in Hok0.
Qed.
End recovery.

(** The constructor when there is a state and no snapshot is loaded: the node [n0] it sets
    up, and the replay that follows. *)
Lemma RaftNode_new_replays {SM E}
    `{HostEnv E, IRaftStorage E, ISnapshotStorage E, !IStateMachine SM E}
    config snapshot_config (sm : SM) (e e1 e2 : E) c err :
  core_ok c → boundary_ok c → commit_index_ c ≤ LastLogIndexLocked c →
  ValidateNodeIdentity config e = (None, e1) →
  storage_Load e1 = ((true, persistent_state c, true, err), e2) →
  data_dir config ≠ [] → enabled snapshot_config = false →
  ∃ n0, core n0 = mkCore kFollower (current_term_ c) (voted_for_ c) (-1) (log_ c) (commit_index_ c)
             0 (last_snapshot_index_ c) (last_snapshot_term_ c) ∅ ∅ ∧
    state_machine_ n0 = sm ∧ env_ n0 = e2 ∧
    if decide (0 < commit_index_ c) then
      ∃ r n m, ApplyCommittedEntries n0 = (r, n) ∧
        RaftNode_new config snapshot_config sm e = (if Ok r then inr n else inl m, env_ n)
    else RaftNode_new config snapshot_config sm e = (inr n0, env_ n0).
Proof.
  intros Hok Hb Hci Hid Hload Hdir Hen. unfold RaftNode_new. rewrite (decide_False (P := _ = [])) by done.
  set (sc := if decide (cfg_snapshot_dir snapshot_config = []) then _ else snapshot_config).
  assert (Hsc : enabled sc = false) by (unfold sc; by case_decide). clearbody sc.
  rewrite Hid, Hload. cbn [negb]. rewrite recovered_core_persistent by done.
  set (c0 := mkCore kFollower _ _ _ _ _ _ _ _ _ _).
  set (n0 := mkNode config sc c0 _ _ _ _ _ _ _).
  assert (Hskip : LoadLatestSnapshotOnStartup n0 = ((true, ""), n0)).
  { unfold LoadLatestSnapshotOnStartup. change (snapshot_config_ n0) with sc. by rewrite Hsc. }
  rewrite Hskip. cbn [negb andb]. exists n0. split; [done|]. split; [done|]. split; [done|].
  change (last_applied_ (core n0)) with 0. change (commit_index_ (core n0)) with (commit_index_ c).
  case_decide; [|done]. destruct (ApplyCommittedEntries n0) as [r n]. eexists r, n, _. split; [done|].
  by destruct (Ok r).
Qed.


