(* ===== verification/Steady.v ===== *)
(** Steady operations: what the node does to its timers, its replicators, its metrics and
    its hard state, writing the state to disk along the way, while the log and the
    boundaries stay.  [steady n n'] says so, that the (term, vote) pair moves only forward,
    and that the node stays what it was or became a follower; what later files say of an
    operation they say of the steady ones once and for all. *)
From S2P Require Import Prelude Command Types Timer Metrics Env Sim Node SimNode.
From S2P Require Import NodeLog Election AppendEntries StateMachine Commit.
From S2P Require Import Replicator Propose SnapshotNode.

#[export] Instance same_log_preorder : PreOrder same_log.
Proof. split; [done|]. intros c1 c2 c3 [] []. split; congruence. Qed.

Section steady.
Context {SM E : Type} `{HostEnv E, IRaftStorage E}.
Context (recovered : PersistentRaftState → PersistentRaftState) `{!StorageLaws E recovered}.
Implicit Types n : Node SM E.

Record steady n n' : Prop := {
  st_config : config_ n' = config_ n;
  st_machine : state_machine_ n' = state_machine_ n;
  st_log : same_log (core n) (core n');
  st_hs : hs_le (hs_of (core n)) (hs_of (core n'));
  st_role : role_ (core n') = kFollower ∨
    role_ (core n') = role_ (core n) ∧ current_term_ (core n') = current_term_ (core n) ∧
    match_index_ (core n') = match_index_ (core n);
  st_disk : disk_state (env_ n') = disk_state (env_ n) ∨
    ∃ c, same_log (core n) c ∧ hs_le (hs_of (core n)) (hs_of c) ∧
      disk_state (env_ n') = Some (recovered (persistent_state c)) }.

#[export] Instance steady_preorder : PreOrder steady.
Proof.
  split; [intros n; split; auto; done|].
  intros n1 n2 n3 [Hc1 Hs1 Hm1 Hh1 Hr1 Hd1] [Hc2 Hs2 Hm2 Hh2 Hr2 Hd2].
  split; [congruence|congruence|by etrans|by etrans| |].
  - destruct Hr2 as [?|(-> & -> & ->)]; [by left|]. done.
  - destruct Hd2 as [->|(c & Hm & Hh & ->)]; [done|right]. exists c. split_and!; [by etrans|by etrans|done].
Qed.

(** Only the parts around the core changed. *)
Lemma steady_still n n' :
  core n' = core n → config_ n' = config_ n → state_machine_ n' = state_machine_ n →
  disk_state (env_ n') = disk_state (env_ n) → steady n n'.
Proof. intros Hk Hc Hm Hd. split; rewrite ?Hk; auto; done. Qed.

Lemma steady_persist n : steady n (PersistStateLocked n).2.
Proof.
  destruct (PersistStateLocked_frame n) as [Hc _ Hk _ _ _ Hsm].
  split; rewrite ?Hk; auto; try done.
  assert (Hnew : disk_state (env_ (PersistStateLocked n).2) = Some (recovered (persistent_state (core n))) →
    ∃ c, same_log (core n) c ∧ hs_le (hs_of (core n)) (hs_of c) ∧
      disk_state (env_ (PersistStateLocked n).2) = Some (recovered (persistent_state c)))
    by (intros ?; by exists (core n)).
  destruct (PersistStateLocked n) as [[[] err] n'] eqn:Hp; cbn [snd] in *.
  - right. by eapply Hnew, PersistStateLocked_disk.
  - destruct (PersistStateLocked_disk_fail recovered _ _ _ Hp); auto.
Qed.

(** Writing [m], a later hard state of [n], and giving the core back, or a part of it. *)
Lemma steady_try n (m n' : Node SM E) :
  same_log (core n) (core m) → hs_le (hs_of (core n)) (hs_of (core m)) →
  disk_state (env_ m) = disk_state (env_ n) → config_ n' = config_ n →
  state_machine_ n' = state_machine_ n →
  same_log (core n) (core n') → hs_le (hs_of (core n)) (hs_of (core n')) →
  role_ (core n') = role_ (core n) → current_term_ (core n') = current_term_ (core n) →
  match_index_ (core n') = match_index_ (core n) →
  disk_state (env_ n') = disk_state (env_ (PersistStateLocked m).2) → steady n n'.
Proof.
  intros Hm Hh Hdm Hc Hsm Hm' Hh' Hr Ht Hi Hd. split; auto. rewrite Hd.
  destruct (st_disk _ _ (steady_persist m)) as [->|(c & Hmc & Hhc & ->)]; [by left|right].
  exists c. split_and!; [exact (transitivity Hm Hmc)|exact (transitivity Hh Hhc)|done].
Qed.

Lemma steady_election_timer n : steady n (ResetElectionTimerLocked n).
Proof.
  destruct (ResetElectionTimer_frame n) as [Hc _ Hk _ _ _ Hsm].
  apply steady_still; [done..|apply (ResetElectionTimer_disk recovered)].
Qed.

Lemma steady_BecomeFollower t l n :
  current_term_ (core n) ≤ t → steady n (BecomeFollowerLocked t l n).2.
Proof.
  intros Ht. pose proof (follower_core_hs t l (core n) Ht) as Hh. pose proof (follower_core_same_log t l (core n)) as Hm.
  unfold BecomeFollowerLocked.
  match goal with |- context [ResetElectionTimerLocked ?m] =>
    assert (Hq : steady n m); [|pose proof (steady_election_timer m)] end.
  - unfold follower_core in Hh, Hm.
    destruct (bool_decide_reflect (current_term_ (core n) < t)) as [Hd|Hd];
      [rewrite decide_True in Hh, Hm by done|rewrite decide_False in Hh, Hm by done];
      (split; [done|done|exact Hm|exact Hh|by left|by left]).
  - case_match; [|by etrans].
    match goal with |- context [PersistStateLocked ?m] =>
      pose proof (steady_persist m); destruct (PersistStateLocked m) as [[? ?] ?] end.
    cbn [snd] in *. etrans; [exact Hq|]. by etrans.
Qed.

Lemma steady_FollowLeader request n :
  current_term_ (core n) ≤ areq_term request → steady n (FollowLeaderLocked request n).2.
Proof.
  intros Ht. unfold FollowLeaderLocked. case_match; [by apply steady_BecomeFollower|].
  cbn [snd]. match goal with |- steady _ (ResetElectionTimerLocked ?m) =>
    pose proof (steady_election_timer m) end. etrans; [|done]. split; auto; done.
Qed.

Ltac steady_step := first [done | apply steady_still; node_simpl; done].

Lemma steady_MaybeSchedule force n : steady n (MaybeScheduleSnapshotLocked force n).
Proof. unfold MaybeScheduleSnapshotLocked. repeat case_match; steady_step. Qed.

Lemma steady_BuildRequest peer_id t n : steady n (BuildAppendEntriesRequest peer_id t n).2.
Proof.
  unfold BuildAppendEntriesRequest. cbv zeta. repeat case_match; first [steady_step|split; auto; done].
Qed.

Lemma steady_OnVoteResponse t response n : steady n (OnVoteResponseLocked t response n).2.
Proof.
  unfold OnVoteResponseLocked. case_match; [done|].
  case_decide; [apply steady_BecomeFollower; lia|by case_match].
Qed.

Lemma steady_Stop n : steady n (Stop n).
Proof. unfold Stop. case_match; [done|]. etrans; [|apply steady_persist]. steady_step. Qed.

Lemma steady_snapshot_timer n : steady n (ResetSnapshotTimerLocked n).
Proof.
  unfold ResetSnapshotTimerLocked. cbv zeta. case_match; [steady_step|].
  destruct (ScheduleAfter _ _ _ _). steady_step.
Qed.

Lemma steady_Start ok n : steady n (Start ok n).2.
Proof.
  unfold Start. case_match; [done|]. cbv zeta. case_match; cbn [snd]; [steady_step|].
  etrans; [|apply steady_snapshot_timer]. etrans; [|apply steady_election_timer]. steady_step.
Qed.

Lemma steady_heartbeat_timer n : steady n (ResetHeartbeatTimerLocked n).
Proof.
  unfold ResetHeartbeatTimerLocked. case_decide; [steady_step|].
  destruct (ScheduleAfter _ _ _ _). steady_step.
Qed.

Lemma steady_GetOrCreate_fold (l : list PeerConfig) n :
  steady n (foldl (λ n p, GetOrCreateReplicatorLocked (peer_node_id p) n) n l).
Proof.
  revert n. induction l as [|p l IH]; intros n; [done|]. cbn [foldl]. etrans; [|apply IH].
  unfold GetOrCreateReplicatorLocked. case_match; first [steady_step|split; auto; done].
Qed.

Lemma steady_OnHeartbeatTimer n : steady n (OnHeartbeatTimer n).2.
Proof.
  unfold OnHeartbeatTimer.
  assert (Hq : steady n (SendHeartbeats n).2)
    by (unfold SendHeartbeats; case_match; [done|apply steady_GetOrCreate_fold]).
  destruct (SendHeartbeats n) as [tasks n1]. cbn [snd] in *. case_match; [|done].
  etrans; [exact Hq|apply steady_heartbeat_timer].
Qed.

Lemma steady_OnSnapshotTimer n : steady n (OnSnapshotTimer n).
Proof.
  unfold OnSnapshotTimer. case_match; [done|].
  etrans; [|apply steady_snapshot_timer]. apply steady_MaybeSchedule.
Qed.

Lemma steady_on_replicator peer_id f n : steady n (on_replicator peer_id f n).
Proof. steady_step. Qed.

Lemma steady_OnRequestVote request n : steady n (OnRequestVote request n).2.
Proof.
  unfold OnRequestVote. case_decide as Hst; [done|].
  match goal with |- context [if decide (?a < ?b) then BecomeFollowerLocked ?t ?l n else ?x] =>
    assert (Hq1 : steady n (if decide (a < b) then BecomeFollowerLocked t l n else x).2)
      by (case_decide; [apply steady_BecomeFollower; lia|done]);
    destruct (if decide (a < b) then _ else _) as [followed n1] end. cbn [snd] in Hq1.
  destruct followed; cbn [negb snd]; [|done]. cbv zeta. case_match eqn:Hcan; [|done]. etrans; [exact Hq1|].
  apply andb_prop in Hcan as [Hcan%bool_decide_eq_true _].
  match goal with |- context [PersistStateLocked ?m] => set (n2 := m) end.
  assert (Hh : hs_le (hs_of (core n1)) (hs_of (core n2))).
  { unfold hs_le, hs_of, n2. node_simpl. right. split; [done|]. destruct Hcan; auto. }
  destruct (PersistStateLocked_frame n2) as [Hc2 _ Hk2 _ _ _ Hsm2].
  pose proof (steady_try n1 n2) as Htry.
  destruct (PersistStateLocked n2) as [[[] ?] n3]; cbn [snd] in *.
  - etrans; [|apply steady_election_timer]. apply Htry; rewrite ?Hk2, ?Hc2, ?Hsm2; done.
  - apply Htry; node_simpl; rewrite ?Hk2, ?Hc2, ?Hsm2; done.
Qed.
End steady.
