(* ===== verification/Durability.v ===== *)
(** Durability: what an acknowledged proposal leaves on disk, and what the constructor makes
    of it after a restart, over any storage that keeps what it accepts. *)
From S2P Require Import Prelude Command Types Timer Metrics Env Node.
From S2P Require Import NodeLog Election AppendEntries StateMachine Commit Replicator Propose.
From S2P Require Import SnapshotNode.

(** ** Between two points only [Save] was called and random numbers were drawn *)
Section saves.
Context {E : Type} `{HostEnv E, IRaftStorage E}.

Inductive saves : E → E → Prop :=
  | saves_refl e : saves e e
  | saves_step st e e' : saves (storage_Save st e).2 e' → saves e e'
  | saves_random lo hi e e' : saves (uniform_int lo hi e).2 e' → saves e e'.

#[export] Instance saves_preorder : PreOrder saves.
Proof.
  split; [by constructor|]. intros e1 e2 e3 H12 H23. induction H12 as [|st e e' _ IH|lo hi e e' _ IH];
    [done|by apply (saves_step st), IH|by apply (saves_random lo hi), IH].
Qed.

(** What every such call keeps. *)
Lemma saves_keep (P : E → Prop) e e' :
  (∀ st e, P e → P (storage_Save st e).2) → (∀ lo hi e, P e → P (uniform_int lo hi e).2) →
  saves e e' → P e → P e'.
Proof. intros HP Hu. induction 1; auto. Qed.

Context {SM : Type}.
Implicit Types n : Node SM E.

Lemma PersistStateLocked_saves n : saves (env_ n) (env_ (PersistStateLocked n).2).
Proof.
  apply (saves_step (persistent_state (core n))). unfold PersistStateLocked.
  destruct (storage_Save _ _) as [[[] reason] e]; constructor.
Qed.

Lemma ResetElectionTimer_saves n : saves (env_ n) (env_ (ResetElectionTimerLocked n)).
Proof.
  unfold ResetElectionTimerLocked, RandomElectionTimeoutLocked. case_match; [done|].
  match goal with |- context [uniform_int ?lo ?hi ?e] =>
    pose proof (saves_random lo hi e _ (saves_refl _)) as Hl; destruct (uniform_int lo hi e) end.
  by destruct (ScheduleAfter _ _ _ _).
Qed.

Lemma BecomeFollower_saves t l n : saves (env_ n) (env_ (BecomeFollowerLocked t l n).2).
Proof.
  unfold BecomeFollowerLocked. cbv zeta.
  match goal with |- context [ResetElectionTimerLocked ?m] =>
    pose proof (ResetElectionTimer_saves m) as Hs1; set (n1 := ResetElectionTimerLocked m) in * end.
  assert (Hs2 : saves (env_ n) (env_ n1)) by (etrans; [|exact Hs1]; by destruct (bool_decide _)). clear Hs1.
  clearbody n1. destruct (bool_decide _); [|exact Hs2].
  pose proof (PersistStateLocked_saves n1) as Hs3. destruct (PersistStateLocked n1) as [[ok reason] n2].
  by etrans.
Qed.

Lemma OnRequestVote_saves request n : saves (env_ n) (env_ (OnRequestVote request n).2).
Proof.
  unfold OnRequestVote. case_decide; [done|].
  assert (Hs1 : saves (env_ n) (env_ (if decide (current_term_ (core n) < vreq_term request)
    then BecomeFollowerLocked (vreq_term request) (-1) n else (true, n)).2))
    by (case_decide; [apply BecomeFollower_saves|done]).
  destruct (if decide (current_term_ (core n) < vreq_term request) then _ else _) as [[] n1];
    cbn [negb snd] in *; [|done].
  case_match; [|done]. match goal with |- context [PersistStateLocked ?m] =>
    pose proof (PersistStateLocked_saves m) as Hs2; destruct (PersistStateLocked m) as [[[] reason] n2] end;
    cbn [snd] in *; (etrans; [exact Hs1|]); [|exact Hs2].
  etrans; [exact Hs2|apply ResetElectionTimer_saves].
Qed.

Lemma AppendLocalLog_saves data n : saves (env_ n) (env_ (AppendLocalLogUnlocked data n).2).
Proof.
  unfold AppendLocalLogUnlocked. match goal with |- context [PersistStateLocked ?m] =>
    pose proof (PersistStateLocked_saves m) as Hs; destruct (PersistStateLocked m) as [[[] reason] n1] end;
    exact Hs.
Qed.

Lemma AdvanceCommit_saves n : saves (env_ n) (env_ (AdvanceCommitIndexUnlocked n)).
Proof.
  unfold AdvanceCommitIndexUnlocked. repeat case_match; try done.
  match goal with |- context [PersistStateLocked ?m] => exact (PersistStateLocked_saves m) end.
Qed.

Lemma MaybeScheduleSnapshot_env force n : env_ (MaybeScheduleSnapshotLocked force n) = env_ n.
Proof. unfold MaybeScheduleSnapshotLocked. by repeat case_match. Qed.

Context `{!IStateMachine SM E}.

Lemma ApplyFetch_env n : env_ (ApplyFetchLocked n).2 = env_ n.
Proof. unfold ApplyFetchLocked. case_decide; cbv zeta; repeat case_match; done. Qed.

Lemma ApplyIteration_saves n : saves (env_ n) (env_ (ApplyIteration n).2).
Proof.
  unfold ApplyIteration. pose proof (ApplyFetch_env n) as Hf.
  destruct (ApplyFetchLocked n) as [[r|[i data]] n1]; cbn [snd] in *; [by rewrite Hf|].
  destruct (sm_Apply i data (state_machine_ n1)) as [r sm]. rewrite <- Hf.
  case_match; [done|]. unfold ApplyDoneLocked. case_match; [|cbn [snd]; by rewrite MaybeScheduleSnapshot_env].
  match goal with |- context [PersistStateLocked ?m] =>
    pose proof (PersistStateLocked_saves m) as Hs; destruct (PersistStateLocked m) as [[[] reason] n2] end;
    cbn [negb fst snd] in *; [by rewrite MaybeScheduleSnapshot_env|exact Hs].
Qed.

Lemma ApplyLoop_saves fuel n : saves (env_ n) (env_ (ApplyLoop fuel n).2).
Proof.
  revert n. induction fuel as [|fuel IH]; intros n; cbn [ApplyLoop]; [done|].
  pose proof (ApplyIteration_saves n) as Hs. destruct (ApplyIteration n) as [[r|] n1]; [done|].
  cbn [snd] in Hs. by etrans.
Qed.
End saves.

(** ** Acknowledged proposals *)
Section acknowledged.
Context {SM E : Type} `{HostEnv E, IRaftStorage E, !IStateMachine SM E, !ApplyAtomic SM E}.
Context (stored : PersistentRaftState → E → Prop) `{!DurableStorage E stored}.
Implicit Types n : Node SM E.

Lemma ApplyDone_stored i n n' :
  ApplyDoneLocked i n = (None, n') → last_applied_ (core n) < i →
  stored (persistent_state (core n')) (env_ n').
Proof.
  unfold ApplyDoneLocked. intros Hrun Hi. rewrite decide_True in Hrun by done.
  match type of Hrun with context [PersistStateLocked ?m] =>
    pose proof (sbh_core _ _ (PersistStateLocked_frame m)) as Hc;
    destruct (PersistStateLocked m) as [[ok err] n1] eqn:Hp end.
  destruct ok; cbn [negb] in Hrun; [|done]. injection Hrun as <-. cbn [snd] in Hc.
  rewrite MaybeScheduleSnapshot_env.
  destruct (MaybeScheduleSnapshot_core false n1) as [-> _]. rewrite Hc.
  by apply (PersistStateLocked_stored stored) in Hp.
Qed.

(** An iteration after which the loop goes on has written the disk. *)
Lemma ApplyIteration_stored n n' :
  core_ok (core n) → ApplyIteration n = (None, n') → stored (persistent_state (core n')) (env_ n').
Proof.
  intros [Hlog Hsn Hap Hmax] Hrun. unfold ApplyIteration, ApplyFetchLocked in Hrun.
  rewrite (decide_False (P := last_applied_ (core n) < _)) in Hrun by lia. cbv zeta in *.
  destruct (decide (commit_index_ (core n) ≤ last_applied_ (core n))) as [|Hmore]; [done|].
  destruct (negb (HasLogAtIndexLocked _ _)); [done|].
  destruct (LogAtIndexLocked _ _) as [record|]; [|done].
  destruct (sm_Apply _ _ _) as [r sm]. destruct (Ok r); cbn [negb] in Hrun; [|done].
  pose proof (log_low _ Hlog). rewrite u64_id in Hrun by u64_lia.
  apply ApplyDone_stored in Hrun; [done|]. node_simpl. lia.
Qed.

Lemma ApplyLoop_stored fuel n r n' :
  core_ok (core n) → ApplyLoop fuel n = (Some r, n') → Ok r = true →
  last_applied_ (core n) < commit_index_ (core n) → stored (persistent_state (core n')) (env_ n').
Proof.
  revert n. induction fuel as [|fuel IH]; intros n Hok Hrun Hr Hlt; [done|].
  cbn [ApplyLoop] in Hrun. destruct (ApplyIteration n) as [r1 n1] eqn:Hit.
  destruct (ApplyIteration_effect _ _ _ Hok Hit) as
    [_ [(_ & _ & r0 & -> & Hr0)|(record & Hrec & Hle & Hc & Hm & Hsucc & Hr1)]].
  { injection Hrun as -> <-. specialize (Hr0 Hr). lia. }
  destruct r1 as [r1|]; [injection Hrun as -> <-; by rewrite (Hr1 r eq_refl) in Hr|].
  pose proof (ApplyIteration_stored _ _ Hok Hit) as Hst.
  assert (Hok1 : core_ok (core n1)) by (rewrite Hc; apply set_applied_core_ok; [done|lia]).
  destruct (decide (last_applied_ (core n1) < commit_index_ (core n1))) as [Hlt1|Hge1]; [by eapply IH|].
  assert (n' = n1) as ->; [|done]. destruct fuel as [|fuel]; [done|]. cbn [ApplyLoop] in Hrun.
  unfold ApplyIteration, ApplyFetchLocked in Hrun. destruct Hok1 as [_ Hsn1 _ _].
  rewrite (decide_False (P := last_applied_ (core n1) < _)) in Hrun by lia. cbv zeta in Hrun.
  rewrite decide_True in Hrun by lia. by injection Hrun.
Qed.
End acknowledged.

Section single.
Context {E : Type} `{HostEnv E, IRaftStorage E, ISnapshotStorage E, PeerNet KvStateMachine E,
  !IStateMachine KvStateMachine E, !ApplyAtomic KvStateMachine E}.
Context (stored : PersistentRaftState → E → Prop) `{!DurableStorage E stored}.
Implicit Types n : Node KvStateMachine E.

(** A proposal a lone leader answers with [kOk]: the command is committed, applied and on
    disk, whatever failed on the way. *)
Lemma Propose_acknowledged n cmd r n' :
  alone n → let last := LastLogIndexLocked (core n) in
  last_applied_ (core n) = last → last < u64_max →
  ValidateCommandUnlocked (kv_limits (config_ n)) cmd = None →
  Propose cmd n = (r, n') → ProposeResult_Ok r = true →
  core n' = set_applied (last + 1) (committed_core (node_id (config_ n)) (Serialize cmd) (core n)) ∧
  state_machine_ n' = (sm_Apply (last + 1) (Serialize cmd) (state_machine_ n)).2 ∧
  Ok (sm_Apply (last + 1) (Serialize cmd) (state_machine_ n)).1 = true ∧
  saves (env_ n) (env_ n') ∧ stored (persistent_state (core n')) (env_ n').
Proof.
  intros Hal last Hla Hmax Hval Hrun Hr. pose proof (al_core _ Hal) as Hok.
  pose proof (Propose_appended n cmd Hal Hmax Hval) as Hp.
  pose proof (AppendLocalLog_saves (Serialize cmd) n) as Hs1.
  destruct (AppendLocalLogUnlocked (Serialize cmd) n) as [i n1]. cbv zeta in Hp. cbn [snd] in Hs1.
  destruct Hp as [[_ Hf]|(-> & Hp & Hc2 & Hcfg & _ & Hm & Hok2)].
  { rewrite Hrun in Hf. cbn in Hf. congruence. }
  pose proof (AdvanceCommit_saves n1) as Hs2. set (n2 := AdvanceCommitIndexUnlocked n1) in *. clearbody n2.
  rewrite Hp in Hrun. destruct (ApplyCommittedEntries n2) as [ra n3] eqn:Ha.
  destruct (ApplyCommittedEntries_spec _ _ _ Hok2 Ha) as (Hl & b & (_ & _ & Hc3 & Hm3 & Hfull)).
  unfold proposal_outcome in Hrun. destruct (Ok ra) eqn:Hra; cbn [negb] in Hrun;
    [|injection Hrun as <- <-; done]. specialize (Hfull eq_refl).
  assert (Hci2 : commit_index_ (core n2) = last + 1) by (by rewrite Hc2).
  assert (Hla2 : last_applied_ (core n2) = last) by (by rewrite Hc2).
  rewrite Hci2 in Hfull. subst b. rewrite Hla2 in Hm3.
  assert (Hrec : LogAtIndexLocked (core n2) (last + 1) =
    Some (mkLogRecord (last + 1) (current_term_ (core n)) (Serialize cmd))).
  { rewrite Hc2, committed_lookup by (done || apply Hok). by rewrite decide_True. }
  pose proof (core_snapshot_applied _ Hok2) as Hsn2. rewrite Hla2 in Hsn2.
  rewrite (log_between_cons last (last + 1) _ _ (core_log _ Hok2) ltac:(lia) Hrec), log_between_nil in Hm3.
  rewrite decide_False in Hrun by (rewrite Hc3; unfold set_applied; node_simpl; lia).
  injection Hrun as <- <-. node_simpl. rewrite Hm in Hm3.
  split_and!; [by rewrite Hc3, Hc2|exact Hm3| | |].
  - cbn [ApplyLoop apply_fuel] in Hl. unfold apply_fuel in Hl. cbn [ApplyLoop] in Hl.
    destruct (ApplyIteration n2) as [r1 n4] eqn:Hit.
    destruct (ApplyIteration_effect _ _ _ Hok2 Hit) as
      [_ [(_ & _ & r0 & -> & Hr0)|(record & Hrec' & _ & _ & _ & Hsucc & _)]].
    + injection Hl as -> <-. specialize (Hr0 Hra). lia.
    + rewrite Hla2 in Hrec', Hsucc. rewrite Hrec in Hrec'. injection Hrec' as <-. cbn in Hsucc. by rewrite Hm in Hsucc.
  - etrans; [exact Hs1|]. etrans; [exact Hs2|]. pose proof (ApplyLoop_saves (apply_fuel n2) n2) as Hs3.
    by rewrite Hl in Hs3.
  - apply (ApplyLoop_stored stored (apply_fuel n2) n2 ra); [done|done|done|lia].
Qed.
End single.

(** ** Restart *)
Section restart.
Context {SM E : Type} `{HostEnv E, IRaftStorage E, ISnapshotStorage E, !IStateMachine SM E,
  !ApplyAtomic SM E}.
Implicit Types n : Node SM E.

(** Where [P] holds of the environment, states with this log are accepted, and [P] holds
    afterwards. *)
Definition takes (P : E → Prop) (log : list LogRecord) : Prop :=
  ∀ st e, ps_log st = log → P e → ∃ err e', storage_Save st e = ((true, err), e') ∧ P e'.

(** The state machine refuses no record of the log up to [b]. *)
Definition accepted (b : Z) (c : RaftCore) : Prop :=
  ∀ i r (m : SM), 0 < i ≤ b → LogAtIndexLocked c i = Some r → Ok (sm_Apply i (command r) m).1 = true.

Context (P : E → Prop).

Lemma ApplyIteration_ok n :
  core_ok (core n) → commit_index_ (core n) ≤ LastLogIndexLocked (core n) →
  takes P (log_ (core n)) → accepted (commit_index_ (core n)) (core n) → P (env_ n) →
  last_applied_ (core n) < commit_index_ (core n) →
  ∃ n1, ApplyIteration n = (None, n1) ∧ P (env_ n1).
Proof.
  intros [Hlog Hsn Hap Hmax] Hci Htakes Hacc HP Hlt. unfold ApplyIteration, ApplyFetchLocked.
  rewrite (decide_False (P := last_applied_ (core n) < _)) by lia. cbv zeta.
  rewrite (decide_False (P := commit_index_ (core n) ≤ _)) by lia.
  pose proof (log_low _ Hlog). rewrite u64_id by u64_lia.
  assert (Hhas : HasLogAtIndexLocked (core n) (last_applied_ (core n) + 1) = true)
    by (rewrite HasLogAtIndex_spec by done; apply bool_decide_eq_true; lia).
  rewrite Hhas. cbn [negb]. apply HasLog_LogAtIndex in Hhas as [r Hr]; [|done]. rewrite Hr.
  pose proof (Hacc (last_applied_ (core n) + 1) r (state_machine_ n) ltac:(lia) Hr) as Hok.
  destruct (sm_Apply _ _ _) as [ra sm]. cbn [fst] in Hok. rewrite Hok. cbn [negb].
  unfold ApplyDoneLocked. rewrite decide_True by (node_simpl; lia). unfold PersistStateLocked. node_simpl.
  match goal with |- context [storage_Save ?st ?e] =>
    destruct (Htakes st e) as (err & e' & -> & HP'); [done|done|] end. cbn [negb].
  eexists. split; [done|]. rewrite MaybeScheduleSnapshot_env. exact HP'.
Qed.

Lemma ApplyLoop_ok fuel n r n' :
  core_ok (core n) → commit_index_ (core n) ≤ LastLogIndexLocked (core n) →
  takes P (log_ (core n)) → accepted (commit_index_ (core n)) (core n) → P (env_ n) →
  ApplyLoop fuel n = (Some r, n') → Ok r = true ∧ P (env_ n').
Proof.
  revert n. induction fuel as [|fuel IH]; intros n Hok Hci Htakes Hacc HP Hrun; [done|].
  cbn [ApplyLoop] in Hrun. pose proof (core_applied_commit _ Hok) as Hle.
  destruct (decide (last_applied_ (core n) < commit_index_ (core n))) as [Hlt|Hge].
  - destruct (ApplyIteration_ok n) as (n1 & Hit & HP1); [done..|]. rewrite Hit in Hrun.
    destruct (ApplyIteration_effect _ _ _ Hok Hit) as
      [_ [(_ & _ & r0 & ? & _)|(record & _ & Hle1 & Hc & _)]]; [done|].
    revert Hrun. apply IH; rewrite ?Hc; try done. by apply set_applied_core_ok; [|lia].
  - unfold ApplyIteration, ApplyFetchLocked in Hrun.
    rewrite (decide_False (P := last_applied_ (core n) < _)) in Hrun by (destruct Hok; lia). cbv zeta in Hrun.
    rewrite decide_True in Hrun by lia. by injection Hrun as <- <-.
Qed.

(** The constructor finds the state of [c], never compacted, and replays it: it returns a
    follower with the term, vote, log and commit index of [c] whose machine holds the
    committed records. *)
Lemma RaftNode_new_restarts config snapshot_config (sm : SM) (e e1 e2 : E) c err :
  core_ok c → boundary_ok c → commit_index_ c ≤ LastLogIndexLocked c → last_snapshot_index_ c = 0 →
  ValidateNodeIdentity config e = (None, e1) →
  storage_Load e1 = ((true, persistent_state c, true, err), e2) →
  data_dir config ≠ [] → enabled snapshot_config = false →
  takes P (log_ c) → accepted (commit_index_ c) c → P e2 →
  ∃ n, RaftNode_new config snapshot_config sm e = (inr n, env_ n) ∧ P (env_ n) ∧
    core n = mkCore kFollower (current_term_ c) (voted_for_ c) (-1) (log_ c) (commit_index_ c)
               (commit_index_ c) 0 (last_snapshot_term_ c) ∅ ∅ ∧
    state_machine_ n = replay (log_between 0 (commit_index_ c) c) sm.
Proof.
  intros Hok Hb Hci Hz Hid Hload Hdir Hen Htakes Hacc HP.
  destruct (RaftNode_new_replays config snapshot_config sm e e1 e2 c err Hok Hb Hci Hid Hload Hdir Hen)
    as (n0 & Hc0 & Hm0 & He0 & Hrun).
  pose proof (core_snapshot_applied _ Hok). pose proof (core_applied_commit _ Hok).
  pose proof (core_commit_max _ Hok).
  case_decide as Hlt.
  2:{ exists n0. rewrite Hc0, Hm0, He0, Hz. replace (commit_index_ c) with 0 by lia.
      rewrite log_between_nil. rewrite He0 in Hrun. done. }
  destruct Hrun as (r & n & m & Ha & Hrun).
  assert (Hok0 : core_ok (core n0))
    by (rewrite Hc0; destruct (core_log _ Hok); split; [by split|node_simpl; lia..]).
  destruct (ApplyCommittedEntries_spec _ _ _ Hok0 Ha) as (Hl & b & (_ & _ & Hc & Hm & Hfull)).
  apply ApplyLoop_ok in Hl as [Hr HP']; [|done|rewrite ?Hc0, ?He0; done..].
  rewrite Hr in Hrun. specialize (Hfull Hr). exists n. rewrite Hc, Hm, Hfull, Hc0, Hm0, Hz.
  split; [done|]. split; [done|]. split; [done|]. unfold log_between. node_simpl. by rewrite Hz.
Qed.
End restart.
