(* ===== verification/KvService.v ===== *)
(** The gRPC services (src/modules/raft/service) and the views of the node they
    read.  A handler is the response it fills and the node afterwards; [reactor]
    calls, which only hand the response to gRPC, are left out. *)
From S2P Require Import Prelude Command Types Timer Metrics Env Sim Node SimNode.
From S2P Require Import NodeLog Election AppendEntries StateMachine Commit.
From S2P Require Import Replicator Propose SnapshotNode.

(** ** Messages *)

(** [enum KvStatusCode]. *)
Inductive KvStatusCode :=
  | KV_STATUS_CODE_UNSPECIFIED | KV_STATUS_CODE_OK | KV_STATUS_CODE_NOT_LEADER
  | KV_STATUS_CODE_INVALID_ARGUMENT | KV_STATUS_CODE_KEY_NOT_FOUND
  | KV_STATUS_CODE_INTERNAL_ERROR | KV_STATUS_CODE_NODE_STOPPING | KV_STATUS_CODE_TIMEOUT.
#[export] Instance KvStatusCode_eq_dec : EqDecision KvStatusCode.
Proof. solve_decision. Defined.

Record PutRequest := mkPutRequest { put_key : string; put_value : string }.
Record DeleteRequest := mkDeleteRequest { del_key : string }.
Record GetRequest := mkGetRequest { get_key : string }.

(** [PutResponse]; [DeleteResponse] has the same fields. *)
Record WriteResponse := mkWriteResponse {
  wr_code : KvStatusCode;
  wr_message : string;
  wr_leader_id : Z;
  wr_leader_address : string;
  wr_term : Z;
  wr_log_index : Z }.
Record GetResponse := mkGetResponse {
  gr_code : KvStatusCode;
  gr_message : string;
  gr_leader_id : Z;
  gr_leader_address : string;
  gr_term : Z;
  gr_found : bool;
  gr_value : string }.
#[export] Instance eta_WriteResponse : Eta WriteResponse := λ r,
  mkWriteResponse (wr_code r) (wr_message r) (wr_leader_id r) (wr_leader_address r) (wr_term r)
    (wr_log_index r).
#[export] Instance eta_GetResponse : Eta GetResponse := λ r,
  mkGetResponse (gr_code r) (gr_message r) (gr_leader_id r) (gr_leader_address r) (gr_term r)
    (gr_found r) (gr_value r).

(** [struct PeerReplicationStatus], copied into [PeerReplicationProgress]. *)
Record PeerReplicationStatus := mkPeerReplicationStatus {
  prs_peer_id : Z;
  prs_address : string;
  prs_match_index : Z;
  prs_next_index : Z }.

(** [struct NodeStatusSnapshot]. *)
Record NodeStatusSnapshot := mkNodeStatusSnapshot {
  ns_node_id : Z;
  ns_address : string;
  ns_role : string;
  ns_term : Z;
  ns_leader_id : Z;
  ns_leader_address : string;
  ns_commit_index : Z;
  ns_last_applied : Z;
  ns_last_log_index : Z;
  ns_snapshot_index : Z;
  ns_peers : list PeerReplicationStatus }.

(** [struct NodeMetricsSnapshot] and [message MetricsSnapshot]: the counters, and
    the per-RPC table as (name, success, failure, total latency, max latency). *)
Record NodeMetricsSnapshot := mkNodeMetricsSnapshot {
  ms_propose_success_count : Z;
  ms_propose_failure_count : Z;
  ms_election_count : Z;
  ms_leader_change_count : Z;
  ms_snapshot_success_count : Z;
  ms_snapshot_failure_count : Z;
  ms_storage_persist_failure_count : Z;
  ms_rpc_metrics : list (string * Z * Z * Z * Z) }.

Record StatusResponse := mkStatusResponse {
  str_node_id : Z;
  str_address : string;
  str_role : string;
  str_term : Z;
  str_leader_id : Z;
  str_leader_address : string;
  str_commit_index : Z;
  str_last_applied : Z;
  str_last_log_index : Z;
  str_snapshot_index : Z;
  str_peers : list PeerReplicationStatus;
  str_metrics : NodeMetricsSnapshot }.
Record HealthResponse := mkHealthResponse {
  hr_ok : bool;
  hr_message : string;
  hr_node_id : Z;
  hr_role : string;
  hr_term : Z;
  hr_leader_id : Z }.
Record MetricsResponse := mkMetricsResponse {
  mr_node_id : Z;
  mr_role : string;
  mr_term : Z;
  mr_leader_id : Z;
  mr_leader_address : string;
  mr_metrics : NodeMetricsSnapshot }.

(** [dynamic_cast<const KvStateMachine *>(state_machine_.get())]. *)
Class KvCast (SM : Type) := kv_cast : SM → option KvStateMachine.
#[export] Instance kv_cast_self : KvCast KvStateMachine := Some.

(** [ToKvStatusCode]. *)
Definition ToKvStatusCode (status : ProposeStatus) : KvStatusCode :=
  match status with
  | psOk => KV_STATUS_CODE_OK
  | psNotLeader => KV_STATUS_CODE_NOT_LEADER
  | psInvalidCommand => KV_STATUS_CODE_INVALID_ARGUMENT
  | psNodeStopping => KV_STATUS_CODE_NODE_STOPPING
  | psTimeout => KV_STATUS_CODE_TIMEOUT
  | psReplicationFailed | psCommitFailed | psApplyFailed => KV_STATUS_CODE_INTERNAL_ERROR
  end.

(** [FillCommonWriteResponse]. *)
Definition FillCommonWriteResponse (status : NodeStatusSnapshot) (result : ProposeResult) :
    WriteResponse :=
  mkWriteResponse (ToKvStatusCode (pr_status result)) (pr_message result) (pr_leader_id result)
    (ns_leader_address status) (pr_term result) (pr_log_index result).

(** The reply to a request that fails validation, before [Propose]. *)
Definition InvalidWriteResponse (status : NodeStatusSnapshot) (reason : string) : WriteResponse :=
  mkWriteResponse KV_STATUS_CODE_INVALID_ARGUMENT reason (ns_leader_id status)
    (ns_leader_address status) (ns_term status) 0.

Definition default_MetricsSnapshot : NodeMetricsSnapshot := mkNodeMetricsSnapshot 0 0 0 0 0 0 0 [].

(** [FillMetricsSnapshot] into a message: the repeated field grows. *)
Definition FillMetricsSnapshot (snapshot out : NodeMetricsSnapshot) : NodeMetricsSnapshot :=
  mkNodeMetricsSnapshot (ms_propose_success_count snapshot) (ms_propose_failure_count snapshot)
    (ms_election_count snapshot) (ms_leader_change_count snapshot)
    (ms_snapshot_success_count snapshot) (ms_snapshot_failure_count snapshot)
    (ms_storage_persist_failure_count snapshot)
    (ms_rpc_metrics out ++ ms_rpc_metrics snapshot).

(** ** The node's views *)
Section views.
Context {SM E : Type} `{HostEnv E, IRaftStorage E, KvCast SM}.
Implicit Types n : Node SM E.

(** [GetStatusSnapshot]. *)
Definition GetStatusSnapshot n : NodeStatusSnapshot :=
  let c := core n in
  mkNodeStatusSnapshot (node_id (config_ n)) (address (config_ n)) (RoleName (role_ c))
    (current_term_ c) (leader_id_ c) (AddressForNodeLocked (leader_id_ c) n)
    (commit_index_ c) (last_applied_ c) (LastLogIndexLocked c) (last_snapshot_index_ c)
    ((λ p, mkPeerReplicationStatus (peer_node_id p) (peer_address p)
             (default 0 (match_index_ c !! peer_node_id p))
             (default 0 (next_index_ c !! peer_node_id p))) <$> peers (config_ n)).

(** [GetMetricsSnapshot]. *)
Definition GetMetricsSnapshot n : NodeMetricsSnapshot :=
  let m := metrics_ n in
  mkNodeMetricsSnapshot (propose_success_count_ m) (propose_failure_count_ m) (election_count_ m)
    (leader_change_count_ m) (snapshot_success_count_ m) (snapshot_failure_count_ m)
    (storage_persist_failure_count_ m)
    ((λ r, (rm_name r, rm_success_count r, rm_failure_count r, rm_total_latency_us r,
            rm_max_latency_us r)) <$> rpc_metrics_ m).

(** [DebugGetValue]: [Some value] is true. *)
Definition DebugGetValue (k : string) n : option string :=
  match kv_cast (state_machine_ n) with None => None | Some m => Get k m end.

(** [Describe]. *)
Definition DescribePeers (ps : list PeerReplicationStatus) : string :=
  String.concat "; "
    ((λ p, pretty (prs_peer_id p) +:+ "(match=" +:+ pretty (prs_match_index p) +:+
           ",next=" +:+ pretty (prs_next_index p) +:+ ")") <$> ps).
Definition Describe n : string :=
  let status := GetStatusSnapshot n in
  "node=" +:+ pretty (ns_node_id status) +:+ ", role=" +:+ ns_role status +:+
  ", term=" +:+ pretty (ns_term status) +:+ ", voted_for=" +:+ pretty (voted_for_ (core n)) +:+
  ", leader=" +:+ pretty (ns_leader_id status) +:+
  ", leader_address=" +:+ ns_leader_address status +:+
  ", last_log_index=" +:+ pretty (ns_last_log_index status) +:+
  ", commit_index=" +:+ pretty (ns_commit_index status) +:+
  ", last_applied=" +:+ pretty (ns_last_applied status) +:+
  ", last_snapshot_index=" +:+ pretty (ns_snapshot_index status) +:+
  (match ns_peers status with [] => "" | ps => ", peers=[" +:+ DescribePeers ps +:+ "]" end) +:+
  (match kv_cast (state_machine_ n) with
   | Some m => ", kv=" +:+ DebugString m | None => "" end).
End views.

(** ** [KvServiceImpl] *)
Section service.
Context {SM E : Type} `{HostEnv E, IRaftStorage E, ISnapshotStorage E, PeerNet SM E,
  !IStateMachine SM E, KvCast SM}.
Implicit Types n : Node SM E.

(** [Put]. *)
Definition Put (request : PutRequest) n : WriteResponse * Node SM E :=
  let start := steady_now (env_ n) in
  let limits := kv_limits (config_ n) in
  let invalid := match ValidateKeyUnlocked limits (put_key request) with
                 | Some reason => Some reason
                 | None => ValidateValueUnlocked limits (put_value request)
                 end in
  match invalid with
  | Some reason =>
      (InvalidWriteResponse (GetStatusSnapshot n) reason, RecordLatencySince kKvPut false start n)
  | None =>
      let '(result, n) := Propose (mkCommand kSet (put_key request) (put_value request)) n in
      (FillCommonWriteResponse (GetStatusSnapshot n) result,
       RecordLatencySince kKvPut (ProposeResult_Ok result) start n)
  end.

(** [Delete]; [Command::value] is default constructed. *)
Definition Delete (request : DeleteRequest) n : WriteResponse * Node SM E :=
  let start := steady_now (env_ n) in
  match ValidateKeyUnlocked (kv_limits (config_ n)) (del_key request) with
  | Some reason =>
      (InvalidWriteResponse (GetStatusSnapshot n) reason,
       RecordLatencySince kKvDelete false start n)
  | None =>
      let '(result, n) := Propose (mkCommand kDelete (del_key request) "") n in
      (FillCommonWriteResponse (GetStatusSnapshot n) result,
       RecordLatencySince kKvDelete (ProposeResult_Ok result) start n)
  end.

(** [Get]. *)
Definition KvGet (request : GetRequest) n : GetResponse * Node SM E :=
  let start := steady_now (env_ n) in
  let status := GetStatusSnapshot n in
  let response := mkGetResponse KV_STATUS_CODE_UNSPECIFIED "" (ns_leader_id status)
                    (ns_leader_address status) (ns_term status) false "" in
  match ValidateKeyUnlocked (kv_limits (config_ n)) (get_key request) with
  | Some reason =>
      (response <| gr_code := KV_STATUS_CODE_INVALID_ARGUMENT |> <| gr_message := reason |>,
       RecordLatencySince kKvGet false start n)
  | None =>
      if decide (ns_role status ≠ "Leader") then
        (response <| gr_code := KV_STATUS_CODE_NOT_LEADER |>
                  <| gr_message := "node is not the leader" |>,
         RecordLatencySince kKvGet false start n)
      else
        match DebugGetValue (get_key request) n with
        | None =>
            (response <| gr_code := KV_STATUS_CODE_KEY_NOT_FOUND |>
                      <| gr_message := "key not found" |> <| gr_found := false |>,
             RecordLatencySince kKvGet false start n)
        | Some v =>
            (response <| gr_code := KV_STATUS_CODE_OK |> <| gr_message := "ok" |>
                      <| gr_found := true |> <| gr_value := v |>,
             RecordLatencySince kKvGet true start n)
        end
  end.

(** [Status]. *)
Definition Status n : StatusResponse * Node SM E :=
  let start := steady_now (env_ n) in
  let status := GetStatusSnapshot n in
  (mkStatusResponse (ns_node_id status) (ns_address status) (ns_role status) (ns_term status)
     (ns_leader_id status) (ns_leader_address status) (ns_commit_index status)
     (ns_last_applied status) (ns_last_log_index status) (ns_snapshot_index status)
     (ns_peers status) (FillMetricsSnapshot (GetMetricsSnapshot n) default_MetricsSnapshot),
   RecordLatencySince kKvStatus true start n).

(** [Health]. *)
Definition Health n : HealthResponse * Node SM E :=
  let start := steady_now (env_ n) in
  let status := GetStatusSnapshot n in
  (mkHealthResponse (running_ n) (if running_ n then "ok" else "stopping") (ns_node_id status)
     (ns_role status) (ns_term status) (ns_leader_id status),
   RecordLatencySince kKvHealth (running_ n) start n).

(** [Metrics]. *)
Definition MetricsRpc n : MetricsResponse * Node SM E :=
  let start := steady_now (env_ n) in
  let status := GetStatusSnapshot n in
  (mkMetricsResponse (ns_node_id status) (ns_role status) (ns_term status) (ns_leader_id status)
     (ns_leader_address status)
     (FillMetricsSnapshot (GetMetricsSnapshot n) default_MetricsSnapshot),
   RecordLatencySince kKvMetrics true start n).

(** ** [RaftServiceImpl]: the node's handlers, timed. *)
Definition ServeRequestVote (request : VoteRequest) n : VoteResponse * Node SM E :=
  let start := steady_now (env_ n) in
  let '(response, n) := OnRequestVote request n in
  (response, RecordLatencySince kRequestVote true start n).
Definition ServeAppendEntries (request : AppendEntriesRequest) n :
    AppendEntriesResponse * Node SM E :=
  let start := steady_now (env_ n) in
  let '(response, n) := OnAppendEntries request n in
  (response, RecordLatencySince kAppendEntries true start n).
Definition ServeInstallSnapshot (request : InstallSnapshotRequest) n :
    InstallSnapshotResponse * Node SM E :=
  let start := steady_now (env_ n) in
  let '(response, n) := OnInstallSnapshot request n in
  (response, RecordLatencySince kInstallSnapshot true start n).
End service.

(** ** Reads after writes *)
Section single.
Context {E : Type} `{HostEnv E, IRaftStorage E, ISnapshotStorage E, PeerNet KvStateMachine E,
  !IStateMachine KvStateMachine E, !ReliableStorage E, !ApplyAtomic KvStateMachine E}.
Context (Hsm : ∀ i data (m : KvStateMachine), sm_Apply i data m = Apply i data m).
Implicit Types n : Node KvStateMachine E.

Lemma ValidateCommand_request limits cmd :
  ValidateCommandUnlocked limits cmd = None →
  ValidateKeyUnlocked limits (key cmd) = None ∧
  (type cmd = kSet → ValidateValueUnlocked limits (value cmd) = None).
Proof.
  unfold ValidateCommandUnlocked. destruct (negb (IsValid cmd)); [done|].
  destruct (ValidateKeyUnlocked limits (key cmd)); [done|]. intros Hv. split; [done|].
  intros Ht. rewrite decide_True in Hv by done. by destruct (ValidateValueUnlocked limits (value cmd)).
Qed.

(** What a leader answers to a valid read. *)
Lemma KvGet_leader k n :
  role_ (core n) = kLeader → ValidateKeyUnlocked (kv_limits (config_ n)) k = None →
  let r := (KvGet (mkGetRequest k) n).1 in
  (gr_code r, gr_found r, gr_value r) =
    match Get k (state_machine_ n) with
    | Some v => (KV_STATUS_CODE_OK, true, v)
    | None => (KV_STATUS_CODE_KEY_NOT_FOUND, false, "")
    end.
Proof.
  intros Hr Hk. cbv zeta. unfold KvGet. cbn [get_key]. rewrite Hk.
  rewrite decide_False by (unfold GetStatusSnapshot; cbn [ns_role]; rewrite Hr; by intros []).
  unfold DebugGetValue, kv_cast, kv_cast_self. by destruct (Get k (state_machine_ n)).
Qed.

(** ** A committed entry that cannot be applied *)

(** The next entry to apply is committed, and no state machine takes it. *)
Record wedged n : Prop := {
  wd_alone : alone n;
  wd_behind : last_applied_ (core n) < commit_index_ (core n);
  wd_entry : ∃ record, LogAtIndexLocked (core n) (last_applied_ (core n) + 1) = Some record ∧
    ∀ i m, Ok (Apply i (command record) m).1 = false }.

Lemma ApplyCommitted_refused n record :
  core_ok (core n) → last_applied_ (core n) < commit_index_ (core n) →
  LogAtIndexLocked (core n) (last_applied_ (core n) + 1) = Some record →
  (∀ i m, Ok (Apply i (command record) m).1 = false) →
  ∃ r, ApplyCommittedEntries n = (r, n) ∧ Ok r = false.
Proof.
  intros [Hlog Hsn Hac Hmax] Hlt Hrec Hno.
  unfold ApplyCommittedEntries, apply_fuel. cbn [ApplyLoop].
  unfold ApplyIteration, ApplyFetchLocked.
  rewrite (decide_False (P := last_applied_ (core n) < _)) by lia. cbv zeta.
  rewrite (decide_False (P := commit_index_ (core n) ≤ _)) by lia.
  pose proof (log_low _ Hlog). rewrite (u64_id (last_applied_ (core n) + 1)) by u64_lia.
  assert (Hhas : HasLogAtIndexLocked (core n) (last_applied_ (core n) + 1) = true)
    by (apply HasLog_LogAtIndex; [done|by rewrite Hrec]).
  rewrite Hhas, Hrec. cbn [negb].
  destruct (sm_Apply _ (command record) (state_machine_ n)) as [r sm] eqn:Hap.
  assert (Hr : Ok r = false) by (pose proof (Hno (last_applied_ (core n) + 1) (state_machine_ n)) as Hn;
    rewrite <- Hsm, Hap in Hn; exact Hn).
  rewrite (apply_failed _ _ _ _ _ Hap Hr), Hr. cbn [negb]. exists r. split; [|done].
  by destruct n.
Qed.

(** Every further proposal fails, and leaves the node as stuck as before. *)
Lemma wedged_propose n cmd r n' :
  wedged n → LastLogIndexLocked (core n) < u64_max → Propose cmd n = (r, n') →
  ProposeResult_Ok r = false ∧ wedged n' ∧ state_machine_ n' = state_machine_ n ∧
  last_applied_ (core n') = last_applied_ (core n) ∧
  LastLogIndexLocked (core n') ≤ LastLogIndexLocked (core n) + 1.
Proof.
  intros [Hal Hlt (record & Hrec & Hno)] Hmax Hrun.
  destruct (ValidateCommandUnlocked (kv_limits (config_ n)) cmd) as [reason|] eqn:Hval.
  - unfold Propose, ProposeLocked in Hrun.
    rewrite (al_running _ Hal), (al_leader _ Hal), Hval in Hrun. cbn [negb] in Hrun.
    rewrite decide_False in Hrun by (by intros []). injection Hrun as <- <-.
    split_and!; [done| |done|done|node_simpl; lia].
    split; [destruct Hal; by split|done|by exists record].
  - pose proof (al_core _ Hal) as Hok.
    destruct (Propose_commits n cmd Hal Hmax Hval) as (n2 & Hp & Hc2 & Hcfg & Hrun2 & Hm & Hok2).
    rewrite Hp in Hrun. pose proof (core_applied_commit _ Hok). pose proof (al_commit _ Hal).
    assert (Hla2 : last_applied_ (core n2) = last_applied_ (core n)) by (by rewrite Hc2).
    assert (Hci2 : commit_index_ (core n2) = LastLogIndexLocked (core n) + 1) by (by rewrite Hc2).
    assert (Hrec2 : LogAtIndexLocked (core n2) (last_applied_ (core n2) + 1) = Some record).
    { rewrite Hla2, Hc2, committed_lookup by (done || apply Hok). by rewrite decide_False by lia. }
    assert (Hlt2 : last_applied_ (core n2) < commit_index_ (core n2)) by lia.
    destruct (ApplyCommitted_refused n2 record Hok2 Hlt2 Hrec2 Hno) as (r2 & Hap & Hr2).
    rewrite Hap in Hrun. unfold proposal_outcome in Hrun. rewrite Hr2 in Hrun. cbn [negb] in Hrun.
    injection Hrun as <- <-. node_simpl.
    assert (Hlast : LastLogIndexLocked (core n2) = LastLogIndexLocked (core n) + 1).
    { rewrite Hc2. exact (proj2 (appended_core_ok (node_id (config_ n)) (Serialize cmd) _ Hok Hmax)). }
    split_and!; [done| |done|by rewrite Hc2|lia].
    split; [|done|by exists record]. destruct Hal. split; try done; node_simpl; try congruence.
    + by rewrite Hc2.
    + rewrite Hlast, Hc2. done.
Qed.

(** Proposals one after the other: the results. *)
Fixpoint propose_all (cmds : list Command) n : list ProposeResult * Node KvStateMachine E :=
  match cmds with
  | [] => ([], n)
  | cmd :: cmds =>
      let '(r, n) := Propose cmd n in
      let '(rs, n) := propose_all cmds n in (r :: rs, n)
  end.

Lemma wedged_propose_all cmds n rs n' :
  wedged n → LastLogIndexLocked (core n) + Z.of_nat (length cmds) ≤ u64_max →
  propose_all cmds n = (rs, n') →
  Forall (λ r, ProposeResult_Ok r = false) rs ∧ state_machine_ n' = state_machine_ n ∧
  last_applied_ (core n') = last_applied_ (core n).
Proof.
  revert n rs n'. induction cmds as [|cmd cmds IH]; intros n rs n' Hw Hmax Hrun.
  { injection Hrun as <- <-. done. }
  cbn [propose_all length] in *. destruct (Propose cmd n) as [r n1] eqn:Hp.
  destruct (propose_all cmds n1) as [rs1 n2] eqn:Hps. injection Hrun as <- <-.
  destruct (wedged_propose _ _ _ _ Hw ltac:(lia) Hp) as (Hr & Hw1 & Hm & Ha & Hl).
  destruct (IH n1 rs1 n2 Hw1 ltac:(lia) Hps) as (Hrs & Hm2 & Ha2).
  split_and!; [by constructor|congruence|congruence].
Qed.

(** A [SET] of the empty value wedges a healthy node. *)
Lemma Propose_empty_wedges n k :
  alone n → LastLogIndexLocked (core n) < u64_max →
  last_applied_ (core n) = LastLogIndexLocked (core n) →
  ValidateCommandUnlocked (kv_limits (config_ n)) (mkCommand kSet k "") = None →
  ∃ message n', Propose (mkCommand kSet k "") n =
      (mkProposeResult psApplyFailed (node_id (config_ n)) (current_term_ (core n))
         (LastLogIndexLocked (core n) + 1) message, n') ∧
    wedged n' ∧ state_machine_ n' = state_machine_ n ∧
    last_applied_ (core n') = last_applied_ (core n) ∧
    LastLogIndexLocked (core n') = LastLogIndexLocked (core n) + 1 ∧
    LogAtIndexLocked (core n') (LastLogIndexLocked (core n) + 1) =
      Some (mkLogRecord (LastLogIndexLocked (core n) + 1) (current_term_ (core n))
              (Serialize (mkCommand kSet k ""))) ∧
    commit_index_ (core n') = LastLogIndexLocked (core n) + 1.
Proof.
  intros Hal Hmax Hla Hval. pose proof (al_core _ Hal) as Hok.
  destruct (ValidateCommand_None _ _ Hval) as (_ & Hk & Hsep & _).
  destruct (Propose_commits n _ Hal Hmax Hval) as (n2 & Hp & Hc2 & Hcfg & Hrun2 & Hm & Hok2).
  assert (Hla2 : last_applied_ (core n2) = LastLogIndexLocked (core n)) by (by rewrite Hc2).
  set (record := mkLogRecord (LastLogIndexLocked (core n) + 1) (current_term_ (core n))
                   (Serialize (mkCommand kSet k ""))).
  assert (Hrec : LogAtIndexLocked (core n2) (last_applied_ (core n2) + 1) = Some record).
  { rewrite Hla2, Hc2, committed_lookup by (done || apply Hok). by rewrite decide_True. }
  assert (Hno : ∀ i m, Ok (Apply i (command record) m).1 = false)
    by (intros i m; unfold record; cbn [command]; by rewrite Apply_empty_value).
  assert (Hci2 : commit_index_ (core n2) = LastLogIndexLocked (core n) + 1) by (by rewrite Hc2).
  assert (Hlt2 : last_applied_ (core n2) < commit_index_ (core n2)) by lia.
  destruct (ApplyCommitted_refused n2 record Hok2 Hlt2 Hrec Hno) as (r2 & Hap & Hr2).
  assert (Hlast : LastLogIndexLocked (core n2) = LastLogIndexLocked (core n) + 1).
  { rewrite Hc2. exact (proj2 (appended_core_ok (node_id (config_ n))
      (Serialize (mkCommand kSet k "")) _ Hok Hmax)). }
  exists (ar_message r2). eexists. rewrite Hp, Hap. unfold proposal_outcome. rewrite Hr2. cbn [negb].
  split; [reflexivity|]. node_simpl. split_and!; [|done|congruence|done|by rewrite Hla2 in Hrec|done].
  split; [|done|by exists record]. destruct Hal. split; try done; node_simpl; try congruence.
  - by rewrite Hc2.
  - rewrite Hlast, Hc2. done.
Qed.

(** A healthy node stays one after a proposal. *)
Lemma alone_next n cmd n' :
  alone n → last_applied_ (core n) = LastLogIndexLocked (core n) →
  LastLogIndexLocked (core n) < u64_max →
  core n' = set_applied (LastLogIndexLocked (core n) + 1)
              (committed_core (node_id (config_ n)) (Serialize cmd) (core n)) →
  config_ n' = config_ n → running_ n' = true →
  alone n' ∧ LastLogIndexLocked (core n') = LastLogIndexLocked (core n) + 1 ∧
  last_applied_ (core n') = LastLogIndexLocked (core n) + 1.
Proof.
  intros Hal Hla Hmax Hc Hcfg Hrun. pose proof (al_core _ Hal) as Hok.
  destruct (appended_core_ok (node_id (config_ n)) (Serialize cmd) _ Hok Hmax) as [Hok1 Hlast].
  assert (Hl : LastLogIndexLocked (core n') = LastLogIndexLocked (core n) + 1)
    by (rewrite Hc; exact Hlast).
  split_and!; [|done|by rewrite Hc]. destruct Hal. split; try (done || congruence).
  - by rewrite Hc.
  - rewrite Hc. apply set_applied_core_ok; [apply (set_commit_core_ok _ _ Hok1)|].
    + change (commit_index_ (core n) ≤ LastLogIndexLocked (core n) + 1 ≤ u64_max). lia.
    + change (last_applied_ (core n) ≤ LastLogIndexLocked (core n) + 1 ≤
              LastLogIndexLocked (core n) + 1). lia.
  - by rewrite Hl, Hc.
Qed.

(** What a client reads: a view of the map, on a leader. *)
Definition read_result k n : KvStatusCode * bool * string :=
  let r := (KvGet (mkGetRequest k) n).1 in (gr_code r, gr_found r, gr_value r).

Lemma read_effect cmd k n n' :
  role_ (core n) = kLeader → role_ (core n') = kLeader → config_ n' = config_ n →
  state_machine_ n' = mkKv (kv_effect cmd (kv_ (state_machine_ n))) → type cmd ≠ kUnknown →
  ValidateKeyUnlocked (kv_limits (config_ n)) k = None →
  read_result k n' =
    if decide (k = key cmd)
    then if decide (type cmd = kSet) then (KV_STATUS_CODE_OK, true, value cmd)
         else (KV_STATUS_CODE_KEY_NOT_FOUND, false, "")
    else read_result k n.
Proof.
  intros Hr Hr' Hcfg Hm Ht Hk. unfold read_result.
  pose proof (KvGet_leader k n Hr Hk) as Hg1. pose proof (KvGet_leader k n' Hr') as Hg2.
  cbv zeta in Hg1, Hg2. rewrite Hg1, Hg2 by (by rewrite Hcfg). rewrite Hm. unfold Get, kv_effect. cbn [kv_].
  destruct cmd as [ty k0 v]. cbn [type key value] in *.
  destruct ty; [done| |]; case_decide; subst; cbn; by simplify_map_eq.
Qed.
End single.

(** C9: read your writes, end to end through the service.  On a healthy single
    node, a [Put] of a valid non-empty value answers OK with the next log index,
    and from then on a [Get] of that key answers OK with that value while every
    other key reads as before; a [Delete] of the key then answers OK with the index
    after that, the key reads as not found, and the other keys still as before. *)
Theorem Put_Get_Delete {E} `{HostEnv E, IRaftStorage E, ISnapshotStorage E,
    PeerNet KvStateMachine E, !IStateMachine KvStateMachine E, !ReliableStorage E,
    !ApplyAtomic KvStateMachine E} (n : Node KvStateMachine E) k v :
  (∀ i data (m : KvStateMachine), sm_Apply i data m = Apply i data m) →
  alone n → let last := LastLogIndexLocked (core n) in
  last_applied_ (core n) = last → last + 2 ≤ u64_max →
  ValidateCommandUnlocked (kv_limits (config_ n)) (mkCommand kSet k v) = None → v ≠ "" →
  ValidateCommandUnlocked (kv_limits (config_ n)) (mkCommand kDelete k "") = None →
  ∃ put n1 del n2,
    Put (mkPutRequest k v) n = (put, n1) ∧ Delete (mkDeleteRequest k) n1 = (del, n2) ∧
    (wr_code put, wr_log_index put) = (KV_STATUS_CODE_OK, last + 1) ∧
    (wr_code del, wr_log_index del) = (KV_STATUS_CODE_OK, last + 2) ∧
    ∀ k', ValidateKeyUnlocked (kv_limits (config_ n)) k' = None →
      read_result k' n1 = (if decide (k' = k) then (KV_STATUS_CODE_OK, true, v)
                           else read_result k' n) ∧
      read_result k' n2 = (if decide (k' = k) then (KV_STATUS_CODE_KEY_NOT_FOUND, false, "")
                           else read_result k' n).
Proof.
  intros Hsm Hal last Hla Hmax Hset Hv Hdel.
  destruct (ValidateCommand_request _ _ Hset) as [Hkey Hval].
  cbn [key value type] in Hkey, Hval. specialize (Hval eq_refl).
  destruct (Propose_single_spec n _ Hsm Hal Hla ltac:(lia) Hset (λ _, Hv))
    as (m1 & Hp1 & Hc1 & Hm1 & Hcfg1 & Hrun1).
  destruct (alone_next n _ m1 Hal Hla ltac:(lia) Hc1 Hcfg1 Hrun1) as (Hal1 & Hl1 & Ha1).
  pose (n1 := RecordLatencySince kKvPut true (steady_now (env_ n)) m1).
  assert (Hal1' : alone n1) by (destruct Hal1; by split).
  assert (Hl1' : LastLogIndexLocked (core n1) = last + 1) by exact Hl1.
  assert (Ha1' : last_applied_ (core n1) = last + 1) by exact Ha1.
  assert (Hcfg1' : config_ n1 = config_ n) by exact Hcfg1.
  assert (Hmax1 : LastLogIndexLocked (core n1) < u64_max) by lia.
  assert (Hla1 : last_applied_ (core n1) = LastLogIndexLocked (core n1)) by congruence.
  destruct (Propose_single_spec n1 (mkCommand kDelete k "") Hsm Hal1') as (m2 & Hp2 & Hc2 & Hm2 & Hcfg2 & Hrun2);
    [done|done|by rewrite Hcfg1'|done|].
  destruct (alone_next n1 _ m2 Hal1' Hla1 Hmax1 Hc2 Hcfg2 Hrun2)
    as (Hal2 & Hl2 & _).
  exists (FillCommonWriteResponse (GetStatusSnapshot m1) (Propose (mkCommand kSet k v) n).1), n1.
  exists (FillCommonWriteResponse (GetStatusSnapshot m2) (Propose (mkCommand kDelete k "") n1).1),
    (RecordLatencySince kKvDelete true (steady_now (env_ n1)) m2).
  unfold Put, Delete. cbn [put_key put_value del_key]. rewrite Hkey, Hval, Hp1.
  fold n1. rewrite Hcfg1', Hkey, Hp2.
  split; [done|]. split; [done|]. split; [done|].
  split; [rewrite Hl1'; change ((KV_STATUS_CODE_OK, last + 1 + 1) = (KV_STATUS_CODE_OK, last + 2));
          f_equal; lia|].
  intros k' Hk'.
  assert (Hr1 : read_result k' n1 = if decide (k' = k) then (KV_STATUS_CODE_OK, true, v)
                                    else read_result k' n).
  { exact (read_effect (mkCommand kSet k v) k' n n1 (al_leader _ Hal) (al_leader _ Hal1') Hcfg1 Hm1
             ltac:(done) Hk'). }
  split; [exact Hr1|].
  etrans; [exact (read_effect (mkCommand kDelete k "") k' n1
             (RecordLatencySince kKvDelete true (steady_now (env_ n1)) m2) (al_leader _ Hal1')
             (al_leader _ Hal2) Hcfg2 Hm2 ltac:(done) ltac:(by rewrite Hcfg1'))|].
  cbn [key type]. destruct (decide (k' = k)); [done|exact Hr1].
Qed.

(** C36: the empty value wedges a single-node store for good.  A healthy single
    node that is asked to [Put] an empty value accepts the request, appends and
    commits it, and answers INTERNAL_ERROR; from then on every sequence of further
    proposals fails, one after the other, and none of them changes the map or
    [last_applied], as long as log indices last. *)
Theorem Put_empty_value_wedges {E} `{HostEnv E, IRaftStorage E, ISnapshotStorage E,
    PeerNet KvStateMachine E, !IStateMachine KvStateMachine E, !ReliableStorage E,
    !ApplyAtomic KvStateMachine E} (n : Node KvStateMachine E) k cmds :
  (∀ i data (m : KvStateMachine), sm_Apply i data m = Apply i data m) →
  alone n → let last := LastLogIndexLocked (core n) in
  last_applied_ (core n) = last → last + 1 + Z.of_nat (length cmds) ≤ u64_max →
  ValidateCommandUnlocked (kv_limits (config_ n)) (mkCommand kSet k "") = None →
  let '(put, n1) := Put (mkPutRequest k "") n in
  let '(results, n2) := propose_all cmds n1 in
  wr_code put = KV_STATUS_CODE_INTERNAL_ERROR ∧ wr_log_index put = last + 1 ∧
  LogAtIndexLocked (core n1) (last + 1) =
    Some (mkLogRecord (last + 1) (current_term_ (core n)) (Serialize (mkCommand kSet k ""))) ∧
  commit_index_ (core n1) = last + 1 ∧
  Forall (λ r, ProposeResult_Ok r = false) results ∧
  state_machine_ n2 = state_machine_ n ∧ last_applied_ (core n2) = last.
Proof.
  intros Hsm Hal last Hla Hmax Hset.
  destruct (ValidateCommand_request _ _ Hset) as [Hkey Hval].
  cbn [key value type] in Hkey, Hval. specialize (Hval eq_refl).
  destruct (Propose_empty_wedges Hsm n k Hal ltac:(lia) Hla Hset)
    as (message & m1 & Hp & Hw & Hm & Ha & Hl & Hlog & Hci).
  unfold Put. cbn [put_key put_value]. rewrite Hkey, Hval, Hp.
  set (n1 := RecordLatencySince _ _ _ m1).
  assert (Hw1 : wedged n1) by (destruct Hw as [[] ? ?]; by split).
  destruct (propose_all cmds n1) as [results n2] eqn:Hps.
  assert (Hl1 : LastLogIndexLocked (core n1) = last + 1) by exact Hl.
  destruct (wedged_propose_all Hsm cmds n1 results n2 Hw1 ltac:(lia) Hps) as (Hrs & Hm2 & Ha2).
  split; [done|]. split; [done|]. split; [exact Hlog|]. split; [exact Hci|]. split; [exact Hrs|].
  split; [by rewrite Hm2|]. rewrite Ha2. etrans; [exact Ha|exact Hla].
Qed.

(** A healthy single node on a disk that takes its writes. *)
#[local] Existing Instance reliable_sim.
#[local] Existing Instance reliable_sim_ok.
#[local] Existing Instance silent_net.
Definition sim_alone : Node KvStateMachine SimEnv :=
  mkNode (mkNodeConfig 1 "a" [] 150 300 50 100 [] default_kv_limits)
    default_snapshotConfig (bootstrap_core <| role_ := kLeader |> <| current_term_ := 1 |>)
    (mkNodeTimers TimerScheduler_new None 0 None None) (mkSnapshotWork false false false 0 0)
    Metrics_new ∅ true (mkKv ∅) sim_init.

Lemma sim_alone_ok : alone sim_alone.
Proof.
  split; [done..| |done]. split; [split; [by eexists| |done|done]|done..].
  intros i r Hi. destruct i; [by simplify_eq/=|done].
Qed.

Lemma sim_Apply i data (m : KvStateMachine) : sm_Apply (E := SimEnv) i data m = Apply i data m.
Proof. done. Qed.

Lemma Put_Get_Delete_witness :
  let n1 := (Put (mkPutRequest "k" "v") sim_alone).2 in
  let n2 := (Delete (mkDeleteRequest "k") n1).2 in
  read_result "k" n1 = (KV_STATUS_CODE_OK, true, "v") ∧
  read_result "k" n2 = (KV_STATUS_CODE_KEY_NOT_FOUND, false, "").
Proof.
  destruct (Put_Get_Delete sim_alone "k" "v" sim_Apply sim_alone_ok eq_refl
              ltac:(vm_compute; congruence) ltac:(vm_compute; reflexivity) ltac:(discriminate)
              ltac:(vm_compute; reflexivity)) as (p & n1 & d & n2 & Hp & Hd & _ & _ & Hread).
  cbv zeta. rewrite Hp. cbn [snd]. rewrite Hd. cbn [snd].
  destruct (Hread "k" ltac:(vm_compute; reflexivity)) as [-> ->]. split; reflexivity.
Defined.

Lemma Put_empty_value_wedges_witness :
  let '(put, n1) := Put (mkPutRequest "k" "") sim_alone in
  let '(results, n2) := propose_all [mkCommand kSet "k" "v"; mkCommand kDelete "k" ""] n1 in
  wr_code put = KV_STATUS_CODE_INTERNAL_ERROR ∧
  Forall (λ r, ProposeResult_Ok r = false) results ∧ kv_ (state_machine_ n2) = ∅.
Proof.
  pose proof (Put_empty_value_wedges sim_alone "k"
                [mkCommand kSet "k" "v"; mkCommand kDelete "k" ""] sim_Apply
                sim_alone_ok eq_refl ltac:(vm_compute; congruence) ltac:(vm_compute; reflexivity)) as Hw.
  destruct (Put (mkPutRequest "k" "") sim_alone) as [p n1].
  destruct (propose_all _ n1) as [rs n2]. destruct Hw as (Hc & _ & _ & _ & Hrs & Hm & _).
  split; [exact Hc|]. split; [exact Hrs|]. rewrite Hm. reflexivity.
Defined.
