(* ===== verification/Votes.v ===== *)
(** Votes and disks: what every operation of a node leaves of the votes it has
    cast.  A vote is durable when the hard state in memory and the one on disk are
    both at or after it in the order of Election; [quiet] says of an operation
    that it loses no durable vote and makes no leader.  Every operation of the
    node but the casting of votes and [OnElectionWon] is quiet. *)
From S2P Require Import Prelude Command Types Timer Metrics Env Sim Node SimNode.
From S2P Require Import NodeLog Election AppendEntries StateMachine Commit.
From S2P Require Import Replicator Propose SnapshotNode Steady.

(** ** Durable votes *)
Section durable.
Context {E : Type} `{IRaftStorage E}.

(** The (term, vote) pair on disk. *)
Definition disk_hs (e : E) : option hard_state :=
  (λ st, (ps_current_term st, ps_voted_for st)) <$> disk_state e.
Definition on_disk (v : hard_state) (e : E) : Prop :=
  ∃ h, disk_hs e = Some h ∧ hs_le v h.

Lemma on_disk_same v e e' : disk_state e' = disk_state e → on_disk v e → on_disk v e'.
Proof. unfold on_disk, disk_hs. by intros ->. Qed.
End durable.

(** The files the node writes itself, and the snapshot files, are not those of
    the raft storage; loading changes nothing of what the next load returns. *)
Class DiskFrames (SM E : Type) `{HostEnv E, IRaftStorage E, ISnapshotStorage E, IStateMachine SM E} :
    Prop := {
  disk_create_directories : ∀ p (e : E), disk_state (create_directories p e).2 = disk_state e;
  disk_write_identity : ∀ dir d (e : E),
    disk_state (write_file (dir ++ [kIdentityFileName]) d e).2 = disk_state e;
  disk_write_install : ∀ (n : Node SM E) d (e : E),
    disk_state (write_file (install_temp_path n) d e).2 = disk_state e;
  disk_remove_install : ∀ (n : Node SM E) (e : E),
    disk_state (remove_file (install_temp_path n) e) = disk_state e;
  disk_sm_save : ∀ p (m : SM) (e : E), disk_state (sm_SaveSnapshot p m e).2 = disk_state e;
  disk_snapshot_save : ∀ p i t (e : E),
    disk_state (snapshot_SaveSnapshotFile p i t e).2 = disk_state e;
  disk_prune : ∀ k (e : E), disk_state (snapshot_PruneSnapshots k e).2 = disk_state e;
  disk_load : ∀ e : E, disk_state (storage_Load e).2 = disk_state e }.

(** ** Quiet operations *)
Section quiet.
Context {SM E : Type} `{HostEnv E, IRaftStorage E}.
Context (recovered : PersistentRaftState → PersistentRaftState) `{!StorageLaws E recovered}.
Implicit Types n : Node SM E.

Definition durable (v : hard_state) n : Prop := hs_le v (hs_of (core n)) ∧ on_disk v (env_ n).

Record quiet n n' : Prop := {
  q_config : config_ n' = config_ n;
  q_hs : hs_le (hs_of (core n)) (hs_of (core n'));
  q_disk : ∀ v, durable v n → on_disk v (env_ n');
  q_leader : role_ (core n') = kLeader →
    role_ (core n) = kLeader ∧ current_term_ (core n') = current_term_ (core n) }.

#[export] Instance quiet_preorder : PreOrder quiet.
Proof.
  split; [by intros n; split; [|done|by intros v []|]|].
  intros n1 n2 n3 [] []. split; [congruence|by etrans|unfold durable in *; intros v []|naive_solver congruence].
  assert (hs_le v (hs_of (core n2))) by (by etrans). auto.
Qed.

Lemma quiet_durable n n' v : quiet n n' → durable v n → durable v n'.
Proof. intros [_ Hhs Hd _] Hv. split; [|by apply Hd]. destruct Hv. by etrans. Qed.

(** Nothing of the hard state, the role or the disk changed. *)
Lemma quiet_same n n' :
  config_ n' = config_ n → hs_of (core n') = hs_of (core n) → role_ (core n') = role_ (core n) →
  disk_state (env_ n') = disk_state (env_ n) → quiet n n'.
Proof.
  unfold hs_of. intros Hc [= Ht Hv] Hr Hd.
  split; [done|unfold hs_of; by rewrite Ht, Hv|intros v []; by eapply on_disk_same|].
  by rewrite Hr, Ht.
Qed.

(** A step of the hard state forward, to a role other than leader. *)
Lemma quiet_forward n n' :
  config_ n' = config_ n → hs_le (hs_of (core n)) (hs_of (core n')) → role_ (core n') ≠ kLeader →
  disk_state (env_ n') = disk_state (env_ n) → quiet n n'.
Proof. intros Hc Hhs Hr Hd. split; [done..|intros v []; by eapply on_disk_same|done]. Qed.

Lemma disk_hs_recovered c (e : E) :
  disk_state e = Some (recovered (persistent_state c)) → disk_hs e = Some (hs_of c).
Proof.
  unfold disk_hs. intros ->. cbn.
  by destruct (recovered_hard (recovered := recovered) (persistent_state c)) as [-> ->].
Qed.

Lemma persist_on_disk v n :
  hs_le v (hs_of (core n)) → on_disk v (env_ n) → on_disk v (env_ (PersistStateLocked n).2).
Proof.
  intros Hv Hd. destruct (PersistStateLocked n) as [[ok err] n'] eqn:Hp.
  assert (Hnew : disk_state (env_ n') = Some (recovered (persistent_state (core n))) →
                 on_disk v (env_ n')).
  { intros Hs. eexists. split; [by apply disk_hs_recovered|done]. }
  destruct ok.
  - by apply Hnew, (PersistStateLocked_disk recovered n err).
  - destruct (PersistStateLocked_disk_fail recovered _ _ _ Hp) as [Hs|Hs]; [|by apply Hnew].
    by eapply on_disk_same.
Qed.

Lemma quiet_persist n : quiet n (PersistStateLocked n).2.
Proof.
  destruct (PersistStateLocked_frame n) as [Hc _ Hk _ _ _ _].
  split; [done|by rewrite Hk|intros v []; by apply persist_on_disk|by rewrite Hk].
Qed.

Lemma quiet_steady n n' : steady recovered n n' → quiet n n'.
Proof.
  intros [Hc _ _ Hh Hr Hd]. split; [done..|intros v [Hv Hon]|destruct Hr as [Hr|(Hr & Ht & _)]; rewrite Hr; done].
  destruct Hd as [Hd|(c & _ & Hc' & Hd)]; [by eapply on_disk_same|].
  eexists. split; [by apply disk_hs_recovered|by etrans].
Qed.

(** Replace a helper call by what is known of it. *)
Ltac quiet_persist_call :=
  match goal with
  | |- context [PersistStateLocked ?m] =>
      let Hq := fresh "Hq" in pose proof (quiet_persist m) as Hq;
      destruct (PersistStateLocked m) as [[[] ?] ?]; cbn [fst snd negb] in *
  end.
(** The part between two calls changes neither the hard state nor the disk. *)
Ltac quiet_step := first [done | apply quiet_same; node_simpl; done].
Ltac quiet_trans Hq := etrans; [|etrans; [exact Hq|]]; quiet_step.

Lemma quiet_FinishAppendEntries request changed old m response n :
  quiet n (FinishAppendEntries request changed old m response n).2.
Proof.
  unfold FinishAppendEntries. cbv zeta.
  assert (Hp : quiet n (if changed then PersistStateLocked n else ((true, ""), n)).2)
    by (destruct changed; [apply quiet_persist|done]).
  destruct (if changed then _ else _) as [[[] ?] n1]; cbn [fst snd negb] in *.
  - case_decide; [|done]. case_decide; [|done]. etrans; [exact Hp|].
    quiet_persist_call; quiet_trans Hq.
  - etrans; [exact Hp|]. by destruct old; apply quiet_same.
Qed.

Lemma quiet_OnAppendEntries request n : quiet n (OnAppendEntriesLocked request n).2.
Proof.
  unfold OnAppendEntriesLocked. cbv zeta. case_decide; [done|].
  pose proof (quiet_steady _ _ (steady_FollowLeader recovered request n ltac:(lia))) as Hq.
  destruct (FollowLeaderLocked request n) as [[] n1]; cbn [fst snd negb] in *; [|done].
  case_decide; [done|]. case_match; [done|]. case_decide; [done|].
  pose proof (AppendLoop_log_only (areq_entries request) (core n1) false None
                (areq_prev_log_index request)) as Hloop.
  destruct (AppendEntriesLoop _ _ _ _ _); destruct Hloop as [l ->].
  - etrans; [exact Hq|]. by apply quiet_same.
  - etrans; [exact Hq|]. etrans; [|apply quiet_FinishAppendEntries]. by apply quiet_same.
Qed.

Lemma quiet_AdvanceCommit n : quiet n (AdvanceCommitIndexUnlocked n).
Proof.
  unfold AdvanceCommitIndexUnlocked. case_decide; [done|]. case_decide; [done|].
  case_match; [|done]. etrans; [|apply quiet_persist]. by apply quiet_same.
Qed.

Lemma quiet_ApplyDone i n : quiet n (ApplyDoneLocked i n).2.
Proof.
  unfold ApplyDoneLocked. case_decide; [|apply quiet_steady, (steady_MaybeSchedule recovered)].
  quiet_persist_call; (etrans; [|etrans; [exact Hq|]]); try quiet_step. apply quiet_steady, (steady_MaybeSchedule recovered).
Qed.

Lemma quiet_Handle peer_id t target response n :
  quiet n (HandleAppendEntriesResponse peer_id t target response n).2.
Proof.
  unfold HandleAppendEntriesResponse. case_match; [done|]. case_decide.
  { apply quiet_steady, (steady_BecomeFollower recovered). lia. }
  case_match; [done|]. case_match; cbn [snd]; [|quiet_step].
  etrans; [|apply quiet_AdvanceCommit]. by apply quiet_same.
Qed.

Lemma quiet_HandleInstall peer_id t i response n :
  quiet n (HandleInstallSnapshotResponse peer_id t i response n).2.
Proof.
  unfold HandleInstallSnapshotResponse. case_decide.
  { apply quiet_steady, (steady_BecomeFollower recovered). lia. }
  case_match; [done|]. case_match; quiet_step.
Qed.

Lemma quiet_AppendLocalLog data n : quiet n (AppendLocalLogUnlocked data n).2.
Proof. unfold AppendLocalLogUnlocked. cbv zeta. quiet_persist_call; quiet_trans Hq. Qed.

Lemma quiet_ProposeLocked cmd n : quiet n (ProposeLocked cmd n).2.
Proof.
  unfold ProposeLocked. cbv zeta. case_match; [quiet_step|]. case_decide; [quiet_step|].
  case_match; [quiet_step|]. case_decide; [quiet_step|].
  match goal with |- context [AppendLocalLogUnlocked ?d ?m] =>
    pose proof (quiet_AppendLocalLog d m) as Hq; destruct (AppendLocalLogUnlocked d m) as [i n1] end.
  cbn [snd] in Hq. case_decide; (etrans; [exact Hq|quiet_step]).
Qed.

Lemma quiet_ApplyIteration `{!IStateMachine SM E} n : quiet n (ApplyIteration n).2.
Proof.
  unfold ApplyIteration.
  assert (Hf : quiet n (ApplyFetchLocked n).2).
  { unfold ApplyFetchLocked. cbv zeta.
    match goal with |- quiet n (if _ then (_, ?m) else _).2 =>
      assert (quiet n m) by (case_decide; quiet_step) end.
    repeat case_match; done. }
  destruct (ApplyFetchLocked n) as [[r|[i data]] n1]; cbn [snd] in *; [done|].
  destruct (sm_Apply i data (state_machine_ n1)) as [r sm]. case_match; cbn [snd].
  - etrans; [exact Hf|quiet_step].
  - etrans; [exact Hf|]. etrans; [|apply quiet_ApplyDone]. quiet_step.
Qed.

Lemma quiet_ApplyLoop `{!IStateMachine SM E} fuel n : quiet n (ApplyLoop fuel n).2.
Proof.
  revert n. induction fuel as [|fuel IH]; intros n; [done|]. cbn [ApplyLoop].
  pose proof (quiet_ApplyIteration n) as Hq. destruct (ApplyIteration n) as [[r|] n1]; [done|].
  etrans; [exact Hq|apply IH].
Qed.

Lemma quiet_ApplyCommitted `{!IStateMachine SM E} n : quiet n (ApplyCommittedEntries n).2.
Proof.
  unfold ApplyCommittedEntries. pose proof (quiet_ApplyLoop (apply_fuel n) n) as Hq.
  by destruct (ApplyLoop _ _) as [[] ?].
Qed.
End quiet.

(** ** Operations that touch the snapshot files *)
Section files.
Context {SM E : Type} `{HostEnv E, IRaftStorage E, ISnapshotStorage E, !IStateMachine SM E}.
Context (recovered : PersistentRaftState → PersistentRaftState) `{!StorageLaws E recovered}.
Context `{!DiskFrames SM E}.
Implicit Types n : Node SM E.

Lemma quiet_env n e : disk_state e = disk_state (env_ n) → quiet n (n <| env_ := e |>).
Proof. intros He. by apply quiet_same. Qed.

Lemma restore_hs i t keep c :
  hs_of (RestoreLogAfterSnapshotLocked i t keep c) = hs_of c ∧
  role_ (RestoreLogAfterSnapshotLocked i t keep c) = role_ c.
Proof.
  unfold RestoreLogAfterSnapshotLocked. cbv zeta. case_match; [done|].
  repeat case_decide; done.
Qed.

Lemma quiet_compact i t n :
  quiet n (n <| core ::= CompactLogPrefixLocked i t |>).
Proof. destruct (restore_hs i t true (core n)). by apply quiet_same. Qed.

Lemma quiet_InstallCheck request response n :
  quiet n (InstallCheckLocked request response n).2.
Proof.
  unfold InstallCheckLocked. cbv zeta. case_decide; [done|].
  set (req := mkAppendEntriesRequest (ireq_term request) (ireq_leader_id request) 0 0 [] 0).
  match goal with |- context [let '(_, _) := ?f in _] =>
    change f with (FollowLeaderLocked req n) end.
  pose proof (quiet_steady recovered _ _ (steady_FollowLeader recovered req n ltac:(cbn; lia))) as Hq.
  destruct (FollowLeaderLocked req n) as [[] n1]; cbn [snd negb] in *; [|done].
  by case_decide.
Qed.

Lemma quiet_InstallLoad request saved response n :
  quiet n (InstallLoadLocked request saved response n).2.
Proof.
  unfold InstallLoadLocked. destruct (sm_LoadSnapshot _ _ _) as [r sm].
  case_match; [by apply quiet_same|]. case_decide; [by apply quiet_same|]. cbv zeta.
  match goal with |- context [PersistStateLocked ?m] =>
    assert (Hm : quiet n m);
    [|pose proof (quiet_persist recovered m) as Hq; destruct (PersistStateLocked m) as [[[] ?] n1]] end.
  - destruct (restore_hs (ireq_last_included_index request)
                (ireq_last_included_term request) true (core n)). by apply quiet_same.
  - by etrans.
  - by etrans.
Qed.

Lemma quiet_OnInstallSnapshot request n : quiet n (OnInstallSnapshot request n).2.
Proof.
  unfold OnInstallSnapshot. cbv zeta. case_match; [done|].
  match goal with |- context [InstallCheckLocked ?r ?resp n] =>
    pose proof (quiet_InstallCheck r resp n) as Hq;
    destruct (InstallCheckLocked r resp n) as [[[] ?] n1] end; cbn [snd] in *; [done|].
  pose proof (disk_create_directories (cfg_snapshot_dir (snapshot_config_ n1)) (env_ n1)) as Hd1.
  destruct (create_directories _ (env_ n1)) as [failed e1]. cbn [snd] in Hd1.
  assert (Hq1 : quiet n (n1 <| env_ := e1 |>)) by (etrans; [exact Hq|by apply quiet_env]).
  case_match; [done|]. set (n2 := n1 <| env_ := e1 |>) in *.
  pose proof (disk_write_install n2 (ireq_snapshot_data request) (env_ n2)) as Hd2.
  destruct (write_file _ _ (env_ n2)) as [[opened written] e2]. cbn [snd] in Hd2.
  assert (Hq2 : quiet n (n2 <| env_ := e2 |>)) by (etrans; [exact Hq1|by apply quiet_env]).
  case_match; [done|]. case_match; [done|]. set (n3 := n2 <| env_ := e2 |>) in *.
  pose proof (disk_snapshot_save (SM := SM) (install_temp_path n2) (ireq_last_included_index request)
                (ireq_last_included_term request) (env_ n3)) as Hd3.
  destruct (snapshot_SaveSnapshotFile _ _ _ (env_ n3)) as [[saved ?] e3]. cbn [snd] in Hd3.
  assert (Hq3 : quiet n (n3 <| env_ := e3 |>)) by (etrans; [exact Hq2|by apply quiet_env]).
  set (n4 := n3 <| env_ := e3 |>) in *. destruct saved as [meta|].
  - match goal with |- context [InstallLoadLocked ?r ?p ?resp n4] =>
      pose proof (quiet_InstallLoad r p resp n4) as Hq4;
      destruct (InstallLoadLocked r p resp n4) as [resp' n5] end. cbn [snd] in Hq4.
    assert (Hq5 : quiet n n5) by (by etrans).
    case_match; [|done]. etrans; [exact Hq5|]. apply quiet_same; try done.
    node_simpl. apply (disk_prune (SM := SM)).
  - etrans; [exact Hq3|]. apply quiet_same; try done. node_simpl.
    change (install_temp_path n2) with (install_temp_path n4). apply disk_remove_install.
Qed.

Lemma quiet_SnapshotWorkerTurn n : quiet n (SnapshotWorkerTurn n).2.
Proof.
  unfold SnapshotWorkerTurn. case_match; [done|].
  set (n1 := set_field snapw _ n). assert (Hq1 : quiet n n1) by (by apply quiet_same).
  unfold WorkerSave. cbv zeta.
  pose proof (disk_sm_save (worker_temp_path n1) (state_machine_ n1) (env_ n1)) as Hd1.
  destruct (sm_SaveSnapshot _ _ (env_ n1)) as [r e1]. cbn [snd] in *.
  set (n2 := n1 <| env_ := e1 |>).
  assert (Hq2 : quiet n n2) by (etrans; [exact Hq1|by apply quiet_env]).
  etrans; [|apply (quiet_steady recovered), (steady_MaybeSchedule recovered false)].
  match goal with |- quiet n (set_field snapw _ ?m) => etrans; [|by apply (quiet_same m)] end.
  case_match; [etrans; [exact Hq2|by apply quiet_same]|].
  match goal with |- context [snapshot_SaveSnapshotFile ?p ?i ?t (env_ n2)] =>
    pose proof (disk_snapshot_save (SM := SM) p i t (env_ n2)) as Hd2;
    destruct (snapshot_SaveSnapshotFile p i t (env_ n2)) as [[saved ?] e2] end. cbn [snd] in Hd2.
  set (n3 := n2 <| env_ := e2 |>).
  assert (Hq3 : quiet n n3) by (etrans; [exact Hq2|by apply quiet_env]).
  destruct saved; [|etrans; [exact Hq3|by apply quiet_same]].
  match goal with |- context [WorkerCompactLocked ?i ?t n3] =>
    assert (Hq4 : quiet n (WorkerCompactLocked i t n3)) end.
  { unfold WorkerCompactLocked. case_decide; [|done]. etrans; [exact Hq3|].
    etrans; [|apply (quiet_persist recovered)]. apply quiet_compact. }
  etrans; [exact Hq4|]. apply quiet_same; try done. node_simpl. apply (disk_prune (SM := SM)).
Qed.

(** ** Restart *)

Lemma ValidateNodeIdentity_disk config (e : E) :
  disk_state (ValidateNodeIdentity config e).2 = disk_state e.
Proof.
  unfold ValidateNodeIdentity.
  pose proof (disk_create_directories (SM := SM) (data_dir config) e) as Hd1.
  destruct (create_directories _ e) as [[] e1]; cbn [snd] in *; [done|].
  case_match; [by repeat case_match|]. cbv zeta.
  match goal with |- context [write_file (_ ++ _) ?d e1] =>
    pose proof (disk_write_identity (SM := SM) (data_dir config) d e1) as Hd2;
    destruct (write_file _ d e1) as [[opened written] e2] end. cbn [snd] in Hd2.
  rewrite <- Hd1, <- Hd2. by repeat case_match.
Qed.

Lemma recovered_core_hs st :
  hs_of (recovered_core (Some st)) = (ps_current_term st, ps_voted_for st) ∧
  role_ (recovered_core (Some st)) = kFollower.
Proof. unfold recovered_core. by case_decide. Qed.

Lemma recovered_core_role st : role_ (recovered_core st) = kFollower.
Proof. destruct st; [apply recovered_core_hs|done]. Qed.

Lemma quiet_LoadFirstSnapshot l n : quiet n (LoadFirstSnapshot l n).2.
Proof.
  revert n. induction l as [|meta l IH]; intros n; [done|]. cbn [LoadFirstSnapshot].
  destruct (sm_LoadSnapshot _ _ _) as [r sm].
  case_match; [etrans; [|apply IH]; by apply quiet_same|]. cbv zeta.
  match goal with |- context [PersistStateLocked ?m] =>
    assert (Hm : quiet n m);
    [|pose proof (quiet_persist recovered m) as Hq; destruct (PersistStateLocked m) as [[[] ?] n1]] end.
  - destruct (restore_hs (last_included_index meta) (last_included_term meta) true (core n)).
    by apply quiet_same.
  - by etrans.
  - by etrans.
Qed.

Lemma quiet_LoadLatestSnapshot n : quiet n (LoadLatestSnapshotOnStartup n).2.
Proof.
  unfold LoadLatestSnapshotOnStartup. case_match; [done|].
  case_match. case_match; [|done]. apply quiet_LoadFirstSnapshot.
Qed.

(** A vote on disk when the constructor starts is durable when it returns, and
    still on disk when it throws. *)
Lemma RaftNode_new_durable config snapshot_config (sm : SM) (e : E) r e' :
  RaftNode_new config snapshot_config sm e = (r, e') →
  (∀ v, on_disk v e → on_disk v e') ∧
  (∀ n, r = inr n → e' = env_ n ∧ role_ (core n) ≠ kLeader ∧
     node_id (config_ n) = node_id config ∧ peers (config_ n) = peers config ∧
     ∀ v, on_disk v e → durable v n).
Proof.
  unfold RaftNode_new. cbv zeta.
  set (config1 := if decide (data_dir config = []) then _ else _).
  assert (Hcfg : node_id config1 = node_id config ∧ peers config1 = peers config)
    by (unfold config1; by case_decide).
  set (sc := if decide (cfg_snapshot_dir _ = []) then _ else _). clearbody config1 sc.
  pose proof (ValidateNodeIdentity_disk config1 e) as Hd1.
  destruct (ValidateNodeIdentity config1 e) as [[] e1]; cbn [snd] in Hd1.
  { intros [= <- <-]. split; [|done]. intros v. by apply on_disk_same. }
  pose proof (disk_load (SM := SM) e1) as Hd2.
  assert (Hst : ∀ st err, (storage_Load e1).1 = (true, st, true, err) → disk_state e = Some st).
  { intros st err Hl. rewrite <- Hd1. unfold disk_state. by rewrite Hl. }
  assert (Hno : ∀ ok st has err, (storage_Load e1).1 = (ok, st, has, err) →
    ok && has = false → disk_state e = None).
  { intros ok st has err Hl. rewrite <- Hd1. unfold disk_state. rewrite Hl. by destruct ok, has. }
  destruct (storage_Load e1) as [[[[ok st] has] err] e2]. cbn [fst snd] in *.
  assert (Hd : ∀ v, on_disk v e → on_disk v e2).
  { intros v. apply on_disk_same. congruence. }
  destruct ok; cbn [negb].
  2:{ intros [= <- <-]. split; [done|discriminate]. }
  match goal with |- context [LoadLatestSnapshotOnStartup ?m] =>
    assert (Hm : ∀ v, on_disk v e → durable v m);
    [|pose proof (quiet_LoadLatestSnapshot m) as Hq;
      assert (Hrole : role_ (core m) = kFollower) by (node_simpl; apply recovered_core_role);
      assert (Hc1 : config_ m = config1) by done;
      set (n0 := m) in *; clearbody n0;
      destruct (LoadLatestSnapshotOnStartup n0) as [[loaded serr] n1]; cbn [snd] in Hq] end.
  { intros v Hv. split; [|by apply Hd]. node_simpl. destruct Hv as (h & Hh & Hle).
    unfold disk_hs in Hh. destruct has.
    - rewrite (Hst _ _ eq_refl) in Hh. cbn in Hh. injection Hh as <-.
      by rewrite (proj1 (recovered_core_hs st)).
    - rewrite (Hno _ _ _ _ eq_refl eq_refl) in Hh. done. }
  assert (Hfin : ∀ n', quiet n0 n' →
    (∀ v, on_disk v e → on_disk v (env_ n')) ∧
    (role_ (core n') ≠ kLeader ∧ node_id (config_ n') = node_id config ∧
     peers (config_ n') = peers config ∧ ∀ v, on_disk v e → durable v n')).
  { intros n' Hq'. destruct Hcfg.
    assert (Hdur : ∀ v, on_disk v e → durable v n') by (intros v Hv; eapply quiet_durable; eauto).
    split; [intros v Hv; by apply Hdur|]. rewrite (q_config _ _ Hq'), Hc1.
    split_and!; try done. intros Hl. destruct (q_leader _ _ Hq' Hl). congruence. }
  destruct (negb loaded && _); [intros [= <- <-]; split; [by apply Hfin|discriminate]|].
  destruct (decide (last_applied_ (core n1) < commit_index_ (core n1))).
  - pose proof (quiet_ApplyCommitted recovered n1) as Hq2.
    destruct (ApplyCommittedEntries n1) as [rr n2]; cbn [snd] in Hq2.
    assert (Hq3 : quiet n0 n2) by (by etrans).
    destruct (Ok rr); cbn [negb]; intros [= <- <-]; (split; [by apply Hfin|]); [|discriminate].
    intros ? [= <-]. split; [done|by apply Hfin].
  - intros [= <- <-]. split; [by apply Hfin|]. intros ? [= <-]. split; [done|by apply Hfin].
Qed.
End files.

(** ** Casting votes *)
Section casting.
Context {SM E : Type} `{HostEnv E, IRaftStorage E}.
Context (recovered : PersistentRaftState → PersistentRaftState) `{!StorageLaws E recovered}.
Implicit Types n : Node SM E.

(** Moving the hard state of [n] forward to that of [m], writing it, and going
    back to [n]'s when the write fails. *)
Lemma quiet_try n (m n' : Node SM E) :
  config_ n' = config_ n → disk_state (env_ m) = disk_state (env_ n) →
  hs_le (hs_of (core n)) (hs_of (core m)) →
  disk_state (env_ n') = disk_state (env_ (PersistStateLocked m).2) →
  hs_of (core n') = hs_of (core n) → role_ (core n') = role_ (core n) → quiet n n'.
Proof.
  intros Hc Hd Hle Hd' Hhs Hr. split; [done|by rewrite Hhs| |].
  - intros v [Hv Hon]. eapply on_disk_same; [exact Hd'|].
    apply (persist_on_disk recovered); [by etrans|by eapply on_disk_same].
  - unfold hs_of in Hhs. injection Hhs as Ht _. by rewrite Hr, Ht.
Qed.

Lemma quiet_StartElection n :
  current_term_ (core n) < u64_max → 0 ≤ current_term_ (core n) → quiet n (StartElection n).2.
Proof.
  intros Hmax Hpos. unfold StartElection. set (n1 := n <| metrics_ ::= RecordElectionStarted |>).
  assert (Hq1 : quiet n n1) by (by apply quiet_same).
  destruct (negb (running_ n1) || _); [done|]. cbv zeta.
  match goal with |- context [PersistStateLocked ?m] => set (n2 := m) end.
  assert (Hle : hs_le (hs_of (core n1)) (hs_of (core n2))).
  { unfold n2, n1, hs_le, hs_of. node_simpl. rewrite u64_id by u64_lia. left. cbn. lia. }
  assert (Hq12 : quiet n1 n2).
  { split; [done|done|intros v []; by eapply on_disk_same|done]. }
  pose proof (quiet_persist recovered n2) as Hq2.
  destruct (PersistStateLocked_frame n2) as [Hc2 _ Hk2 _ _ _ _].
  assert (Htry : ∀ n', config_ n' = config_ n1 → hs_of (core n') = hs_of (core n1) →
    role_ (core n') = role_ (core n1) →
    disk_state (env_ n') = disk_state (env_ (PersistStateLocked n2).2) → quiet n1 n')
    by (intros; by apply (quiet_try n1 n2)).
  destruct (PersistStateLocked n2) as [[[] ?] n3]; cbn [snd negb] in *.
  - assert (Hq : quiet n (ResetElectionTimerLocked n3)).
    { etrans; [|apply (quiet_steady recovered), (steady_election_timer recovered)]. etrans; [exact Hq1|]. by etrans. }
    destruct (decide (quorum_of (config_ n3) ≤ 1)); exact Hq.
  - etrans; [exact Hq1|]. etrans; [|apply (quiet_steady recovered), (steady_election_timer recovered)].
    apply Htry; [done|..|done]; node_simpl; rewrite ?Hk2; unfold n2; by node_simpl.
Qed.

(** A granted vote is durable, and no other vote of its term was. *)
Lemma OnRequestVote_casts request n resp n' :
  OnRequestVote request n = (resp, n') → vresp_vote_granted resp = true →
  let v := (vreq_term request, vreq_candidate_id request) in
  durable v n' ∧ hs_le (hs_of (core n)) v.
Proof.
  intros Hrun Hg. cbv zeta.
  pose proof (OnRequestVote_disk recovered _ _ _ _ Hrun Hg) as Hd.
  destruct (OnRequestVote_core request n) as (followed & persisted & Hcore).
  rewrite Hrun in Hcore. cbn [fst snd] in Hcore.
  destruct (vote_core_grant _ _ _ _ _ _ Hcore Hg) as (c1 & Hc' & Hsame & Hrest).
  assert (Hhs : hs_of (core n') = (vreq_term request, vreq_candidate_id request) ∧
                hs_le (hs_of (core n)) (vreq_term request, vreq_candidate_id request)).
  { rewrite Hc'. unfold hs_of at 1. node_simpl. naive_solver congruence. }
  destruct Hhs as [Hhs Hle]. split; [|done]. unfold durable. rewrite Hhs. split; [done|].
  eexists. split; [by apply (disk_hs_recovered recovered)|]. by rewrite Hhs.
Qed.

(** The candidate's own vote. *)
Lemma StartElection_casts n r n' :
  StartElection n = (r, n') → r ≠ ElectionAborted →
  current_term_ (core n) < u64_max → 0 ≤ current_term_ (core n) →
  durable (current_term_ (core n) + 1, node_id (config_ n)) n' ∧
  current_term_ (core n') = current_term_ (core n) + 1.
Proof.
  intros Hrun Hr Hmax Hpos. pose proof (StartElection_effect _ _ _ Hrun) as [_ Heff].
  destruct Heff as [[-> _]|(_ & _ & Hcore & _)]; [done|].
  assert (Hhs : hs_of (core n') = (current_term_ (core n) + 1, node_id (config_ n))).
  { rewrite Hcore. unfold hs_of, candidate_core. node_simpl. by rewrite u64_id by u64_lia. }
  split; [|by injection Hhs]. split; [by rewrite Hhs|]. rewrite <- Hhs.
  revert Hrun Hr. unfold StartElection.
  destruct (negb (running_ _) || _); [by intros [= <- <-]|]. cbv zeta.
  match goal with |- context [PersistStateLocked ?m] =>
    pose proof (PersistStateLocked_frame m) as Hf;
    destruct (PersistStateLocked m) as [[[] err] n2] eqn:Hp end; cbn [negb snd] in *.
  2:{ by intros [= <- <-]. }
  intros Hrun _. assert (n' = ResetElectionTimerLocked n2) as ->
    by (revert Hrun; destruct (decide (quorum_of (config_ n2) ≤ 1)); congruence).
  eapply on_disk_same; [apply (ResetElectionTimer_disk recovered)|].
  eexists. split; [apply (disk_hs_recovered recovered), (PersistStateLocked_disk recovered _ _ _ Hp)|].
  by rewrite (sbh_core _ _ (ResetElectionTimer_frame n2)), (sbh_core _ _ Hf).
Qed.
End casting.
