(* ===== verification/Links.v ===== *)
(** Links: the pairs of neighbouring records of a log.  What every operation of a node
    leaves of the links in its memory and on its disk: [tracks X n n'] says that the
    logs of [n'] hold no link but those of [n] and those of [X].  The log-matching
    property of the cluster is a property of the links of all its logs. *)
From S2P Require Import Prelude Command Types Timer Metrics Env Sim Node SimNode.
From S2P Require Import NodeLog Election AppendEntries Bytes Fs StateMachine Commit.
From S2P Require Import Replicator Propose SnapshotNode Steady Votes.

(** ** Links of a log *)

(** A record with the term of the record before it. *)
Definition link : Type := Z * LogRecord.

Fixpoint links (log : list LogRecord) : list link :=
  match log with
  | a :: (b :: _) as log => (term a, b) :: links log
  | _ => []
  end.

Section links.
Implicit Types (a b r : LogRecord) (l : list LogRecord) (k : link).

Lemma links_cons a b l : links (a :: b :: l) = (term a, b) :: links (b :: l).
Proof. done. Qed.

(** The first record's own contents but its term do not matter. *)
Lemma links_head a b l : term a = term b → links (a :: l) = links (b :: l).
Proof. destruct l; [done|]. rewrite !links_cons. by intros ->. Qed.

Lemma links_app l a l' : links (l ++ a :: l') = links (l ++ [a]) ++ links (a :: l').
Proof.
  induction l as [|b l IH]; [done|]. destruct l as [|c l]; [done|].
  cbn [app] in *. rewrite !links_cons, IH. done.
Qed.

Lemma links_snoc l a b : links (l ++ [a; b]) = links (l ++ [a]) ++ [(term a, b)].
Proof. by rewrite links_app. Qed.

Lemma links_app_sub_l l l' k : k ∈ links l → k ∈ links (l ++ l').
Proof.
  destruct l as [|b l _] using rev_ind; [by intros ?%not_elem_of_nil|].
  rewrite <- app_assoc. cbn [app]. rewrite (links_app l b l'), elem_of_app. auto.
Qed.

Lemma links_app_sub_r l l' k : k ∈ links l' → k ∈ links (l ++ l').
Proof.
  destruct l' as [|b l']; [by intros ?%not_elem_of_nil|]. rewrite links_app, elem_of_app. auto.
Qed.

Lemma links_lookup l k :
  k ∈ links l ↔ ∃ (i : nat) a, l !! i = Some a ∧ l !! S i = Some k.2 ∧ term a = k.1.
Proof.
  induction l as [|a [|b l] IH].
  - split; [by intros ?%not_elem_of_nil|]. intros (i & a & ? & _). by rewrite lookup_nil in *.
  - split; [by intros ?%not_elem_of_nil|]. intros (i & a' & _ & Hs & _). by destruct i.
  - rewrite links_cons, elem_of_cons, IH. destruct k as [t r]. cbn [fst snd]. split.
    + intros [[= -> ->]|(i & a' & ? & ? & ?)]; [by exists 0%nat, a|by exists (S i), a'].
    + intros ([|i] & a' & Ha & Hs & Ht); [left; by simplify_eq/=|right; eauto].
Qed.

Lemma links_index n l k :
  contiguous n l → k ∈ links l → n < index k.2 < n + Z.of_nat (length l).
Proof.
  intros Hc (i & a & _ & Hs & _)%links_lookup. rewrite (Hc _ _ Hs).
  apply lookup_lt_Some in Hs. lia.
Qed.

(** Merging entries into a tail: what follows [a] in the merged log follows it in the
    tail, or follows the record [b] of its term in the request. *)
Lemma links_merge es a b tail k :
  term a = term b → k ∈ links (a :: merge_entries tail es) →
  k ∈ links (a :: tail) ∨ k ∈ links (b :: es).
Proof.
  revert a b tail. induction es as [|e es IH]; intros a b tail Hab; [by destruct tail; left|].
  destruct tail as [|r tail]; cbn [merge_entries]; [rewrite (links_head a b) by done; by right|].
  destruct (decide (term r = term e)) as [Ht|Ht]; [|rewrite (links_head a b) by done; by right].
  rewrite !links_cons, !elem_of_cons. intros [->|Hk]; [by left; left|].
  destruct (IH _ _ _ Ht Hk); auto.
Qed.
End links.

(** An append request as a log: the record it must follow, and its entries. *)
Definition request_log (request : AppendEntriesRequest) : list LogRecord :=
  mkLogRecord (areq_prev_log_index request) (areq_prev_log_term request) "" ::
  areq_entries request.

Lemma links_merged request c k :
  log_ok c → prev_matches request c → k ∈ links (merged_log request c) →
  k ∈ links (log_ c) ∨ k ∈ links (request_log request).
Proof.
  intros Hok Hp. destruct (prev_matches_prefix _ _ Hok Hp) as [Hlen Hidx].
  unfold merged_log. set (i := prefix_size _ _) in *.
  destruct (lookup_lt_is_Some_2 (log_ c) (i - 1)) as [a Ha]; [lia|].
  assert (Htake : take i (log_ c) = take (i - 1) (log_ c) ++ [a]).
  { replace i with (S (i - 1)) at 1 by lia. by apply take_S_r. }
  assert (Hta : term a = areq_prev_log_term request).
  { destruct Hp as (Hlow & _ & <-). rewrite TermAtIndex_ok, LogAtIndex_lookup by done.
    rewrite decide_True by lia. replace (Z.to_nat _) with (i - 1)%nat by lia. by rewrite Ha. }
  rewrite Htake, <- app_assoc. cbn [app]. rewrite links_app, elem_of_app.
  assert (Hlog : links (log_ c) = links (take (i - 1) (log_ c) ++ [a]) ++ links (a :: drop i (log_ c))).
  { by rewrite <- links_app, <- (take_drop i (log_ c)) at 1; rewrite Htake, <- app_assoc. }
  rewrite Hlog, elem_of_app. intros [Hk|Hk]; [by left; left|].
  destruct (links_merge _ _ (mkLogRecord (areq_prev_log_index request) (areq_prev_log_term request) "")
              _ _ Hta Hk); auto.
Qed.

(** Compaction drops links and makes none. *)
Lemma links_restore i t keep c k :
  log_ok c → k ∈ links (log_ (RestoreLogAfterSnapshotLocked i t keep c)) → k ∈ links (log_ c).
Proof.
  intros Hok. rewrite RestoreLog_cases by done. case_decide as Hi; [done|].
  unfold compacted_core. node_simpl. destruct (keep && boundary_matches i t c) eqn:Hb;
    [|by intros ?%not_elem_of_nil].
  apply andb_prop in Hb as [_ Hb]. unfold boundary_matches in Hb.
  rewrite LogAtIndex_lookup, decide_True in Hb by (done || lia).
  set (j := Z.to_nat (i - last_snapshot_index_ c)) in *.
  replace (Z.to_nat (i + 1 - last_snapshot_index_ c)) with (S j) by lia.
  destruct (log_ c !! j) as [r|] eqn:Hr; [|done]. apply bool_decide_eq_true in Hb.
  intros Hk. rewrite <- (take_drop j (log_ c)). rewrite (drop_S _ _ _ Hr).
  apply links_app_sub_r. by rewrite (links_head r (mkLogRecord i t kSnapshotMarkerCommand)).
Qed.

(** The links of a node's log, by index. *)
Lemma links_at c k :
  log_ok c →
  k ∈ links (log_ c) ↔
  ∃ a, LogAtIndexLocked c (index k.2 - 1) = Some a ∧ term a = k.1 ∧
       LogAtIndexLocked c (index k.2) = Some k.2.
Proof.
  intros Hok. rewrite links_lookup. split.
  - intros (i & a & Ha & Hk & Ht). exists a. pose proof (log_contiguous _ Hok _ _ Hk) as Hidx.
    rewrite !LogAtIndex_lookup, !decide_True by (done || lia).
    replace (Z.to_nat (index k.2 - 1 - _)) with i by lia.
    by replace (Z.to_nat (index k.2 - _)) with (S i) by lia.
  - rewrite !LogAtIndex_lookup by done. intros (a & Ha & Ht & Hk).
    destruct (decide (last_snapshot_index_ c ≤ index k.2 - 1)) as [Hlow|]; [|done].
    rewrite decide_True in Hk by lia. eexists _, a. split; [exact Ha|]. split; [|done].
    rewrite <- Hk. f_equal. lia.
Qed.

(** A request built from a log carries links of that log. *)
Lemma links_request request c :
  log_ok c → contiguous (areq_prev_log_index request + 1) (areq_entries request) →
  (∃ r, LogAtIndexLocked c (areq_prev_log_index request) = Some r ∧
        term r = areq_prev_log_term request) →
  (∀ e, e ∈ areq_entries request → LogAtIndexLocked c (index e) = Some e) →
  ∀ k, k ∈ links (request_log request) → k ∈ links (log_ c).
Proof.
  intros Hok Hc (r & Hr & Ht) Hin k (i & a & Ha & Hk & Hta)%links_lookup.
  apply links_at; [done|]. unfold request_log in *. cbn [lookup] in Hk.
  change (areq_entries request !! i = Some k.2) in Hk.
  pose proof (Hc _ _ Hk) as Hidx. pose proof (Hin _ (list_elem_of_lookup_2 _ _ _ Hk)) as Hself.
  destruct i as [|i].
  - injection Ha as <-. exists r. cbn [term] in Hta. rewrite Hidx in *.
    replace (areq_prev_log_index request + 1 + Z.of_nat 0 - 1) with (areq_prev_log_index request) by lia.
    split_and!; [done|congruence|done].
  - change (areq_entries request !! i = Some a) in Ha. exists a.
    pose proof (Hc _ _ Ha) as Hidxa. pose proof (Hin _ (list_elem_of_lookup_2 _ _ _ Ha)) as Hina.
    replace (index k.2 - 1) with (index a) by lia. done.
Qed.

(** ** Laws *)

(** Recovery keeps the log, lowers the commit index at most to its end, and raises neither
    boundary. *)
Class RecoveredLog (recovered : PersistentRaftState → PersistentRaftState) : Prop := {
  recovered_log : ∀ st, ps_log (recovered st) = ps_log st;
  recovered_commit : ∀ st r, last (ps_log st) = Some r →
    Z.min (ps_commit_index st) (index r) ≤ ps_commit_index (recovered st);
  recovered_lower : ∀ st,
    ps_commit_index (recovered st) ≤ ps_commit_index st ∧
    ps_last_applied (recovered st) ≤ ps_last_applied st }.

(** The index of a listed snapshot is a [std::uint64_t]. *)
Class SnapshotIndices (E : Type) `{ISnapshotStorage E} : Prop :=
  listed_u64 : ∀ (e : E) r err, snapshot_ListSnapshotsWithDiagnostics e = (Some r, err) →
    Forall (λ m, is_u64 (last_included_index m)) (snapshots r).

(** ** Well-formed nodes and disks *)

Record core_bounds (c : RaftCore) : Prop := {
  cb_applied : 0 ≤ last_applied_ c ≤ commit_index_ c;
  cb_commit : last_snapshot_index_ c ≤ commit_index_ c ≤ u64_max }.

Record core_wf (c : RaftCore) : Prop := {
  cw_log : log_ok c;
  cw_zero : last_snapshot_index_ c = 0 → last_snapshot_term_ c = 0;
  cw_bounds : core_bounds c }.

(** What is compacted is applied.  A node holds this whenever its constructor has returned. *)
Definition applied_low (c : RaftCore) : Prop := last_snapshot_index_ c ≤ last_applied_ c.

Lemma core_wf_ok c : core_wf c → applied_low c → core_ok c.
Proof. intros [Hlog _ [Ha Hc]] Hl. by split; [|exact Hl|lia|lia]. Qed.

Lemma core_wf_applied c : core_wf c → is_u64 (last_applied_ c).
Proof. intros [_ _ [? ?]]. u64_lia. Qed.

Section tracks.
Context {SM E : Type} `{HostEnv E, IRaftStorage E}.
Context (recovered : PersistentRaftState → PersistentRaftState).
Context `{!StorageLaws E recovered, !RecoveredLog recovered}.
Implicit Types (n : Node SM E) (e : E) (k : link) (X : link → Prop).

Definition stored_wf (st : PersistentRaftState) : Prop :=
  ∃ c, core_wf c ∧ log_ c = ps_log st ∧ last_snapshot_index_ c ≤ ps_commit_index st.
Definition disk_wf e : Prop := ∀ st, disk_state e = Some st → stored_wf st.
Definition disk_log e : list LogRecord :=
  match disk_state e with Some st => ps_log st | None => [] end.

Record node_wf n : Prop := { nw_core : core_wf (core n); nw_disk : disk_wf (env_ n) }.

(** [n'] follows from [n] without new links but those of [X], without becoming a leader or,
    as one, losing its last record, and without compacting what is not applied. *)
Record tracked X n n' : Prop := {
  tr_wf : node_wf n';
  tr_log : ∀ k, k ∈ links (log_ (core n')) → k ∈ links (log_ (core n)) ∨ X k;
  tr_disk : ∀ k, k ∈ links (disk_log (env_ n')) →
    k ∈ links (disk_log (env_ n)) ∨ k ∈ links (log_ (core n)) ∨ X k;
  tr_role : role_ (core n') = kLeader → role_ (core n) = kLeader;
  tr_last : role_ (core n') = kLeader →
    LastLogIndexLocked (core n) ≤ LastLogIndexLocked (core n');
  tr_low : applied_low (core n) → applied_low (core n') }.
Definition tracks X n n' : Prop := node_wf n → tracked X n n'.

#[export] Instance tracks_preorder X : PreOrder (tracks X).
Proof.
  split.
  - intros n Hn. by split; auto.
  - intros n1 n2 n3 H1 H2 Hn. destruct (H1 Hn) as [Hw1 Hl1 Hd1 Hr1 Ha1 Hb1].
    destruct (H2 Hw1) as [Hw2 Hl2 Hd2 Hr2 Ha2 Hb2]. split; [done|naive_solver|naive_solver|auto| |auto].
    intros Hr. etrans; eauto.
Qed.

Lemma tracks_weaken X (Y : link → Prop) n n' : (∀ k, X k → Y k) → tracks X n n' → tracks Y n n'.
Proof. intros Hxy Ht Hn. destruct (Ht Hn). split; naive_solver. Qed.

(** The members a log is read from, unchanged. *)
Record same_records (c c' : RaftCore) : Prop := {
  sr_log : log_ c' = log_ c;
  sr_index : last_snapshot_index_ c' = last_snapshot_index_ c;
  sr_term : last_snapshot_term_ c' = last_snapshot_term_ c;
  sr_bounds : last_applied_ c' = last_applied_ c ∧ commit_index_ c' = commit_index_ c ∨
    last_applied_ c ≤ last_applied_ c' ∧ core_bounds c' }.

Lemma same_records_wf c c' : same_records c c' → core_wf c → core_wf c'.
Proof.
  intros [Hl Hi Ht Ha] [[] Hz [Hu Hc]]. split; [split| |].
  - by rewrite Hl, Hi, Ht.
  - by rewrite Hl, Hi.
  - by rewrite Hi.
  - by rewrite (LastLogIndex_log c).
  - by rewrite Hi, Ht.
  - destruct Ha as [[Ha Hc']|[_ ?]]; [|done]. split; by rewrite ?Ha, ?Hc', ?Hi.
Qed.

Lemma same_records_low c c' : same_records c c' → applied_low c → applied_low c'.
Proof. unfold applied_low. intros [_ -> _ [[-> _]|[? _]]]; lia. Qed.

(** Neither the log nor the disk changed. *)
Lemma tracks_same X n n' :
  same_records (core n) (core n') → (role_ (core n') = kLeader → role_ (core n) = kLeader) →
  disk_state (env_ n') = disk_state (env_ n) → tracks X n n'.
Proof.
  intros Hs Hr Hd [Hc Hw]. unfold disk_wf, disk_log. split.
  - split; [by eapply same_records_wf|]. intros st. rewrite Hd. apply Hw.
  - rewrite (sr_log _ _ Hs). auto.
  - unfold disk_log. rewrite Hd. auto.
  - done.
  - intros _. rewrite (LastLogIndex_log (core n) (core n')) by apply Hs. done.
  - by apply same_records_low.
Qed.

Lemma persist_stored_wf c : core_wf c → stored_wf (recovered (persistent_state c)).
Proof.
  intros Hc. exists c. rewrite recovered_log. split_and!; [done..|].
  destruct Hc as [Hlog _ [_ Hb]]. pose proof (LastLogIndex_ge c Hlog) as Hlast.
  unfold LastLogIndexLocked in Hlast. destruct (last (log_ c)) as [r|] eqn:Hr;
    [|apply last_None in Hr; by destruct (log_ok_nonempty _ Hlog)].
  pose proof (recovered_commit (persistent_state c) r Hr) as Hm.
  change (ps_commit_index (persistent_state c)) with (commit_index_ c) in Hm. lia.
Qed.

Lemma tracks_persist X n : tracks X n (PersistStateLocked n).2.
Proof.
  intros [Hc Hw]. destruct (PersistStateLocked n) as [[ok err] n'] eqn:Hp. cbn [snd].
  pose proof (PersistStateLocked_frame n) as Hf. rewrite Hp in Hf. cbn [snd] in Hf.
  destruct Hf as [_ _ Hk _ _ _ _].
  assert (Hd : disk_state (env_ n') = disk_state (env_ n) ∨
               disk_state (env_ n') = Some (recovered (persistent_state (core n)))).
  { destruct ok; [right; by eapply PersistStateLocked_disk|by eapply PersistStateLocked_disk_fail]. }
  split; rewrite ?Hk; [split; [by rewrite Hk|]|auto| |done|done|done].
  - intros st. destruct Hd as [-> | ->]; [apply Hw|]. intros [= <-]. by apply persist_stored_wf.
  - unfold disk_log at 1. intros k. destruct Hd as [-> | ->]; [by left|].
    rewrite recovered_log. auto.
Qed.

(** The log may change as long as its links are known. *)
Lemma tracks_log X n n' :
  (node_wf n → core_wf (core n')) →
  (node_wf n → ∀ k, k ∈ links (log_ (core n')) → k ∈ links (log_ (core n)) ∨ X k) →
  (role_ (core n') = kLeader → role_ (core n) = kLeader) →
  (node_wf n → role_ (core n') = kLeader → LastLogIndexLocked (core n) ≤ LastLogIndexLocked (core n')) →
  (node_wf n → applied_low (core n) → applied_low (core n')) →
  disk_state (env_ n') = disk_state (env_ n) → tracks X n n'.
Proof.
  intros Hwf Hl Hr Hi Hlow Hd Hn.
  split; [split; [by apply Hwf|]|by apply Hl| |done|by apply Hi|by apply Hlow].
  - intros st. rewrite Hd. apply Hn.
  - unfold disk_log. rewrite Hd. auto.
Qed.

(** *** Operations that leave the log alone *)

Lemma same_records_refl c : same_records c c.
Proof. split; auto. Qed.

Lemma follower_records t l c : same_records c (follower_core t l c).
Proof. unfold follower_core. case_decide; split; auto. Qed.

(** It leaves a follower. *)
Lemma BecomeFollower_role t l n : role_ (core (BecomeFollowerLocked t l n).2) = kFollower.
Proof.
  destruct (BecomeFollowerLocked_core t l n) as [-> _]. unfold follower_core. by case_decide.
Qed.

Lemma FollowLeader_role request n : role_ (core (FollowLeaderLocked request n).2) = kFollower.
Proof.
  destruct (FollowLeader_core request n) as [_ ->]. unfold leader_seen, follower_core. by case_decide.
Qed.

Lemma same_log_records c c' : same_log c c' → same_records c c'.
Proof. intros []. split; auto. Qed.

Lemma tracks_steady X n n' : steady recovered n n' → tracks X n n'.
Proof.
  intros [_ _ Hm%same_log_records _ Hr Hd] Hn. pose proof (same_records_wf _ _ Hm (nw_core _ Hn)) as Hw.
  assert (Hdisk : disk_state (env_ n') = disk_state (env_ n) ∨
    ∃ c, same_records (core n) c ∧ disk_state (env_ n') = Some (recovered (persistent_state c)))
    by (destruct Hd as [?|(c & ?%same_log_records & _ & ?)]; eauto).
  split.
  - split; [done|]. intros st. destruct Hdisk as [-> |(c & Hc & ->)]; [apply Hn|].
    intros [= <-]. apply persist_stored_wf. by eapply same_records_wf; [|apply Hn].
  - rewrite (sr_log _ _ Hm). auto.
  - unfold disk_log at 1. intros k. destruct Hdisk as [-> |(c & Hc & ->)]; [by left|].
    rewrite recovered_log. change (ps_log (persistent_state c)) with (log_ c). rewrite (sr_log _ _ Hc). auto.
  - destruct Hr as [Hr|(Hr & _)]; rewrite Hr; done.
  - intros _. rewrite (LastLogIndex_log (core n) (core n')) by apply Hm. done.
  - by apply same_records_low.
Qed.

(** Replace a helper call by what is known of it. *)
Ltac track_call X :=
  match goal with
  | |- context [PersistStateLocked ?m] =>
      let Hq := fresh "Hq" in pose proof (tracks_persist X m) as Hq;
      destruct (PersistStateLocked m) as [[[] ?] ?]; cbn [fst snd negb] in *
  end.
Ltac track_step :=
  first [done | apply tracks_same; [split; node_simpl; auto|node_simpl; done..]].
Ltac track_trans Hq := etrans; [|etrans; [exact Hq|]]; track_step.

Lemma tracks_AdvanceCommit X n : tracks X n (AdvanceCommitIndexUnlocked n).
Proof.
  unfold AdvanceCommitIndexUnlocked. case_decide; [done|]. case_decide; [done|].
  match goal with |- context [advance_from ?k ?config ?c] =>
    pose proof (advance_from_spec k config c) as Hspec; destruct (advance_from k config c) as [i|] end;
    [|done].
  destruct Hspec as (Hi & _ & _). etrans; [|apply tracks_persist]. intros Hn.
  apply tracks_same; [|done|done|done]. destruct (cw_bounds _ (nw_core _ Hn)) as [Ha Hc].
  pose proof (log_high _ (cw_log _ (nw_core _ Hn))).
  split; [done..|right]. split; [done|]. split; node_simpl; lia.
Qed.

Lemma tracks_Handle X peer_id t target response n :
  tracks X n (HandleAppendEntriesResponse peer_id t target response n).2.
Proof.
  unfold HandleAppendEntriesResponse. case_match; [done|].
  case_decide; [apply tracks_steady, (steady_BecomeFollower recovered); lia|].
  case_match; [done|]. case_match; cbn [snd]; [|track_step].
  etrans; [|apply tracks_AdvanceCommit]. track_step.
Qed.

Lemma tracks_HandleInstall X peer_id t i response n :
  tracks X n (HandleInstallSnapshotResponse peer_id t i response n).2.
Proof.
  unfold HandleInstallSnapshotResponse. case_decide; [apply tracks_steady, (steady_BecomeFollower recovered); lia|].
  case_match; [done|]. case_match; track_step.
Qed.

(** What is well formed may be used. *)
Lemma tracks_use X n n' : (node_wf n → tracks X n n') → tracks X n n'.
Proof. intros Ht Hn. by apply Ht. Qed.

Lemma tracks_applied X i n :
  (node_wf n → last_applied_ (core n) ≤ i ≤ commit_index_ (core n)) →
  tracks X n (n <| core ::= λ c, c <| last_applied_ := i |> |>).
Proof.
  intros Hi. apply tracks_use. intros Hn. specialize (Hi Hn).
  destruct (cw_bounds _ (nw_core _ Hn)) as [Ha Hc].
  apply tracks_same; [|done|done]. split; [done..|right]. split; [apply Hi|].
  split; node_simpl; lia.
Qed.

Lemma tracks_ApplyDone X i n :
  i ≤ commit_index_ (core n) → tracks X n (ApplyDoneLocked i n).2.
Proof.
  intros Hi. unfold ApplyDoneLocked. case_decide; [|apply tracks_steady, (steady_MaybeSchedule recovered)].
  assert (Ha : tracks X n (n <| core ::= λ c, c <| last_applied_ := i |> |>))
    by (apply tracks_applied; lia).
  track_call X; (etrans; [exact Ha|etrans; [exact Hq|]]); [apply tracks_steady, (steady_MaybeSchedule recovered)|done].
Qed.

Lemma tracks_ApplyFetch X n :
  tracks X n (ApplyFetchLocked n).2 ∧
  (node_wf n → applied_low (core (ApplyFetchLocked n).2) ∧
   ∀ i data, (ApplyFetchLocked n).1 = inr (i, data) →
     i ≤ commit_index_ (core (ApplyFetchLocked n).2)).
Proof.
  unfold ApplyFetchLocked. cbv zeta.
  match goal with |- context [commit_index_ (core ?m)] =>
    assert (Hm : tracks X n m ∧ applied_low (core m)); [|set (n1 := m) in *; clearbody n1] end.
  { unfold applied_low. case_decide; node_simpl; [|split; [done|lia]]. split; [|done].
    apply tracks_use. intros Hn. destruct (cw_bounds _ (nw_core _ Hn)) as [Ha Hc].
    apply (tracks_applied X (last_snapshot_index_ (core n)) n). lia. }
  destruct Hm as [Hm Hlow]. case_decide as Hlt; [by split|]. case_match; [by split|].
  case_match; split; try done. intros Hn. split; [done|]. intros ?? [= <- _].
  destruct (cw_bounds _ (nw_core _ (tr_wf _ _ _ (Hm Hn)))) as [Ha Hc]. cbn [snd].
  rewrite u64_id by u64_lia. lia.
Qed.

Lemma tracks_ApplyRest X `{!IStateMachine SM E} n :
  node_wf n → tracks X (ApplyFetchLocked n).2 (ApplyIteration n).2.
Proof.
  intros Hn. unfold ApplyIteration. destruct (tracks_ApplyFetch X n) as [_ Hu].
  specialize (proj2 (Hu Hn)) as Hi.
  destruct (ApplyFetchLocked n) as [[r|[i data]] n1]; cbn [fst snd] in *; [done|].
  specialize (Hi _ _ eq_refl).
  destruct (sm_Apply i data (state_machine_ n1)) as [r sm]. case_match; cbn [snd]; [track_step|].
  etrans; [|by apply tracks_ApplyDone]. track_step.
Qed.

Lemma tracks_ApplyIteration X `{!IStateMachine SM E} n : tracks X n (ApplyIteration n).2.
Proof.
  apply tracks_use. intros Hn. etrans; [apply tracks_ApplyFetch|by apply tracks_ApplyRest].
Qed.

Lemma tracks_ApplyLoop X `{!IStateMachine SM E} fuel n : tracks X n (ApplyLoop fuel n).2.
Proof.
  revert n. induction fuel as [|fuel IH]; intros n; [done|]. cbn [ApplyLoop].
  pose proof (tracks_ApplyIteration X n) as Hq. destruct (ApplyIteration n) as [[r|] n1]; [done|].
  etrans; [exact Hq|apply IH].
Qed.

Lemma ApplyCommitted_loop `{!IStateMachine SM E} n :
  (ApplyCommittedEntries n).2 = (ApplyLoop (apply_fuel n) n).2.
Proof. unfold ApplyCommittedEntries. by destruct (ApplyLoop _ _) as [[] ?]. Qed.

Lemma tracks_ApplyCommitted X `{!IStateMachine SM E} n : tracks X n (ApplyCommittedEntries n).2.
Proof. rewrite ApplyCommitted_loop. apply tracks_ApplyLoop. Qed.

(** Whoever calls it, what is compacted counts as applied afterwards. *)
Lemma ApplyCommitted_low `{!IStateMachine SM E} n :
  node_wf n → applied_low (core (ApplyCommittedEntries n).2).
Proof.
  intros Hn. rewrite ApplyCommitted_loop. unfold apply_fuel. cbn [ApplyLoop].
  destruct (tracks_ApplyFetch (λ _, False) n) as [Hf Hlow].
  destruct (tracks_ApplyRest (λ _, False) n Hn (tr_wf _ _ _ (Hf Hn))) as [Hw _ _ _ _ Hl].
  specialize (Hl (proj1 (Hlow Hn))). destruct (ApplyIteration n) as [[r|] n1]; [done|].
  by apply (tracks_ApplyLoop (λ _, False) _ n1 Hw).
Qed.

(** *** Replication *)

(** The links a request brings. *)
Definition brought (request : AppendEntriesRequest) (k : link) : Prop := k ∈ links (request_log request).

Lemma set_log_wf l c : core_wf c → log_ok (set_log l c) → core_wf (set_log l c).
Proof. intros [_ Hz [Ha Hc]] ?. by split; [|exact Hz|split]. Qed.

(** [n'] is [n] with the log put back to [n0]'s, and the disk as in [n]. *)
Lemma tracks_undo X n0 n n' :
  tracks X n0 n → same_records (core n0) (core n') →
  (role_ (core n') = kLeader → role_ (core n0) = kLeader) →
  disk_state (env_ n') = disk_state (env_ n) → tracks X n0 n'.
Proof.
  intros Ht Hs Hr Hd Hn. destruct (Ht Hn) as [[_ Hw] _ Hdisk _ _].
  unfold disk_wf, disk_log in *. rewrite <- Hd in Hdisk. split.
  - split; [by eapply same_records_wf; [|apply Hn]|]. intros st. rewrite Hd. apply Hw.
  - rewrite (sr_log _ _ Hs). auto.
  - done.
  - done.
  - intros _. rewrite (LastLogIndex_log (core n0) (core n')) by apply Hs. done.
  - by apply same_records_low.
Qed.

(** The commit index moves forward within the log. *)
Lemma tracks_commit X i n :
  commit_index_ (core n) ≤ i ≤ LastLogIndexLocked (core n) →
  tracks X n (n <| core ::= λ c, c <| commit_index_ := i |> |>).
Proof.
  intros Hi. apply tracks_use. intros Hn. destruct (cw_bounds _ (nw_core _ Hn)) as [Ha Hc].
  pose proof (log_high _ (cw_log _ (nw_core _ Hn))).
  apply tracks_same; [|done|done]. split; [done..|right]. split; [done|]. split; node_simpl; lia.
Qed.

(** The entry loop's result, written and either kept or put back. *)
Lemma tracks_FinishAppendEntries request changed m response n l :
  role_ (core n) ≠ kLeader → prev_matches request (core n) →
  entries_ok (areq_prev_log_index request) (areq_entries request) →
  l = merged_log request (core n) → (changed = false → l = log_ (core n)) →
  tracks (brought request) n
    (FinishAppendEntries request changed (if changed then Some (log_ (core n)) else None) m response
       (n <| core := set_log l (core n) |>)).2.
Proof.
  intros Hrole Hp He Hl Hsame. unfold FinishAppendEntries. cbv zeta.
  set (n1 := n <| core := set_log l (core n) |>).
  assert (Hn1 : tracks (brought request) n n1).
  { apply tracks_log; [|intros [[Hlog _ _] _] k|done|by intros _ ?|done|done].
    - intros [[Hlog Hz Ha] _]. apply set_log_wf; [done|]. subst l. by apply merged_log_ok.
    - unfold n1. node_simpl. cbn [log_ set_log]. subst l. by apply links_merged. }
  assert (Hq : tracks (brought request) n (if changed then PersistStateLocked n1 else ((true, ""), n1)).2)
    by (destruct changed; [etrans; [exact Hn1|apply tracks_persist]|done]).
  assert (Hrest : tracks (brought request) n1 (if changed then PersistStateLocked n1 else ((true, ""), n1)).2)
    by (destruct changed; [apply tracks_persist|done]).
  assert (Hcore : core (if changed then PersistStateLocked n1 else ((true, ""), n1)).2 = core n1)
    by (destruct changed; [apply PersistStateLocked_frame|done]).
  destruct (if changed then PersistStateLocked n1 else _) as [[[] ?] n2] eqn:Hpers; cbn [fst snd negb] in *.
  - case_decide; [|done]. case_decide; [|done]. etrans; [exact Hq|].
    assert (Hc : tracks (brought request) n2 (n2 <| core ::= λ c, c <| commit_index_ :=
      Z.min (areq_leader_commit request) (LastLogIndexLocked (core n2)) |> |>))
      by (apply tracks_commit; lia).
    match goal with |- context [PersistStateLocked ?k] =>
      destruct (PersistStateLocked_frame k) as [_ _ Hk _ _ _ _] end.
    track_call (brought request); [by etrans|].
    eapply tracks_undo; [by etrans| |by node_simpl; rewrite Hk|done].
    node_simpl. rewrite Hk. split; auto.
  - destruct changed; [|by injection Hpers]. cbn [snd].
    eapply tracks_undo; [exact Hq| |by node_simpl; rewrite Hcore|done].
    node_simpl. rewrite Hcore. split; auto.
Qed.

Lemma tracks_OnAppendEntries request n :
  entries_ok (areq_prev_log_index request) (areq_entries request) →
  tracks (brought request) n (OnAppendEntriesLocked request n).2.
Proof.
  intros He. unfold OnAppendEntriesLocked. cbv zeta. case_decide; [done|].
  pose proof (tracks_steady (brought request) _ _ (steady_FollowLeader recovered request n ltac:(lia))) as Hq.
  pose proof (FollowLeader_role request n) as Hrole.
  destruct (FollowLeaderLocked request n) as [[] n1]; cbn [fst snd negb] in *; [|done].
  case_decide; [done|]. case_match eqn:Hhas; [done|]. case_decide; [done|].
  apply negb_false_iff in Hhas.
  etrans; [exact Hq|]. intros Hn1. revert Hn1.
  assert (Hp : prev_matches request (core n1)) by (split_and!; [lia|done|done]).
  intros Hn1. destruct (AppendLoop_merged request (core n1)) as (changed & -> & Hsame);
    [apply Hn1|done..|].
  apply (tracks_FinishAppendEntries request changed _ _ n1 (merged_log request (core n1)));
    [by rewrite Hrole|done..].
Qed.

(** *** Proposals *)

(** The link a leader's new entry makes. *)
Definition new_link (data : string) (c : RaftCore) : link :=
  (LastLogTermLocked c, mkLogRecord (LastLogIndexLocked c + 1) (current_term_ c) data).

Lemma tracks_append data (self : Z) n :
  LastLogIndexLocked (core n) < u64_max →
  tracks (λ k, k = new_link data (core n)) n (n <| core ::= appended_core self data |>).
Proof.
  intros Hmax. apply tracks_log; [| |done| |done|done].
  - intros [[Hlog Hz [Ha Hb]] _]. unfold appended_core. node_simpl.
    set (e := mkLogRecord (LastLogIndexLocked (core n) + 1) (current_term_ (core n)) data).
    destruct (snoc_log_ok (core n) e Hlog) as [[] _]; [done|cbn; lia|]. by split; [split|..].
  - intros [[Hlog _ _] _] k. unfold appended_core. node_simpl.
    destruct (log_ (core n)) as [|a l _] eqn:Hl using rev_ind; [by destruct (log_ok_nonempty _ Hlog)|].
    rewrite <- app_assoc. cbn [app]. rewrite links_snoc, elem_of_app, list_elem_of_singleton.
    intros [?|Hk]; [by left|right]. rewrite Hk. unfold new_link, LastLogTermLocked.
    by rewrite Hl, last_snoc.
  - intros [[Hlog _ _] _] _. unfold appended_core, LastLogIndexLocked at 2. node_simpl.
    rewrite last_snoc. cbn [index]. lia.
Qed.

Lemma tracks_AppendLocalLog data n :
  LastLogIndexLocked (core n) < u64_max →
  tracks (λ k, k = new_link data (core n)) n (AppendLocalLogUnlocked data n).2.
Proof.
  intros Hmax Hn. revert Hn. intros Hn. unfold AppendLocalLogUnlocked. cbv zeta.
  rewrite (SafeAddOne_lt (LastLogIndexLocked (core n)))
    by (done || apply LastLogIndex_u64; apply Hn).
  match goal with |- context [PersistStateLocked ?m] =>
    change m with (n <| core ::= appended_core (node_id (config_ n)) data |>) end.
  pose proof (tracks_append data (node_id (config_ n)) n Hmax) as H1.
  set (n1 := n <| core ::= appended_core (node_id (config_ n)) data |>) in *.
  pose proof (tracks_persist (λ k, k = new_link data (core n)) n1) as H2.
  destruct (PersistStateLocked_frame n1) as [_ _ Hc _ _ _ _].
  destruct (PersistStateLocked n1) as [[[] ?] n2]; cbn [snd negb] in *;
    [by apply (transitivity H1 H2)|].
  apply (tracks_undo _ n n2); [by etrans| |node_simpl; by rewrite Hc|done|done].
  node_simpl. rewrite Hc. unfold n1, appended_core. node_simpl. rewrite removelast_last. split; auto.
Qed.

Lemma tracks_ProposeLocked cmd n :
  LastLogIndexLocked (core n) < u64_max →
  tracks (λ k, role_ (core n) = kLeader ∧ k = new_link (Serialize cmd) (core n)) n (ProposeLocked cmd n).2.
Proof.
  intros Hmax. unfold ProposeLocked. cbv zeta. case_match; [track_step|].
  case_decide as Hrole; [track_step|].
  case_match; [track_step|]. case_decide; [track_step|].
  pose proof (tracks_AppendLocalLog (Serialize cmd) n Hmax) as Hq.
  destruct (AppendLocalLogUnlocked (Serialize cmd) n) as [i n1]. cbn [snd] in Hq.
  assert (Hq' : tracks (λ k, role_ (core n) = kLeader ∧ k = new_link (Serialize cmd) (core n)) n n1)
    by (by eapply tracks_weaken; [|exact Hq]).
  case_decide; (etrans; [exact Hq'|track_step]).
Qed.

(** Either the entry is nowhere, and the disk as before; or the disk was overwritten. *)
Definition append_outcome (data : string) n n' : Prop :=
  (∀ k, k ∈ links (log_ (core n')) → k ∈ links (log_ (core n))) ∧
    disk_log (env_ n') = disk_log (env_ n) ∨
  ∀ k, k ∈ links (disk_log (env_ n')) → k ∈ links (log_ (core n)) ∨ k = new_link data (core n).

Lemma AppendLocalLog_outcome data n :
  LastLogIndexLocked (core n) < u64_max → node_wf n →
  append_outcome data n (AppendLocalLogUnlocked data n).2.
Proof.
  intros Hmax Hn. unfold AppendLocalLogUnlocked. cbv zeta.
  rewrite (SafeAddOne_lt (LastLogIndexLocked (core n)))
    by (done || apply LastLogIndex_u64; apply Hn).
  match goal with |- context [PersistStateLocked ?m] =>
    change m with (n <| core ::= appended_core (node_id (config_ n)) data |>) end.
  pose proof (tracks_append data (node_id (config_ n)) n Hmax Hn) as H1.
  set (n1 := n <| core ::= appended_core (node_id (config_ n)) data |>) in *.
  destruct (PersistStateLocked_frame n1) as [_ _ Hc _ _ _ _].
  assert (Hnew : ∀ n2, disk_state (env_ n2) = Some (recovered (persistent_state (core n1))) →
    ∀ k, k ∈ links (disk_log (env_ n2)) → k ∈ links (log_ (core n)) ∨ k = new_link data (core n)).
  { intros n2 Hd k. unfold disk_log. rewrite Hd, recovered_log. apply H1. }
  destruct (PersistStateLocked n1) as [[ok err] n2] eqn:Hp; cbn [snd] in Hc.
  destruct ok; cbn [negb snd].
  - right. by eapply Hnew, PersistStateLocked_disk.
  - destruct (PersistStateLocked_disk_fail recovered _ _ _ Hp) as [Hd|Hd]; [left|right; by apply Hnew].
    node_simpl. rewrite Hc. unfold n1, appended_core, disk_log. node_simpl.
    rewrite removelast_last, Hd. done.
Qed.

Lemma ProposeLocked_outcome cmd n :
  LastLogIndexLocked (core n) < u64_max → node_wf n →
  append_outcome (Serialize cmd) n (ProposeLocked cmd n).2.
Proof.
  intros Hmax Hn. unfold ProposeLocked. cbv zeta. case_match; [by left|]. case_decide; [by left|].
  case_match; [by left|]. case_decide; [by left|].
  pose proof (AppendLocalLog_outcome (Serialize cmd) n Hmax Hn) as Ho.
  destruct (AppendLocalLogUnlocked (Serialize cmd) n) as [i n1]. by case_decide.
Qed.

(** *** Elections *)

(** Moving the hard state, writing it, and going back when the write fails. *)
Lemma tracks_try X n (m n' : Node SM E) :
  same_records (core n) (core m) → disk_state (env_ m) = disk_state (env_ n) →
  (role_ (core m) = kLeader → role_ (core n) = kLeader) →
  same_records (core n) (core n') → (role_ (core n') = kLeader → role_ (core n) = kLeader) →
  disk_state (env_ n') = disk_state (env_ (PersistStateLocked m).2) → tracks X n n'.
Proof.
  intros Hs Hd Hr Hs' Hr' Hd'. eapply tracks_undo; [|done..].
  etrans; [by apply (tracks_same X n m)|apply tracks_persist].
Qed.

Lemma tracks_StartElection X n : tracks X n (StartElection n).2.
Proof.
  unfold StartElection. set (n1 := n <| metrics_ ::= RecordElectionStarted |>).
  assert (Hq1 : tracks X n n1) by track_step.
  destruct (negb (running_ n1) || _); [done|]. cbv zeta.
  match goal with |- context [PersistStateLocked ?m] => set (n2 := m) end.
  destruct (PersistStateLocked_frame n2) as [_ _ Hk2 _ _ _ _].
  assert (Hq2 : tracks X n n2) by (etrans; [exact Hq1|track_step]).
  pose proof (tracks_persist X n2) as Hp.
  assert (Htry : ∀ n', same_records (core n1) (core n') → role_ (core n') = role_ (core n1) →
    disk_state (env_ n') = disk_state (env_ (PersistStateLocked n2).2) → tracks X n1 n').
  { intros n' ? Hr ?. apply (tracks_try X n1 n2); try done; [by split; auto|by rewrite Hr]. }
  destruct (PersistStateLocked n2) as [[[] ?] n3]; cbn [snd negb] in *.
  - assert (Hq : tracks X n (ResetElectionTimerLocked n3)).
    { etrans; [|apply tracks_steady, (steady_election_timer recovered)]. by etrans. }
    destruct (decide (quorum_of (config_ n3) ≤ 1)); exact Hq.
  - etrans; [exact Hq1|]. etrans; [|apply tracks_steady, (steady_election_timer recovered)].
    apply Htry; node_simpl; rewrite ?Hk2; [by split; auto|done|done].
Qed.

Lemma tracks_OnElectionTimeout X g n : tracks X n (OnElectionTimeout g n).2.
Proof.
  unfold OnElectionTimeout.
  assert (Hq : tracks X n (OnElectionTimeoutLocked g n).2)
    by (unfold OnElectionTimeoutLocked; repeat case_match; track_step).
  destruct (OnElectionTimeoutLocked g n) as [[] m]; cbn [snd] in *; [|done].
  etrans; [exact Hq|apply tracks_StartElection].
Qed.
End tracks.

(** ** Snapshots and restart *)
Section snapshots.
Context {SM E : Type} `{HostEnv E, IRaftStorage E, ISnapshotStorage E, !IStateMachine SM E}.
Context (recovered : PersistentRaftState → PersistentRaftState).
Context `{!StorageLaws E recovered, !RecoveredLog recovered, !DiskFrames SM E, !SnapshotIndices E}.
Implicit Types n : Node SM E.

Lemma tracks_env X n e : disk_state e = disk_state (env_ n) → tracks X n (n <| env_ := e |>).
Proof. intros He. apply tracks_same; [split; auto|done|done]. Qed.

Lemma restore_wf i t keep c :
  core_wf c → is_u64 i → core_wf (RestoreLogAfterSnapshotLocked i t keep c).
Proof.
  intros [Hlog Hz Hb] Hi. split; [by apply RestoreLog_log_ok|..];
    rewrite RestoreLog_cases by done; case_decide; try done; unfold compacted_core; node_simpl.
  - pose proof (log_low _ Hlog). lia.
  - destruct Hb as [? ?]. split; node_simpl; u64_lia.
Qed.

Lemma restore_low i t keep c :
  log_ok c → applied_low c → applied_low (RestoreLogAfterSnapshotLocked i t keep c).
Proof.
  unfold applied_low. intros Hlog Hl. rewrite RestoreLog_cases by done. case_decide; [done|].
  unfold compacted_core. node_simpl. lia.
Qed.

(** Compacting at an arbitrary boundary, on a node that does not lead. *)
Lemma tracks_compact X i t n n' :
  role_ (core n) ≠ kLeader → is_u64 i →
  same_records (CompactLogPrefixLocked i t (core n)) (core n') → role_ (core n') = role_ (core n) →
  disk_state (env_ n') = disk_state (env_ n) → tracks X n n'.
Proof.
  intros Hrole Hi Hs Hr Hd. apply tracks_log; [| |by rewrite Hr|by rewrite Hr| |done].
  - intros [Hc _]. eapply same_records_wf; [exact Hs|by apply restore_wf].
  - intros [[Hlog _ _] _] k. rewrite (sr_log _ _ Hs). intros Hk. left. by eapply links_restore.
  - intros [[Hlog _ _] _] Hl. eapply same_records_low; [exact Hs|by apply restore_low].
Qed.

Lemma restore_role i t keep c : role_ (RestoreLogAfterSnapshotLocked i t keep c) = role_ c.
Proof. apply restore_hs. Qed.

(** The worker compacts at [last_applied_], with the term the log has there. *)
Lemma tracks_WorkerCompact X n m :
  core m = core n → disk_state (env_ m) = disk_state (env_ n) →
  tracks X n (WorkerCompactLocked (last_applied_ (core n))
                (TermAtIndexLocked (core n) (last_applied_ (core n))) m).
Proof.
  intros Hc Hd. unfold WorkerCompactLocked. case_decide as Hlt;
    [|apply tracks_same; rewrite ?Hc; [apply same_records_refl|done|done]].
  etrans; [|apply (tracks_persist recovered)]. rewrite Hc in Hlt.
  assert (Hcore : ∀ i t, core (m <| core ::= CompactLogPrefixLocked i t |>) =
                         CompactLogPrefixLocked i t (core n)) by (intros; node_simpl; by rewrite Hc).
  set (i := last_applied_ (core n)) in *. set (t := TermAtIndexLocked (core n) i).
  apply tracks_log; rewrite ?Hcore; [| |by unfold CompactLogPrefixLocked; rewrite restore_role| | |done].
  - intros [Hwf _]. apply restore_wf; [done|by apply core_wf_applied].
  - intros [[Hlog _ _] _] k Hk. left. by eapply links_restore.
  - intros [[Hlog _ _] _] _. unfold CompactLogPrefixLocked. rewrite RestoreLog_cases by done.
    rewrite decide_False by lia. unfold boundary_matches, t. rewrite TermAtIndex_ok by done.
    cbn [andb]. pose proof (LastLogIndex_ok _ Hlog) as Hl.
    destruct (LogAtIndexLocked (core n) i) as [r|] eqn:Hr.
    + rewrite bool_decide_true by done. rewrite LogAtIndex_lookup, decide_True in Hr by (done || lia).
      apply lookup_lt_Some in Hr.
      assert (Hcont : contiguous i (mkLogRecord i (term r) kSnapshotMarkerCommand ::
                drop (Z.to_nat (i + 1 - last_snapshot_index_ (core n))) (log_ (core n)))).
      { apply contiguous_cons. split; [done|].
        replace (i + 1) with (last_snapshot_index_ (core n) +
          Z.of_nat (Z.to_nat (i + 1 - last_snapshot_index_ (core n)))) at 1 by lia.
        apply contiguous_drop, Hlog. }
      unfold LastLogIndexLocked at 2, compacted_core. node_simpl.
      destruct (last _) as [x|] eqn:Hx; [|by apply last_None in Hx].
      rewrite (contiguous_last _ _ _ Hcont Hx). cbn [length]. rewrite length_drop. lia.
    + unfold LastLogIndexLocked at 2, compacted_core. node_simpl. cbn [last index].
      rewrite LogAtIndex_lookup, decide_True in Hr by (done || lia).
      apply lookup_ge_None in Hr. lia.
  - intros [[Hlog _ _] _]. by apply restore_low.
Qed.

Lemma tracks_SnapshotWorkerTurn X n : tracks X n (SnapshotWorkerTurn n).2.
Proof.
  unfold SnapshotWorkerTurn. case_match; [done|].
  set (n1 := set_field snapw _ n). assert (Hq1 : tracks X n n1) by (apply tracks_same; [split; auto|done|done]).
  unfold WorkerSave. cbv zeta.
  pose proof (disk_sm_save (worker_temp_path n1) (state_machine_ n1) (env_ n1)) as Hd1.
  destruct (sm_SaveSnapshot _ _ (env_ n1)) as [r e1]. cbn [snd] in *.
  set (n2 := n1 <| env_ := e1 |>).
  assert (Hq2 : tracks X n n2) by (etrans; [exact Hq1|by apply tracks_env]).
  etrans; [|apply (tracks_steady recovered), (steady_MaybeSchedule recovered false)].
  match goal with |- tracks _ n (set_field snapw _ ?m) =>
    etrans; [|by apply (tracks_same X m); [split; auto|..]] end.
  case_match; [etrans; [exact Hq2|by apply tracks_same; [split; auto|..]]|].
  match goal with |- context [snapshot_SaveSnapshotFile ?p ?i ?t (env_ n2)] =>
    pose proof (disk_snapshot_save (SM := SM) p i t (env_ n2)) as Hd2;
    destruct (snapshot_SaveSnapshotFile p i t (env_ n2)) as [[saved ?] e2] end. cbn [snd] in Hd2.
  set (n3 := n2 <| env_ := e2 |>).
  assert (Hq3 : tracks X n n3) by (etrans; [exact Hq2|by apply tracks_env]).
  destruct saved; [|etrans; [exact Hq3|by apply tracks_same; [split; auto|..]]].
  pose proof (tracks_WorkerCompact X n3 n3 eq_refl eq_refl) as Hq4.
  match goal with |- context [WorkerCompactLocked ?i ?t n3] =>
    change (tracks X n3 (WorkerCompactLocked i t n3)) in Hq4 end.
  etrans; [exact Hq3|]. etrans; [exact Hq4|]. apply tracks_same; [by split; auto|done|].
  node_simpl. apply (disk_prune (SM := SM)).
Qed.

Lemma InstallCheck_role request response n response' n' :
  InstallCheckLocked request response n = ((None, response'), n') → role_ (core n') = kFollower.
Proof.
  unfold InstallCheckLocked. cbv zeta. case_decide; [done|].
  set (req := mkAppendEntriesRequest (ireq_term request) (ireq_leader_id request) 0 0 [] 0).
  match goal with |- context [let '(_, _) := ?f in _] => change f with (FollowLeaderLocked req n) end.
  pose proof (FollowLeader_role req n) as Hr.
  destruct (FollowLeaderLocked req n) as [[] n1]; cbn [negb]; [|done].
  case_decide; [done|]. by intros [= _ <-].
Qed.

Lemma tracks_InstallCheck X request response n :
  tracks X n (InstallCheckLocked request response n).2.
Proof.
  unfold InstallCheckLocked. cbv zeta. case_decide; [done|].
  set (req := mkAppendEntriesRequest (ireq_term request) (ireq_leader_id request) 0 0 [] 0).
  match goal with |- context [let '(_, _) := ?f in _] => change f with (FollowLeaderLocked req n) end.
  pose proof (tracks_steady recovered X _ _ (steady_FollowLeader recovered req n ltac:(cbn; lia))) as Hq.
  destruct (FollowLeaderLocked req n) as [[] n1]; cbn [snd negb] in *; [|done].
  by case_decide.
Qed.

Lemma tracks_InstallLoad X request saved response n :
  role_ (core n) ≠ kLeader → is_u64 (ireq_last_included_index request) →
  tracks X n (InstallLoadLocked request saved response n).2.
Proof.
  intros Hrole Hi. unfold InstallLoadLocked. destruct (sm_LoadSnapshot _ _ _) as [r sm].
  case_match; [by apply tracks_same; [split; auto|..]|].
  case_decide; [by apply tracks_same; [split; auto|..]|]. cbv zeta.
  match goal with |- context [PersistStateLocked ?m] =>
    assert (Hm : tracks X n m);
    [|pose proof (tracks_persist recovered X m) as Hq; destruct (PersistStateLocked m) as [[[] ?] n1]] end.
  - apply tracks_use. intros Hn.
    pose proof (cw_bounds _ (restore_wf (ireq_last_included_index request)
      (ireq_last_included_term request) true _ (nw_core _ Hn) Hi)) as [Ha Hc].
    eapply (tracks_compact X (ireq_last_included_index request) (ireq_last_included_term request));
      [done|done| | |done]; node_simpl.
    + split; node_simpl; auto. right. unfold CompactLogPrefixLocked.
      split; [lia|split; node_simpl; u64_lia].
    + apply restore_role.
  - by etrans.
  - by etrans.
Qed.

Lemma tracks_OnInstallSnapshot X request n :
  is_u64 (ireq_last_included_index request) → tracks X n (OnInstallSnapshot request n).2.
Proof.
  intros Hi. unfold OnInstallSnapshot. cbv zeta. case_match; [done|].
  match goal with |- context [InstallCheckLocked ?r ?resp n] =>
    pose proof (tracks_InstallCheck X r resp n) as Hq;
    pose proof (InstallCheck_role r resp n) as Hrole;
    destruct (InstallCheckLocked r resp n) as [[[] ?] n1] end; cbn [snd] in *; [done|].
  specialize (Hrole _ _ eq_refl).
  pose proof (disk_create_directories (cfg_snapshot_dir (snapshot_config_ n1)) (env_ n1)) as Hd1.
  destruct (create_directories _ (env_ n1)) as [failed e1]. cbn [snd] in Hd1.
  assert (Hq1 : tracks X n (n1 <| env_ := e1 |>)) by (etrans; [exact Hq|by apply tracks_env]).
  case_match; [done|]. set (n2 := n1 <| env_ := e1 |>) in *.
  pose proof (disk_write_install n2 (ireq_snapshot_data request) (env_ n2)) as Hd2.
  destruct (write_file _ _ (env_ n2)) as [[opened written] e2]. cbn [snd] in Hd2.
  assert (Hq2 : tracks X n (n2 <| env_ := e2 |>)) by (etrans; [exact Hq1|by apply tracks_env]).
  case_match; [done|]. case_match; [done|]. set (n3 := n2 <| env_ := e2 |>) in *.
  pose proof (disk_snapshot_save (SM := SM) (install_temp_path n2) (ireq_last_included_index request)
                (ireq_last_included_term request) (env_ n3)) as Hd3.
  destruct (snapshot_SaveSnapshotFile _ _ _ (env_ n3)) as [[saved ?] e3]. cbn [snd] in Hd3.
  assert (Hq3 : tracks X n (n3 <| env_ := e3 |>)) by (etrans; [exact Hq2|by apply tracks_env]).
  set (n4 := n3 <| env_ := e3 |>) in *. destruct saved as [meta|].
  - assert (Hrole4 : role_ (core n4) ≠ kLeader) by (change (role_ (core n1) ≠ kLeader); by rewrite Hrole).
    match goal with |- context [InstallLoadLocked ?r ?p ?resp n4] =>
      pose proof (tracks_InstallLoad X r p resp n4 Hrole4 Hi) as Hq4;
      destruct (InstallLoadLocked r p resp n4) as [resp' n5] end. cbn [snd] in Hq4.
    assert (Hq5 : tracks X n n5) by (by etrans).
    case_match; [|done]. etrans; [exact Hq5|]. apply tracks_same; [by split; auto|done|].
    node_simpl. apply (disk_prune (SM := SM)).
  - etrans; [exact Hq3|]. apply tracks_same; [by split; auto|done|]. node_simpl.
    change (install_temp_path n2) with (install_temp_path n4). apply disk_remove_install.
Qed.

(** *** Restart *)

(** Startup sets [last_applied_] to the snapshot's index, from zero. *)
Lemma tracks_LoadFirstSnapshot X l n :
  Forall (λ m, is_u64 (last_included_index m)) l → role_ (core n) ≠ kLeader →
  last_applied_ (core n) = 0 → tracks X n (LoadFirstSnapshot l n).2.
Proof.
  intros Hl. revert n. induction Hl as [|meta l Hi _ IH]; intros n Hrole Hz; [done|].
  cbn [LoadFirstSnapshot]. destruct (sm_LoadSnapshot _ _ _) as [r sm].
  case_match; [etrans; [|by apply IH]; by apply tracks_same; [split; auto|..]|]. cbv zeta.
  match goal with |- context [PersistStateLocked ?m] =>
    assert (Hm : tracks X n m);
    [|pose proof (tracks_persist recovered X m) as Hq; destruct (PersistStateLocked m) as [[[] ?] n1]] end.
  - apply tracks_use. intros Hn.
    destruct (cw_bounds _ (restore_wf (last_included_index meta) (last_included_term meta) true _
      (nw_core _ Hn) Hi)) as [Ha Hc].
    assert (Hle : last_applied_ (RestoreLogAfterSnapshotLocked (last_included_index meta)
      (last_included_term meta) true (core n)) ≤ last_included_index meta).
    { rewrite RestoreLog_cases by apply Hn. case_decide; unfold compacted_core; node_simpl; u64_lia. }
    eapply (tracks_compact X (last_included_index meta) (last_included_term meta));
      [done|done| | |done]; node_simpl; [|apply restore_role].
    split; node_simpl; auto. right. unfold CompactLogPrefixLocked.
    split; [lia|split; node_simpl; u64_lia].
  - by etrans.
  - by etrans.
Qed.

Lemma tracks_LoadLatestSnapshot X n :
  role_ (core n) ≠ kLeader → last_applied_ (core n) = 0 →
  tracks X n (LoadLatestSnapshotOnStartup n).2.
Proof.
  intros Hrole Hz. unfold LoadLatestSnapshotOnStartup. case_match; [done|].
  destruct (snapshot_ListSnapshotsWithDiagnostics (env_ n)) as [[r|] err] eqn:Hlist; [|done].
  apply tracks_LoadFirstSnapshot; [by eapply listed_u64|done..].
Qed.

(** What the constructor makes of a well-formed disk. *)
Lemma recovered_core_wf st : stored_wf st →
  core_wf (recovered_core (Some st)) ∧ log_ (recovered_core (Some st)) = ps_log st.
Proof.
  intros (c & [Hlog Hz _] & Hl & Hcommit). pose proof (LastLogIndex_ge _ Hlog) as Hend. pose proof (log_ok_nonempty _ Hlog) as Hne.
  destruct Hlog as [(cmd & Hh & Hm) Hcont Hlow Hhigh]. rewrite Hl in *.
  assert (Hb : recovered_core (Some st) =
    let c' := mkCore kFollower (ps_current_term st) (ps_voted_for st) (-1) (ps_log st)
                (Z.max (ps_commit_index st) (ps_last_applied st)) 0
                (last_snapshot_index_ c) (last_snapshot_term_ c) ∅ ∅ in
    if decide (LastLogIndexLocked c' < commit_index_ c')
    then c' <| commit_index_ := LastLogIndexLocked c' |> else c').
  { unfold recovered_core. destruct (ps_log st) as [|f log]; [done|]. injection Hh as ->.
    cbn [head index command term].
    destruct (decide (0 < last_snapshot_index_ c)) as [Hpos|Hpos].
    - rewrite (Hm Hpos), !bool_decide_true by done. done.
    - rewrite (bool_decide_false (0 < _)) by done. cbn [andb fst snd].
      assert (last_snapshot_index_ c = 0) as Hi by lia. by rewrite (Hz Hi), Hi. }
  set (c' := mkCore _ _ _ _ (ps_log st) _ _ _ _ _ _) in Hb. cbv zeta in Hb.
  assert (Hlast : LastLogIndexLocked c' = LastLogIndexLocked c)
    by (unfold LastLogIndexLocked, c'; node_simpl; by rewrite Hl).
  assert (Hlog' : log_ok c').
  { split; [by exists cmd|done|done|by rewrite Hlast]. }
  assert (Ha : last_applied_ c' = 0 ∧ last_snapshot_index_ c' = last_snapshot_index_ c ∧
    commit_index_ c' = Z.max (ps_commit_index st) (ps_last_applied st)) by done.
  rewrite Hb. split; [|by case_decide]. case_decide as Hd; (split; [|done|split; node_simpl; u64_lia]).
  - by destruct Hlog'; split.
  - done.
Qed.

Lemma recovered_core_applied st : last_applied_ (recovered_core st) = 0.
Proof. destruct st as [st|]; [|done]. unfold recovered_core. cbv zeta. by case_decide. Qed.

Lemma bootstrap_core_wf : core_wf (recovered_core None).
Proof.
  split; [|done|by split]. split; [by eexists| |done|done].
  intros [|k] r Hk; by simplify_eq/=.
Qed.

Lemma disk_log_same (e e' : E) : disk_state e' = disk_state e → disk_log e' = disk_log e.
Proof. unfold disk_log. by intros ->. Qed.
Lemma disk_wf_same (e e' : E) : disk_state e' = disk_state e → disk_wf e → disk_wf e'.
Proof. unfold disk_wf. by intros ->. Qed.

(** The constructor adds no link to those on disk, whether it returns or throws. *)
Lemma RaftNode_new_tracks config snapshot_config (sm : SM) (e : E) r e' :
  RaftNode_new config snapshot_config sm e = (r, e') → disk_wf e →
  disk_wf e' ∧ (∀ k, k ∈ links (disk_log e') → k ∈ links (disk_log e)) ∧
  ∀ n, r = inr n → node_wf n ∧ applied_low (core n) ∧ e' = env_ n ∧ role_ (core n) ≠ kLeader ∧
    ∀ k, k ∈ links (log_ (core n)) → k ∈ links (disk_log e).
Proof.
  intros Hrun Hwf. unfold RaftNode_new in Hrun. cbv zeta in Hrun.
  set (config1 := if decide (data_dir config = []) then _ else _) in Hrun.
  set (sc := if decide (cfg_snapshot_dir _ = []) then _ else _) in Hrun. clearbody config1 sc.
  pose proof (ValidateNodeIdentity_disk (SM := SM) config1 e) as Hd1.
  destruct (ValidateNodeIdentity config1 e) as [[] e1]; cbn [snd] in Hd1.
  { injection Hrun as <- <-. rewrite (disk_log_same _ _ Hd1).
    split_and!; [by eapply disk_wf_same|done|discriminate]. }
  pose proof (disk_load (SM := SM) e1) as Hd2.
  assert (Hst : match (storage_Load e1).1 with
                | (true, st, true, _) => disk_state e = Some st | _ => disk_state e = None end).
  { rewrite <- Hd1. unfold disk_state. by destruct (storage_Load e1).1 as [[[[] ?] []] ?]. }
  destruct (storage_Load e1) as [[[[ok st] has] err] e2]. cbn [fst snd] in *.
  assert (Hd : disk_state e2 = disk_state e) by congruence.
  destruct ok; cbn [negb] in Hrun.
  2:{ injection Hrun as <- <-. rewrite (disk_log_same _ _ Hd).
      split_and!; [by eapply disk_wf_same|done|discriminate]. }
  match type of Hrun with context [LoadLatestSnapshotOnStartup ?m] =>
    assert (Hm : node_wf m ∧ role_ (core m) = kFollower ∧ last_applied_ (core m) = 0 ∧ disk_state (env_ m) = disk_state e ∧
                 (∀ k, k ∈ links (log_ (core m)) → k ∈ links (disk_log e)));
    [|set (n0 := m) in *; clearbody n0] end.
  { split_and!; [split; [|by eapply disk_wf_same]|..]; node_simpl; [|apply recovered_core_role|by apply recovered_core_applied|done|].
    - destruct has; [apply recovered_core_wf, (Hwf _ Hst)|apply bootstrap_core_wf].
    - intros k. destruct has; [|by intros ?%not_elem_of_nil].
      unfold disk_log. rewrite Hst. by rewrite (proj2 (recovered_core_wf _ (Hwf _ Hst))). }
  destruct Hm as (Hw0 & Hr0 & Ha0 & He0 & Hl0).
  assert (Hfin : ∀ n', tracks (λ _, False) n0 n' →
    node_wf n' ∧ role_ (core n') ≠ kLeader ∧
    (∀ k, k ∈ links (disk_log (env_ n')) → k ∈ links (disk_log e)) ∧
    ∀ k, k ∈ links (log_ (core n')) → k ∈ links (disk_log e)).
  { intros n' Ht. destruct (Ht Hw0) as [Hw Hl Hdk Hr _ _]. split_and!; [done|intros ?%Hr; congruence|..].
    - intros k Hk. destruct (Hdk k Hk) as [Hk'|[Hk'|[]]]; [|by apply Hl0].
      by rewrite <- (disk_log_same _ _ He0).
    - intros k Hk. destruct (Hl k Hk) as [|[]]. by apply Hl0. }
  pose proof (tracks_LoadLatestSnapshot (λ _, False) n0 ltac:(by rewrite Hr0) Ha0) as Hq.
  destruct (LoadLatestSnapshotOnStartup n0) as [[loaded serr] n1]; cbn [snd] in Hq.
  destruct (Hfin n1 Hq) as (Hw1 & Hr1 & Hd1' & Hl1).
  destruct (negb loaded && _);
    [injection Hrun as <- <-; split_and!; [apply Hw1|done|discriminate]|].
  destruct (decide (last_applied_ (core n1) < commit_index_ (core n1))).
  - pose proof (tracks_ApplyCommitted recovered (λ _, False) n1) as Hq2.
    pose proof (ApplyCommitted_low recovered n1 Hw1) as Hlow.
    destruct (ApplyCommittedEntries n1) as [rr n2]; cbn [snd] in Hq2, Hlow.
    destruct (Hfin n2 ltac:(by etrans)) as (Hw2 & Hr2 & Hd2' & Hl2).
    destruct (Ok rr); cbn [negb] in Hrun; injection Hrun as <- <-;
      (split_and!; [apply Hw2|done|]); [|discriminate]. by intros ? [= <-].
  - injection Hrun as <- <-. split_and!; [apply Hw1|done|]. intros ? [= <-].
    destruct (cw_bounds _ (nw_core _ Hw1)) as [? ?]. split_and!; try done. unfold applied_low. lia.
Qed.
End snapshots.
