(* ===== verification/Cluster.v ===== *)
(** The cluster: nodes, crashes and the elections between them, as a step relation
    over the operations of the node.  Each step is one critical section of
    raft_node.cpp on one node (the constructor, a turn of the snapshot worker and
    [OnInstallSnapshot] are single steps too), so the interleavings of threads and
    messages are sequences of steps; messages may be delayed, reordered or lost (a step that is
    never taken), nodes crash and restart from their disk at any point. *)
From S2P Require Import Prelude Command Types Timer Metrics Env Sim Node SimNode.
From S2P Require Import NodeLog Election AppendEntries Bytes Fs StateMachine Commit.
From S2P Require Import Replicator Propose SnapshotNode Steady Votes.

(** ** State *)

(** An election: the tasks [StartElection] submitted, with the atomics they share
    ([votes], [won]).  [el_requests]: tasks whose request the peer has not
    answered; [el_replies]: answers the candidate has not handled; [el_granted]:
    the peers whose vote was counted; [el_due]: [OnElectionWon] is about to be
    called; [el_alive]: the candidate's process has not crashed since. *)
Record Election := mkElection {
  el_candidate : Z;
  el_term : Z;
  el_quorum : Z;
  el_requests : list (Z * VoteRequest);
  el_replies : list (Z * VoteResponse);
  el_granted : list Z;
  el_votes : Z;
  el_won : bool;
  el_due : bool;
  el_alive : bool }.

#[export] Instance eta_Election : Eta Election := λ el,
  mkElection (el_candidate el) (el_term el) (el_quorum el) (el_requests el) (el_replies el)
    (el_granted el) (el_votes el) (el_won el) (el_due el) (el_alive el).

(** A process that runs, or the disk of one that does not. *)
Inductive Host (SM E : Type) := Up (n : Node SM E) | Down (e : E).
Arguments Up {SM E} _.
Arguments Down {SM E} _.

(** The elections are kept once they are over, as the history of the cluster. *)
Record Cluster (SM E : Type) := mkCluster {
  hosts : gmap Z (Host SM E);
  elections : list Election }.
Arguments mkCluster {SM E} _ _.
Arguments hosts {SM E} _.
Arguments elections {SM E} _.

#[export] Instance eta_Cluster SM E : Eta (Cluster SM E) := λ C,
  mkCluster (hosts C) (elections C).

(** The deployment: every member is configured with its own id and with exactly
    the other members as peers. *)
Record deployment (members : gset Z) (cfg : Z → NodeConfig) : Prop := {
  dep_id : ∀ i, i ∈ members → node_id (cfg i) = i ∧ i ≠ -1;
  dep_nodup : ∀ i, i ∈ members → NoDup (peer_node_id <$> peers (cfg i));
  dep_peers : ∀ i, i ∈ members →
    list_to_set (peer_node_id <$> peers (cfg i)) = members ∖ {[i]} }.

(** ** Steps *)
Section steps.
Context {SM E : Type} `{HostEnv E, IRaftStorage E, ISnapshotStorage E, !IStateMachine SM E}.
Context (cfg : Z → NodeConfig) (scfg : Z → snapshotConfig) (sm0 : Z → SM).
Implicit Types n : Node SM E.

(** What [StartElection] leaves to be done. *)
Definition new_election (r : ElectionStart) n : list Election :=
  let self := node_id (config_ n) in
  match r with
  | ElectionAborted => []
  | ElectionWonAlone t => [mkElection self t (quorum_of (config_ n)) [] [] [] 1 true true true]
  | ElectionAsk t quorum requests =>
      [mkElection self t quorum requests [] [] 1 false false true]
  end.

(** The vote task from its locked section on: [go] is the section's outcome. *)
Definition count_reply (el : Election) (j : Z) (resp : VoteResponse) (go : bool)
    (rest : list (Z * VoteResponse)) : Election :=
  let el := el <| el_replies := rest |> in
  if go then
    let '(wins, (votes, won)) :=
      CountVote (el_quorum el) (vresp_vote_granted resp) (el_votes el) (el_won el) in
    el <| el_votes := votes |> <| el_won := won |> <| el_due ::= orb wins |>
       <| el_granted ::= λ l, if vresp_vote_granted resp then j :: l else l |>
  else el.

(** The operations of a node that neither cast a vote nor make a leader, with any
    message: what the peers sent is not constrained. *)
Inductive local_step : Node SM E → Node SM E → Prop :=
  | LS_append request n : local_step n (OnAppendEntriesLocked request n).2
  | LS_apply n : local_step n (ApplyIteration n).2
  | LS_build peer_id t n : local_step n (BuildAppendEntriesRequest peer_id t n).2
  | LS_append_reply peer_id t target response n :
      local_step n (HandleAppendEntriesResponse peer_id t target response n).2
  | LS_replicator peer_id f n : local_step n (on_replicator peer_id f n)
  | LS_install request n : local_step n (OnInstallSnapshot request n).2
  | LS_install_reply peer_id t i response n :
      local_step n (HandleInstallSnapshotResponse peer_id t i response n).2
  | LS_propose cmd n : local_step n (ProposeLocked cmd n).2
  | LS_noop n : role_ (core n) = kLeader →
      local_step n (AppendLocalLogUnlocked kInternalNoOpCommand n).2
  | LS_commit n : local_step n (AdvanceCommitIndexUnlocked n)
  | LS_heartbeat n : local_step n (OnHeartbeatTimer n).2
  | LS_snapshot_timer n : local_step n (OnSnapshotTimer n)
  | LS_snapshot n : local_step n (SnapshotWorkerTurn n).2
  | LS_metrics m n : local_step n (n <| metrics_ := m |>)
  | LS_host e n : disk_state e = disk_state (env_ n) → local_step n (n <| env_ := e |>)
  | LS_stop n : local_step n (Stop n).

(** What a member does for its life cycle and the elections. *)
Inductive control_step : Cluster SM E → Cluster SM E → Prop :=
  (** the process of a member starts, or fails to *)
  | CS_boot C i e r e' :
      hosts C !! i = Some (Down e) → RaftNode_new (cfg i) (scfg i) (sm0 i) e = (r, e') →
      control_step C (C <| hosts ::= <[i := match r with
                                            | inr n => Up (Start true n).2
                                            | inl _ => Down e'
                                            end]> |>)
  (** it dies: only its disk stays *)
  | CS_crash C i n :
      hosts C !! i = Some (Up n) →
      control_step C (C <| hosts ::= <[i := Down (env_ n)]> |>
                        <| elections ::= fmap (λ el, if decide (el_candidate el = i)
                                                     then el <| el_alive := false |> else el) |>)
  (** its election timer fires; terms are [uint64_t] and have not run out *)
  | CS_timeout C i n timer_generation r n' :
      hosts C !! i = Some (Up n) →
      0 ≤ current_term_ (core n) < u64_max →
      OnElectionTimeout timer_generation n = (r, n') →
      control_step C (C <| hosts ::= <[i := Up n']> |>
                        <| elections ::= λ l, l ++ new_election r n' |>)
  (** a vote request reaches its peer *)
  | CS_vote C k el before j request after n resp n' :
      elections C !! k = Some el → el_requests el = before ++ (j, request) :: after →
      hosts C !! j = Some (Up n) → OnRequestVote request n = (resp, n') →
      control_step C (C <| hosts ::= <[j := Up n']> |>
                        <| elections ::= <[k := el <| el_requests := before ++ after |>
                                                   <| el_replies ::= cons (j, resp) |>]> |>)
  (** the answer reaches the candidate *)
  | CS_reply C k el before j resp after n go n' :
      elections C !! k = Some el → el_alive el = true →
      el_replies el = before ++ (j, resp) :: after →
      hosts C !! el_candidate el = Some (Up n) →
      OnVoteResponseLocked (el_term el) resp n = (go, n') →
      control_step C (C <| hosts ::= <[el_candidate el := Up n']> |>
                        <| elections ::= <[k := count_reply el j resp go (before ++ after)]> |>)
  (** the vote task that won calls [OnElectionWon] *)
  | CS_won C k el n go n' :
      elections C !! k = Some el → el_alive el = true → el_due el = true →
      hosts C !! el_candidate el = Some (Up n) → OnElectionWonLocked (el_term el) n = (go, n') →
      control_step C (C <| hosts ::= <[el_candidate el := Up n']> |>
                        <| elections ::= <[k := el <| el_due := false |>]> |>).

Inductive cluster_step : Cluster SM E → Cluster SM E → Prop :=
  | CS_control C C' : control_step C C' → cluster_step C C'
  | CS_local C i n n' :
      hosts C !! i = Some (Up n) → local_step n n' →
      cluster_step C (C <| hosts ::= <[i := Up n']> |>).

(** At first every member is down, with any disk. *)
Definition cluster_init (members : gset Z) (C : Cluster SM E) : Prop :=
  elections C = [] ∧ ∀ i h, hosts C !! i = Some h → i ∈ members ∧ ∃ e, h = Down e.

Definition reachable (members : gset Z) (C : Cluster SM E) : Prop :=
  ∃ C0, cluster_init members C0 ∧ rtc cluster_step C0 C.

(** Node [i] is the leader of term [t]. *)
Definition leads (C : Cluster SM E) (i t : Z) : Prop :=
  ∃ n, hosts C !! i = Some (Up n) ∧ role_ (core n) = kLeader ∧ current_term_ (core n) = t.
End steps.

(** ** Invariant *)
Section invariant.
Context {SM E : Type} `{HostEnv E, IRaftStorage E, ISnapshotStorage E, !IStateMachine SM E}.
Context (recovered : PersistentRaftState → PersistentRaftState) `{!StorageLaws E recovered}.
Context `{!DiskFrames SM E}.
Context (cfg : Z → NodeConfig) (scfg : Z → snapshotConfig) (sm0 : Z → SM) (members : gset Z).
Context (Hdep : deployment members cfg).
Implicit Types (n : Node SM E) (C : Cluster SM E) (el : Election).

Lemma local_step_quiet n n' : local_step n n' → quiet n n'.
Proof.
  destruct 1.
  - apply (quiet_OnAppendEntries recovered).
  - apply (quiet_ApplyIteration recovered).
  - apply (quiet_steady recovered), (steady_BuildRequest recovered).
  - apply (quiet_Handle recovered).
  - apply (quiet_steady recovered), (steady_on_replicator recovered).
  - apply (quiet_OnInstallSnapshot recovered).
  - apply (quiet_HandleInstall recovered).
  - apply (quiet_ProposeLocked recovered).
  - apply (quiet_AppendLocalLog recovered).
  - apply (quiet_AdvanceCommit recovered).
  - apply (quiet_steady recovered), (steady_OnHeartbeatTimer recovered).
  - apply (quiet_steady recovered), (steady_OnSnapshotTimer recovered).
  - apply (quiet_SnapshotWorkerTurn recovered).
  - by apply quiet_same.
  - by apply quiet_env.
  - apply (quiet_steady recovered), (steady_Stop recovered).
Qed.

Definition host_durable (v : hard_state) (h : Host SM E) : Prop :=
  match h with Up n => durable v n | Down e => on_disk v e end.
Definition host_config (i : Z) (h : Host SM E) : Prop :=
  match h with
  | Up n => node_id (config_ n) = i ∧ peers (config_ n) = peers (cfg i)
  | Down _ => True
  end.
Definition voted C (j : Z) (v : hard_state) : Prop :=
  ∃ h, hosts C !! j = Some h ∧ host_durable v h.

Definition el_vote el : hard_state := (el_term el, el_candidate el).

(** The votes of an election: the candidate's own, those counted, and those on
    their way. *)
Definition cast el (j : Z) : Prop :=
  j = el_candidate el ∨ j ∈ el_granted el ∨
  ∃ resp, (j, resp) ∈ el_replies el ∧ vresp_vote_granted resp = true.

Definition asked el : list Z := (el_requests el).*1 ++ (el_replies el).*1 ++ el_granted el.

Record election_ok el : Prop := {
  eo_member : el_candidate el ∈ members;
  eo_quorum : el_quorum el = quorum_of (cfg (el_candidate el));
  eo_requests : ∀ j request, (j, request) ∈ el_requests el →
    (vreq_term request, vreq_candidate_id request) = el_vote el;
  eo_nodup : NoDup (asked el);
  eo_asked : ∀ j, j ∈ asked el → j ∈ members ∧ j ≠ el_candidate el;
  eo_votes : el_votes el = 1 + Z.of_nat (length (el_granted el));
  eo_won : el_won el = true → el_quorum el ≤ el_votes el;
  eo_due : el_due el = true → el_won el = true }.

Definition won_by C (i t : Z) : Prop :=
  ∃ el, el ∈ elections C ∧ el_vote el = (t, i) ∧ el_won el = true.

Record cluster_ok C : Prop := {
  co_hosts : ∀ i h, hosts C !! i = Some h → i ∈ members ∧ host_config i h;
  co_elections : ∀ el, el ∈ elections C → election_ok el;
  co_cast : ∀ el j, el ∈ elections C → cast el j → voted C j (el_vote el);
  co_unique : ∀ el1 el2 j, el1 ∈ elections C → el2 ∈ elections C → cast el1 j → cast el2 j →
    el_term el1 = el_term el2 → el_candidate el1 = el_candidate el2;
  co_leader : ∀ i t, leads C i t → won_by C i t }.

(** A vote no other vote of its term stands against. *)
Definition fresh_vote (v : hard_state) (h : Host SM E) : Prop :=
  ∀ w, host_durable w h → w.2 ≠ -1 → w.1 = v.1 → w.2 = v.2.

(** One host changes and at most one vote is cast. *)
Lemma cluster_ok_update C i h h' (els : list Election) (cast_now : option hard_state) :
  cluster_ok C → hosts C !! i = Some h → host_config i h' →
  (∀ v, host_durable v h → host_durable v h') →
  (∀ v, cast_now = Some v → host_durable v h' ∧ fresh_vote v h) →
  (∀ el, el ∈ els → election_ok el) →
  (∀ el j, el ∈ els → cast el j →
     (∃ el0, el0 ∈ elections C ∧ el_vote el0 = el_vote el ∧ cast el0 j) ∨
     j = i ∧ cast_now = Some (el_vote el)) →
  (∀ el0, el0 ∈ elections C → el_won el0 = true →
     ∃ el, el ∈ els ∧ el_vote el = el_vote el0 ∧ el_won el = true) →
  (∀ n t, h' = Up n → role_ (core n) = kLeader → current_term_ (core n) = t →
     won_by C i t ∨ ∃ el, el ∈ els ∧ el_vote el = (t, i) ∧ el_won el = true) →
  cluster_ok (mkCluster (<[i := h']> (hosts C)) els).
Proof.
  intros Hok Hi Hcfg Hkeep Hnow Hels Hcast Hwon Hlead.
  assert (Hvoted : ∀ j v, voted C j v → voted (mkCluster (<[i := h']> (hosts C)) els) j v).
  { intros j v (hj & Hj & Hv). unfold voted. cbn [hosts]. destruct (decide (j = i)) as [->|Hne].
    - rewrite lookup_insert_eq. exists h'. split; [done|]. apply Hkeep. congruence.
    - rewrite lookup_insert_ne by done. eauto. }
  assert (Hkept : ∀ k t, won_by C k t → won_by (mkCluster (<[i := h']> (hosts C)) els) k t).
  { intros k t (el0 & Hin & Hv & Hw). destruct (Hwon _ Hin Hw) as (el & Hin' & Hv' & Hw').
    exists el. by rewrite Hv'. }
  split; cbn [hosts elections].
  - intros k hk [[<- <-]|[? Hk]]%lookup_insert_Some; [split; [by eapply co_hosts|done]|].
    by eapply co_hosts.
  - done.
  - intros el j Hin Hc. destruct (Hcast el j Hin Hc) as [(el0 & Hin0 & <- & Hc0)|[-> Hn]].
    + by apply Hvoted, co_cast.
    + exists h'. cbn [hosts]. rewrite lookup_insert_eq. split; [done|]. by apply Hnow.
  - intros el1 el2 j Hin1 Hin2 Hc1 Hc2 Ht.
    assert (Hold : ∀ el el', el ∈ els → election_ok el' →
      (∃ el0, el0 ∈ elections C ∧ el_vote el0 = el_vote el' ∧ cast el0 i) →
      cast_now = Some (el_vote el) → el_term el' = el_term el →
      el_candidate el' = el_candidate el).
    { intros el el' Hel Hel' (el0 & Hin0 & Hv0 & Hc0) Hn Ht'.
      destruct (co_cast _ Hok _ _ Hin0 Hc0) as (hi & Hhi & Hd).
      rewrite Hi in Hhi. injection Hhi as <-. destruct (Hnow _ Hn) as [_ Hfresh].
      rewrite Hv0 in Hd. apply (Hfresh _ Hd); [|done].
      apply (dep_id _ _ Hdep), Hel'. }
    destruct (Hcast _ _ Hin1 Hc1) as [Ho1|[-> Ho1]], (Hcast _ _ Hin2 Hc2) as [Ho2|[Hj Ho2]].
    + destruct Ho1 as (e1 & Hi1 & Hv1 & Hc1'), Ho2 as (e2 & Hi2 & Hv2 & Hc2').
      injection Hv1 as Ht1 <-. injection Hv2 as Ht2 <-.
      apply (co_unique _ Hok e1 e2 j); congruence.
    + subst j. eapply Hold; eauto.
    + symmetry. eapply Hold; eauto.
    + rewrite Ho1 in Ho2. by injection Ho2.
  - intros k t (n & Hn & Hr & Ht). cbn [hosts] in Hn.
    apply lookup_insert_Some in Hn as [[<- Hh]|[Hne Hn]].
    + destruct (Hlead n t Hh Hr Ht) as [Hw|(el & ? & ? & ?)]; [by apply Hkept|by exists el].
    + apply Hkept, co_leader; [done|]. by exists n.
Qed.

(** A host changes, the elections keep their votes: the votes on their way may
    have been handled, and nothing is won or lost. *)
Lemma cluster_ok_keep C i h h' els :
  cluster_ok C → hosts C !! i = Some h → host_config i h' →
  (∀ v, host_durable v h → host_durable v h') →
  (∀ el, el ∈ els → election_ok el ∧ ∃ el0, el0 ∈ elections C ∧ el_vote el0 = el_vote el ∧
     ∀ j, cast el j → cast el0 j) →
  (∀ el0, el0 ∈ elections C → el_won el0 = true →
     ∃ el, el ∈ els ∧ el_vote el = el_vote el0 ∧ el_won el = true) →
  (∀ n t, h' = Up n → role_ (core n) = kLeader → current_term_ (core n) = t →
     won_by C i t ∨ ∃ el, el ∈ els ∧ el_vote el = (t, i) ∧ el_won el = true) →
  cluster_ok (mkCluster (<[i := h']> (hosts C)) els).
Proof.
  intros Hok Hi Hcfg Hkeep Hels Hwon Hlead.
  apply (cluster_ok_update C i h h' els None); try done.
  - intros el Hin. by apply Hels.
  - intros el j Hin Hc. left. destruct (Hels el Hin) as (_ & el0 & ? & ? & Hj). eauto.
Qed.

(** Elections unchanged. *)
Lemma cluster_ok_same C i h h' :
  cluster_ok C → hosts C !! i = Some h → host_config i h' →
  (∀ v, host_durable v h → host_durable v h') →
  (∀ n t, h' = Up n → role_ (core n) = kLeader → current_term_ (core n) = t → won_by C i t) →
  cluster_ok (C <| hosts ::= <[i := h']> |>).
Proof.
  intros Hok Hi Hcfg Hkeep Hlead. apply (cluster_ok_keep C i h h' (elections C)); try done.
  - intros el Hin. split; [by eapply co_elections|]. by exists el.
  - intros el0 Hin Hw. by exists el0.
  - intros n t Hh Hr Ht. left. by eapply Hlead.
Qed.

Lemma quiet_host C i n n' :
  cluster_ok C → hosts C !! i = Some (Up n) → quiet n n' →
  host_config i (Up n') ∧ (∀ v, host_durable v (Up n) → host_durable v (Up n')) ∧
  (∀ t, role_ (core n') = kLeader → current_term_ (core n') = t → won_by C i t).
Proof.
  intros Hok Hi Hq. split_and!.
  - destruct (co_hosts _ Hok _ _ Hi) as [_ Hc]. cbn in *. by rewrite (q_config _ _ Hq).
  - intros v. by apply quiet_durable.
  - intros t Hr Ht. destruct (q_leader _ _ Hq Hr) as [Hr' Ht'].
    apply (co_leader _ Hok). exists n. split_and!; [done|done|congruence].
Qed.

Lemma elections_insert k el' (els : list Election) el :
  el ∈ <[k := el']> els → el = el' ∨ el ∈ els.
Proof.
  intros (j & Hj)%list_elem_of_lookup. apply list_lookup_insert_Some in Hj.
  destruct Hj as [(_ & -> & _)|[_ Hj]]; [by left|right]. by eapply list_elem_of_lookup_2.
Qed.

(** One election changes: what is left to show of it. *)
Lemma cluster_ok_election C i n n' k el el' (cast_now : option hard_state) :
  cluster_ok C → hosts C !! i = Some (Up n) → elections C !! k = Some el →
  host_config i (Up n') → (∀ v, host_durable v (Up n) → host_durable v (Up n')) →
  (∀ v, cast_now = Some v → host_durable v (Up n') ∧ fresh_vote v (Up n)) →
  election_ok el' → el_vote el' = el_vote el → (el_won el = true → el_won el' = true) →
  (∀ j, cast el' j → cast el j ∨ j = i ∧ cast_now = Some (el_vote el)) →
  (role_ (core n') = kLeader → won_by C i (current_term_ (core n'))) →
  cluster_ok (C <| hosts ::= <[i := Up n']> |> <| elections ::= <[k := el']> |>).
Proof.
  intros Hok Hi Hk Hcfg Hkeep Hnow Hel' Hv Hw Hcast Hlead.
  pose proof (list_elem_of_lookup_2 _ _ _ Hk) as Hin.
  apply (cluster_ok_update C i (Up n) (Up n') _ cast_now); try done.
  - intros e [->|He]%elections_insert; [done|]. by eapply co_elections.
  - intros e j [->|He]%elections_insert Hc; [|by left; exists e].
    destruct (Hcast j Hc) as [Hc'|[-> Hn]]; [left; by exists el|right]. by rewrite Hv.
  - intros e0 He0 Hw0. apply list_elem_of_lookup in He0 as [m Hm].
    destruct (decide (m = k)) as [->|Hne].
    + exists el'. rewrite Hk in Hm. injection Hm as <-. split_and!; [|done|by apply Hw].
      apply (list_elem_of_lookup_2 _ k). by apply list_lookup_insert_eq, (lookup_lt_Some _ _ _ Hk).
    + exists e0. split_and!; [|done|done]. apply (list_elem_of_lookup_2 _ m).
      by rewrite list_lookup_insert_ne.
  - intros m t [= <-] Hr <-. left. by apply Hlead.
Qed.

(** ** The steps *)

Lemma cluster_ok_boot C i e r e' :
  cluster_ok C → hosts C !! i = Some (Down e) → RaftNode_new (cfg i) (scfg i) (sm0 i) e = (r, e') →
  cluster_ok (C <| hosts ::= <[i := match r with
                                    | inr n => Up (Start true n).2
                                    | inl _ => Down e'
                                    end]> |>).
Proof.
  intros Hok Hi Hnew. destruct (co_hosts _ Hok _ _ Hi) as [Hin _].
  destruct (RaftNode_new_durable recovered _ _ _ _ _ _ Hnew) as [Hdisk Hup].
  destruct r as [m|n]; [by apply (cluster_ok_same C i (Down e))|].
  destruct (Hup n eq_refl) as (_ & Hr & Hid & Hp & Hdur).
  pose proof (quiet_steady recovered _ _ (steady_Start recovered true n)) as Hq.
  apply (cluster_ok_same C i (Down e)); [done|done|..].
  - cbn. rewrite (q_config _ _ Hq). by rewrite Hid, (proj1 (dep_id _ _ Hdep _ Hin)).
  - intros v Hv. eapply quiet_durable; [exact Hq|by apply Hdur].
  - intros ? t [= <-] Hl. by destruct (q_leader _ _ Hq Hl).
Qed.

Lemma cluster_ok_crash C i n :
  cluster_ok C → hosts C !! i = Some (Up n) →
  cluster_ok (C <| hosts ::= <[i := Down (env_ n)]> |>
                <| elections ::= fmap (λ el, if decide (el_candidate el = i)
                                             then el <| el_alive := false |> else el) |>).
Proof.
  intros Hok Hi. set (f := λ el, if decide (el_candidate el = i) then _ else el).
  assert (Hf : ∀ el, (election_ok el → election_ok (f el)) ∧ el_vote (f el) = el_vote el ∧
                     el_won (f el) = el_won el ∧ ∀ j, cast (f el) j → cast el j).
  { intros el. unfold f. case_decide; [|done]. split_and!; [by intros []|done..]. }
  apply (cluster_ok_keep C i (Up n)); [done|done|done|by intros v []|..].
  - intros e (el & -> & Hin)%list_elem_of_fmap. destruct (Hf el) as (Ho & Hv & _ & Hc).
    split; [by apply Ho, (co_elections _ Hok)|]. exists el. by rewrite Hv.
  - intros el Hin Hw. exists (f el). destruct (Hf el) as (_ & Hv & Hw' & _).
    split_and!; [by apply list_elem_of_fmap_2|done|by rewrite Hw'].
  - done.
Qed.

(** [OnElectionTimeout] is quiet, and an election it starts casts the candidate's
    own vote in a term it never voted in. *)
Lemma OnElectionTimeout_spec g n r n' :
  OnElectionTimeout g n = (r, n') → 0 ≤ current_term_ (core n) < u64_max →
  quiet n n' ∧
  (r = ElectionAborted ∨
   let t := current_term_ (core n) + 1 in
   durable (t, node_id (config_ n)) n' ∧
   (r = ElectionWonAlone t ∧ quorum_of (config_ n) ≤ 1 ∨
    ∃ requests, r = ElectionAsk t (quorum_of (config_ n)) requests ∧
      requests.*1 = peer_node_id <$> peers (config_ n) ∧
      ∀ j request, (j, request) ∈ requests →
        (vreq_term request, vreq_candidate_id request) = (t, node_id (config_ n)))).
Proof.
  intros Hrun Ht.
  assert (Hgo : ∃ b m, OnElectionTimeoutLocked g n = (b, m) ∧ core m = core n ∧
                       config_ m = config_ n ∧ quiet n m).
  { unfold OnElectionTimeoutLocked. repeat case_match; eexists _, _; split_and!;
      first [done|by apply quiet_same]. }
  destruct Hgo as (b & m & Hgo & Hc & Hg & Hq). unfold OnElectionTimeout in Hrun.
  rewrite Hgo in Hrun.
  destruct b; [|injection Hrun as <- <-; by split; [|left]].
  rewrite <- Hc, <- Hg in *. pose proof (quiet_StartElection recovered m) as Hq2.
  rewrite Hrun in Hq2. cbn [snd] in Hq2. split; [etrans; [exact Hq|apply Hq2; lia]|].
  destruct (decide (r = ElectionAborted)) as [|Hr]; [by left|right].
  destruct (StartElection_casts recovered _ _ _ Hrun Hr) as [Hd Ht']; [lia..|]. cbv zeta.
  split; [done|]. apply StartElection_effect in Hrun as (_ & [[-> _]|(_ & _ & _ & Heff)]); [done|].
  cbv zeta in Heff. rewrite Ht' in Heff.
  destruct Heff as [Heff| ->]; [by left|right]. eexists. split_and!; [done|..].
  - rewrite <- list_fmap_compose. by apply list_fmap_ext.
  - intros j request (p & [= -> ->] & _)%list_elem_of_fmap. done.
Qed.

Lemma cluster_ok_timeout C i n g r n' :
  cluster_ok C → hosts C !! i = Some (Up n) → 0 ≤ current_term_ (core n) < u64_max →
  OnElectionTimeout g n = (r, n') →
  cluster_ok (C <| hosts ::= <[i := Up n']> |> <| elections ::= λ l, l ++ new_election r n' |>).
Proof.
  intros Hok Hi Ht Hrun. destruct (OnElectionTimeout_spec _ _ _ _ Hrun Ht) as [Hq Hr].
  destruct (quiet_host _ _ _ _ Hok Hi Hq) as (Hcfg & Hdur & Hlead).
  destruct (co_hosts _ Hok _ _ Hi) as [Hmem [Hid Hpeers]].
  set (v := (current_term_ (core n) + 1, i)).
  assert (Hnew : ∀ el, el ∈ new_election r n' → election_ok el ∧ el_vote el = v ∧
    el_granted el = [] ∧ el_replies el = [] ∧ r ≠ ElectionAborted).
  { unfold new_election. rewrite (q_config _ _ Hq).
    assert (Hquorum : quorum_of (config_ n) = quorum_of (cfg i))
      by (unfold quorum_of; by rewrite Hpeers).
    destruct Hr as [->|[_ [[-> Hq1]|(requests & -> & Hj & Hreq)]]]; [by intros ? ?%not_elem_of_nil|..];
      intros el ->%list_elem_of_singleton; rewrite Hid in *; (split; [|done]).
    - split; cbn; try done; [by intros ?? ?%not_elem_of_nil|constructor|by intros ? ?%not_elem_of_nil].
    - unfold el_vote. split; cbn -[quorum_of]; try done; unfold asked; cbn [el_requests el_replies el_granted];
        cbn [fmap list_fmap app]; rewrite app_nil_r, Hj, Hpeers; [by apply (dep_nodup _ _ Hdep)|].
      intros j Hjin. apply (elem_of_list_to_set (C := gset Z)) in Hjin.
      rewrite (dep_peers _ _ Hdep _ Hmem) in Hjin. set_solver. }
  apply (cluster_ok_update C i (Up n) (Up n') _ (if decide (r = ElectionAborted) then None else Some v));
    try done.
  - intros w. case_decide; [done|]. intros [= <-]. split.
    + destruct Hr as [->|[Hd _]]; [done|]. by rewrite Hid in Hd.
    + intros w [Hw _] _ Heq. unfold hs_le, hs_of, v in *. cbn in *. lia.
  - intros el [Hin|Hin]%elem_of_app; [by eapply co_elections|]. by apply Hnew.
  - intros el j [Hin|Hin]%elem_of_app Hc; [by left; exists el|right].
    destruct (Hnew el Hin) as (_ & Hv & Hg & Hrep & Hab). rewrite decide_False by done.
    rewrite Hv. split; [|done]. unfold cast in Hc. rewrite Hg, Hrep in Hc. injection Hv as _ <-.
    destruct Hc as [|[?%not_elem_of_nil|(? & ?%not_elem_of_nil & _)]]; done.
  - intros el Hin Hw. exists el. split_and!; [by apply elem_of_app; left|done..].
  - intros m t [= <-] Hr' Ht'. left. by apply Hlead.
Qed.

(** Moving an answered task from the requests to the replies, or from there to
    the counted votes, keeps who was asked. *)
Lemma asked_perm_ok el el' :
  election_ok el → el_vote el' = el_vote el → el_quorum el' = el_quorum el →
  (∀ x, x ∈ el_requests el' → x ∈ el_requests el) → asked el' ≡ₚ asked el →
  el_votes el' = 1 + Z.of_nat (length (el_granted el')) →
  (el_won el' = true → el_quorum el' ≤ el_votes el') → (el_due el' = true → el_won el' = true) →
  election_ok el'.
Proof.
  intros [Hm Hq Hr Hn Ha _ _ _] Hv Hq' Hreq Hp Hvotes Hwon Hdue.
  pose proof Hv as [= Ht Hc]. split; rewrite ?Hc, ?Hq', ?Hv; try done.
  - intros j request Hin. by apply (Hr j), Hreq.
  - by rewrite Hp.
  - intros j. rewrite Hp. apply Ha.
  - by rewrite <- Hq'.
Qed.

Lemma asked_middle {A} (before after : list (Z * A)) j x :
  (before ++ (j, x) :: after).*1 ≡ₚ j :: (before ++ after).*1.
Proof. rewrite !fmap_app, fmap_cons. cbn [fst]. by rewrite Permutation_middle. Qed.

Lemma cluster_ok_vote C k el before j request after n resp n' :
  cluster_ok C → elections C !! k = Some el → el_requests el = before ++ (j, request) :: after →
  hosts C !! j = Some (Up n) → OnRequestVote request n = (resp, n') →
  cluster_ok (C <| hosts ::= <[j := Up n']> |>
                <| elections ::= <[k := el <| el_requests := before ++ after |>
                                           <| el_replies ::= cons (j, resp) |>]> |>).
Proof.
  intros Hok Hk Hreq Hj Hrun. pose proof (list_elem_of_lookup_2 _ _ _ Hk) as Hin.
  pose proof (co_elections _ Hok _ Hin) as Hel.
  pose proof (quiet_steady recovered _ _ (steady_OnRequestVote recovered request n)) as Hq. rewrite Hrun in Hq.
  destruct (quiet_host _ _ _ _ Hok Hj Hq) as (Hcfg & Hdur & Hlead).
  assert (Hv : (vreq_term request, vreq_candidate_id request) = el_vote el).
  { eapply eo_requests; [done|]. rewrite Hreq. by apply elem_of_app; right; left. }
  assert (Hp : asked (el <| el_requests := before ++ after |> <| el_replies ::= cons (j, resp) |>)
               ≡ₚ asked el).
  { unfold asked. cbn [set_field el_requests el_replies el_granted]. rewrite Hreq, asked_middle, fmap_cons.
    cbn [fst app]. by rewrite <- Permutation_middle. }
  eapply (cluster_ok_election C j n n' k el _
            (if vresp_vote_granted resp then Some (el_vote el) else None)); try done.
  - intros v Hnow. destruct (vresp_vote_granted resp) eqn:Hg; [|done]. injection Hnow as <-.
    destruct (OnRequestVote_casts recovered _ _ _ _ Hrun Hg) as [Hd Hle].
    rewrite Hv in Hd, Hle. split; [done|]. intros w [Hw _] Hw2 Hw1.
    assert (hs_le w (el_vote el)) as Hle' by (by etrans). unfold hs_le in Hle'. lia.
  - apply (asked_perm_ok el); try done; [|by apply Hel..].
    intros x. cbn [set_field el_requests]. rewrite Hreq, !elem_of_app, elem_of_cons. tauto.
  - intros j' [->|[Hg|(resp' & Hr & Hg)]]; [by left; left|by left; right; left|].
    cbn [set_field el_replies] in Hr. apply elem_of_cons in Hr as [[= -> ->]|Hr].
    + right. by rewrite Hg.
    + left. right. right. eauto.
  - intros Hr. by eapply Hlead.
Qed.

Lemma count_reply_won el j resp go rest :
  el_vote (count_reply el j resp go rest) = el_vote el ∧
  (el_won el = true → el_won (count_reply el j resp go rest) = true).
Proof.
  unfold count_reply, CountVote. destruct go; [|done]. destruct (vresp_vote_granted resp); [|done].
  cbn [negb]. by destruct (_ && _).
Qed.

Lemma count_reply_spec el j resp go before after :
  election_ok el → el_replies el = before ++ (j, resp) :: after →
  let el' := count_reply el j resp go (before ++ after) in
  election_ok el' ∧ el_vote el' = el_vote el ∧ (el_won el = true → el_won el' = true) ∧
  ∀ i, cast el' i → cast el i.
Proof.
  intros Hel Hrep. cbv zeta. unfold count_reply, CountVote.
  assert (Hin : (j, resp) ∈ el_replies el) by (rewrite Hrep; by apply elem_of_app; right; left).
  assert (Hsub : ∀ i r, (i, r) ∈ before ++ after → (i, r) ∈ el_replies el).
  { intros i r. rewrite Hrep, !elem_of_app, elem_of_cons. tauto. }
  assert (Hdrop : asked el ≡ₚ j :: asked (el <| el_replies := before ++ after |>)).
  { unfold asked. cbn [set_field el_requests el_replies el_granted].
    rewrite Hrep, asked_middle. cbn [app]. by rewrite <- Permutation_middle. }
  (* an answer that is not counted *)
  assert (Hskip : ∀ due, (due = true → el_due el = true) →
    election_ok (el <| el_replies := before ++ after |> <| el_due := due |>)).
  { intros due Hdue. destruct Hel as [Hm Hq Hr Hn Ha Hvo Hw Hdu].
    rewrite Hdrop in Hn. apply NoDup_cons in Hn as [_ Hn].
    split; try done; [|by intros ?%Hdue%Hdu].
    intros i Hi. apply Ha. rewrite Hdrop. by right. }
  assert (Hself : ∀ e, e <| el_due := el_due e |> = e) by (by intros []).
  destruct go.
  2:{ split_and!; [|done|done|].
      - rewrite <- (Hself (el <| el_replies := _ |>)). by apply Hskip.
      - intros i [->|[?|(r & Hr & ?)]]; [by left|by right; left|right; right; eauto]. }
  destruct (vresp_vote_granted resp) eqn:Hg; cbn [negb].
  2:{ split_and!; [|done|done|].
      - cbn [orb set_field]. by apply (Hskip (el_due el)).
      - intros i [->|[?|(r & Hr & ?)]]; [by left|by right; left|right; right; eauto]. }
  assert (Hcast : ∀ e, el_granted e = j :: el_granted el → el_replies e = before ++ after →
            el_candidate e = el_candidate el → ∀ i, cast e i → cast el i).
  { intros e He1 He2 He3 i. unfold cast. rewrite He1, He2, He3.
    intros [->|[[->|?]%elem_of_cons|(r & Hr & ?)]]; [by left|right; right; eauto|by right; left|].
    right. right. eauto. }
  destruct (bool_decide (el_quorum el ≤ el_votes el + 1) && negb (el_won el)) eqn:Hwin;
    cbn [set_field el_quorum el_votes el_won] in *; rewrite Hwin; (split_and!; [|done|done|by apply Hcast]).
  - apply andb_prop in Hwin as [Hwin%bool_decide_eq_true _].
    apply (asked_perm_ok el); try done.
    + rewrite Hdrop. unfold asked. cbn. by rewrite !app_assoc, <- Permutation_middle.
    + cbn. rewrite (eo_votes _ Hel). lia.
  - apply (asked_perm_ok el); try done.
    + rewrite Hdrop. unfold asked. cbn. by rewrite !app_assoc, <- Permutation_middle.
    + cbn. rewrite (eo_votes _ Hel). lia.
    + cbn. intros Hw. pose proof (eo_won _ Hel Hw). lia.
    + apply Hel.
Qed.

Lemma cluster_ok_reply C k el before j resp after n go n' :
  cluster_ok C → elections C !! k = Some el → el_replies el = before ++ (j, resp) :: after →
  hosts C !! el_candidate el = Some (Up n) → OnVoteResponseLocked (el_term el) resp n = (go, n') →
  cluster_ok (C <| hosts ::= <[el_candidate el := Up n']> |>
                <| elections ::= <[k := count_reply el j resp go (before ++ after)]> |>).
Proof.
  intros Hok Hk Hrep Hi Hrun. pose proof (list_elem_of_lookup_2 _ _ _ Hk) as Hin.
  pose proof (quiet_steady recovered _ _ (steady_OnVoteResponse recovered (el_term el) resp n)) as Hq. rewrite Hrun in Hq.
  destruct (quiet_host _ _ _ _ Hok Hi Hq) as (Hcfg & Hdur & Hlead).
  destruct (count_reply_spec el j resp go before after (co_elections _ Hok _ Hin) Hrep)
    as (Hel & Hv & Hw & Hc).
  eapply (cluster_ok_election C _ n n' k el _ None); try done.
  - intros i Hi'. left. by apply Hc.
  - intros Hr. by eapply Hlead.
Qed.

Lemma cluster_ok_won C k el n go n' :
  cluster_ok C → elections C !! k = Some el → el_due el = true →
  hosts C !! el_candidate el = Some (Up n) → OnElectionWonLocked (el_term el) n = (go, n') →
  cluster_ok (C <| hosts ::= <[el_candidate el := Up n']> |>
                <| elections ::= <[k := el <| el_due := false |>]> |>).
Proof.
  intros Hok Hk Hdue Hi Hrun. pose proof (list_elem_of_lookup_2 _ _ _ Hk) as Hin.
  pose proof (co_elections _ Hok _ Hin) as Hel.
  assert (Hwon : won_by C (el_candidate el) (el_term el)).
  { exists el. split_and!; [done|done|]. by apply Hel. }
  assert (Hn' : env_ n' = env_ n).
  { unfold OnElectionWonLocked in Hrun. repeat case_match; simplify_eq/=; [done|done|].
    apply BecomeLeader_env. }
  apply OnElectionWonLocked_effect in Hrun as [[Hcfg _] Heff].
  assert (Hhs : hs_of (core n') = hs_of (core n)).
  { destruct Heff as [[_ ->]|(_ & _ & _ & Hls)]; [done|]. unfold hs_of. by destruct Hls as [_ _ -> ->]. }
  destruct (co_hosts _ Hok _ _ Hi) as [_ Hhc].
  eapply (cluster_ok_election C _ n n' k el _ None); try done.
  - cbn in *. by rewrite Hcfg.
  - intros v [Hv Hd]. split; [by rewrite Hhs|by rewrite Hn'].
  - by destruct Hel.
  - intros j Hj. by left.
  - intros Hr. destruct Heff as [[_ Hc]|(_ & _ & Ht & Hls)].
    + rewrite Hc in *. apply (co_leader _ Hok). by exists n.
    + by rewrite (ls_term _ _ _ Hls), Ht.
Qed.

Lemma control_step_ok C C' : cluster_ok C → control_step cfg scfg sm0 C C' → cluster_ok C'.
Proof.
  intros Hok Hstep.
  destruct Hstep as [C i e r e' Hi Hnew|C i n Hi|C i n g r n' Hi Ht Hrun
    |C k el before j request after n resp n' Hk Hreq Hj Hrun
    |C k el before j resp after n go n' Hk Hal Hrep Hi Hrun
    |C k el n go n' Hk Hal Hdue Hi Hrun].
  - by eapply cluster_ok_boot.
  - by apply cluster_ok_crash.
  - by eapply cluster_ok_timeout.
  - by eapply cluster_ok_vote.
  - by eapply cluster_ok_reply.
  - by eapply cluster_ok_won.
Qed.

Lemma cluster_step_ok C C' : cluster_ok C → cluster_step cfg scfg sm0 C C' → cluster_ok C'.
Proof.
  intros Hok Hstep. destruct Hstep as [C1 C2 Hstep|C1 i n n' Hi Hl]; [by eapply control_step_ok|].
  destruct (quiet_host _ _ _ _ Hok Hi (local_step_quiet _ _ Hl)) as (Hcfg & Hdur & Hlead).
  eapply cluster_ok_same; try done. intros m t [= <-] Hr Ht. by apply Hlead.
Qed.

Lemma cluster_init_ok C : cluster_init members C → cluster_ok C.
Proof.
  intros [Hel Hdown]. split; rewrite ?Hel; try (by intros ? ?%not_elem_of_nil);
    try (by intros ?? ?%not_elem_of_nil); try (by intros ??? ?%not_elem_of_nil).
  - intros i h Hi. destruct (Hdown _ _ Hi) as (? & e & ->). done.
  - intros i t (n & Hn & _). by destruct (Hdown _ _ Hn) as (_ & e & [=]).
Qed.

Lemma reachable_ok C : reachable cfg scfg sm0 members C → cluster_ok C.
Proof.
  intros (C0 & Hinit & Hsteps). apply cluster_init_ok in Hinit.
  induction Hsteps as [|C1 C2 C3 Hstep _ IH]; [done|]. apply IH. by eapply cluster_step_ok.
Qed.

End invariant.

(** ** Quorums *)
Section quorums.
Context (cfg : Z → NodeConfig) (members : gset Z) (Hdep : deployment members cfg).
Implicit Types el : Election.

Definition voters el : list Z := el_candidate el :: el_granted el.

Lemma deployment_size i : i ∈ members → size members = S (length (peers (cfg i))).
Proof.
  intros Hm. pose proof (size_list_to_set (C := gset Z) _ (dep_nodup _ _ Hdep _ Hm)) as Hs.
  rewrite (dep_peers _ _ Hdep _ Hm), size_difference, size_singleton, length_fmap in Hs by set_solver.
  assert (size members ≠ 0%nat) by (intros Hz%size_empty_inv; set_solver). lia.
Qed.

Lemma voters_ok el :
  election_ok cfg members el → NoDup (voters el) ∧ (∀ j, j ∈ voters el → j ∈ members) ∧
  (el_won el = true → Z.of_nat (size members) < 2 * Z.of_nat (length (voters el))).
Proof.
  intros Hel. pose proof (eo_nodup _ _ _ Hel) as Hn. unfold asked in Hn.
  assert (Hg : ∀ j, j ∈ el_granted el → j ∈ asked el)
    by (intros j Hj; unfold asked; rewrite !elem_of_app; auto).
  split_and!.
  - unfold voters. apply NoDup_cons. split; [|by apply NoDup_app in Hn as (_ & _ & (_ & _ & Hn)%NoDup_app)].
    intros Hj. by destruct (eo_asked _ _ _ Hel _ (Hg _ Hj)).
  - intros j [->|Hj]%elem_of_cons; [apply Hel|]. by apply (eo_asked _ _ _ Hel), Hg.
  - intros Hw. pose proof (eo_won _ _ _ Hel Hw) as Hq. rewrite (eo_quorum _ _ _ Hel), (eo_votes _ _ _ Hel) in Hq.
    pose proof (eo_member _ _ _ Hel) as Hm.
    pose proof (deployment_size _ Hm) as Hs.
    unfold quorum_of in Hq. unfold voters. cbn [length]. rewrite Hs.
    rewrite !Nat2Z.inj_succ. Z.div_mod_to_equations. lia.
Qed.

Lemma quorums_meet (l1 l2 : list Z) :
  NoDup l1 → NoDup l2 → (∀ j, j ∈ l1 → j ∈ members) → (∀ j, j ∈ l2 → j ∈ members) →
  Z.of_nat (size members) < 2 * Z.of_nat (length l1) →
  Z.of_nat (size members) < 2 * Z.of_nat (length l2) → ∃ j, j ∈ l1 ∧ j ∈ l2.
Proof.
  intros Hn1 Hn2 Hm1 Hm2 Hl1 Hl2.
  destruct (decide (Exists (λ j, j ∈ l2) l1)) as [(j & ? & ?)%Exists_exists|Hno]; [eauto|].
  exfalso. assert (Hdisj : ∀ j, j ∈ l1 → j ∉ l2).
  { intros j Hj1 Hj2. apply Hno, Exists_exists. eauto. }
  assert (Hnd : NoDup (l1 ++ l2)) by (by apply NoDup_app).
  pose proof (size_list_to_set (C := gset Z) _ Hnd) as Hs. rewrite length_app in Hs.
  assert (Hsub : (list_to_set (l1 ++ l2) : gset Z) ⊆ members).
  { intros j. rewrite elem_of_list_to_set, elem_of_app. naive_solver. }
  apply subseteq_size in Hsub. lia.
Qed.

Context {SM E : Type} `{HostEnv E, IRaftStorage E, ISnapshotStorage E, !IStateMachine SM E}.
Implicit Types C : Cluster SM E.

Lemma one_winner C i j t :
  cluster_ok cfg members C → won_by C i t → won_by C j t → i = j.
Proof.
  intros Hok (e1 & Hin1 & Hv1 & Hw1) (e2 & Hin2 & Hv2 & Hw2).
  destruct (voters_ok _ (co_elections _ _ _ Hok _ Hin1)) as (Hn1 & Hm1 & Hl1).
  destruct (voters_ok _ (co_elections _ _ _ Hok _ Hin2)) as (Hn2 & Hm2 & Hl2).
  destruct (quorums_meet _ _ Hn1 Hn2 Hm1 Hm2 (Hl1 Hw1) (Hl2 Hw2)) as (x & Hx1 & Hx2).
  assert (Hcast : ∀ el, x ∈ voters el → cast el x).
  { intros el [->|Hx]%elem_of_cons; [by left|by right; left]. }
  injection Hv1 as Ht1 <-. injection Hv2 as Ht2 <-.
  apply (co_unique _ _ _ Hok e1 e2 x); auto; congruence.
Qed.

(** Elections are never forgotten. *)
Lemma won_by_control (scfg : Z → snapshotConfig) (sm0 : Z → SM) C C' i t :
  control_step cfg scfg sm0 C C' → won_by C i t → won_by C' i t.
Proof.
  intros Hstep (el & Hin & Hv & Hw). apply list_elem_of_lookup in Hin as [m Hm].
  assert (Hins : ∀ C' k el0 el', elections C !! k = Some el0 → el_vote el' = el_vote el0 →
    (el_won el0 = true → el_won el' = true) → elections C' = <[k := el']> (elections C) →
    won_by C' i t).
  { intros C'' k el0 el' Hk Hv' Hw' Hels. unfold won_by. rewrite Hels. destruct (decide (m = k)) as [->|Hne].
    - rewrite Hk in Hm. injection Hm as <-. exists el'. split_and!; [|by rewrite Hv'|by apply Hw'].
      apply (list_elem_of_lookup_2 _ k), list_lookup_insert_eq, (lookup_lt_Some _ _ _ Hk).
    - exists el. split_and!; [|done|done]. apply (list_elem_of_lookup_2 _ m).
      by rewrite list_lookup_insert_ne. }
  assert (Hin : el ∈ elections C) by (by eapply list_elem_of_lookup_2).
  destruct Hstep as [|C k n Hi| |C k el0 ? ? ? ? ? ? ? Hk|C k el0 before j resp after ? go ? Hk
    |C k el0 ? ? ? Hk]; try (by exists el).
  - eexists. split_and!; [by apply list_elem_of_fmap_2| |]; by case_decide.
  - exists el. split_and!; [by apply elem_of_app; left|done..].
  - eapply (Hins _ k el0 _ Hk); [| |reflexivity]; done.
  - destruct (count_reply_won el0 j resp go (before ++ after)).
    by eapply (Hins _ k el0 _ Hk); [| |reflexivity].
  - eapply (Hins _ k el0 _ Hk); [| |reflexivity]; done.
Qed.

Lemma won_by_step (scfg : Z → snapshotConfig) (sm0 : Z → SM) C C' i t :
  cluster_step cfg scfg sm0 C C' → won_by C i t → won_by C' i t.
Proof.
  intros Hstep. destruct Hstep as [C1 C2 Hstep|C1 k n n' Hk Hl]; [by eapply won_by_control|].
  intros (el & ?). by exists el.
Qed.
End quorums.

(** ** Executable runs *)

(** The steps of elections as events: [EvVote k m] lets the [m]-th open task of
    election [k] reach its peer, [EvReply k m] lets its [m]-th answer come back. *)
Inductive Event :=
  | EvBoot (i : Z) | EvCrash (i : Z) | EvTimeout (i timer_generation : Z)
  | EvVote (k m : nat) | EvReply (k m : nat) | EvWon (k : nat).

Section run.
Context {SM E : Type} `{HostEnv E, IRaftStorage E, ISnapshotStorage E, !IStateMachine SM E}.
Context (cfg : Z → NodeConfig) (scfg : Z → snapshotConfig) (sm0 : Z → SM).
Implicit Types C : Cluster SM E.

Definition running C (i : Z) : option (Node SM E) :=
  match hosts C !! i with Some (Up n) => Some n | _ => None end.

Definition exec (ev : Event) C : option (Cluster SM E) :=
  match ev with
  | EvBoot i =>
      match hosts C !! i with
      | Some (Down e) =>
          let '(r, e') := RaftNode_new (cfg i) (scfg i) (sm0 i) e in
          Some (C <| hosts ::= <[i := match r with
                                      | inr n => Up (Start true n).2
                                      | inl _ => Down e'
                                      end]> |>)
      | _ => None
      end
  | EvCrash i =>
      n ← running C i;
      Some (C <| hosts ::= <[i := Down (env_ n)]> |>
              <| elections ::= fmap (λ el, if decide (el_candidate el = i)
                                           then el <| el_alive := false |> else el) |>)
  | EvTimeout i g =>
      n ← running C i;
      if decide (0 ≤ current_term_ (core n) < u64_max) then
        let '(r, n') := OnElectionTimeout g n in
        Some (C <| hosts ::= <[i := Up n']> |> <| elections ::= λ l, l ++ new_election r n' |>)
      else None
  | EvVote k m =>
      el ← elections C !! k; '(j, request) ← el_requests el !! m; n ← running C j;
      let '(resp, n') := OnRequestVote request n in
      Some (C <| hosts ::= <[j := Up n']> |>
              <| elections ::= <[k := el <| el_requests := take m (el_requests el) ++
                                                           drop (S m) (el_requests el) |>
                                         <| el_replies ::= cons (j, resp) |>]> |>)
  | EvReply k m =>
      el ← elections C !! k; '(j, resp) ← el_replies el !! m; n ← running C (el_candidate el);
      if el_alive el then
        let '(go, n') := OnVoteResponseLocked (el_term el) resp n in
        Some (C <| hosts ::= <[el_candidate el := Up n']> |>
                <| elections ::= <[k := count_reply el j resp go
                     (take m (el_replies el) ++ drop (S m) (el_replies el))]> |>)
      else None
  | EvWon k =>
      el ← elections C !! k; n ← running C (el_candidate el);
      if el_alive el && el_due el then
        let '(go, n') := OnElectionWonLocked (el_term el) n in
        Some (C <| hosts ::= <[el_candidate el := Up n']> |>
                <| elections ::= <[k := el <| el_due := false |>]> |>)
      else None
  end.

Fixpoint run (evs : list Event) C : option (Cluster SM E) :=
  match evs with
  | [] => Some C
  | ev :: evs => C' ← exec ev C; run evs C'
  end.

Lemma running_Some C i n : running C i = Some n → hosts C !! i = Some (Up n).
Proof. unfold running. by destruct (hosts C !! i) as [[]|]; intros [=->]. Qed.

(** The term node [i] leads, when it does. *)
Definition leader_of C (i : Z) : option Z :=
  n ← running C i; if decide (role_ (core n) = kLeader) then Some (current_term_ (core n)) else None.

Lemma leader_of_leads C i t : leader_of C i = Some t → leads C i t.
Proof.
  unfold leader_of. destruct (running C i) as [n|] eqn:Hn; [|done]. cbn.
  case_decide; [|done]. intros [= <-]. exists n. split; [by apply running_Some|done].
Qed.

Lemma exec_step ev C C' : exec ev C = Some C' → control_step cfg scfg sm0 C C'.
Proof.
  destruct ev as [i|i|i g|k m|k m|k]; cbn [exec]; intros Hrun.
  - destruct (hosts C !! i) as [[|e]|] eqn:Hi; try done.
    destruct (RaftNode_new _ _ _ _) as [r e'] eqn:Hnew. injection Hrun as <-. by eapply CS_boot.
  - destruct (running C i) as [n|] eqn:Hn; [|done]. injection Hrun as <-.
    by apply CS_crash, running_Some.
  - destruct (running C i) as [n|] eqn:Hn; [|done]. cbn in Hrun. case_decide; [|done].
    destruct (OnElectionTimeout g n) as [r n'] eqn:Ho. injection Hrun as <-.
    by eapply CS_timeout; [apply running_Some|..].
  - destruct (elections C !! k) as [el|] eqn:Hk; [|done]. cbn in Hrun.
    destruct (el_requests el !! m) as [[j request]|] eqn:Hm; [|done]. cbn in Hrun.
    destruct (running C j) as [n|] eqn:Hn; [|done]. cbn in Hrun.
    destruct (OnRequestVote request n) as [resp n'] eqn:Ho. injection Hrun as <-.
    eapply CS_vote; [done|by apply eq_sym, take_drop_middle|by apply running_Some|done].
  - destruct (elections C !! k) as [el|] eqn:Hk; [|done]. cbn in Hrun.
    destruct (el_replies el !! m) as [[j resp]|] eqn:Hm; [|done]. cbn in Hrun.
    destruct (running C _) as [n|] eqn:Hn; [|done]. cbn in Hrun.
    destruct (el_alive el) eqn:Hal; [|done].
    destruct (OnVoteResponseLocked (el_term el) resp n) as [go n'] eqn:Ho. injection Hrun as <-.
    eapply CS_reply; [done|done|by apply eq_sym, take_drop_middle|by apply running_Some|done].
  - destruct (elections C !! k) as [el|] eqn:Hk; [|done]. cbn in Hrun.
    destruct (running C _) as [n|] eqn:Hn; [|done]. cbn in Hrun.
    destruct (el_alive el && el_due el) eqn:Hal; [|done]. apply andb_prop in Hal as [Hal Hdue].
    destruct (OnElectionWonLocked (el_term el) n) as [go n'] eqn:Ho. injection Hrun as <-.
    by eapply CS_won; [| | |apply running_Some|].
Qed.

Lemma run_steps evs C C' : run evs C = Some C' → rtc (cluster_step cfg scfg sm0) C C'.
Proof.
  revert C. induction evs as [|ev evs IH]; intros C; cbn [run]; [by intros [= <-]|].
  destruct (exec ev C) as [C1|] eqn:Hev; [|done]. cbn. intros Hrun.
  eapply rtc_l; [by eapply CS_control, exec_step|by apply IH].
Qed.
End run.

(** ** Election safety *)


#[export] Instance sim_disk_frames : DiskFrames KvStateMachine SimEnv.
Proof.
  split; intros; match goal with e : SimEnv |- _ => by destruct e as [? [] ? ? ?] end.
Qed.

Definition sim_members : gset Z := {[1; 2; 3]}.

Lemma sim_deployment : deployment sim_members sim_config.
Proof.
  assert (Hm : ∀ i, i ∈ sim_members → i = 1 ∨ i = 2 ∨ i = 3) by (unfold sim_members; set_solver).
  split.
  - intros i [->|[->| ->]]%Hm; done.
  - intros i [->|[->| ->]]%Hm; vm_compute; repeat constructor; set_solver.
  - intros i [->|[->| ->]]%Hm; vm_compute; reflexivity.
Defined.

(** Three members with empty disks. *)
Definition sim_cluster : Cluster KvStateMachine SimEnv :=
  mkCluster {[1 := Down sim_init; 2 := Down sim_init; 3 := Down sim_init]} [].

(** Node 1 wins term 1 with the vote of 2, crashes and restarts; then node 3 times
    out twice and wins term 2. *)
Definition sim_run_1 : list Event :=
  [EvBoot 1; EvBoot 2; EvBoot 3; EvTimeout 1 1; EvVote 0 0; EvReply 0 0; EvWon 0].
Definition sim_run_2 : list Event :=
  [EvCrash 1; EvBoot 1; EvTimeout 3 1; EvVote 1 1; EvReply 1 0; EvTimeout 3 2; EvVote 2 1;
   EvReply 2 0; EvWon 2].

Definition sim_exec (evs : list Event) (C : Cluster KvStateMachine SimEnv) :=
  run sim_config (λ _, default_snapshotConfig) (λ _, mkKv ∅) evs C.

