(* ===== verification/LogMatching.v ===== *)
(** Replication between the nodes: the cluster with the append requests its leaders have
    built, and the log matching property.  A step is one of Cluster, except that an
    append request is one some leader has built; requests are never removed, so they may
    be delivered late, more than once, to any node, or never. *)
From S2P Require Import Prelude Command Types Timer Metrics Env Sim Node SimNode.
From S2P Require Import NodeLog Election AppendEntries Bytes Fs StateMachine Commit.
From S2P Require Import Replicator Propose SnapshotNode Steady Votes Links Cluster.

(** ** The network *)

Record Net (SM E : Type) := mkNet {
  net_cluster : Cluster SM E;
  sent : list AppendEntriesRequest }.
Arguments mkNet {SM E} _ _.
Arguments net_cluster {SM E} _.
Arguments sent {SM E} _.

Section steps.
Context {SM E : Type} `{HostEnv E, IRaftStorage E, ISnapshotStorage E, !IStateMachine SM E}.
Context (cfg : Z → NodeConfig) (scfg : Z → snapshotConfig) (sm0 : Z → SM).
Implicit Types (n : Node SM E) (N : Net SM E).

Definition requests_of (r : BuildResult) : list AppendEntriesRequest :=
  match r with BuildRequest request => [request] | _ => [] end.

(** The operations of a node between elections, with the requests it adds.  Indexes are
    [uint64_t] and have not run out where an entry is added. *)
Inductive repl_step (sent : list AppendEntriesRequest) :
    Node SM E → Node SM E → list AppendEntriesRequest → Prop :=
  | RS_append request n : request ∈ sent → repl_step sent n (OnAppendEntriesLocked request n).2 []
  | RS_build peer_id t n r n' :
      is_u64 (default 0 (next_index_ (core n) !! peer_id)) →
      LastLogIndexLocked (core n) < u64_max →
      BuildAppendEntriesRequest peer_id t n = (r, n') → repl_step sent n n' (requests_of r)
  | RS_propose cmd n :
      LastLogIndexLocked (core n) < u64_max → repl_step sent n (ProposeLocked cmd n).2 []
  | RS_noop n :
      role_ (core n) = kLeader → LastLogIndexLocked (core n) < u64_max →
      repl_step sent n (AppendLocalLogUnlocked kInternalNoOpCommand n).2 []
  | RS_append_reply peer_id t target response n :
      repl_step sent n (HandleAppendEntriesResponse peer_id t target response n).2 []
  | RS_install request n :
      is_u64 (ireq_last_included_index request) →
      repl_step sent n (OnInstallSnapshot request n).2 []
  | RS_install_reply peer_id t i response n :
      repl_step sent n (HandleInstallSnapshotResponse peer_id t i response n).2 []
  | RS_apply n : repl_step sent n (ApplyIteration n).2 []
  | RS_commit n : repl_step sent n (AdvanceCommitIndexUnlocked n) []
  | RS_heartbeat n : repl_step sent n (OnHeartbeatTimer n).2 []
  | RS_snapshot_timer n : repl_step sent n (OnSnapshotTimer n) []
  | RS_snapshot n : repl_step sent n (SnapshotWorkerTurn n).2 []
  | RS_replicator peer_id f n : repl_step sent n (on_replicator peer_id f n) []
  | RS_metrics m n : repl_step sent n (n <| metrics_ := m |>) []
  | RS_host e n : disk_state e = disk_state (env_ n) → repl_step sent n (n <| env_ := e |>) []
  | RS_stop n : repl_step sent n (Stop n) [].

Inductive net_step : Net SM E → Net SM E → Prop :=
  | NS_control N C' :
      control_step cfg scfg sm0 (net_cluster N) C' → net_step N (mkNet C' (sent N))
  | NS_repl N i n n' new :
      hosts (net_cluster N) !! i = Some (Up n) → repl_step (sent N) n n' new →
      net_step N (mkNet ((net_cluster N) <| hosts ::= <[i := Up n']> |>) (new ++ sent N)).

(** At first every member is down with an empty disk and nothing has been sent. *)
Definition net_init (members : gset Z) N : Prop :=
  cluster_init members (net_cluster N) ∧ sent N = [] ∧
  ∀ i e, hosts (net_cluster N) !! i = Some (Down e) → disk_state e = None.

Definition net_reachable (members : gset Z) N : Prop :=
  ∃ N0, net_init members N0 ∧ rtc net_step N0 N.

(** The network is the cluster of Cluster with fewer messages. *)
Lemma repl_step_local sent n n' new : repl_step sent n n' new → local_step n n'.
Proof.
  destruct 1; try by constructor.
  match goal with Hb : BuildAppendEntriesRequest ?p ?t ?n = _ |- _ =>
    pose proof (LS_build p t n) as Hl; by rewrite Hb in Hl end.
Qed.

Lemma net_step_cluster N N' :
  net_step N N' → cluster_step cfg scfg sm0 (net_cluster N) (net_cluster N').
Proof.
  destruct 1; cbn [net_cluster]; [by apply CS_control|].
  by eapply CS_local, repl_step_local.
Qed.
End steps.

(** ** The links of the network *)
Section sources.
Context {SM E : Type} `{HostEnv E, IRaftStorage E}.
Implicit Types (n : Node SM E) (N : Net SM E) (h : Host SM E) (k : link).

Definition host_env h : E := match h with Up n => env_ n | Down e => e end.
Definition host_mem h : list link := match h with Up n => links (log_ (core n)) | Down _ => [] end.
Definition host_disk h : list link := links (disk_log (host_env h)).
Definition host_wf h : Prop :=
  match h with Up n => node_wf n ∧ applied_low (core n) | Down e => disk_wf e end.

(** Carried by a request; anywhere; anywhere but on the disk of [i]. *)
Definition carried N k : Prop := ∃ q, q ∈ sent N ∧ k ∈ links (request_log q).
Definition known N k : Prop :=
  (∃ j h, hosts (net_cluster N) !! j = Some h ∧ (k ∈ host_mem h ∨ k ∈ host_disk h)) ∨ carried N k.
Definition elsewhere N (i : Z) k : Prop :=
  (∃ j h, hosts (net_cluster N) !! j = Some h ∧ (k ∈ host_mem h ∨ j ≠ i ∧ k ∈ host_disk h)) ∨
  carried N k.

(** One entry, one predecessor's term. *)
Definition agree (k1 k2 : link) : Prop :=
  index k1.2 = index k2.2 → term k1.2 = term k2.2 → k1 = k2.

(** The winner of term [t] has taken office. *)
Definition opened (C : Cluster SM E) (t : Z) : Prop :=
  ∃ el, el ∈ elections C ∧ el_term el = t ∧ el_won el = true ∧ el_due el = false.

Record net_ok (cfg : Z → NodeConfig) (members : gset Z) N : Prop := {
  no_cluster : cluster_ok cfg members (net_cluster N);
  no_elections : NoDup (el_vote <$> elections (net_cluster N));
  no_hosts : ∀ i h, hosts (net_cluster N) !! i = Some h → host_wf h;
  no_sent : ∀ q, q ∈ sent N → entries_ok (areq_prev_log_index q) (areq_entries q);
  no_agree : ∀ k1 k2, known N k1 → known N k2 → agree k1 k2;
  no_led : ∀ i t, leads (net_cluster N) i t → opened (net_cluster N) t;
  no_opened : ∀ k, known N k → opened (net_cluster N) (term k.2);
  no_last : ∀ i n k, hosts (net_cluster N) !! i = Some (Up n) → role_ (core n) = kLeader →
    elsewhere N i k → term k.2 = current_term_ (core n) →
    index k.2 ≤ LastLogIndexLocked (core n) }.

Lemma elsewhere_known N i k : elsewhere N i k → known N k.
Proof. intros [(j & h & Hj & [?|[_ ?]])|?]; [left; eauto..|by right]. Qed.
End sources.

(** ** One host changes *)
Section update.
Context {SM E : Type} `{HostEnv E, IRaftStorage E, ISnapshotStorage E, !IStateMachine SM E}.
Context (cfg : Z → NodeConfig) (members : gset Z) (Hdep : deployment members cfg).
Implicit Types (n : Node SM E) (N : Net SM E) (h : Host SM E) (k : link).

(** [N] with host [i] as [h'], elections [els] and the requests [new]. *)
Definition updated N (i : Z) h' (els : list Election) (new : list AppendEntriesRequest) : Net SM E :=
  mkNet (mkCluster (<[i := h']> (hosts (net_cluster N))) els) (new ++ sent N).

(** Where the links of the changed host come from: the host before, the requests, or
    the one new entry [x]. *)
Record sources N h h' (new : list AppendEntriesRequest) (x : option link) : Prop := {
  so_mem : ∀ k, k ∈ host_mem h' → k ∈ host_mem h ∨ k ∈ host_disk h ∨ carried N k ∨ x = Some k;
  so_disk : ∀ k, k ∈ host_disk h' → k ∈ host_mem h ∨ k ∈ host_disk h ∨ carried N k ∨ x = Some k;
  so_new : ∀ q k, q ∈ new → k ∈ links (request_log q) → k ∈ host_mem h }.

Lemma updated_known N i h h' els new x k :
  hosts (net_cluster N) !! i = Some h → sources N h h' new x →
  known (updated N i h' els new) k → known N k ∨ x = Some k.
Proof.
  intros Hi [Hmem Hdisk Hnew] [(j & hj & Hj & Hk)|(q & Hq & Hk)].
  - cbn in Hj. apply lookup_insert_Some in Hj as [[<- <-]|[_ Hj]]; [|left; left; eauto].
    assert (Hs : k ∈ host_mem h ∨ k ∈ host_disk h ∨ carried N k ∨ x = Some k)
      by (destruct Hk; auto).
    destruct Hs as [?|[?|[?|?]]]; [left; left; eauto..|by left; right|by right].
  - left. cbn in Hq. apply elem_of_app in Hq as [Hq|Hq]; [left; exists i, h; eauto|].
    right. by exists q.
Qed.

(** For another host, what is elsewhere was elsewhere or is the new entry. *)
Lemma updated_elsewhere N i j h h' els new x k :
  hosts (net_cluster N) !! i = Some h → sources N h h' new x → i ≠ j →
  elsewhere (updated N i h' els new) j k → elsewhere N j k ∨ x = Some k.
Proof.
  intros Hi [Hmem Hdisk Hnew] Hij [(l & hl & Hl & Hk)|(q & Hq & Hk)].
  - cbn in Hl. apply lookup_insert_Some in Hl as [[<- <-]|[_ Hl]]; [|left; left; eauto].
    assert (Hs : k ∈ host_mem h ∨ k ∈ host_disk h ∨ carried N k ∨ x = Some k)
      by (destruct Hk as [?|[_ ?]]; auto).
    destruct Hs as [?|[?|[?|?]]]; [left; left; exists i, h; auto..|by left; right|by right].
  - left. cbn in Hq. apply elem_of_app in Hq as [Hq|Hq]; [left; exists i, h; eauto|].
    right. by exists q.
Qed.

(** For the host itself, what is elsewhere was elsewhere or is in its memory. *)
Lemma updated_elsewhere_self N i h h' els new x k :
  hosts (net_cluster N) !! i = Some h → sources N h h' new x →
  elsewhere (updated N i h' els new) i k → elsewhere N i k ∨ k ∈ host_mem h'.
Proof.
  intros Hi [_ _ Hnew] [(l & hl & Hl & Hk)|(q & Hq & Hk)].
  - cbn in Hl. apply lookup_insert_Some in Hl as [[<- <-]|[Hne Hl]]; [|left; left; by exists l, hl].
    destruct Hk as [?|[? _]]; [by right|done].
  - left. cbn in Hq. apply elem_of_app in Hq as [Hq|Hq]; [left; exists i, h; eauto|].
    right. by exists q.
Qed.

Lemma mem_last n k :
  core_wf (core n) → k ∈ links (log_ (core n)) → index k.2 ≤ LastLogIndexLocked (core n).
Proof.
  intros [Hlog _ _] Hk. pose proof (links_index _ _ _ (log_contiguous _ Hlog) Hk).
  rewrite LastLogIndex_ok by done. lia.
Qed.

(** The general step.  A new entry is of a term no other host leads, is on a host that
    leads it, and clashes with nothing known afterwards. *)
Lemma net_ok_update N i h h' els new x :
  net_ok cfg members N → hosts (net_cluster N) !! i = Some h → sources N h h' new x →
  cluster_ok cfg members (net_cluster (updated N i h' els new)) →
  NoDup (el_vote <$> els) → host_wf h' →
  (∀ q, q ∈ new → entries_ok (areq_prev_log_index q) (areq_entries q)) →
  (∀ t, opened (net_cluster N) t → opened (net_cluster (updated N i h' els new)) t) →
  (∀ k, x = Some k → leads (net_cluster N) i (term k.2) ∧
     ∀ k', known (updated N i h' els new) k' → agree k k') →
  (∀ n', h' = Up n' → role_ (core n') = kLeader →
     opened (net_cluster (updated N i h' els new)) (current_term_ (core n')) ∧
     ∀ k, elsewhere N i k → term k.2 = current_term_ (core n') →
       index k.2 ≤ LastLogIndexLocked (core n')) →
  net_ok cfg members (updated N i h' els new).
Proof.
  intros Hok Hi Hso Hcl Hnd Hwf Hnew Hop Hx Hlead.
  assert (Hknown := λ k, updated_known N i h h' els new x k Hi Hso).
  split; [done|done|..].
  - intros j hj Hj. cbn in Hj. apply lookup_insert_Some in Hj as [[_ <-]|[_ Hj]]; [done|].
    by eapply no_hosts.
  - intros q Hq. cbn in Hq. apply elem_of_app in Hq as [Hq|Hq]; [by apply Hnew|]. by eapply no_sent.
  - intros k1 k2 Hk1 Hk2. destruct (Hknown _ Hk1) as [Ho1|Hn1]; [|by apply (Hx _ Hn1)].
    destruct (Hknown _ Hk2) as [Ho2|Hn2]; [by eapply no_agree|].
    intros Hidx Ht. symmetry. by apply (Hx _ Hn2).
  - intros j t (n & Hj & Hr & Ht). cbn in Hj.
    apply lookup_insert_Some in Hj as [[_ Hh]|[_ Hj]].
    + subst t. by apply (Hlead _ Hh).
    + apply Hop. eapply no_led; [done|]. by exists n.
  - intros k Hk. apply Hop. destruct (Hknown _ Hk) as [Ho|Hn]; [by eapply no_opened|].
    eapply no_led; [done|]. by apply (Hx _ Hn).
  - intros j n k Hj Hr Hk Ht. cbn in Hj.
    apply lookup_insert_Some in Hj as [[<- ->]|[Hne Hj]].
    + destruct (updated_elsewhere_self _ _ _ _ _ _ _ _ Hi Hso Hk) as [Ho|Hm].
      * by apply (Hlead n).
      * apply mem_last; [apply Hwf|exact Hm].
    + destruct (updated_elsewhere _ _ _ _ _ _ _ _ _ Hi Hso Hne Hk) as [Ho|Hn].
      * by eapply no_last.
      * exfalso. apply Hne. destruct (Hx _ Hn) as [Hl _].
        pose proof (no_cluster _ _ _ Hok) as Hc.
        eapply one_winner; [done|exact Hc|by eapply co_leader|]. eapply co_leader; [done|].
        by exists n.
Qed.

(** Without a new entry. *)
Lemma net_ok_old N i h h' els new :
  net_ok cfg members N → hosts (net_cluster N) !! i = Some h → sources N h h' new None →
  cluster_ok cfg members (net_cluster (updated N i h' els new)) →
  NoDup (el_vote <$> els) → host_wf h' →
  (∀ q, q ∈ new → entries_ok (areq_prev_log_index q) (areq_entries q)) →
  (∀ t, opened (net_cluster N) t → opened (net_cluster (updated N i h' els new)) t) →
  (∀ n', h' = Up n' → role_ (core n') = kLeader →
     opened (net_cluster (updated N i h' els new)) (current_term_ (core n')) ∧
     ∀ k, elsewhere N i k → term k.2 = current_term_ (core n') →
       index k.2 ≤ LastLogIndexLocked (core n')) →
  net_ok cfg members (updated N i h' els new).
Proof. intros. by eapply (net_ok_update N i h h' els new None). Qed.
End update.

(** ** The steps *)
Section preservation.
Context {SM E : Type} `{HostEnv E, IRaftStorage E, ISnapshotStorage E, !IStateMachine SM E}.
Context (recovered : PersistentRaftState → PersistentRaftState).
Context `{!StorageLaws E recovered, !RecoveredLog recovered, !DiskFrames SM E, !SnapshotIndices E}.
Context (cfg : Z → NodeConfig) (scfg : Z → snapshotConfig) (sm0 : Z → SM) (members : gset Z).
Context (Hdep : deployment members cfg).
Implicit Types (n : Node SM E) (N : Net SM E) (h : Host SM E) (k : link).

(** A host that stays up, without a new entry. *)
Lemma net_ok_tracks N i n n' els new (X : link → Prop) :
  net_ok cfg members N → hosts (net_cluster N) !! i = Some (Up n) → quiet n n' →
  tracks X n n' → (∀ k, X k → carried N k) →
  (∀ q, q ∈ new → entries_ok (areq_prev_log_index q) (areq_entries q) ∧
     ∀ k, k ∈ links (request_log q) → k ∈ links (log_ (core n))) →
  cluster_ok cfg members (net_cluster (updated N i (Up n') els new)) → NoDup (el_vote <$> els) →
  (∀ t, opened (net_cluster N) t → opened (net_cluster (updated N i (Up n') els new)) t) →
  net_ok cfg members (updated N i (Up n') els new).
Proof.
  intros Hok Hi Hq Ht HX Hnew Hcl Hnd Hop. destruct (no_hosts _ _ _ Hok _ _ Hi) as [Hwf Hlow].
  destruct (Ht Hwf) as [Hwf' Hlog Hdisk Hrole Hlast Hlow'].
  eapply (net_ok_old cfg members Hdep N i (Up n) (Up n')); try done.
  - split; cbn; [naive_solver..|]. intros q k Hq' Hk. by apply (Hnew q).
  - split; [done|by apply Hlow'].
  - intros q Hq'. by apply Hnew.
  - intros m [= <-] Hr. destruct (q_leader _ _ Hq Hr) as [Hr0 ->]. split.
    + apply Hop, (no_led _ _ _ Hok i). by exists n.
    + intros k Hk Htm. etrans; [by eapply (no_last _ _ _ Hok)|by apply Hlast].
Qed.

(** One of its own operations. *)
Lemma net_ok_local N i n n' new (X : link → Prop) :
  net_ok cfg members N → hosts (net_cluster N) !! i = Some (Up n) → local_step n n' →
  tracks X n n' → (∀ k, X k → carried N k) →
  (∀ q, q ∈ new → entries_ok (areq_prev_log_index q) (areq_entries q) ∧
     ∀ k, k ∈ links (request_log q) → k ∈ links (log_ (core n))) →
  net_ok cfg members (updated N i (Up n') (elections (net_cluster N)) new).
Proof.
  intros Hok Hi Hl Ht HX Hnew. eapply net_ok_tracks; try done.
  - by apply (local_step_quiet recovered).
  - eapply (cluster_step_ok recovered cfg scfg sm0 members Hdep); [apply (no_cluster _ _ _ Hok)|].
    by eapply (CS_local cfg scfg sm0 (net_cluster N)).
  - apply (no_elections _ _ _ Hok).
Qed.

(** A leader's new entry. *)
Lemma net_ok_append N i n n' data :
  net_ok cfg members N → hosts (net_cluster N) !! i = Some (Up n) → local_step n n' →
  LastLogIndexLocked (core n) < u64_max → role_ (core n) = kLeader →
  tracks (λ k, k = new_link data (core n)) n n' → append_outcome data n n' →
  net_ok cfg members (updated N i (Up n') (elections (net_cluster N)) []).
Proof.
  intros Hok Hi Hl Hmax Hr0 Ht Hout. destruct (no_hosts _ _ _ Hok _ _ Hi) as [Hwf Hlow].
  destruct (Ht Hwf) as [Hwf' Hlog Hdisk Hrole Hlast Hlow'].
  assert (Hup : host_wf (Up n')) by (split; [done|by apply Hlow']).
  pose proof (local_step_quiet recovered _ _ Hl) as Hq.
  assert (Hlead : ∀ m, Up (SM := SM) n' = Up m → role_ (core m) = kLeader →
    opened (net_cluster N) (current_term_ (core m)) ∧
    ∀ k, elsewhere N i k → term k.2 = current_term_ (core m) → index k.2 ≤ LastLogIndexLocked (core m)).
  { intros m [= <-] Hr. destruct (q_leader _ _ Hq Hr) as [_ ->]. split.
    - eapply (no_led _ _ _ Hok). by exists n.
    - intros k Hk Htm. etrans; [by eapply (no_last _ _ _ Hok)|by apply Hlast]. }
  assert (Hcl : cluster_ok cfg members (net_cluster (updated N i (Up n') (elections (net_cluster N)) []))).
  { eapply (cluster_step_ok recovered cfg scfg sm0 members Hdep); [apply (no_cluster _ _ _ Hok)|].
    by eapply (CS_local cfg scfg sm0 (net_cluster N)). }
  pose proof (no_elections _ _ _ Hok) as Hnd.
  destruct Hout as [[Hm Hd]|Hover].
  { eapply (net_ok_old cfg members Hdep N i (Up n) (Up n')); try done;
      [|by intros q ?%not_elem_of_nil]. split; unfold host_disk; cbn [host_mem host_env].
    - intros k Hk. left. by apply Hm.
    - intros k Hk. right. left. by rewrite <- Hd.
    - by intros q k ?%not_elem_of_nil. }
  eapply (net_ok_update cfg members Hdep N i (Up n) (Up n') _ [] (Some (new_link data (core n)))); try done;
    [|by intros q ?%not_elem_of_nil|].
  { split; [| |by intros q k ?%not_elem_of_nil]; unfold host_disk; cbn [host_mem host_env];
      intros k Hk; [destruct (Hlog k Hk)|destruct (Hover k Hk)]; auto; subst; auto. }
  intros k [= <-]. split; [by exists n|].
  assert (Hkn : ∀ k, known (updated N i (Up n') (elections (net_cluster N)) []) k →
            elsewhere N i k ∨ k = new_link data (core n)).
  { intros k [(j & hj & Hj & Hk)|(q & Hq' & Hk)]; [|left; right; by exists q].
    cbn in Hj. apply lookup_insert_Some in Hj as [[<- <-]|[Hne Hj]].
    - assert (Hk' : k ∈ links (log_ (core n)) ∨ k = new_link data (core n))
        by (destruct Hk; [by apply Hlog|by apply Hover]).
      destruct Hk' as [Hk'|?]; [left; left|by right]. exists i, (Up n). auto.
    - left. left. exists j, hj. destruct Hk; auto. }
  intros k' [Hk'| ->]%Hkn; [|done]. intros Hidx Htm. exfalso.
  pose proof (no_last _ _ _ Hok i n k' Hi Hr0 Hk' (eq_sym Htm)). cbn in Hidx. lia.
Qed.

Lemma net_ok_repl N i n n' new :
  net_ok cfg members N → hosts (net_cluster N) !! i = Some (Up n) → repl_step (sent N) n n' new →
  net_ok cfg members (updated N i (Up n') (elections (net_cluster N)) new).
Proof.
  intros Hok Hi Hstep. pose proof (repl_step_local _ _ _ _ Hstep) as Hl.
  destruct (no_hosts _ _ _ Hok _ _ Hi) as [Hwf Hlow].
  assert (Hgo : tracks (λ _, False) n n' → new = [] →
    net_ok cfg members (updated N i (Up n') (elections (net_cluster N)) new)).
  { intros Ht ->. eapply net_ok_local; [done..|by intros ? ?|by intros q ?%not_elem_of_nil]. }
  destruct Hstep as [q n Hq|p t n r n' Hnext Hmax Hb|cmd n Hmax|n Hr Hmax| | | | | | | | | | | |];
    try (apply Hgo; [|done];
         first [apply (tracks_Handle recovered)|by apply (tracks_OnInstallSnapshot recovered)
               |apply (tracks_HandleInstall recovered)|apply (tracks_ApplyIteration recovered)
               |apply (tracks_AdvanceCommit recovered)|apply (tracks_steady recovered), (steady_OnHeartbeatTimer recovered)
               |apply (tracks_steady recovered), (steady_OnSnapshotTimer recovered)|apply (tracks_SnapshotWorkerTurn recovered)
               |apply (tracks_steady recovered), (steady_Stop recovered)|apply (tracks_steady recovered), (steady_on_replicator recovered)|by apply tracks_env
               |apply tracks_same; [by split; auto|done|done]]).
  - eapply net_ok_local; [done..| | |by intros q' ?%not_elem_of_nil].
    + apply (tracks_OnAppendEntries recovered). by eapply (no_sent _ _ _ Hok).
    + intros k Hk. by exists q.
  - eapply (net_ok_local _ _ _ _ _ (λ _, False)); [done..| |by intros ??|].
    + pose proof (tracks_steady recovered (λ _, False) _ _ (steady_BuildRequest recovered p t n)) as Ht. by rewrite Hb in Ht.
    + intros q Hq. destruct r as [| |q']; try (by apply not_elem_of_nil in Hq).
      apply list_elem_of_singleton in Hq as ->.
      destruct Hwf as [[Hlog _ _] _].
      destruct (BuildRequest_entries _ _ _ _ _ Hlog Hmax Hnext Hb) as (He & _ & Hin).
      destruct (BuildRequest_shape _ _ _ _ _ Hlog Hnext Hb) as (_ & _ & _ & _ & Hrec & _).
      split; [done|]. apply links_request; [done|apply He|done|done].
  - destruct (decide (role_ (core n) = kLeader)) as [Hr|Hr].
    + eapply net_ok_append; [done..| |by apply (ProposeLocked_outcome recovered)].
      eapply tracks_weaken; [|by apply (tracks_ProposeLocked recovered)]. by intros k [].
    + apply Hgo; [|done]. eapply tracks_weaken; [|by apply (tracks_ProposeLocked recovered)].
      by intros k [].
  - eapply net_ok_append; [done..| |by apply (AppendLocalLog_outcome recovered)].
    by apply (tracks_AppendLocalLog recovered).
Qed.

(** *** Control steps *)

Lemma el_vote_insert p el el' (els : list Election) :
  els !! p = Some el → el_vote el' = el_vote el → el_vote <$> <[p := el']> els = el_vote <$> els.
Proof.
  intros Hp Hv. rewrite list_fmap_insert, Hv. apply list_insert_id. by rewrite list_lookup_fmap, Hp.
Qed.

(** An election keeps its term; once its winner is in office it stays so. *)
Lemma opened_insert (C C' : Cluster SM E) p el el' t :
  elections C !! p = Some el → elections C' = <[p := el']> (elections C) →
  el_term el' = el_term el →
  (el_won el = true → el_due el = false → el_won el' = true ∧ el_due el' = false) →
  opened C t → opened C' t.
Proof.
  intros Hp Hels Ht Hpeep (e & Hin & Hte & Hw & Hd). unfold opened. rewrite Hels.
  apply list_elem_of_lookup in Hin as [m Hm]. destruct (decide (m = p)) as [->|Hne].
  - rewrite Hp in Hm. injection Hm as <-. exists el'. destruct (Hpeep Hw Hd).
    split_and!; [|congruence|done|done]. apply (list_elem_of_lookup_2 _ p).
    by apply list_lookup_insert_eq, (lookup_lt_Some _ _ _ Hp).
  - exists e. split_and!; [|done..]. apply (list_elem_of_lookup_2 _ m). by rewrite list_lookup_insert_ne.
Qed.

Lemma count_reply_due el j resp go rest :
  el_won el = true → el_due (count_reply el j resp go rest) = el_due el.
Proof.
  intros Hw. unfold count_reply, CountVote. destruct go; [|done].
  destruct (vresp_vote_granted resp); [|done]. cbn [negb set_field el_won el_quorum el_votes].
  by rewrite Hw, andb_false_r.
Qed.

(** A host whose log only comes from where it was: it boots or it dies. *)
Lemma net_ok_switch N i h h' els :
  net_ok cfg members N → hosts (net_cluster N) !! i = Some h →
  (∀ k, k ∈ host_mem h' ∨ k ∈ host_disk h' → k ∈ host_mem h ∨ k ∈ host_disk h) → host_wf h' →
  (∀ n, h' = Up n → role_ (core n) ≠ kLeader) →
  cluster_ok cfg members (net_cluster (updated N i h' els [])) → el_vote <$> els = el_vote <$> elections (net_cluster N) →
  (∀ t, opened (net_cluster N) t → opened (net_cluster (updated N i h' els [])) t) →
  net_ok cfg members (updated N i h' els []).
Proof.
  intros Hok Hi Hsub Hwf Hr Hcl Hv Hop. eapply (net_ok_old cfg members Hdep N i h h'); try done.
  - split; [naive_solver..|]. by intros q k ?%not_elem_of_nil.
  - rewrite Hv. apply (no_elections _ _ _ Hok).
  - by intros q ?%not_elem_of_nil.
  - intros n' Hn Hl. by destruct (Hr n' Hn).
Qed.

Lemma net_ok_boot N i e r e' :
  net_ok cfg members N → hosts (net_cluster N) !! i = Some (Down e) →
  RaftNode_new (cfg i) (scfg i) (sm0 i) e = (r, e') →
  cluster_ok cfg members (net_cluster (updated N i
    (match r with inr n => Up (Start true n).2 | inl _ => Down e' end) (elections (net_cluster N)) [])) →
  net_ok cfg members (updated N i
    (match r with inr n => Up (Start true n).2 | inl _ => Down e' end) (elections (net_cluster N)) []).
Proof.
  intros Hok Hi Hnew Hcl. pose proof (no_hosts _ _ _ Hok _ _ Hi) as Hwf. cbn in Hwf.
  destruct (RaftNode_new_tracks recovered _ _ _ _ _ _ Hnew Hwf) as (Hw & Hd & Hn).
  eapply (net_ok_switch N i (Down e)); try done; destruct r as [m|n].
  - intros k [?%not_elem_of_nil|Hk]; [done|]. right. by apply Hd.
  - destruct (Hn n eq_refl) as (Hwn & _ & -> & _ & Hl).
    destruct (tracks_steady recovered (λ _, False) _ _ (steady_Start recovered true n) Hwn) as [_ Hl2 Hd2 _ _ _].
    intros k [Hk|Hk]; right.
    + destruct (Hl2 k Hk) as [?|[]]. by apply Hl.
    + destruct (Hd2 k Hk) as [?|[?|[]]]; [by apply Hd|by apply Hl].
  - done.
  - destruct (Hn n eq_refl) as (Hwn & Hlow & _).
    destruct (tracks_steady recovered (λ _, False) _ _ (steady_Start recovered true n) Hwn) as [Hw2 _ _ _ _ Hl2].
    split; [exact Hw2|by apply Hl2].
  - discriminate.
  - intros n' [= <-]. destruct (Hn n eq_refl) as (Hwn & _ & _ & Hr & _). intros Hl. apply Hr.
    by apply (tracks_steady recovered (λ _, False) _ _ (steady_Start recovered true n) Hwn).
Qed.

Lemma net_ok_crash N i n :
  net_ok cfg members N → hosts (net_cluster N) !! i = Some (Up n) →
  let els := (λ el, if decide (el_candidate el = i) then el <| el_alive := false |> else el)
               <$> elections (net_cluster N) in
  cluster_ok cfg members (net_cluster (updated N i (Down (env_ n)) els [])) →
  net_ok cfg members (updated N i (Down (env_ n)) els []).
Proof.
  intros Hok Hi els Hcl. eapply (net_ok_switch N i (Up n)); try done.
  - intros k [?%not_elem_of_nil|Hk]; [done|by right].
  - apply (no_hosts _ _ _ Hok _ _ Hi).
  - unfold els. rewrite <- list_fmap_compose. apply list_fmap_ext. intros _ el _. cbn.
    by case_decide.
  - intros t (el & Hin & Ht & Hw & Hd). eexists. split; [by apply list_elem_of_fmap_2|].
    by case_decide.
Qed.

(** A new election is of a term its candidate had not stood in. *)
Lemma new_election_fresh N i n r n' :
  net_ok cfg members N → hosts (net_cluster N) !! i = Some (Up n) → node_id (config_ n') = i →
  (r = ElectionAborted ∨ ∃ t, current_term_ (core n) < t ∧
     (r = ElectionWonAlone t ∨ ∃ quorum requests, r = ElectionAsk t quorum requests)) →
  NoDup (el_vote <$> elections (net_cluster N) ++ new_election r n').
Proof.
  intros Hok Hi Hid Hr. rewrite fmap_app. pose proof (no_elections _ _ _ Hok) as Hnd.
  pose proof (no_cluster _ _ _ Hok) as Hc.
  destruct Hr as [->|(t & Ht & Hr)]; [by rewrite app_nil_r|].
  assert (Hv : el_vote <$> new_election r n' = [(t, i)]).
  { destruct Hr as [->|(q & rs & ->)]; cbn; unfold el_vote; cbn; by rewrite Hid. }
  rewrite Hv. apply NoDup_app. split_and!; [done| |apply NoDup_singleton].
  intros v (el & -> & Hin)%list_elem_of_fmap Hv2%list_elem_of_singleton.
  injection Hv2 as Htt Hcc.
  destruct (co_cast _ _ _ Hc el i Hin) as (h & Hh & Hd); [left; congruence|].
  rewrite Hi in Hh. injection Hh as <-. destruct Hd as [Hle _].
  unfold hs_le, hs_of, el_vote in Hle. cbn in Hle. lia.
Qed.

Lemma net_ok_timeout N i n g r n' :
  net_ok cfg members N → hosts (net_cluster N) !! i = Some (Up n) →
  0 ≤ current_term_ (core n) < u64_max → OnElectionTimeout g n = (r, n') →
  let els := elections (net_cluster N) ++ new_election r n' in
  cluster_ok cfg members (net_cluster (updated N i (Up n') els [])) →
  net_ok cfg members (updated N i (Up n') els []).
Proof.
  intros Hok Hi Ht Hrun els Hcl.
  destruct (OnElectionTimeout_spec recovered _ _ _ _ Hrun Ht) as [Hq Hr].
  eapply (net_ok_tracks _ _ _ _ _ _ (λ _, False)); try done.
  - pose proof (tracks_OnElectionTimeout recovered (λ _, False) g n) as Htr. by rewrite Hrun in Htr.
  - by intros q ?%not_elem_of_nil.
  - eapply new_election_fresh; [done..| |].
    + rewrite (q_config _ _ Hq). by destruct (co_hosts _ _ _ (no_cluster _ _ _ Hok) _ _ Hi) as [_ [? _]].
    + destruct Hr as [?|(_ & Hr)]; [by left|right]. eexists. split; [|naive_solver]. lia.
  - intros t (el & Hin & ?). exists el. split; [by apply elem_of_app; left|done].
Qed.

(** A vote handler and an answer: one election changes. *)
Lemma net_ok_election N i n n' p el el' :
  net_ok cfg members N → hosts (net_cluster N) !! i = Some (Up n) →
  elections (net_cluster N) !! p = Some el → quiet n n' → tracks (λ _, False) n n' →
  el_vote el' = el_vote el →
  (el_won el = true → el_due el = false → el_won el' = true ∧ el_due el' = false) →
  let els := <[p := el']> (elections (net_cluster N)) in
  cluster_ok cfg members (net_cluster (updated N i (Up n') els [])) →
  net_ok cfg members (updated N i (Up n') els []).
Proof.
  intros Hok Hi Hk Hq Ht Hv Hkeep els Hcl.
  eapply (net_ok_tracks _ _ _ _ _ _ (λ _, False)); try done.
  - by intros q ?%not_elem_of_nil.
  - unfold els. rewrite (el_vote_insert _ el) by done. apply (no_elections _ _ _ Hok).
  - intros t. eapply (opened_insert (net_cluster N) _ p el el'); [done|done|by injection Hv|done].
Qed.

(** A term whose winner has yet to take office is not open. *)
Lemma due_not_opened N p el :
  net_ok cfg members N → elections (net_cluster N) !! p = Some el → el_due el = true →
  ¬ opened (net_cluster N) (el_term el).
Proof.
  intros Hok Hk Hdue (e & He & Ht & Hw & Hd). pose proof (no_cluster _ _ _ Hok) as Hc.
  pose proof (list_elem_of_lookup_2 _ _ _ Hk) as Hin.
  pose proof (eo_due _ _ _ (co_elections _ _ _ Hc _ Hin) Hdue) as Hwon.
  assert (Hcand : el_candidate e = el_candidate el).
  { eapply (one_winner cfg members Hdep); [exact Hc|exists e; by split_and!|].
    exists el. split_and!; [done| |done]. unfold el_vote. by rewrite Ht. }
  apply list_elem_of_lookup in He as [m Hm].
  assert (m = p) as ->.
  { eapply (NoDup_lookup _ m p (el_vote el) (no_elections _ _ _ Hok)); rewrite list_lookup_fmap;
      [rewrite Hm|by rewrite Hk]. cbn. unfold el_vote. by rewrite Ht, Hcand. }
  congruence.
Qed.

(** The winner takes office: no entry of its term exists yet. *)
Lemma net_ok_won N p el n go n' :
  net_ok cfg members N → elections (net_cluster N) !! p = Some el → el_due el = true →
  hosts (net_cluster N) !! el_candidate el = Some (Up n) →
  OnElectionWonLocked (el_term el) n = (go, n') →
  let els := <[p := el <| el_due := false |>]> (elections (net_cluster N)) in
  cluster_ok cfg members (net_cluster (updated N (el_candidate el) (Up n') els [])) →
  net_ok cfg members (updated N (el_candidate el) (Up n') els []).
Proof.
  intros Hok Hk Hdue Hi Hrun els Hcl. destruct (no_hosts _ _ _ Hok _ _ Hi) as [Hwf Hlow].
  pose proof (no_cluster _ _ _ Hok) as Hc. pose proof (no_elections _ _ _ Hok) as Hnd.
  pose proof (list_elem_of_lookup_2 _ _ _ Hk) as Hin.
  pose proof (eo_due _ _ _ (co_elections _ _ _ Hc _ Hin) Hdue) as Hwon.
  pose proof (OnElectionWon_env _ _ _ _ Hrun) as Henv.
  apply OnElectionWonLocked_effect in Hrun as [_ Heff].
  assert (Hs : same_records (core n) (core n') ∧ current_term_ (core n') = current_term_ (core n)).
  { destruct Heff as [[_ ->]|(_ & _ & _ & [])]; (split; [split; auto|done]). }
  destruct Hs as [Hs Hterm].
  assert (Hop : ∀ t, opened (net_cluster N) t →
            opened (net_cluster (updated N (el_candidate el) (Up n') els [])) t).
  { intros t. by eapply (opened_insert (net_cluster N) _ p el (el <| el_due := false |>)). }
  pose proof (due_not_opened N p el Hok Hk Hdue) as Hnone.
  eapply (net_ok_old cfg members Hdep N _ (Up n) (Up n')); try done.
  - split; unfold host_disk; cbn [host_mem host_env]; rewrite ?Henv, ?(sr_log _ _ Hs); auto.
    by intros q k' ?%not_elem_of_nil.
  - unfold els. rewrite (el_vote_insert _ el) by done. done.
  - split; [|by eapply same_records_low].
    split; [by eapply same_records_wf; [|apply Hwf]|by rewrite Henv; apply Hwf].
  - by intros q ?%not_elem_of_nil.
  - intros m [= <-] Hr. rewrite Hterm. destruct Heff as [[_ Hcore]|(_ & _ & Ht & _)].
    + rewrite Hcore in Hr. rewrite Hcore. split.
      * apply Hop, (no_led _ _ _ Hok (el_candidate el)). by exists n.
      * intros k' Hk' Htm. by eapply (no_last _ _ _ Hok).
    + rewrite Ht. split.
      * exists (el <| el_due := false |>). split_and!; [|done|done|done].
        apply (list_elem_of_lookup_2 _ p), list_lookup_insert_eq, (lookup_lt_Some _ _ _ Hk).
      * intros k' Hk' Htm. destruct Hnone. rewrite <- Htm.
        eapply (no_opened _ _ _ Hok), elsewhere_known; exact Hk'.
Qed.

Lemma net_ok_control N C' :
  net_ok cfg members N → control_step cfg scfg sm0 (net_cluster N) C' →
  net_ok cfg members (mkNet C' (sent N)).
Proof.
  intros Hok Hstep.
  assert (Hcl : cluster_ok cfg members C')
    by (eapply (control_step_ok recovered); [done|apply (no_cluster _ _ _ Hok)|exact Hstep]).
  destruct N as [C qs]. cbn [net_cluster sent] in *. set (N := mkNet C qs) in *.
  destruct Hstep as [C i e r e' Hi Hnew|C i n Hi|C i n g r n' Hi Ht Hrun
    |C p el before j request after n resp n' Hk Hreq Hj Hrun
    |C p el before j resp after n go n' Hk Hal Hrep Hi Hrun
    |C p el n go n' Hk Hal Hdue Hi Hrun].
  - by apply (net_ok_boot N i e r e').
  - by apply (net_ok_crash N i n).
  - by apply (net_ok_timeout N i n g r n').
  - pose proof (steady_OnRequestVote recovered request n) as Hst.
    pose proof (quiet_steady recovered _ _ Hst) as Hq.
    pose proof (tracks_steady recovered (λ _, False) _ _ Hst) as Htr. rewrite Hrun in Htr, Hq.
    by apply (net_ok_election N j n n' p el _ Hok Hj Hk Hq Htr).
  - pose proof (steady_OnVoteResponse recovered (el_term el) resp n) as Hst.
    pose proof (quiet_steady recovered _ _ Hst) as Hq.
    pose proof (tracks_steady recovered (λ _, False) _ _ Hst) as Htr. rewrite Hrun in Htr, Hq.
    destruct (count_reply_won el j resp go (before ++ after)) as [Hv Hw].
    apply (net_ok_election N (el_candidate el) n n' p el _ Hok Hi Hk Hq Htr); [done| |done].
    intros Hw0 Hd0. split; [by apply Hw|by rewrite count_reply_due].
  - by apply (net_ok_won N p el n go n').
Qed.

Lemma net_step_ok N N' :
  net_ok cfg members N → net_step cfg scfg sm0 N N' → net_ok cfg members N'.
Proof.
  intros Hok Hstep. destruct Hstep as [N C' Hstep|N i n n' new Hi Hstep].
  - by apply net_ok_control.
  - by apply (net_ok_repl N i n n' new).
Qed.

Lemma net_init_ok N : net_init members N → net_ok cfg members N.
Proof.
  intros (Hcl & Hsent & Hdisk). pose proof (cluster_init_ok cfg members _ Hcl) as Hc.
  destruct Hcl as [Hels Hdown].
  assert (Hno : ∀ k, ¬ known N k).
  { intros k [(j & h & Hj & Hk)|(q & Hq & _)]; [|rewrite Hsent in Hq; by apply not_elem_of_nil in Hq].
    destruct (Hdown _ _ Hj) as (_ & e & ->). unfold host_disk, disk_log in Hk. cbn in Hk.
    rewrite (Hdisk _ _ Hj) in Hk. by destruct Hk as [?%not_elem_of_nil|?%not_elem_of_nil]. }
  split; [done|by rewrite Hels; constructor|..].
  - intros i h Hi. destruct (Hdown _ _ Hi) as (_ & e & ->). intros st. by rewrite (Hdisk _ _ Hi).
  - intros q. rewrite Hsent. by intros ?%not_elem_of_nil.
  - intros k1 k2 Hk1. by destruct (Hno k1).
  - intros i t (n & Hn & _). by destruct (Hdown _ _ Hn) as (_ & e & [=]).
  - intros k Hk. by destruct (Hno k).
  - intros i n k Hn. by destruct (Hdown _ _ Hn) as (_ & e & [=]).
Qed.

Lemma net_reachable_ok N : net_reachable cfg scfg sm0 members N → net_ok cfg members N.
Proof.
  intros (N0 & Hinit & Hsteps). apply net_init_ok in Hinit.
  induction Hsteps as [|N1 N2 N3 Hstep _ IH]; [done|]. apply IH. by eapply net_step_ok.
Qed.
End preservation.

(** ** Log matching *)

(** Logs whose links agree: from an index where both have an entry of one term downward
    they have the same terms, and the same entries above their snapshots. *)
Lemma links_match (c1 c2 : RaftCore) (d : nat) i r1 r2 s1 s2 :
  log_ok c1 → log_ok c2 →
  (∀ k1 k2, k1 ∈ links (log_ c1) → k2 ∈ links (log_ c2) → agree k1 k2) →
  LogAtIndexLocked c1 (i + Z.of_nat d) = Some r1 → LogAtIndexLocked c2 (i + Z.of_nat d) = Some r2 →
  term r1 = term r2 → LogAtIndexLocked c1 i = Some s1 → LogAtIndexLocked c2 i = Some s2 →
  term s1 = term s2 ∧ (last_snapshot_index_ c1 < i → last_snapshot_index_ c2 < i → s1 = s2).
Proof.
  intros Hok1 Hok2 Hag. revert r1 r2.
  assert (Hlow : ∀ c j r, log_ok c → LogAtIndexLocked c j = Some r → last_snapshot_index_ c ≤ j).
  { intros c j r Hok. rewrite LogAtIndex_lookup by done. by case_decide. }
  assert (Hprev : ∀ c j r, log_ok c → LogAtIndexLocked c j = Some r → last_snapshot_index_ c < j →
    ∃ a, LogAtIndexLocked c (j - 1) = Some a ∧ (term a, r) ∈ links (log_ c)).
  { intros c j r Hok Hr Hlt. destruct (LogAtIndex_Some _ _ _ Hok Hr) as [Hidx _].
    assert (Ha : is_Some (LogAtIndexLocked c (j - 1))).
    { rewrite LogAtIndex_lookup, decide_True in Hr by (done || lia).
      rewrite LogAtIndex_lookup, decide_True by (done || lia).
      apply lookup_lt_Some in Hr. apply lookup_lt_is_Some. lia. }
    destruct Ha as [a Ha]. exists a. split; [done|]. apply links_at; [done|]. cbn [fst snd].
    rewrite Hidx. by exists a. }
  assert (Hsame : ∀ j r1 r2, LogAtIndexLocked c1 j = Some r1 → LogAtIndexLocked c2 j = Some r2 →
    term r1 = term r2 → last_snapshot_index_ c1 < j → last_snapshot_index_ c2 < j →
    r1 = r2 ∧ ∃ a1 a2, LogAtIndexLocked c1 (j - 1) = Some a1 ∧ LogAtIndexLocked c2 (j - 1) = Some a2 ∧
      term a1 = term a2).
  { intros j r1 r2 Hr1 Hr2 Ht Hj1 Hj2.
    destruct (Hprev _ _ _ Hok1 Hr1 Hj1) as (a1 & Ha1 & Hk1).
    destruct (Hprev _ _ _ Hok2 Hr2 Hj2) as (a2 & Ha2 & Hk2).
    destruct (LogAtIndex_Some _ _ _ Hok1 Hr1) as [Hi1 _], (LogAtIndex_Some _ _ _ Hok2 Hr2) as [Hi2 _].
    specialize (Hag _ _ Hk1 Hk2). unfold agree in Hag. cbn [snd] in Hag.
    injection (Hag ltac:(congruence) Ht) as Hta <-. split; [done|]. by exists a1, a2. }
  induction d as [|d IH]; intros r1 r2 Hr1 Hr2 Ht Hs1 Hs2.
  - rewrite Z.add_0_r in Hr1, Hr2. simplify_eq. split; [done|]. intros Hl1 Hl2. by eapply Hsame.
  - pose proof (Hlow _ _ _ Hok1 Hs1). pose proof (Hlow _ _ _ Hok2 Hs2).
    destruct (Hsame _ _ _ Hr1 Hr2 Ht) as (_ & a1 & a2 & Ha1 & Ha2 & Hta); [lia..|].
    replace (i + Z.of_nat (S d) - 1) with (i + Z.of_nat d) in * by lia. by eapply IH.
Qed.



(** ** A run *)

#[export] Instance sim_recovered_log : RecoveredLog Datatypes.id.
Proof. split; [done|intros st r _|done]. unfold Datatypes.id. lia. Qed.
#[export] Instance sim_snapshot_indices : SnapshotIndices SimEnv.
Proof.
  intros e r err [= <- _]. apply Forall_forall. by intros m [Hm _]%list_elem_of_filter.
Qed.

(** Executable steps of the network: those of the elections, an entry of the leader, a
    request built, and the [m]-th request delivered to a node. *)
Inductive NetEvent :=
  | EvControl (ev : Event) | EvNoop (i : Z) | EvPropose (i : Z) (cmd : Command)
  | EvBuild (i peer_id t : Z) | EvAppend (j : Z) (m : nat).

Section run.
Context {SM E : Type} `{HostEnv E, IRaftStorage E, ISnapshotStorage E, !IStateMachine SM E}.
Context (cfg : Z → NodeConfig) (scfg : Z → snapshotConfig) (sm0 : Z → SM).
Implicit Types N : Net SM E.

Definition put_host N (i : Z) (n : Node SM E) (new : list AppendEntriesRequest) : Net SM E :=
  mkNet ((net_cluster N) <| hosts ::= <[i := Up n]> |>) (new ++ sent N).

Definition net_exec (ev : NetEvent) N : option (Net SM E) :=
  match ev with
  | EvControl ev => C' ← exec cfg scfg sm0 ev (net_cluster N); Some (mkNet C' (sent N))
  | EvNoop i =>
      n ← running (net_cluster N) i;
      if decide (role_ (core n) = kLeader ∧ LastLogIndexLocked (core n) < u64_max)
      then Some (put_host N i (AppendLocalLogUnlocked kInternalNoOpCommand n).2 []) else None
  | EvPropose i cmd =>
      n ← running (net_cluster N) i;
      if decide (LastLogIndexLocked (core n) < u64_max)
      then Some (put_host N i (ProposeLocked cmd n).2 []) else None
  | EvBuild i peer_id t =>
      n ← running (net_cluster N) i;
      if decide (is_u64 (default 0 (next_index_ (core n) !! peer_id)) ∧
                 LastLogIndexLocked (core n) < u64_max)
      then let '(r, n') := BuildAppendEntriesRequest peer_id t n in
           Some (put_host N i n' (requests_of r))
      else None
  | EvAppend j m =>
      n ← running (net_cluster N) j; request ← sent N !! m;
      Some (put_host N j (OnAppendEntriesLocked request n).2 [])
  end.

Fixpoint net_run (evs : list NetEvent) N : option (Net SM E) :=
  match evs with
  | [] => Some N
  | ev :: evs => N' ← net_exec ev N; net_run evs N'
  end.

Lemma net_exec_step ev N N' : net_exec ev N = Some N' → net_step cfg scfg sm0 N N'.
Proof.
  destruct ev as [ev|i|i cmd|i p t|j m]; cbn [net_exec]; intros Hrun.
  - destruct (exec _ _ _ ev _) as [C'|] eqn:Hev; [|done]. injection Hrun as <-.
    by eapply NS_control, exec_step.
  - destruct (running _ i) as [n|] eqn:Hn; [|done]. cbn in Hrun. case_decide as Hc; [|done].
    injection Hrun as <-. by eapply NS_repl; [apply running_Some|apply RS_noop; apply Hc].
  - destruct (running _ i) as [n|] eqn:Hn; [|done]. cbn in Hrun. case_decide; [|done].
    injection Hrun as <-. by eapply NS_repl; [apply running_Some|apply RS_propose].
  - destruct (running _ i) as [n|] eqn:Hn; [|done]. cbn in Hrun. case_decide as Hc; [|done].
    destruct (BuildAppendEntriesRequest p t n) as [r n'] eqn:Hb. injection Hrun as <-.
    eapply NS_repl; [by apply running_Some|]. eapply RS_build; [apply Hc..|exact Hb].
  - destruct (running _ j) as [n|] eqn:Hn; [|done]. cbn in Hrun.
    destruct (sent N !! m) as [q|] eqn:Hq; [|done]. cbn in Hrun. injection Hrun as <-.
    eapply NS_repl; [by apply running_Some|]. apply RS_append. by eapply list_elem_of_lookup_2.
Qed.

Lemma net_run_steps evs N N' : net_run evs N = Some N' → rtc (net_step cfg scfg sm0) N N'.
Proof.
  revert N. induction evs as [|ev evs IH]; intros N; cbn [net_run]; [by intros [= <-]|].
  destruct (net_exec ev N) as [N1|] eqn:Hev; [|done]. cbn. intros Hrun.
  eapply rtc_l; [by eapply net_exec_step|by apply IH].
Qed.

Lemma put_host_running N i n new : running (net_cluster (put_host N i n new)) i = Some n.
Proof. unfold running, put_host. cbn. by rewrite lookup_insert_eq. Qed.
End run.

Definition sim_net : Net KvStateMachine SimEnv := mkNet sim_cluster [].
Definition sim_net_run (evs : list NetEvent) (N : Net KvStateMachine SimEnv) :=
  net_run sim_config (λ _, default_snapshotConfig) (λ _, mkKv ∅) evs N.

Lemma sim_net_init : net_init sim_members sim_net.
Proof.
  assert (Hh : ∀ i h, hosts (net_cluster sim_net) !! i = Some h → i ∈ sim_members ∧ h = Down sim_init).
  { intros i h Hi. cbn in Hi.
    apply lookup_insert_Some in Hi as [[<- <-]|[_ Hi]]; [done|].
    apply lookup_insert_Some in Hi as [[<- <-]|[_ Hi]]; [done|].
    by apply lookup_singleton_Some in Hi as [<- <-]. }
  split; [split; [done|]|split; [done|]].
  - intros i h Hi. destruct (Hh _ _ Hi). eauto.
  - intros i e Hi. by destruct (Hh _ _ Hi) as [_ [= ->]].
Defined.

(** Node 1 wins term 1, appends two entries that reach nobody, and crashes; node 3 wins
    term 2 with the vote of 2, appends a no-op and a SET, and sends them to 2 and to the
    restarted 1, whose two entries are replaced. *)
Definition sim_net_events : list NetEvent :=
  (EvControl <$> [EvBoot 1; EvBoot 2; EvBoot 3; EvTimeout 1 1; EvVote 0 0; EvReply 0 0; EvWon 0])
  ++ [EvNoop 1; EvPropose 1 (mkCommand kSet "a" "1")]
  ++ (EvControl <$> [EvCrash 1; EvBoot 1; EvTimeout 3 1; EvVote 1 1; EvReply 1 0; EvTimeout 3 2;
       EvVote 2 1; EvReply 2 0; EvWon 2])
  ++ [EvNoop 3; EvPropose 3 (mkCommand kSet "b" "2"); EvBuild 3 1 2; EvAppend 1 0; EvAppend 2 0].


