(* ===== verification/Carry.v ===== *)
(** What each operation of a node leaves of its log, in memory and on disk: [carried X L n n']
    says that in both places it is the old log or the new log [L], written with the node's
    term; that the term goes not back; that nobody becomes a candidate or a leader; and that
    a leader's [match_index_] holds nothing new but what [X] allows.  [kept X] is the case
    without a new log. *)
From S2P Require Import Prelude Command Types Timer Metrics Env Sim Node SimNode.
From S2P Require Import NodeLog Election AppendEntries Bytes Fs StateMachine Commit.
From S2P Require Import Replicator Propose SnapshotNode Steady Votes Links.

(** The term and the log a process would start from. *)
Definition disk_view {E} `{IRaftStorage E} (e : E) : Z * list LogRecord :=
  match disk_state e with
  | Some st => (ps_current_term st, ps_log st)
  | None => (0, [bootstrap_record])
  end.

Lemma disk_view_same {E} `{IRaftStorage E} (e e' : E) :
  disk_state e' = disk_state e → disk_view e' = disk_view e.
Proof. unfold disk_view. by intros ->. Qed.

Section carry.
Context {SM E : Type} `{HostEnv E, IRaftStorage E}.
Context (recovered : PersistentRaftState → PersistentRaftState).
Context `{!StorageLaws E recovered, !RecoveredLog recovered}.
Implicit Types (n : Node SM E) (e : E) (X : Z → Z → Prop) (L : list LogRecord).

Record carried X L n n' : Prop := {
  ca_config : config_ n' = config_ n;
  ca_term : current_term_ (core n) ≤ current_term_ (core n');
  ca_log : log_ (core n') = log_ (core n) ∨
    log_ (core n') = L ∧ disk_view (env_ n') = (current_term_ (core n'), L);
  ca_disk : disk_view (env_ n') = disk_view (env_ n) ∨
    (∃ t, current_term_ (core n) ≤ t ∧ disk_view (env_ n') = (t, log_ (core n))) ∨
    disk_view (env_ n') = (current_term_ (core n'), L);
  ca_candidate : role_ (core n') = kCandidate →
    role_ (core n) = kCandidate ∧ current_term_ (core n') = current_term_ (core n) ∧
    log_ (core n') = log_ (core n);
  ca_leader : role_ (core n') = kLeader →
    role_ (core n) = kLeader ∧ current_term_ (core n') = current_term_ (core n) ∧
    ∀ p m, p ≠ node_id (config_ n) → match_index_ (core n') !! p = Some m →
      match_index_ (core n) !! p = Some m ∨ X p m }.

Definition kept X n n' : Prop := carried X (log_ (core n)) n n'.

Lemma kept_log X n n' : kept X n n' → log_ (core n') = log_ (core n).
Proof. by intros [_ _ [->|[-> _]] _ _ _]. Qed.

(** The disk after a kept log. *)
Lemma kept_disk X n n' : kept X n n' →
  disk_view (env_ n') = disk_view (env_ n) ∨
  ∃ t, current_term_ (core n) ≤ t ∧ disk_view (env_ n') = (t, log_ (core n)).
Proof. intros [_ Ht _ [?|[?|?]] _ _]; eauto. Qed.

Lemma kept_carried X L n1 n2 n3 : kept X n1 n2 → carried X L n2 n3 → carried X L n1 n3.
Proof.
  intros H1 H2. pose proof (kept_log _ _ _ H1) as Hl. pose proof (kept_disk _ _ _ H1) as Hd.
  destruct H1 as [Hc1 Ht1 _ _ Hk1 Hr1], H2 as [Hc2 Ht2 Hl2 Hd2 Hk2 Hr2]. split.
  - congruence.
  - lia.
  - destruct Hl2 as [->|[? ?]]; auto.
  - destruct Hd2 as [->|[(t & ? & ->)| ->]]; [naive_solver| |by auto].
    right. left. exists t. split; [lia|congruence].
  - naive_solver congruence.
  - intros Hr. destruct (Hr2 Hr) as (Hr' & ? & Hm). destruct (Hr1 Hr') as (? & ? & Hm').
    split_and!; [done|congruence|]. intros p m Hp Hpm.
    destruct (Hm p m ltac:(congruence) Hpm) as [?|?]; auto.
Qed.

#[export] Instance kept_preorder X : PreOrder (kept X).
Proof.
  split.
  - intros n. by split; auto.
  - intros n1 n2 n3 H1 H2. pose proof (kept_log _ _ _ H1) as Hl. unfold kept in *.
    rewrite <- Hl. rewrite Hl in H2. rewrite Hl. by eapply kept_carried.
Qed.

(** Neither the log, the role, the term, the progress of the peers nor the disk changed. *)
Lemma kept_same X n n' :
  config_ n' = config_ n → log_ (core n') = log_ (core n) → role_ (core n') = role_ (core n) →
  current_term_ (core n') = current_term_ (core n) →
  match_index_ (core n') = match_index_ (core n) →
  disk_state (env_ n') = disk_state (env_ n) → kept X n n'.
Proof.
  intros Hc Hl Hr Ht Hm Hd. split; rewrite ?Hc, ?Hl, ?Hr, ?Ht, ?Hm; auto; try done.
  left. by apply disk_view_same.
Qed.

(** The hard state moves on to a follower's. *)
Lemma kept_forward X n n' :
  config_ n' = config_ n → log_ (core n') = log_ (core n) → role_ (core n') = kFollower →
  current_term_ (core n) ≤ current_term_ (core n') →
  disk_state (env_ n') = disk_state (env_ n) → kept X n n'.
Proof.
  intros Hc Hl Hr Ht Hd. split; rewrite ?Hr; auto; try done. left. by apply disk_view_same.
Qed.

Lemma disk_view_recovered c e :
  disk_state e = Some (recovered (persistent_state c)) → disk_view e = (current_term_ c, log_ c).
Proof.
  unfold disk_view. intros ->. rewrite recovered_log.
  by destruct (recovered_hard (recovered := recovered) (persistent_state c)) as [-> _].
Qed.

(** What a write leaves on disk. *)
Lemma persist_view n ok err n' :
  PersistStateLocked n = ((ok, err), n') →
  core n' = core n ∧ config_ n' = config_ n ∧
  (disk_view (env_ n') = (current_term_ (core n), log_ (core n)) ∨
   ok = false ∧ disk_view (env_ n') = disk_view (env_ n)).
Proof.
  intros Hp. pose proof (PersistStateLocked_frame n) as Hf. rewrite Hp in Hf.
  destruct Hf as [Hc _ Hk _ _ _ _]. cbn [snd] in *. split_and!; [done|done|]. destruct ok.
  - left. by eapply disk_view_recovered, (PersistStateLocked_disk recovered).
  - destruct (PersistStateLocked_disk_fail recovered _ _ _ Hp) as [Hd|Hd].
    + right. split; [done|by apply disk_view_same].
    + left. by apply disk_view_recovered.
Qed.

Lemma kept_persist X n : kept X n (PersistStateLocked n).2.
Proof.
  destruct (PersistStateLocked n) as [[ok err] n'] eqn:Hp.
  destruct (persist_view _ _ _ _ Hp) as (Hk & Hc & Hd). cbn [snd].
  split; rewrite ?Hk; auto; try done. destruct Hd as [->|[_ ->]]; [|by left].
  right. left. by eexists.
Qed.

(** Writing [m], which has the log of [n] and a later term, and then giving the core back. *)
Lemma kept_try X n (m n' : Node SM E) :
  log_ (core m) = log_ (core n) → current_term_ (core n) ≤ current_term_ (core m) →
  disk_state (env_ m) = disk_state (env_ n) →
  config_ n' = config_ n → log_ (core n') = log_ (core n) → role_ (core n') = role_ (core n) →
  current_term_ (core n') = current_term_ (core n) →
  match_index_ (core n') = match_index_ (core n) →
  disk_state (env_ n') = disk_state (env_ (PersistStateLocked m).2) → kept X n n'.
Proof.
  intros Hlm Htm Hdm Hc Hl Hr Ht Hm Hd. apply disk_view_same in Hd, Hdm.
  destruct (PersistStateLocked m) as [[ok err] m'] eqn:Hp.
  destruct (persist_view _ _ _ _ Hp) as (_ & _ & Hv). cbn [snd] in Hd.
  split; rewrite ?Hc, ?Hl, ?Hr, ?Ht, ?Hm, ?Hd; auto; try done.
  destruct Hv as [->|[_ ->]]; [right; left|by left]. exists (current_term_ (core m)).
  by rewrite Hlm.
Qed.

Lemma kept_steady X n n' : steady recovered n n' → kept X n n'.
Proof.
  intros [Hc _ Hm Hh Hr Hd]. split; auto.
  - unfold hs_le, hs_of in Hh. cbn in Hh. lia.
  - left. apply Hm.
  - destruct Hd as [?|(c & Hmc & Hhc & Hd)]; [left; by apply disk_view_same|].
    right. left. exists (current_term_ c). split; [unfold hs_le, hs_of in Hhc; cbn in Hhc; lia|].
    rewrite (disk_view_recovered _ _ Hd). by rewrite (sl_log _ _ Hmc).
  - destruct Hr as [Hr|(Hr & Ht & _)]; rewrite Hr; [done|]. intros ?. split_and!; [done..|apply Hm].
  - intros Hl. destruct Hr as [Hr|(? & ? & Hmi)]; [congruence|]. rewrite Hmi. split_and!; [congruence|done|by left].
Qed.

(** Replace a helper call by what is known of it. *)
Ltac kept_call X :=
  match goal with
  | |- context [PersistStateLocked ?m] =>
      let Hq := fresh "Hq" in pose proof (kept_persist X m) as Hq;
      destruct (PersistStateLocked m) as [[[] ?] ?]; cbn [fst snd negb] in *
  end.
Ltac kept_step := first [done | apply kept_same; node_simpl; done].
Ltac kept_trans Hq := etrans; [|etrans; [exact Hq|]]; kept_step.

Lemma kept_AdvanceCommit X n : kept X n (AdvanceCommitIndexUnlocked n).
Proof.
  unfold AdvanceCommitIndexUnlocked. case_decide; [done|]. case_decide; [done|].
  case_match; [|done]. etrans; [|apply kept_persist]. kept_step.
Qed.

(** A successful answer of the leader's own term raises its peer's entry. *)
Definition raises (peer_id t : Z) (response : AppendEntriesResponse) n (p m : Z) : Prop :=
  p = peer_id ∧ current_term_ (core n) = t ∧ aresp_success response = true ∧
  (m = aresp_match_index response ∨ m = 0).

Lemma kept_Handle peer_id t target response n :
  kept (raises peer_id t response n) n (HandleAppendEntriesResponse peer_id t target response n).2.
Proof.
  unfold HandleAppendEntriesResponse. case_match; [done|].
  case_decide; [apply kept_steady, (steady_BecomeFollower recovered); lia|].
  case_match eqn:Hc; [done|]. apply orb_false_elim in Hc as [_ Hc%bool_decide_eq_false].
  apply dec_stable in Hc.
  case_match eqn:Hs; cbn [snd]; [|kept_step].
  etrans; [|apply kept_AdvanceCommit]. split; node_simpl; auto; try done.
  intros Hr. split_and!; [done|done|]. intros p m _ Hp.
  apply lookup_insert_Some in Hp as [[<- <-]|[_ Hp]]; [|by left].
  unfold raises. destruct (match_index_ (core n) !! peer_id) as [d|]; cbn [from_option].
  - unfold Datatypes.id. destruct (Z.max_spec d (aresp_match_index response)) as [[_ ->]|[_ ->]]; [right; auto|by left].
  - right. split_and!; [done..|]. lia.
Qed.

Lemma kept_ApplyDone X i n : kept X n (ApplyDoneLocked i n).2.
Proof.
  unfold ApplyDoneLocked. case_decide; [|apply kept_steady, (steady_MaybeSchedule recovered)].
  kept_call X; (etrans; [|etrans; [exact Hq|]]); try kept_step. apply kept_steady, (steady_MaybeSchedule recovered).
Qed.

Lemma kept_ApplyIteration X `{!IStateMachine SM E} n : kept X n (ApplyIteration n).2.
Proof.
  unfold ApplyIteration.
  assert (Hf : kept X n (ApplyFetchLocked n).2).
  { unfold ApplyFetchLocked. cbv zeta.
    match goal with |- kept X n (if _ then (_, ?m) else _).2 =>
      assert (kept X n m) by (case_decide; kept_step) end.
    repeat case_match; done. }
  destruct (ApplyFetchLocked n) as [[r|[i data]] n1]; cbn [snd] in *; [done|].
  destruct (sm_Apply i data (state_machine_ n1)) as [r sm]. case_match; cbn [snd].
  - etrans; [exact Hf|kept_step].
  - etrans; [exact Hf|]. etrans; [|apply kept_ApplyDone]. kept_step.
Qed.

Lemma kept_ApplyCommitted X `{!IStateMachine SM E} n : kept X n (ApplyCommittedEntries n).2.
Proof.
  assert (Hloop : ∀ fuel m, kept X m (ApplyLoop fuel m).2).
  { induction fuel as [|fuel IH]; intros m; [done|]. cbn [ApplyLoop].
    pose proof (kept_ApplyIteration X m) as Hq. destruct (ApplyIteration m) as [[r|] m1]; [done|].
    etrans; [exact Hq|apply IH]. }
  unfold ApplyCommittedEntries. specialize (Hloop (apply_fuel n) n).
  by destruct (ApplyLoop _ _) as [[] ?].
Qed.

(** *** New logs *)

(** A new log [l], written and either kept or put back. *)
Lemma carried_written X l n n1 n' ok err :
  log_ (core n1) = l → role_ (core n1) = role_ (core n) →
  current_term_ (core n1) = current_term_ (core n) →
  config_ n1 = config_ n → env_ n1 = env_ n →
  (∀ p, p ≠ node_id (config_ n) → match_index_ (core n1) !! p = match_index_ (core n) !! p) →
  PersistStateLocked n1 = ((ok, err), n') → role_ (core n) ≠ kCandidate →
  (ok = true → carried X l n n' ∧ log_ (core n') = l) ∧
  (ok = false → ∀ n2, config_ n2 = config_ n' → env_ n2 = env_ n' → log_ (core n2) = log_ (core n) →
     role_ (core n2) = role_ (core n) → current_term_ (core n2) = current_term_ (core n) →
     (∀ p, p ≠ node_id (config_ n) → match_index_ (core n2) !! p = match_index_ (core n) !! p) →
     carried X l n n2).
Proof.
  intros Hl Hr Ht Hcfg Henv Hm Hp Hcand. destruct (persist_view _ _ _ _ Hp) as (Hk & Hc & Hd).
  rewrite Ht, Hl, Henv in Hd. split.
  - intros ->. destruct Hd as [Hd|[? _]]; [|done]. split; [|by rewrite Hk].
    split; rewrite ?Hk, ?Ht, ?Hl, ?Hr, ?Hd; auto; try done; [congruence|].
    intros Hrl. split_and!; [done..|]. intros p m Hne. rewrite Hm by done. by left.
  - intros -> n2 Hc2 He2 Hl2 Hr2 Ht2 Hm2.
    split; rewrite ?He2, ?Hl2, ?Hr2, ?Ht2; auto; try done; [congruence| |].
    + destruct Hd as [Hd|[_ Hd]]; auto.
    + intros Hrl. split_and!; [done..|]. intros p m Hne. rewrite Hm2 by done. by left.
Qed.

Lemma carried_Finish X request changed m response n l :
  role_ (core n) = kFollower → (changed = false → l = log_ (core n)) →
  carried X l n
    (FinishAppendEntries request changed (if changed then Some (log_ (core n)) else None) m response
       (n <| core := set_log l (core n) |>)).2.
Proof.
  intros Hrole Hsame. unfold FinishAppendEntries. cbv zeta.
  set (n1 := n <| core := set_log l (core n) |>).
  assert (Hcommit : ∀ n2, carried X l n n2 → log_ (core n2) = l →
    disk_view (env_ n2) = (current_term_ (core n2), l) →
    ∀ n3, log_ (core n3) = l → config_ n3 = config_ n2 →
    role_ (core n3) = role_ (core n2) → current_term_ (core n3) = current_term_ (core n2) →
    match_index_ (core n3) = match_index_ (core n2) →
    disk_view (env_ n3) = (current_term_ (core n2), l) → carried X l n n3).
  { intros n2 [Hc2 Ht2 Hlog2 Hd2 Hk2 Hr2] Hl2 Hd n3 Hl3 Hc3 Hr3 Ht3 Hm3 Hd3.
    split; rewrite ?Hc3, ?Hl3, ?Hr3, ?Ht3, ?Hm3; auto. by rewrite Hl2 in Hk2. }
  destruct changed.
  - destruct (PersistStateLocked n1) as [[ok err] n2] eqn:Hp.
    destruct (carried_written X l n n1 n2 ok err) as [Hyes Hno]; [done..|by rewrite Hrole|].
    destruct (persist_view _ _ _ _ Hp) as (Hk & Hc & Hd).
    destruct ok; cbn [negb].
    + destruct (Hyes eq_refl) as [Hca Hl2]. destruct Hd as [Hd|[? _]]; [|done].
      assert (Hd' : disk_view (env_ n2) = (current_term_ (core n2), l)) by (by rewrite Hd, Hk).
      case_decide; [|done]. case_decide; [|done].
      match goal with |- context [PersistStateLocked ?m] =>
        destruct (PersistStateLocked m) as [[ok2 err2] n3] eqn:Hp2 end.
      destruct (persist_view _ _ _ _ Hp2) as (Hk3 & Hc3 & Hd3). node_simpl in *.
      assert (Hd2 : disk_view (env_ n3) = (current_term_ (core n2), l))
        by (destruct Hd3 as [->|[_ ->]]; [by rewrite Hl2|done]).
      apply (Hcommit n2 Hca Hl2 Hd'); (destruct ok2; cbn [negb snd]; node_simpl); by rewrite ?Hk3.
    + apply (Hno eq_refl); cbn [snd]; node_simpl; by rewrite ?Hk.
  - assert (Hn1 : kept X n n1).
    { apply kept_same; try done. unfold n1. node_simpl. by rewrite Hsame. }
    rewrite (Hsame eq_refl). match goal with |- carried _ _ _ ?x => change (kept X n x) end.
    cbn [negb]. case_decide; [|done]. case_decide; [|done]. etrans; [exact Hn1|].
    kept_call X; kept_trans Hq.
Qed.

(** [OnAppendEntries] keeps the log or takes the one the request asks for. *)
Lemma carried_OnAppendEntries X request n :
  log_ok (core n) → entries_ok (areq_prev_log_index request) (areq_entries request) →
  let n' := (OnAppendEntriesLocked request n).2 in
  ∃ L, carried X L n n' ∧
    (L = log_ (core n) ∨ L = merged_log request (core n) ∧ prev_matches request (core n) ∧
       current_term_ (core n') = areq_term request ∧ role_ (core n') = kFollower).
Proof.
  intros Hok He. cbv zeta. unfold OnAppendEntriesLocked. cbv zeta.
  case_decide as Hstale; [exists (log_ (core n)); split; [by apply kept_same|by left]|].
  pose proof (kept_steady X _ _ (steady_FollowLeader recovered request n ltac:(lia))) as Hq.
  pose proof (FollowLeader_role request n) as Hrole.
  destruct (FollowLeader_core request n) as [_ Hcore].
  destruct (FollowLeaderLocked request n) as [[] n1]; cbn [fst snd negb] in *;
    [|by exists (log_ (core n)); split; [|left]].
  case_decide; [by exists (log_ (core n)); split; [|left]|].
  case_match eqn:Hhas; [by exists (log_ (core n)); split; [|left]|].
  case_decide; [by exists (log_ (core n)); split; [|left]|].
  apply negb_false_iff in Hhas.
  assert (Hsl : same_log (core n) (core n1)) by (rewrite Hcore; apply follower_core_same_log).
  assert (Hok1 : log_ok (core n1)) by (by eapply same_log_log_ok).
  assert (Hp : prev_matches request (core n1)) by (split_and!; [lia|done|done]).
  pose proof (prev_matches_same_log request _ _ Hsl Hok Hp) as Hp0.
  pose proof (merged_same_log request _ _ Hsl) as Hmerge.
  destruct (AppendLoop_merged request (core n1)) as (changed & -> & Hsame); [done..|].
  rewrite Hmerge in *. exists (merged_log request (core n)). split.
  - eapply kept_carried; [exact Hq|]. by apply carried_Finish.
  - right. split; [done|]. split; [done|].
    match goal with |- context [FinishAppendEntries ?r ?ch ?o ?m ?resp ?k] =>
      destruct (FinishAppendEntries r ch o m resp k) as [[r0 b0] n2] eqn:Hfin end.
    apply FinishAppendEntries_core in Hfin as (_ & _ & persisted & committed & Hfin).
    apply finish_core_log in Hfin as (_ & _ & _ & _ & _ & _ & Hc'). cbn [snd]. rewrite Hc'.
    split; [|done]. unfold set_log. node_simpl. rewrite Hcore. unfold leader_seen, follower_core.
    case_decide; node_simpl; lia.
Qed.

(** A leader's own entry. *)
Definition new_record (data : string) (c : RaftCore) : LogRecord :=
  mkLogRecord (LastLogIndexLocked c + 1) (current_term_ c) data.

Lemma carried_AppendLocalLog X data n :
  log_ok (core n) → LastLogIndexLocked (core n) < u64_max → role_ (core n) = kLeader →
  carried X (log_ (core n) ++ [new_record data (core n)]) n (AppendLocalLogUnlocked data n).2.
Proof.
  intros Hok Hmax Hr. unfold AppendLocalLogUnlocked. cbv zeta.
  rewrite (SafeAddOne_lt (LastLogIndexLocked (core n))) by (done || by apply LastLogIndex_u64).
  match goal with |- context [PersistStateLocked ?m] =>
    change m with (n <| core ::= appended_core (node_id (config_ n)) data |>) end.
  set (n1 := n <| core ::= appended_core (node_id (config_ n)) data |>).
  destruct (PersistStateLocked n1) as [[ok err] n2] eqn:Hp.
  destruct (carried_written X (log_ (core n) ++ [new_record data (core n)]) n n1 n2 ok err)
    as [Hyes Hno]; try done; [|by rewrite Hr|].
  { intros p Hp'. unfold n1. node_simpl. unfold appended_core. node_simpl.
    by rewrite lookup_insert_ne. }
  destruct (persist_view _ _ _ _ Hp) as (Hk & Hc & _).
  destruct ok; cbn [negb snd]; [by apply Hyes|]. apply (Hno eq_refl); node_simpl; rewrite ?Hk; try done.
  - unfold n1, appended_core. node_simpl. by rewrite removelast_last.
  - intros p Hp'. unfold n1, appended_core. node_simpl. by rewrite !lookup_insert_ne.
Qed.

Lemma AppendLocalLog_term data n :
  log_ok (core n) → LastLogIndexLocked (core n) < u64_max →
  current_term_ (core (AppendLocalLogUnlocked data n).2) = current_term_ (core n).
Proof.
  intros Hok Hmax. destruct (AppendLocalLogUnlocked data n) as [i n'] eqn:Hrun.
  by destruct (AppendLocalLog_effect _ _ _ _ Hrun Hok Hmax) as (_ & _ & _ & [[_ Hc]|(_ & Hc & _)]);
    cbn [snd]; rewrite Hc.
Qed.

Lemma carried_ProposeLocked X cmd n :
  log_ok (core n) → LastLogIndexLocked (core n) < u64_max →
  ∃ L, carried X L n (ProposeLocked cmd n).2 ∧
    (L = log_ (core n) ∨ role_ (core n) = kLeader ∧
       L = log_ (core n) ++ [new_record (Serialize cmd) (core n)] ∧
       current_term_ (core (ProposeLocked cmd n).2) = current_term_ (core n)).
Proof.
  intros Hok Hmax. unfold ProposeLocked. cbv zeta.
  case_match; [exists (log_ (core n)); split; [by apply kept_same|by left]|].
  case_decide as Hr; [exists (log_ (core n)); split; [by apply kept_same|by left]|].
  case_match; [exists (log_ (core n)); split; [by apply kept_same|by left]|].
  case_decide; [exists (log_ (core n)); split; [by apply kept_same|by left]|].
  pose proof (carried_AppendLocalLog X (Serialize cmd) n Hok Hmax Hr) as Hq.
  pose proof (AppendLocalLog_term (Serialize cmd) n Hok Hmax) as Ht.
  destruct (AppendLocalLogUnlocked (Serialize cmd) n) as [i n1]. cbn [snd] in Hq, Ht.
  exists (log_ (core n) ++ [new_record (Serialize cmd) (core n)]).
  split; [|right; split_and!; [done|done|by case_decide]].
  case_decide; [|exact Hq]. destruct Hq. by split.
Qed.

(** *** Elections *)

(** An election that starts leaves its candidate's log in memory and on disk, and describes
    it in the requests. *)
Definition stands n n' : Prop :=
  config_ n' = config_ n ∧ role_ (core n') = kCandidate ∧ log_ (core n') = log_ (core n) ∧
  current_term_ (core n') = current_term_ (core n) + 1 ∧
  disk_view (env_ n') = (current_term_ (core n) + 1, log_ (core n)).

Lemma StartElection_carry X n r n' :
  StartElection n = (r, n') → 0 ≤ current_term_ (core n) < u64_max →
  (r = ElectionAborted ∧ kept X n n') ∨
  stands n n' ∧ (r = ElectionWonAlone (current_term_ (core n) + 1) ∨
    ∃ requests, r = ElectionAsk (current_term_ (core n) + 1) (quorum_of (config_ n)) requests ∧
      ∀ j request, (j, request) ∈ requests →
        vreq_last_log_index request = LastLogIndexLocked (core n) ∧
        vreq_last_log_term request = LastLogTermLocked (core n)).
Proof.
  intros Hrun Ht. pose proof (StartElection_effect _ _ _ Hrun) as ([Hcfg _] & Heff). revert Hrun.
  unfold StartElection. set (n1 := n <| metrics_ ::= RecordElectionStarted |>).
  assert (Hq1 : kept X n n1) by kept_step.
  destruct (negb (running_ n1) || _); [intros [= <- <-]; by left|]. cbv zeta.
  match goal with |- context [PersistStateLocked ?m] => set (n2 := m) end.
  destruct (PersistStateLocked n2) as [[ok err] n3] eqn:Hp.
  destruct (persist_view _ _ _ _ Hp) as (Hk & Hc & Hd).
  pose proof (kept_try X n1 n2) as Htry. rewrite Hp in Htry.
  assert (Ht2 : current_term_ (core n2) = current_term_ (core n) + 1).
  { unfold n2, n1. node_simpl. apply u64_id. u64_lia. }
  destruct ok; cbn [negb].
  - destruct Hd as [Hd|[? _]]; [|done]. intros Hrun. right.
    assert (Hn' : n' = ResetElectionTimerLocked n3)
      by (revert Hrun; destruct (decide (quorum_of (config_ n3) ≤ 1)); congruence).
    assert (Hab : r ≠ ElectionAborted)
      by (revert Hrun; destruct (decide (quorum_of (config_ n3) ≤ 1)); congruence).
    destruct Heff as [[? _]|(_ & _ & Hcore & Heff)]; [done|]. cbv zeta in Heff.
    assert (Htt : current_term_ (core n') = current_term_ (core n) + 1)
      by (rewrite Hn', (sbh_core _ _ (ResetElectionTimer_frame n3)), Hk; done).
    split; [split_and!; [done| | |done|]|].
    + by rewrite Hcore.
    + by rewrite Hcore.
    + rewrite Hn'. rewrite (disk_view_same _ _ (ResetElectionTimer_disk recovered n3)), Hd, Ht2. done.
    + rewrite Htt in Heff. destruct Heff as [[-> _]| ->]; [by left|right]. eexists. split; [done|].
      by intros j request (p & [= -> ->] & _)%list_elem_of_fmap.
  - intros [= <- <-]. left. split; [done|]. etrans; [exact Hq1|].
    etrans; [|apply kept_steady, (steady_election_timer recovered)].
    apply Htry; node_simpl; rewrite ?Hk, ?Hc; try done. rewrite Ht2. node_simpl. unfold n1. node_simpl. lia.
Qed.

Lemma OnElectionTimeout_carry X g n r n' :
  OnElectionTimeout g n = (r, n') → 0 ≤ current_term_ (core n) < u64_max →
  (r = ElectionAborted ∧ kept X n n') ∨
  stands n n' ∧ (r = ElectionWonAlone (current_term_ (core n) + 1) ∨
    ∃ requests, r = ElectionAsk (current_term_ (core n) + 1) (quorum_of (config_ n)) requests ∧
      ∀ j request, (j, request) ∈ requests →
        vreq_last_log_index request = LastLogIndexLocked (core n) ∧
        vreq_last_log_term request = LastLogTermLocked (core n)).
Proof.
  intros Hrun Ht. unfold OnElectionTimeout in Hrun.
  assert (Hgo : ∃ b m, OnElectionTimeoutLocked g n = (b, m) ∧ core m = core n ∧
                       config_ m = config_ n ∧ kept X n m).
  { unfold OnElectionTimeoutLocked. repeat case_match; eexists _, _; split_and!;
      first [done|by apply kept_same]. }
  destruct Hgo as (b & m & Hgo & Hc & Hg & Hq). rewrite Hgo in Hrun.
  destruct b; [|injection Hrun as <- <-; by left].
  destruct (StartElection_carry X m r n' Hrun) as [[-> Hk]|[Hst Hreq]]; [by rewrite Hc|left|right].
  - split; [done|]. by etrans.
  - unfold stands in *. rewrite Hc, Hg in *. done.
Qed.
End carry.

(** *** Taking office *)
Section office.
Context {SM E : Type} `{HostEnv E, IRaftStorage E}.
Implicit Types n : Node SM E.

(** A new leader knows nothing of its peers. *)
Lemma BecomeLeader_match n p m :
  p ≠ node_id (config_ n) → match_index_ (core (BecomeLeaderLocked n)) !! p = Some m → m = 0.
Proof.
  intros Hp. unfold BecomeLeaderLocked. cbv zeta.
  match goal with |- context [ResetHeartbeatTimerLocked (foldl ?f ?m0 ?l)] =>
    assert (Hf : ∀ todo m1, (∀ x, match_index_ (core m1) !! p = Some x → x = 0) →
              ∀ x, match_index_ (core (foldl f m1 todo)) !! p = Some x → x = 0);
    [|rewrite (sbh_core _ _ (ResetHeartbeatTimer_frame (foldl f m0 l))); apply Hf] end.
  - induction todo as [|q todo IH]; intros m1 Hm; [done|]. cbn [foldl]. apply IH.
    intros x. unfold GetOrCreateReplicatorLocked. case_match; node_simpl;
      intros [[_ <-]|[_ Hx]]%lookup_insert_Some; first [done|by apply Hm].
  - node_simpl. intros x [? _]%lookup_singleton_Some. by destruct Hp.
Qed.
End office.

(** *** Restart *)
Section restart.
Context {SM E : Type} `{HostEnv E, IRaftStorage E, ISnapshotStorage E, !IStateMachine SM E}.
Context (recovered : PersistentRaftState → PersistentRaftState).
Context `{!StorageLaws E recovered, !RecoveredLog recovered, !DiskFrames SM E}.

(** Without snapshots, the constructor goes on from the state on disk, if it gets there. *)
Lemma RaftNode_new_recovers config snapshot_config (sm : SM) (e : E) r e' :
  enabled snapshot_config = false → RaftNode_new config snapshot_config sm e = (r, e') →
  (∃ what, r = inl what) ∧ disk_state e' = disk_state e ∨
  ∃ n0 n, core n0 = recovered_core (disk_state e) ∧ state_machine_ n0 = sm ∧
    disk_state (env_ n0) = disk_state e ∧ (n = n0 ∨ n = (ApplyCommittedEntries n0).2) ∧
    e' = env_ n ∧ ((∃ what, r = inl what) ∨ r = inr n).
Proof.
  intros Hen. unfold RaftNode_new. cbv zeta.
  set (config1 := if decide (data_dir config = []) then _ else _).
  set (sc := if decide (cfg_snapshot_dir _ = []) then _ else _).
  assert (Hsc : enabled sc = false) by (unfold sc; by case_decide). clearbody config1 sc.
  pose proof (ValidateNodeIdentity_disk (SM := SM) config1 e) as Hd1.
  destruct (ValidateNodeIdentity config1 e) as [[] e1]; cbn [snd] in Hd1.
  { intros [= <- <-]. left. split; [by eexists|done]. }
  pose proof (disk_load (SM := SM) e1) as Hd2.
  assert (Hst : match (storage_Load e1).1 with
                | (true, st, true, _) => disk_state e = Some st | _ => disk_state e = None end).
  { rewrite <- Hd1. unfold disk_state. by destruct (storage_Load e1).1 as [[[[] ?] []] ?]. }
  destruct (storage_Load e1) as [[[[ok st] has] err] e2]. cbn [fst snd] in *.
  destruct ok; cbn [negb]; [|intros [= <- <-]; left; split; [by eexists|congruence]].
  unfold LoadLatestSnapshotOnStartup. node_simpl. rewrite Hsc. cbn [negb orb andb].
  match goal with |- context [ApplyCommittedEntries ?m] => set (n0 := m) in * end.
  change (last_applied_ (recovered_core _)) with (last_applied_ (core n0)).
  intros Hrun. right. exists n0.
  assert (Hn0 : core n0 = recovered_core (disk_state e))
    by (unfold n0; node_simpl; by destruct has; rewrite Hst).
  assert (He0 : disk_state (env_ n0) = disk_state e) by (unfold n0; node_simpl; congruence).
  destruct (decide (last_applied_ (core n0) < commit_index_ (core n0))).
  - exists (ApplyCommittedEntries n0).2. destruct (ApplyCommittedEntries n0) as [rr n2]. cbn [snd].
    destruct (Ok rr); cbn [negb] in Hrun; injection Hrun as <- <-; split_and!; eauto.
  - exists n0. injection Hrun as <- <-. split_and!; eauto.
Qed.

Lemma recovered_node_wf (n0 : Node SM E) (e : E) :
  core n0 = recovered_core (disk_state e) → disk_state (env_ n0) = disk_state e → disk_wf e →
  node_wf n0.
Proof.
  intros Hc Hd Hwf. unfold disk_wf in *. split; [|unfold disk_wf; by rewrite Hd]. rewrite Hc.
  destruct (disk_state e) as [st|]; [by apply recovered_core_wf, Hwf|apply bootstrap_core_wf].
Qed.

Lemma recovered_core_term st :
  current_term_ (recovered_core st) = default 0 (ps_current_term <$> st).
Proof. destruct st; [|done]. unfold recovered_core. by case_decide. Qed.

(** Its term and log are those on disk. *)
Lemma RaftNode_new_carry config snapshot_config (sm : SM) (e : E) r e' :
  enabled snapshot_config = false →
  RaftNode_new config snapshot_config sm e = (r, e') → disk_wf e →
  (disk_view e' = disk_view e ∨
   ∃ t, (disk_view e).1 ≤ t ∧ disk_view e' = (t, (disk_view e).2)) ∧
  ∀ n, r = inr n → e' = env_ n ∧ log_ (core n) = (disk_view e).2 ∧
    (disk_view e).1 ≤ current_term_ (core n) ∧ role_ (core n) = kFollower.
Proof.
  intros Hen Hrun Hwf. apply RaftNode_new_recovers in Hrun as [[[what ->] Hd]|Hrun]; [| |done].
  { split; [left; by apply disk_view_same|discriminate]. }
  destruct Hrun as (n0 & n & Hc & _ & Hd & Hn & -> & Hr).
  assert (Hinit : log_ (core n0) = (disk_view e).2 ∧ current_term_ (core n0) = (disk_view e).1 ∧
               role_ (core n0) = kFollower ∧ disk_view (env_ n0) = disk_view e).
  { rewrite Hc, recovered_core_term, recovered_core_role. rewrite (disk_view_same _ _ Hd).
    unfold disk_view, disk_wf in *. destruct (disk_state e) as [st|]; [|done]. split_and!; [|done..].
    apply recovered_core_wf. by apply Hwf. }
  destruct Hinit as (Hl0 & Ht0 & Hr0 & He0).
  assert (Hk : kept (SM := SM) (λ _ _, False) n0 n)
    by (destruct Hn as [->| ->]; [done|apply (kept_ApplyCommitted recovered)]).
  rewrite <- Ht0, <- Hl0, <- He0. split; [by eapply kept_disk|].
  intros m Hm. assert (m = n) as -> by (destruct Hr as [[what ->]| ->]; congruence).
  split_and!; [done|by eapply kept_log|apply Hk|].
  destruct Hk as [_ _ _ _ Hcand Hl]. destruct (role_ (core n)); [done|..].
  - destruct (Hcand eq_refl). congruence.
  - destruct (Hl eq_refl). congruence.
Qed.
End restart.
