(* ===== verification/Spots.v ===== *)
(** Spots: where a node's commit index stands in its log, in memory and on disk.  [P c t l]
    is a property of a boundary [c], a term [t] and a log [l] that lower boundaries and later
    terms keep; [spots] asks it of the node's core and of the state it would restart from.
    What every operation must be given to keep it: nothing but of those that move the commit
    index or write a new log. *)
From S2P Require Import Prelude Command Types Timer Metrics Env Sim Node SimNode.
From S2P Require Import NodeLog Election AppendEntries Bytes Fs StateMachine Commit.
From S2P Require Import Replicator Propose SnapshotNode Steady Votes Links Carry.

(** The boundary up to which a node, or a state on disk, takes its log for committed. *)
Definition core_mark (c : RaftCore) : Z := Z.max (commit_index_ c) (last_applied_ c).
Definition state_mark (st : PersistentRaftState) : Z :=
  Z.max (ps_commit_index st) (ps_last_applied st).

Class Lasting (P : Z → Z → list LogRecord → Prop) : Prop := {
  lasting : ∀ c c' t t' l, P c t l → c' ≤ c → t ≤ t' → P c' t' l;
  lasting_zero : ∀ c t l, c ≤ 0 → P c t l }.

Section spots.
Context {SM E : Type} `{HostEnv E, IRaftStorage E}.
Context (recovered : PersistentRaftState → PersistentRaftState).
Context `{!StorageLaws E recovered, !RecoveredLog recovered}.
Context (P : Z → Z → list LogRecord → Prop) `{!Lasting P}.
Implicit Types (n : Node SM E) (e : E).

Definition core_spot (c : RaftCore) : Prop := P (core_mark c) (current_term_ c) (log_ c).
Definition disk_spot e : Prop :=
  ∀ st, disk_state e = Some st → P (state_mark st) (ps_current_term st) (ps_log st).
Definition spots n : Prop := core_spot (core n) ∧ disk_spot (env_ n).

Lemma core_spot_later c c' :
  log_ c' = log_ c → core_mark c' ≤ core_mark c → current_term_ c ≤ current_term_ c' →
  core_spot c → core_spot c'.
Proof. unfold core_spot. intros -> ???. by eapply lasting. Qed.

Lemma core_spot_same_log c c' :
  same_log c c' → current_term_ c ≤ current_term_ c' → core_spot c → core_spot c'.
Proof.
  intros [Hl Hc Ha _ _]. apply core_spot_later; [done|]. unfold core_mark. rewrite Hc, Ha. lia.
Qed.

Lemma disk_spot_same e e' : disk_state e' = disk_state e → disk_spot e → disk_spot e'.
Proof. unfold disk_spot. by intros ->. Qed.

Lemma disk_spot_recovered c e :
  disk_state e = Some (recovered (persistent_state c)) → core_spot c → disk_spot e.
Proof.
  intros Hd Hc st. rewrite Hd. intros [= <-]. rewrite recovered_log.
  destruct (recovered_hard (recovered := recovered) (persistent_state c)) as [Ht _].
  pose proof (recovered_lower (persistent_state c)) as Hlow.
  eapply lasting; [exact Hc| |by rewrite Ht].
  unfold state_mark, core_mark. unfold persistent_state in Hlow at 2 4. cbn in Hlow. lia.
Qed.

(** The core moved on, the disk did not. *)
Lemma spots_core n n' :
  core_spot (core n') → disk_state (env_ n') = disk_state (env_ n) → spots n → spots n'.
Proof. intros Hc Hd [_ Hn]. split; [done|by eapply disk_spot_same]. Qed.

Lemma spots_persist n : spots n → spots (PersistStateLocked n).2.
Proof.
  intros [Hc Hd]. destruct (PersistStateLocked_frame n) as [_ _ Hk _ _ _ _].
  split; [by rewrite Hk|]. destruct (PersistStateLocked n) as [[[] err] n'] eqn:Hp; cbn [snd] in *.
  - eapply disk_spot_recovered, Hc. by eapply PersistStateLocked_disk.
  - destruct (PersistStateLocked_disk_fail recovered _ _ _ Hp) as [Hs|Hs];
      [by eapply disk_spot_same|by eapply disk_spot_recovered].
Qed.

(** Writing [m] and giving back a core that was good. *)
Lemma spots_try (m n' : Node SM E) :
  spots m → core_spot (core n') → disk_state (env_ n') = disk_state (env_ (PersistStateLocked m).2) →
  spots n'.
Proof. intros Hm Hc Hd. split; [done|]. eapply disk_spot_same; [exact Hd|]. by apply spots_persist. Qed.

Lemma hs_le_term c c' : hs_le (hs_of c) (hs_of c') → current_term_ c ≤ current_term_ c'.
Proof. unfold hs_le, hs_of. cbn. lia. Qed.

Lemma spots_steady n n' : steady recovered n n' → spots n → spots n'.
Proof.
  intros [_ _ Hl Hh%hs_le_term _ Hd] [Hc Hn]. split; [by eapply core_spot_same_log|].
  destruct Hd as [Hd|(c & Hlc & Hhc%hs_le_term & Hd)]; [by eapply disk_spot_same|].
  eapply disk_spot_recovered; [exact Hd|]. by eapply core_spot_same_log.
Qed.

(** *** The commit index *)

Lemma spots_AdvanceCommit n :
  core_spot (core (AdvanceCommitIndexUnlocked n)) → spots n → spots (AdvanceCommitIndexUnlocked n).
Proof.
  unfold AdvanceCommitIndexUnlocked. case_decide; [done|]. case_decide; [done|].
  case_match; [|done]. rewrite (sbh_core _ _ (PersistStateLocked_frame _)).
  intros Hc Hn. by apply spots_persist, (spots_core n).
Qed.

Lemma spots_Handle peer_id t target response n :
  let n' := (HandleAppendEntriesResponse peer_id t target response n).2 in
  core_spot (core n') → spots n → spots n'.
Proof.
  cbv zeta. unfold HandleAppendEntriesResponse. case_match; [done|].
  case_decide; [intros _; apply spots_steady, (steady_BecomeFollower recovered); lia|].
  case_match; [done|]. case_match; cbn [snd]; [|intros Hc; by apply spots_core].
  intros Hc [Hn Hd]. by apply spots_AdvanceCommit.
Qed.

(** *** Appending *)

Lemma spots_Finish request (changed : bool) m response n l :
  let c := set_log l (core n) in
  (changed = false → l = log_ (core n)) → spots n → core_spot c →
  P (Z.min (areq_leader_commit request) (LastLogIndexLocked c)) (current_term_ c) l →
  spots (FinishAppendEntries request changed (if changed then Some (log_ (core n)) else None) m response
    (n <| core := c |>)).2.
Proof.
  intros c Hsame Hn Hc Hcommit. unfold FinishAppendEntries. cbv zeta.
  set (n1 := n <| core := c |>). assert (Hn1 : spots n1) by (by apply (spots_core n)).
  assert (Hp : ∀ b n2, (if changed then PersistStateLocked n1 else ((true, ""), n1)) = (b, n2) →
    core n2 = c ∧ spots n2).
  { intros b n2. destruct changed; [|by intros [= <- <-]]. intros Hp.
    pose proof (sbh_core _ _ (PersistStateLocked_frame n1)) as Hk. pose proof (spots_persist n1 Hn1) as Hs.
    by rewrite Hp in Hk, Hs. }
  destruct (if changed then _ else _) as [[ok err] n2]. destruct (Hp _ _ eq_refl) as [Hk2 Hs2].
  destruct ok; cbn [negb].
  - case_decide; [|done]. case_decide as Hlt; [|done].
    match goal with |- context [PersistStateLocked ?x] => set (n3 := x) end.
    assert (Hs3 : spots n3).
    { apply (spots_core n2); [|done|done]. unfold n3, core_spot, core_mark. node_simpl. rewrite Hk2.
      destruct (Z.max_spec (Z.min (areq_leader_commit request) (LastLogIndexLocked c)) (last_applied_ c))
        as [[_ ->]|[_ ->]]; [|done].
      eapply lasting; [exact Hc| |done]. unfold core_mark. lia. }
    pose proof (sbh_core _ _ (PersistStateLocked_frame n3)) as Hk3. pose proof (spots_persist n3 Hs3) as Hs.
    pose proof (spots_try n3) as Htry.
    destruct (PersistStateLocked n3) as [[[] ?] n4]; cbn [negb snd] in *; [done|].
    apply Htry; [done| |done]. node_simpl. rewrite Hk3. unfold n3. node_simpl.
    destruct Hs2 as [Hs2 _]. eapply core_spot_later, Hs2; [done| |done]. unfold core_mark. node_simpl. lia.
  - cbn [snd]. destruct changed; [|done]. destruct Hs2 as [_ Hd2]. split; [|done]. node_simpl.
    rewrite Hk2. unfold c, set_log. destruct Hn as [Hn _]. by eapply core_spot_later, Hn.
Qed.

Lemma spots_OnAppendEntries request n :
  log_ok (core n) → entries_ok (areq_prev_log_index request) (areq_entries request) → spots n →
  (prev_matches request (core n) → current_term_ (core n) ≤ areq_term request →
   let c := set_log (merged_log request (core n)) (core n) in
   P (core_mark c) (areq_term request) (log_ c) ∧
   P (Z.min (areq_leader_commit request) (LastLogIndexLocked c)) (areq_term request) (log_ c)) →
  spots (OnAppendEntriesLocked request n).2.
Proof.
  intros Hok He Hn Hmerged. unfold OnAppendEntriesLocked. cbv zeta. case_decide as Hstale; [done|].
  pose proof (spots_steady _ _ (steady_FollowLeader recovered request n ltac:(lia)) Hn) as Hn1.
  destruct (FollowLeader_core request n) as [_ Hcore].
  destruct (FollowLeaderLocked request n) as [[] n1]; cbn [fst snd negb] in *; [|done].
  case_decide; [done|]. case_match eqn:Hhas; [done|]. case_decide; [done|]. apply negb_false_iff in Hhas.
  assert (Hsl : same_log (core n) (core n1)) by (rewrite Hcore; apply follower_core_same_log).
  assert (Hok1 : log_ok (core n1)) by (by eapply same_log_log_ok).
  assert (Hp : prev_matches request (core n1)) by (split_and!; [lia|done|done]).
  pose proof (prev_matches_same_log request _ _ Hsl Hok Hp) as Hp0.
  pose proof (merged_same_log request _ _ Hsl) as Hmerge.
  destruct (AppendLoop_merged request (core n1)) as (changed & -> & Hsame); [done..|].
  assert (Hterm : current_term_ (core n1) = areq_term request).
  { rewrite Hcore. unfold leader_seen, follower_core. case_decide; node_simpl; lia. }
  destruct (Hmerged Hp0 ltac:(lia)) as [Hc Hcommit]. cbv zeta in Hc, Hcommit.
  destruct Hsl as [Hl Hci Ha Hsi Hst]. rewrite <- Hmerge in Hc, Hcommit.
  apply spots_Finish; [done|done|..].
  - unfold core_spot, core_mark in *. unfold set_log in *. node_simpl in *. by rewrite Hci, Ha, Hterm.
  - unfold set_log, LastLogIndexLocked in *. node_simpl in *. by rewrite Hsi, Hterm.
Qed.

(** *** The leader's own entries *)

Lemma spots_AppendLocalLog data n :
  log_ok (core n) → LastLogIndexLocked (core n) < u64_max → spots n →
  P (core_mark (core n)) (current_term_ (core n)) (log_ (core n) ++ [new_record data (core n)]) →
  spots (AppendLocalLogUnlocked data n).2.
Proof.
  intros Hok Hmax Hn Hnew. unfold AppendLocalLogUnlocked. cbv zeta.
  rewrite (SafeAddOne_lt (LastLogIndexLocked (core n))) by (done || by apply LastLogIndex_u64).
  match goal with |- context [PersistStateLocked ?x] => set (n1 := x) end.
  assert (Hn1 : spots n1) by (by apply (spots_core n)).
  pose proof (sbh_core _ _ (PersistStateLocked_frame n1)) as Hk.
  pose proof (spots_persist n1 Hn1) as Hs. pose proof (spots_try n1) as Htry.
  destruct (PersistStateLocked n1) as [[[] ?] n2]; cbn [negb snd] in *; [done|].
  apply Htry; [done| |done]. node_simpl. rewrite Hk. unfold n1, core_spot, core_mark. node_simpl.
  rewrite removelast_last. apply Hn.
Qed.

Lemma spots_ProposeLocked cmd n :
  log_ok (core n) → LastLogIndexLocked (core n) < u64_max → spots n →
  (role_ (core n) = kLeader → P (core_mark (core n)) (current_term_ (core n))
     (log_ (core n) ++ [new_record (Serialize cmd) (core n)])) →
  spots (ProposeLocked cmd n).2.
Proof.
  intros Hok Hmax Hn Hnew. unfold ProposeLocked. cbv zeta.
  case_match; [done|]. case_decide as Hr; [done|]. case_match; [done|]. case_decide; [done|].
  pose proof (spots_AppendLocalLog (Serialize cmd) n Hok Hmax Hn (Hnew Hr)) as Hs.
  destruct (AppendLocalLogUnlocked (Serialize cmd) n) as [i n1]. cbn [snd] in Hs. by case_decide.
Qed.

(** *** Applying *)

Lemma spots_ApplyDone i n :
  i ≤ core_mark (core n) → spots n → spots (ApplyDoneLocked i n).2.
Proof.
  intros Hi Hn. unfold ApplyDoneLocked.
  assert (Hsched : ∀ m, spots m → spots (MaybeScheduleSnapshotLocked false m))
    by (intros m; apply spots_steady, steady_MaybeSchedule).
  case_decide; [|by apply Hsched].
  match goal with |- context [PersistStateLocked ?x] => set (n1 := x) end.
  assert (Hn1 : spots n1).
  { apply (spots_core n); [|done|done]. eapply core_spot_later, Hn; [done| |done].
    unfold core_mark in *. unfold n1. node_simpl. lia. }
  pose proof (spots_persist n1 Hn1) as Hs. destruct (PersistStateLocked n1) as [[[] ?] n2]; cbn [negb snd] in *;
    [by apply Hsched|done].
Qed.

Lemma spots_ApplyIteration `{!IStateMachine SM E} n :
  node_wf n → spots n → spots (ApplyIteration n).2.
Proof.
  intros [[_ _ [Ha Hc]] _] Hn. unfold ApplyIteration, ApplyFetchLocked. cbv zeta.
  match goal with |- context [if decide (commit_index_ (core ?m) ≤ _) then _ else _] => set (n1 := m) end.
  assert (Hn1 : spots n1 ∧ commit_index_ (core n1) = commit_index_ (core n) ∧ 0 ≤ last_applied_ (core n1)).
  { unfold n1. case_decide; [|split_and!; (done || lia)]. split_and!; [|done|node_simpl; lia].
    apply (spots_core n); [|done|done].
    eapply core_spot_later, Hn; [done| |done]. unfold core_mark. node_simpl. lia. }
  destruct Hn1 as (Hn1 & Hci & Hlow). case_decide as Hlt; [done|].
  assert (Hi : u64 (last_applied_ (core n1) + 1) ≤ core_mark (core n1)).
  { rewrite u64_id by (unfold is_u64; lia). unfold core_mark. lia. }
  destruct (HasLogAtIndexLocked _ _); [|done]. cbn [negb].
  destruct (LogAtIndexLocked _ _) as [r|]; [|done]. destruct (sm_Apply _ _ _) as [x sm].
  case_match; cbn [snd]; [done|]. apply spots_ApplyDone; [done|]. exact Hn1.
Qed.

Lemma spots_ApplyCommitted `{!IStateMachine SM E} n :
  node_wf n → spots n → spots (ApplyCommittedEntries n).2.
Proof.
  rewrite ApplyCommitted_loop. generalize (apply_fuel n). intros fuel. revert n.
  induction fuel as [|fuel IH]; intros n Hwf Hn; [done|]. cbn [ApplyLoop].
  pose proof (spots_ApplyIteration n Hwf Hn) as Hs.
  pose proof (tracks_ApplyIteration recovered (λ _, False) n Hwf) as [Hwf' _ _ _ _ _].
  destruct (ApplyIteration n) as [[r|] n1]; [done|]. by apply IH.
Qed.

(** *** Elections *)

Lemma spots_StartElection n :
  current_term_ (core n) < u64_max → 0 ≤ current_term_ (core n) → spots n →
  spots (StartElection n).2.
Proof.
  intros Hmax Hpos Hn. unfold StartElection. set (n1 := n <| metrics_ ::= RecordElectionStarted |>).
  destruct (negb (running_ n1) || _); [done|]. cbv zeta.
  match goal with |- context [PersistStateLocked ?x] => set (n2 := x) end.
  assert (Hn2 : spots n2).
  { apply (spots_core n); [|done|done]. eapply core_spot_later, Hn; [done|done|].
    unfold n2, n1. node_simpl. rewrite u64_id; unfold is_u64; lia. }
  pose proof (sbh_core _ _ (PersistStateLocked_frame n2)) as Hk.
  pose proof (spots_persist n2 Hn2) as Hs. pose proof (spots_try n2) as Htry.
  assert (Htimer : ∀ m, spots m → spots (ResetElectionTimerLocked m))
    by (intros m; apply spots_steady, (steady_election_timer recovered)).
  destruct (PersistStateLocked n2) as [[[] ?] n3]; cbn [negb snd] in *.
  - case_decide; cbn [snd]; by apply Htimer.
  - apply Htimer, Htry; [done| |done]. node_simpl. rewrite Hk. apply Hn.
Qed.

Lemma spots_OnElectionTimeout g n :
  current_term_ (core n) < u64_max → 0 ≤ current_term_ (core n) → spots n →
  spots (OnElectionTimeout g n).2.
Proof.
  intros Hmax Hpos Hn. unfold OnElectionTimeout.
  assert (Hgo : core (OnElectionTimeoutLocked g n).2 = core n ∧ env_ (OnElectionTimeoutLocked g n).2 = env_ n)
    by (unfold OnElectionTimeoutLocked; repeat case_match; done).
  destruct (OnElectionTimeoutLocked g n) as [b m]. destruct Hgo as [Hc He]. cbn [snd] in *.
  assert (Hm : spots m) by (apply (spots_core n); [rewrite Hc; apply Hn|by rewrite He|done]).
  destruct b; [|done]. apply spots_StartElection; rewrite ?Hc; done.
Qed.

Lemma spots_OnElectionWon t n : spots n → spots (OnElectionWonLocked t n).2.
Proof.
  intros Hn. destruct (OnElectionWonLocked t n) as [go n'] eqn:Hrun. cbn [snd].
  pose proof (OnElectionWon_env _ _ _ _ Hrun) as He.
  apply (spots_core n); [|by rewrite He|done].
  apply OnElectionWonLocked_effect in Hrun as [_ [[_ ->]|(_ & _ & _ & [_ _ Ht _ Hl Hc Ha _ _])]]; [apply Hn|].
  eapply core_spot_later, Hn; [done| |lia]. unfold core_mark. lia.
Qed.
End spots.

(** *** Restart *)
Section restart.
Context {SM E : Type} `{HostEnv E, IRaftStorage E, ISnapshotStorage E, !IStateMachine SM E}.
Context (recovered : PersistentRaftState → PersistentRaftState).
Context `{!StorageLaws E recovered, !RecoveredLog recovered, !DiskFrames SM E}.
Context (P : Z → Z → list LogRecord → Prop) `{!Lasting P}.

Lemma recovered_core_spot st :
  stored_wf st → P (state_mark st) (ps_current_term st) (ps_log st) →
  core_spot P (recovered_core (Some st)).
Proof.
  intros Hwf HP. destruct (recovered_core_wf st Hwf) as [_ Hl]. unfold core_spot. rewrite Hl.
  assert (Hm : core_mark (recovered_core (Some st)) ≤ Z.max 0 (state_mark st)).
  { unfold core_mark, state_mark, recovered_core. case_decide; node_simpl in *; lia. }
  rewrite recovered_core_term.
  destruct (decide (core_mark (recovered_core (Some st)) ≤ 0)); [by apply lasting_zero|].
  eapply lasting; [exact HP|lia|done].
Qed.

(** Without snapshots, a node starts from the boundary on disk. *)
Lemma spots_RaftNode_new config snapshot_config (sm : SM) (e : E) r e' :
  enabled snapshot_config = false →
  RaftNode_new config snapshot_config sm e = (r, e') → disk_wf e → disk_spot P e →
  disk_spot P e' ∧ ∀ n, r = inr n → spots P n.
Proof.
  intros Hen Hrun Hwf He.
  apply (RaftNode_new_recovers) in Hrun as [[[what ->] Hd]|(n0 & n & Hc & _ & Hd & Hn & -> & Hr)]; [..|done].
  { split; [by eapply disk_spot_same|discriminate]. }
  pose proof (recovered_node_wf n0 e Hc Hd Hwf) as Hw0.
  assert (Hs0 : spots P n0).
  { split; [|by eapply disk_spot_same]. rewrite Hc. unfold disk_wf, disk_spot in *.
    destruct (disk_state e) as [st|]; [by apply recovered_core_spot; auto|by apply lasting_zero]. }
  assert (Hs : spots P n) by (destruct Hn as [->| ->]; [done|by apply (spots_ApplyCommitted recovered)]).
  split; [apply Hs|]. intros m Hm. by destruct Hr as [[what ->]| ->]; simplify_eq.
Qed.
End restart.
