(* ===== verification/Histories.v ===== *)
(** Histories of a cluster: for every term its leader, the log the leader stood with and the
    longest log it had.  A log is [sound] for a history when each of its prefixes is one of
    the leader whose term its last record has; what an append request makes of sound logs;
    and the argument that what a majority has accepted from one leader every later leader
    holds. *)
From S2P Require Import Prelude Types Node NodeLog Election AppendEntries SnapshotNode Cluster.

(** ** Prefixes *)
Section prefixes.
Context {A : Type}.
Implicit Types (l : list A) (k : nat).

Lemma prefix_shorter l1 l2 l3 :
  l1 `prefix_of` l3 → l2 `prefix_of` l3 → (length l1 ≤ length l2)%nat → l1 `prefix_of` l2.
Proof.
  intros H1 H2 Hlen. destruct (prefix_weak_total _ _ _ H1 H2) as [?|H21]; [done|].
  rewrite (prefix_length_eq _ _ H21 Hlen). done.
Qed.

Lemma prefix_take l k : take k l `prefix_of` l.
Proof. exists (drop k l). by rewrite take_drop. Qed.

Lemma take_prefix_eq l l' k : l `prefix_of` l' → (k ≤ length l)%nat → take k l = take k l'.
Proof. intros [m ->] Hk. by rewrite take_app_le. Qed.

Lemma take_S_prefix l l' k x :
  l !! k = Some x → take (S k) l `prefix_of` l' → l' !! k = Some x.
Proof.
  intros Hx Hp. eapply prefix_lookup_Some; [|exact Hp]. rewrite lookup_take_lt; [done|lia].
Qed.

Lemma take_S_length l k x : l !! k = Some x → length (take (S k) l) = S k.
Proof. intros ?%lookup_lt_Some. rewrite length_take. lia. Qed.
End prefixes.

(** ** Histories *)

(** [stood (t, i)]: the log of [i] when it stood in term [t]; [office t]: the leader of [t]
    and who voted for it; [led t]: the longest log it had as the leader. *)
Record History := mkHistory {
  stood : hard_state → list LogRecord;
  led : Z → list LogRecord;
  office : Z → option (Z * list Z) }.

Definition start (G : History) (t : Z) : list LogRecord :=
  match office G t with Some (i, _) => stood G (t, i) | None => [] end.

Record sound (G : History) (l : list LogRecord) : Prop := {
  so_head : head l = Some bootstrap_record;
  so_indexes : contiguous 0 l;
  so_prefixes : ∀ (k : nat) r, l !! k = Some r → take (S k) l `prefix_of` led G (term r) }.

Record history_ok (G : History) : Prop := {
  ho_zero : led G 0 = [bootstrap_record];
  ho_none : ∀ t, t ≠ 0 → office G t = None → led G t = [];
  ho_pos : ∀ t x, office G t = Some x → 0 < t;
  ho_start : ∀ t x, office G t = Some x → sound G (start G t) ∧ ∀ r, r ∈ start G t → term r < t;
  ho_led : ∀ t x, office G t = Some x → contiguous 0 (led G t) ∧
    ∃ es, led G t = start G t ++ es ∧ ∀ e, e ∈ es → term e = t }.

(** Nothing is forgotten. *)
Record grows (G G' : History) : Prop := {
  gr_office : ∀ t x, office G t = Some x → office G' t = Some x;
  gr_start : ∀ t x, office G t = Some x → start G' t = start G t;
  gr_led : ∀ t, led G t `prefix_of` led G' t }.

#[export] Instance grows_preorder : PreOrder grows.
Proof.
  split; [by split|]. intros G1 G2 G3 [O1 S1 L1] [O2 S2 L2]. split.
  - auto.
  - intros t x Ht. rewrite (S2 t x), (S1 t x); auto.
  - intros t. etrans; [apply L1|apply L2].
Qed.

(** [k] is the index of a record [t]'s leader made. *)
Definition entry (G : History) (t : Z) (k : nat) : Prop :=
  ∃ r, led G t !! k = Some r ∧ term r = t.

(** [u] came to lead without it. *)
Definition lacks (G : History) (t : Z) (k : nat) (u : Z) : Prop :=
  is_Some (office G u) ∧ t < u ∧ ¬ take (S k) (led G t) `prefix_of` start G u.

(** A log that has the record, and all before it, unless a leader up to [b] lacked it. *)
Definition holds (G : History) (l : list LogRecord) (b t : Z) (k : nat) : Prop :=
  take (S k) (led G t) `prefix_of` l ∨ ∃ u, u ≤ b ∧ lacks G t k u.

(** A log at least as up to date as one that ends with the record. *)
Definition reaches (l : list LogRecord) (t : Z) (k : nat) : Prop :=
  ∃ r, last l = Some r ∧ (t < term r ∨ t = term r ∧ (k < length l)%nat).

Section sound.
Context (G : History).
Implicit Types (l : list LogRecord) (k : nat).

Lemma sound_unique l1 l2 k r1 r2 :
  sound G l1 → sound G l2 → l1 !! k = Some r1 → l2 !! k = Some r2 → term r1 = term r2 →
  take (S k) l1 = take (S k) l2.
Proof.
  intros H1 H2 Hr1 Hr2 Ht. apply prefix_length_eq.
  - eapply prefix_shorter; [by eapply so_prefixes|rewrite Ht; by eapply so_prefixes|].
    by rewrite (take_S_length _ _ _ Hr1), (take_S_length _ _ _ Hr2).
  - by rewrite (take_S_length _ _ _ Hr1), (take_S_length _ _ _ Hr2).
Qed.

Lemma sound_take l k : sound G l → (0 < k)%nat → sound G (take k l).
Proof.
  intros [Hh Hc Hp] Hk. split.
  - destruct k; [lia|]. by destruct l.
  - by apply contiguous_take.
  - intros j r [Hj Hlt]%lookup_take_Some. rewrite take_take, Nat.min_l by lia. by apply Hp.
Qed.

Lemma sound_grows G' l : grows G G' → sound G l → sound G' l.
Proof.
  intros Hg [Hh Hc Hp]. split; [done..|]. intros k r Hr. etrans; [by apply Hp|apply Hg].
Qed.

Context (Hok : history_ok G).

(** No record in a leader's log is of a later term. *)
Lemma led_terms t r : r ∈ led G t → term r ≤ t.
Proof.
  intros Hr. destruct (office G t) as [x|] eqn:Ht.
  - destruct (ho_led _ Hok _ _ Ht) as (_ & es & Hes & He). rewrite Hes in Hr.
    apply elem_of_app in Hr as [Hr|Hr]; [|by rewrite (He _ Hr)].
    pose proof (proj2 (ho_start _ Hok _ _ Ht) _ Hr). lia.
  - destruct (decide (t = 0)) as [->|Hne].
    + rewrite (ho_zero _ Hok) in Hr. by apply list_elem_of_singleton in Hr as ->.
    + rewrite (ho_none _ Hok _ Hne Ht) in Hr. by apply not_elem_of_nil in Hr.
Qed.

Lemma start_led t : start G t `prefix_of` led G t.
Proof.
  unfold start. destruct (office G t) as [x|] eqn:Ht; [|apply prefix_nil].
  destruct (ho_led _ Hok _ _ Ht) as (_ & es & Hes & _). unfold start in Hes. rewrite Ht in Hes.
  by exists es.
Qed.

Lemma led_sound t x : office G t = Some x → sound G (led G t).
Proof.
  intros Ht. destruct (ho_start _ Hok _ _ Ht) as [[Hh Hc Hp] Hlow].
  destruct (ho_led _ Hok _ _ Ht) as (Hcl & es & Hes & He). split; [|done|].
  - rewrite Hes. by destruct (start G t).
  - intros k r Hr. destruct (decide (k < length (start G t))%nat) as [Hk|Hk].
    + rewrite Hes in Hr. rewrite lookup_app_l in Hr by done.
      rewrite Hes at 1. rewrite take_app_le by lia. by apply Hp.
    + rewrite Hes in Hr. rewrite lookup_app_r in Hr by lia.
      rewrite (He r) by (by eapply list_elem_of_lookup_2). apply prefix_take.
Qed.

(** Who has led has a term. *)
Lemma led_office t k r : led G t !! k = Some r → 0 < t → is_Some (office G t).
Proof.
  intros Hr Ht. destruct (office G t) eqn:Ho; [done|]. rewrite (ho_none _ Hok) in Hr by (done || lia). done.
Qed.

(** Beyond what its leader stood with, a log of term [t] is that of [t]'s leader. *)
Lemma sound_last l r : sound G l → last l = Some r → l `prefix_of` led G (term r).
Proof.
  intros Hl Hr. rewrite last_lookup in Hr. pose proof (lookup_lt_Some _ _ _ Hr).
  pose proof (so_prefixes _ _ Hl _ _ Hr) as Hp. by rewrite take_ge in Hp by lia.
Qed.

(** What a sound log has, it holds. *)
Lemma sound_entry l k r : sound G l → l !! k = Some r → entry G (term r) k.
Proof.
  intros Hl Hr. exists r. split; [|done]. eapply take_S_prefix; [done|by apply so_prefixes].
Qed.

Lemma sound_holds l b k r : sound G l → l !! k = Some r → holds G l b (term r) k.
Proof.
  intros Hl Hr. left. pose proof (so_prefixes _ _ Hl _ _ Hr) as Hp.
  rewrite <- (take_prefix_eq _ _ (S k) Hp) by (by rewrite (take_S_length _ _ _ Hr)).
  rewrite take_take, Nat.min_id. apply prefix_take.
Qed.

Lemma entry_lt t k : entry G t k → (k < length (led G t))%nat.
Proof. intros (r & Hr & _). by eapply lookup_lt_Some. Qed.

(** A log that has the record reaches it. *)
Lemma prefix_reaches l t k :
  sound G l → entry G t k → take (S k) (led G t) `prefix_of` l → reaches l t k.
Proof.
  intros Hl (r & Hr & Ht) Hp. pose proof (take_S_prefix _ _ _ _ Hr Hp) as Hlk.
  destruct (last l) as [x|] eqn:Hx; [|apply last_None in Hx; subst l; done].
  exists x. split; [done|]. pose proof (prefix_lookup_Some _ _ _ _ Hlk (sound_last _ _ Hl Hx)) as Hin.
  apply list_elem_of_lookup_2, led_terms in Hin. rewrite Ht in Hin.
  pose proof (lookup_lt_Some _ _ _ Hlk). destruct (decide (t = term x)); [right|left]; [done|lia].
Qed.

(** ** Merging *)

(** The logs agree up to [j] and differ there. *)
Definition fork (j : nat) (l l' : list LogRecord) : Prop :=
  take j l = take j l' ∧ ∃ r e, l !! j = Some r ∧ l' !! j = Some e ∧ term r ≠ term e.

Lemma merge_split (tail es : list LogRecord) :
  (∀ j r e, tail !! j = Some r → es !! j = Some e → term r = term e →
     take (S j) tail = take (S j) es) →
  merge_entries tail es = tail ∧ es `prefix_of` tail ∨
  merge_entries tail es = es ∧ (tail `prefix_of` es ∨ ∃ j, fork j tail es).
Proof.
  revert tail. induction es as [|e es IH]; intros tail Hag.
  { left. split; [by destruct tail|apply prefix_nil]. }
  destruct tail as [|r tail]; cbn [merge_entries]; [right; split; [done|left; apply prefix_nil]|].
  case_decide as Ht.
  2:{ right. split; [done|right]. exists 0%nat. split; [done|]. by exists r, e. }
  pose proof (Hag 0%nat r e eq_refl eq_refl Ht) as [= ->].
  destruct (IH tail) as [[Hm Hp]|[Hm Hp]].
  - intros j r' e' Hr He Hte. by injection (Hag (S j) r' e' Hr He Hte).
  - left. rewrite Hm. split; [done|by apply prefix_cons].
  - right. rewrite Hm. split; [done|]. destruct Hp as [Hp|(j & Htk & r' & e' & ? & ? & ?)].
    + left. by apply prefix_cons.
    + right. exists (S j). split; [by cbn; rewrite Htk|]. by exists r', e'.
Qed.

(** A request with the end of a sound log keeps a sound log, or makes it the other one. *)
Lemma merge_sound l l' p a a' :
  sound G l → sound G l' → l !! p = Some a → l' !! p = Some a' → term a = term a' →
  let m := take (S p) l ++ merge_entries (drop (S p) l) (drop (S p) l') in
  m = l ∧ l' `prefix_of` l ∨ m = l' ∧ (l `prefix_of` l' ∨ ∃ j, fork j l l').
Proof.
  intros Hl Hl' Ha Ha' Ht m. pose proof (sound_unique _ _ _ _ _ Hl Hl' Ha Ha' Ht) as Htk.
  pose proof (take_S_length _ _ _ Ha) as Hlen. pose proof (take_S_length _ _ _ Ha') as Hlen'.
  destruct (merge_split (drop (S p) l) (drop (S p) l')) as [[Hm Hp]|[Hm Hp]].
  - intros j r e. rewrite !lookup_drop. intros Hr He Hte.
    pose proof (sound_unique _ _ _ _ _ Hl Hl' Hr He Hte) as Heq. rewrite !take_drop_commute.
    replace (S p + S j)%nat with (S (S p + j)) by lia. by rewrite Heq.
  - left. unfold m. rewrite Hm, take_drop. split; [done|]. destruct Hp as [x Hp].
    exists x. rewrite <- (take_drop (S p) l), Htk, Hp, app_assoc, take_drop. done.
  - right. unfold m. rewrite Hm, Htk, take_drop. split; [done|].
    destruct Hp as [[x Hp]|(j & Htj & r & e & Hr & He & Hte)]; [left|right].
    + exists x. rewrite <- (take_drop (S p) l'), <- Htk, Hp, app_assoc, take_drop. done.
    + exists (S p + j)%nat. rewrite lookup_drop in Hr, He. split; [|by exists r, e].
      rewrite <- (take_drop (S p) l) at 1. rewrite <- (take_drop (S p) l') at 1.
      rewrite !take_app_ge by lia. rewrite Hlen, Hlen', Htk.
      replace (S p + j - S p)%nat with j by lia. by rewrite Htj.
Qed.
End sound.

(** ** Growth *)
Section growth.
Context (G G' : History) (Hg : grows G G').
Implicit Types (l : list LogRecord) (k : nat).

Lemma entry_take t k : entry G t k → take (S k) (led G' t) = take (S k) (led G t).
Proof.
  intros Hk%entry_lt. symmetry. apply take_prefix_eq; [apply Hg|lia].
Qed.

Lemma entry_grows t k : entry G t k → entry G' t k.
Proof.
  intros (r & Hr & Ht). exists r. split; [|done]. eapply prefix_lookup_Some; [exact Hr|apply Hg].
Qed.

Lemma lacks_grows t k u : entry G t k → lacks G t k u → lacks G' t k u.
Proof.
  intros Hk ([x Hu] & Hlt & Hno). split_and!; [exists x; by apply Hg|done|].
  rewrite entry_take by done. by rewrite (gr_start _ _ Hg _ _ Hu).
Qed.

Lemma holds_grows l b t k : entry G t k → holds G l b t k → holds G' l b t k.
Proof.
  intros Hk [Hp|(u & Hu & Hl)]; [left; by rewrite entry_take|right].
  exists u. split; [done|by apply lacks_grows].
Qed.

Lemma holds_later l b b' t k : b ≤ b' → holds G l b t k → holds G l b' t k.
Proof. intros Hb [Hp|(u & Hu & Hl)]; [by left|right]. exists u. split; [lia|done]. Qed.

Lemma holds_prefix l l' b t k : l `prefix_of` l' → holds G l b t k → holds G l' b t k.
Proof. intros Hl [Hp|Hr]; [left|by right]. by etrans. Qed.
End growth.

(** What a log makes of a request of the leader of [u]: it goes on holding what it held. *)
Lemma holds_merged G l l' m b u t k :
  history_ok G → entry G t k → is_Some (office G u) → t ≤ u → b ≤ u → l' `prefix_of` led G u →
  m = l ∨ m = l' ∧ (l `prefix_of` l' ∨ ∃ j, fork j l l') →
  holds G l b t k → holds G m u t k.
Proof.
  intros Hok Hk Hu Htu Hbu Hl' Hm Hh.
  destruct Hm as [->|[-> Hm]]; [by eapply holds_later|].
  destruct Hh as [Hp|(v & Hv & Hl)]; [|right; exists v; split; [lia|done]].
  destruct Hm as [Hm|(j & Htj & r & e & Hr & He & Hre)]; [left; by etrans|].
  destruct Hk as (x & Hx & Hxt). pose proof (take_S_prefix _ _ _ _ Hx Hp) as Hlx.
  assert (Hcase : take (S k) (led G t) `prefix_of` led G u ∨ lacks G t k u).
  { destruct (decide (t = u)) as [->|Hne]; [left; apply prefix_take|].
    destruct (decide (take (S k) (led G t) `prefix_of` start G u)) as [Hs|Hs]; [left|right].
    - etrans; [exact Hs|by apply start_led].
    - split_and!; [done|lia|done]. }
  destruct Hcase as [Hc|Hc]; [left|right; by exists u].
  (* the logs agree on what is held, so the fork is beyond it *)
  assert (Hj : (S k ≤ j)%nat).
  { destruct (decide (S k ≤ j)%nat) as [|Hj]; [done|]. exfalso. apply Hre.
    pose proof (take_S_length _ _ _ Hx) as Hlen.
    assert (Hr' : take (S k) (led G t) !! j = Some r).
    { assert (is_Some (take (S k) (led G t) !! j)) as [y Hy] by (apply lookup_lt_is_Some; lia).
      rewrite Hy. rewrite <- Hr. symmetry. by eapply prefix_lookup_Some. }
    assert (He' : led G u !! j = Some e) by (by eapply prefix_lookup_Some).
    pose proof (prefix_lookup_Some _ _ _ _ Hr' Hc). congruence. }
  eapply prefix_shorter; [exact Hc|exact Hl'|]. rewrite (take_S_length _ _ _ Hx).
  apply lookup_lt_Some in He. lia.
Qed.

(** ** Acceptance

    [accepted a t k]: node [a] has acknowledged the record [k] of the leader of [t]. *)
Section acceptance.
Context (members : gset Z) (G : History) (accepted : Z → Z → nat → Prop).
Context (Hok : history_ok G).

Definition majority (l : list Z) : Prop :=
  NoDup l ∧ (∀ a, a ∈ l → a ∈ members) ∧ Z.of_nat (size members) < 2 * Z.of_nat (length l).

(** Who accepted a record and then voted for a later leader found its log to reach the
    record, or had lost the record to a leader in between. *)
Definition voters_ok_for (v : Z) (l : list LogRecord) (voters : list Z) : Prop :=
  ∀ a t k, a ∈ voters → accepted a t k → t < v →
    reaches l t k ∨ ∃ u, u < v ∧ lacks G t k u.

(** What a majority has accepted from one leader, every later leader holds. *)
Lemma chosen t k l :
  (∀ v i Q, office G v = Some (i, Q) → majority Q ∧ voters_ok_for v (start G v) Q) →
  0 < t → entry G t k → majority l → (∀ a, a ∈ l → accepted a t k) →
  ∀ v, is_Some (office G v) → t < v → take (S k) (led G t) `prefix_of` start G v.
Proof.
  intros Hoff Htpos Hk (Hnd & Hmem & Hsize) Hacc.
  assert (Hind : ∀ d : nat, ∀ v, v = t + Z.of_nat d → is_Some (office G v) → t < v →
    take (S k) (led G t) `prefix_of` start G v); [|intros v Hv Hlt; eapply (Hind (Z.to_nat (v - t))); [lia|done..]].
  intros d. induction d as [d IH] using lt_wf_ind. intros v Hv [[i Q] Ho] Hlt.
  assert (Hbelow : ∀ u, u < v → ¬ lacks G t k u).
  { intros u Hu (Hou & Htu & Hno). apply Hno. eapply (IH (Z.to_nat (u - t))); [lia|lia|done|done]. }
  destruct (Hoff _ _ _ Ho) as [(HndQ & HmemQ & HsizeQ) Hvot].
  destruct (quorums_meet members l Q) as (a & Hal & HaQ); [done..|].
  destruct (Hvot a t k HaQ (Hacc _ Hal) Hlt) as [(r & Hr & Hor)|(u & Hu & Hl)];
    [|by destruct (Hbelow u Hu)].
  destruct (ho_start _ Hok _ _ Ho) as [Hs Hlow].
  pose proof (sound_last _ _ _ Hs Hr) as Hp.
  pose proof (entry_lt _ _ _ Hk) as Hlen.
  assert (Hshort : ∀ l', take (S k) (led G t) `prefix_of` l' → start G v `prefix_of` l' →
    (k < length (start G v))%nat → take (S k) (led G t) `prefix_of` start G v).
  { intros l' H1 H2 H3. eapply prefix_shorter; [done..|]. rewrite length_take. lia. }
  destruct Hor as [Htr|[Htr Hkl]].
  2:{ rewrite <- Htr in Hp. eapply Hshort; [apply prefix_take|done..]. }
  assert (Hrv : term r < v).
  { apply Hlow. rewrite last_lookup in Hr. by eapply list_elem_of_lookup_2. }
  rewrite last_lookup in Hr. pose proof (prefix_lookup_Some _ _ _ _ Hr Hp) as Hru.
  destruct (led_office _ Hok _ _ _ Hru ltac:(lia)) as [y Hoy].
  assert (Hsu : take (S k) (led G t) `prefix_of` start G (term r))
    by (eapply (IH (Z.to_nat (term r - t))); [lia|lia|done|done]).
  pose proof (start_led _ Hok (term r)) as Hsl.
  eapply Hshort; [etrans; [exact Hsu|exact Hsl]|done|].
  (* its last record is beyond what its leader stood with *)
  destruct (decide (pred (length (start G v)) < length (start G (term r)))%nat) as [Hin|Hin].
  - exfalso. destruct (lookup_lt_is_Some_2 _ _ Hin) as [z Hz].
    pose proof (prefix_lookup_Some _ _ _ _ Hz Hsl) as Hz'. assert (z = r) as -> by congruence.
    pose proof (proj2 (ho_start _ Hok _ _ Hoy) r (list_elem_of_lookup_2 _ _ _ Hz)). lia.
  - apply prefix_length in Hsu. rewrite length_take in Hsu.
    apply lookup_lt_Some in Hr. lia.
Qed.
End acceptance.

(** ** Operations on histories *)
Section operations.
Implicit Types (G : History) (l : list LogRecord).

(** The history with the leader's log of term [t] extended. *)
Definition extend G (t : Z) (l : list LogRecord) : History :=
  mkHistory (stood G) (λ u, if decide (u = t) then l else led G u) (office G).

Lemma extend_grows G t l : led G t `prefix_of` l → grows G (extend G t l).
Proof. intros Hl. split; [done..|]. intros u. cbn. by case_decide; subst. Qed.

Lemma extend_ok G t x i Q :
  history_ok G → office G t = Some (i, Q) → term x = t → contiguous 0 (led G t ++ [x]) →
  history_ok (extend G t (led G t ++ [x])).
Proof.
  intros Hok Ho Hx Hc. pose proof (extend_grows G t (led G t ++ [x]) (prefix_app_r _ _ _ (reflexivity _))) as Hg.
  pose proof (ho_pos _ Hok _ _ Ho) as Hpos. split.
  - cbn. rewrite decide_False by lia. apply Hok.
  - intros u Hu Hn. cbn in *. rewrite decide_False by congruence. by apply Hok.
  - apply Hok.
  - intros u y Hu. destruct (ho_start _ Hok _ _ Hu) as [Hs Hlow]. split; [by eapply sound_grows|done].
  - intros u y Hu. cbn. case_decide as Hd; [subst u|exact (ho_led _ Hok _ _ Hu)]. split; [done|].
    destruct (ho_led _ Hok _ _ Ho) as (_ & es & Hes & He). exists (es ++ [x]).
    change (start (extend _ _ _) t) with (start G t). rewrite Hes, app_assoc. split; [done|].
    intros e [?| ->%list_elem_of_singleton]%elem_of_app; auto.
Qed.

(** [i] stands in term [t] with the log [l]. *)
Definition stand G (t i : Z) (l : list LogRecord) : History :=
  mkHistory (λ v, if decide (v = (t, i)) then l else stood G v) (led G) (office G).

Lemma stand_start G t i l u :
  (∀ Q, office G t ≠ Some (i, Q)) → start (stand G t i l) u = start G u.
Proof.
  intros Hno. unfold start. cbn. destruct (office G u) as [[j Q]|] eqn:Ho; [|done].
  rewrite decide_False; [done|]. intros [= -> ->]. by eapply Hno.
Qed.

Lemma stand_grows G t i l : (∀ Q, office G t ≠ Some (i, Q)) → grows G (stand G t i l).
Proof. intros Hno. split; [done| |done]. intros u x _. by apply stand_start. Qed.

Lemma stand_ok G t i l :
  (∀ Q, office G t ≠ Some (i, Q)) → history_ok G → history_ok (stand G t i l).
Proof.
  intros Hno Hok. split; [apply Hok|apply Hok|apply Hok|..]; intros u x Hu;
    rewrite stand_start by done.
  - destruct (ho_start _ Hok _ _ Hu) as [Hs Hlow]. split; [|done].
    eapply sound_grows; [by apply stand_grows|done].
  - exact (ho_led _ Hok _ _ Hu).
Qed.

End operations.

(** [i] leads term [t], voted for by [Q], from the log it stood with. *)
Definition install G (t i : Z) (Q : list Z) : History :=
  mkHistory (stood G) (λ u, if decide (u = t) then stood G (t, i) else led G u)
    (λ u, if decide (u = t) then Some (i, Q) else office G u).

Section install.
Context (G : History) (t i : Z) (Q : list Z).
Context (Hok : history_ok G) (Hpos : 0 < t) (Hno : office G t = None).
Context (Hs : sound G (stood G (t, i))) (Hlow : ∀ r, r ∈ stood G (t, i) → term r < t).

Lemma install_start u x : office G u = Some x → start (install G t i Q) u = start G u.
Proof. intros Hu. unfold start. cbn. rewrite decide_False; [done|]. congruence. Qed.

Lemma install_start_new : start (install G t i Q) t = stood G (t, i).
Proof. unfold start. cbn. by rewrite decide_True. Qed.

Lemma install_grows : grows G (install G t i Q).
Proof.
  split.
  - intros u x Hu. cbn. rewrite decide_False; [done|]. congruence.
  - intros u x. apply install_start.
  - intros u. cbn. case_decide; [|done]. subst u. rewrite (ho_none _ Hok) by (done || lia).
    apply prefix_nil.
Qed.

Lemma install_ok : history_ok (install G t i Q).
Proof.
  assert (Hcase : ∀ u x, office (install G t i Q) u = Some x → u = t ∨ u ≠ t ∧ office G u = Some x)
    by (intros u x; cbn; case_decide; auto).
  split.
  - cbn. rewrite decide_False by lia. apply Hok.
  - intros u Hu. cbn. case_decide; [done|]. by apply Hok.
  - intros u x [->|[_ Hu]]%Hcase; [done|by eapply ho_pos].
  - intros u x Hu. destruct (Hcase _ _ Hu) as [->|[Hne Hu']].
    + rewrite install_start_new. split; [eapply sound_grows; [apply install_grows|done]|done].
    + rewrite (install_start _ _ Hu'). destruct (ho_start _ Hok _ _ Hu').
      split; [eapply sound_grows; [apply install_grows|done]|done].
  - intros u x Hu. destruct (Hcase _ _ Hu) as [->|[Hne Hu']].
    + rewrite install_start_new. cbn. rewrite decide_True by done. split; [apply Hs|].
      exists []. rewrite app_nil_r. split; [done|]. by intros e ?%not_elem_of_nil.
    + rewrite (install_start _ _ Hu'). cbn. rewrite decide_False by done. by eapply ho_led.
Qed.

(** There is no record of the term yet. *)
Lemma install_entry u k : entry (install G t i Q) u k → u ≠ t ∧ entry G u k.
Proof.
  intros (r & Hr & Ht). cbn in Hr. case_decide as Hd; [|split; [done|by exists r]].
  apply list_elem_of_lookup_2, Hlow in Hr. lia.
Qed.

End install.
