(* ===== verification/Wire.v ===== *)
(** Replication with its answers, without snapshots: the network of LogMatching in which a
    leader handles only answers its peers have given, and the invariant that ties what every
    node holds, in memory and on disk, to a history of the cluster. *)
From S2P Require Import Prelude Command Types Timer Metrics Env Sim Node SimNode.
From S2P Require Import NodeLog Election AppendEntries Bytes Fs StateMachine Commit.
From S2P Require Import Replicator Propose SnapshotNode Votes Links Cluster LogMatching.
From S2P Require Import Carry Histories.

(** ** The network *)

(** [answered]: the answers to append requests: who gave it, the term of the request, and
    the answer.  None is removed: a leader may handle it late, repeatedly or never. *)
Record Wire (SM E : Type) := mkWire {
  wire_net : Net SM E;
  answered : list (Z * Z * AppendEntriesResponse) }.
Arguments mkWire {SM E} _ _.
Arguments wire_net {SM E} _.
Arguments answered {SM E} _.

Section steps.
Context {SM E : Type} `{HostEnv E, IRaftStorage E, ISnapshotStorage E, !IStateMachine SM E}.
Context (cfg : Z → NodeConfig) (scfg : Z → snapshotConfig) (sm0 : Z → SM).
Implicit Types (n : Node SM E) (W : Wire SM E).

(** What a node does between elections on its own account, with the requests it adds. *)
Inductive own_step : Node SM E → Node SM E → list AppendEntriesRequest → Prop :=
  | OS_build peer_id t n r n' :
      is_u64 (default 0 (next_index_ (core n) !! peer_id)) →
      LastLogIndexLocked (core n) < u64_max →
      BuildAppendEntriesRequest peer_id t n = (r, n') → own_step n n' (requests_of r)
  | OS_propose cmd n :
      LastLogIndexLocked (core n) < u64_max → own_step n (ProposeLocked cmd n).2 []
  | OS_noop n :
      role_ (core n) = kLeader → LastLogIndexLocked (core n) < u64_max →
      own_step n (AppendLocalLogUnlocked kInternalNoOpCommand n).2 []
  | OS_apply n : own_step n (ApplyIteration n).2 []
  | OS_commit n : own_step n (AdvanceCommitIndexUnlocked n) []
  | OS_heartbeat n : own_step n (OnHeartbeatTimer n).2 []
  | OS_snapshot_timer n : own_step n (OnSnapshotTimer n) []
  | OS_replicator peer_id f n : own_step n (on_replicator peer_id f n) []
  | OS_metrics m n : own_step n (n <| metrics_ := m |>) []
  | OS_host e n : disk_state e = disk_state (env_ n) → own_step n (n <| env_ := e |>) []
  | OS_stop n : own_step n (Stop n) [].

Definition cluster_of W : Cluster SM E := net_cluster (wire_net W).
Definition put W (i : Z) n new (new_answers : list (Z * Z * AppendEntriesResponse)) : Wire SM E :=
  mkWire (put_host (wire_net W) i n new) (new_answers ++ answered W).

Inductive wire_step : Wire SM E → Wire SM E → Prop :=
  | WS_control W C' :
      control_step cfg scfg sm0 (cluster_of W) C' →
      wire_step W (mkWire (mkNet C' (sent (wire_net W))) (answered W))
  (** a request reaches a node, which answers *)
  | WS_append W j request n resp b n' :
      request ∈ sent (wire_net W) → hosts (cluster_of W) !! j = Some (Up n) →
      OnAppendEntriesLocked request n = ((resp, b), n') →
      wire_step W (put W j n' [] [(j, areq_term request, resp)])
  (** an answer reaches the node that asked *)
  | WS_answer W i peer_id t target resp n :
      (peer_id, t, resp) ∈ answered W → hosts (cluster_of W) !! i = Some (Up n) →
      wire_step W (put W i (HandleAppendEntriesResponse peer_id t target resp n).2 [] [])
  | WS_own W i n n' new :
      hosts (cluster_of W) !! i = Some (Up n) → own_step n n' new →
      wire_step W (put W i n' new []).

Definition wire_init (members : gset Z) W : Prop :=
  net_init members (wire_net W) ∧ answered W = [].

Definition wire_reachable (members : gset Z) W : Prop :=
  ∃ W0, wire_init members W0 ∧ rtc wire_step W0 W.

Lemma own_step_repl sent n n' new : own_step n n' new → repl_step sent n n' new.
Proof. by destruct 1; econstructor. Qed.

(** It is the network of LogMatching with fewer messages. *)
Lemma wire_step_net W W' :
  wire_step W W' → net_step cfg scfg sm0 (wire_net W) (wire_net W').
Proof.
  destruct 1 as [W C' Hc|W j q n resp b n' Hq Hj Hrun|W i p t target resp n Ha Hi|W i n n' new Hi Ho].
  - by apply NS_control.
  - apply (NS_repl _ _ _ _ j n); [done|]. pose proof (RS_append _ q n Hq) as Hs. by rewrite Hrun in Hs.
  - apply (NS_repl _ _ _ _ i n); [done|]. apply RS_append_reply.
  - apply (NS_repl _ _ _ _ i n); [done|]. by apply own_step_repl.
Qed.
End steps.

(** ** The invariant *)
Section invariant.
Context {SM E : Type} `{HostEnv E, IRaftStorage E}.
Context (cfg : Z → NodeConfig) (members : gset Z).
Implicit Types (n : Node SM E) (h : Host SM E) (W : Wire SM E) (G : History).

(** [a] acknowledged, in term [t], a log that reaches [k]; the leader has its own records. *)
Definition accepted W G (a t : Z) (k : nat) : Prop :=
  entry G t k ∧
  ((∃ resp, (a, t, resp) ∈ answered W ∧ aresp_success resp = true ∧
      Z.of_nat k ≤ aresp_match_index resp) ∨
   ∃ Q, office G t = Some (a, Q)).

Definition host_view h : Z * list LogRecord := disk_view (host_env h).

(** A leader's failed write may have left one more record of its term on its own disk. *)
Definition tentative G (i : Z) (v : Z * list LogRecord) : Prop :=
  ∃ x Q, office G v.1 = Some (i, Q) ∧ v.2 = led G v.1 ++ [x] ∧ term x = v.1 ∧ contiguous 0 v.2.

Record up_inv W G (i : Z) n : Prop := {
  ui_log : sound G (log_ (core n));
  ui_terms : ∀ r, r ∈ log_ (core n) →
    term r ≤ current_term_ (core n) ∧ term r ≤ (disk_view (env_ n)).1;
  ui_holds : ∀ t k, accepted W G i t k →
    t ≤ current_term_ (core n) ∧ holds G (log_ (core n)) (current_term_ (core n)) t k;
  ui_saved : ∀ k r, log_ (core n) !! k = Some r →
    holds G (disk_view (env_ n)).2 (disk_view (env_ n)).1 (term r) k;
  ui_candidate : role_ (core n) = kCandidate → log_ (core n) = stood G (current_term_ (core n), i);
  ui_leader : role_ (core n) = kLeader →
    (∃ Q, office G (current_term_ (core n)) = Some (i, Q)) ∧
    led G (current_term_ (core n)) = log_ (core n) ∧
    ∀ p m, p ≠ i → match_index_ (core n) !! p = Some m → m ≤ 0 ∨
      ∃ resp, (p, current_term_ (core n), resp) ∈ answered W ∧ aresp_success resp = true ∧
        m ≤ aresp_match_index resp }.

Record host_inv W G (i : Z) h : Prop := {
  hi_disk : sound G (host_view h).2 ∨ (∃ n, h = Up n) ∧ tentative G i (host_view h);
  hi_terms : ∀ r, r ∈ (host_view h).2 → term r ≤ (host_view h).1;
  hi_holds : ∀ t k, accepted W G i t k →
    t ≤ (host_view h).1 ∧ holds G (host_view h).2 (host_view h).1 t k;
  hi_up : ∀ n, h = Up n → up_inv W G i n }.

(** A vote request describes the log [l]. *)
Definition describes (request : VoteRequest) (l : list LogRecord) : Prop :=
  ∃ r, last l = Some r ∧ vreq_last_log_term request = term r ∧
    vreq_last_log_index request = Z.of_nat (length l) - 1.

Record election_inv W G (el : Election) : Prop := {
  ei_term : 0 < el_term el;
  ei_stood : sound G (stood G (el_vote el)) ∧ ∀ r, r ∈ stood G (el_vote el) → term r < el_term el;
  ei_requests : ∀ j request, (j, request) ∈ el_requests el →
    describes request (stood G (el_vote el));
  ei_voters : office G (el_term el) = None → ∀ voters, (∀ a, a ∈ voters → cast el a) →
    voters_ok_for G (accepted W G) (el_term el) (stood G (el_vote el)) voters }.

Definition office_inv W G (v i : Z) (Q : list Z) : Prop :=
  opened (cluster_of W) v ∧ i ∈ Q ∧ majority members Q ∧
  (∀ a, a ∈ Q → voted (cluster_of W) a (v, i)) ∧
  voters_ok_for G (accepted W G) v (start G v) Q.

(** The request is the end of a log of its term's leader. *)
Definition request_inv G (request : AppendEntriesRequest) : Prop :=
  is_Some (office G (areq_term request)) ∧
  ∃ l p a, l `prefix_of` led G (areq_term request) ∧ l !! p = Some a ∧
    Z.of_nat p = areq_prev_log_index request ∧ term a = areq_prev_log_term request ∧
    areq_entries request = drop (S p) l.

Definition answer_inv G (a : Z * Z * AppendEntriesResponse) : Prop :=
  aresp_success a.2 = true →
  is_Some (office G a.1.2) ∧ aresp_match_index a.2 < Z.of_nat (length (led G a.1.2)).

Record wire_ok W G : Prop := {
  wo_net : net_ok cfg members (wire_net W);
  wo_history : history_ok G;
  wo_office : ∀ v i Q, office G v = Some (i, Q) → office_inv W G v i Q;
  wo_elections : ∀ el, el ∈ elections (cluster_of W) → election_inv W G el;
  wo_hosts : ∀ i h, hosts (cluster_of W) !! i = Some h → host_inv W G i h;
  wo_sent : ∀ q, q ∈ sent (wire_net W) → request_inv G q;
  wo_answered : ∀ a, a ∈ answered W → answer_inv G a }.

Lemma accepted_entry W G a t k : accepted W G a t k → entry G t k.
Proof. by intros []. Qed.

Lemma accepted_office W G a t k : wire_ok W G → accepted W G a t k → is_Some (office G t).
Proof.
  intros Hok [_ [(resp & Hin & Hs & _)|[Q HQ]]]; [|by eexists].
  by apply (wo_answered _ _ Hok _ Hin Hs).
Qed.

Lemma request_inv_grows G G' q : grows G G' → request_inv G q → request_inv G' q.
Proof.
  intros Hg ([x Hx] & l & p & a & Hl & Hrest). split; [exists x; by apply Hg|].
  exists l, p, a. split; [|done]. etrans; [exact Hl|apply Hg].
Qed.

Lemma answer_inv_grows G G' a : grows G G' → answer_inv G a → answer_inv G' a.
Proof.
  intros Hg Ha Hs. destruct (Ha Hs) as ([x Hx] & Hm). split; [exists x; by apply Hg|].
  pose proof (prefix_length _ _ (gr_led _ _ Hg a.1.2)). lia.
Qed.
End invariant.

(** ** One host changes *)
Section update.
Context {SM E : Type} `{HostEnv E, IRaftStorage E}.
Context (cfg : Z → NodeConfig) (members : gset Z).
Implicit Types (n : Node SM E) (h : Host SM E).

(** [W] with host [i] as [h'], the elections [els], new requests and new answers; the
    history grows from [G] to [G'], and only by what [i] leads and stands with.  What is
    newly accepted is accepted by [i], of a term it has not voted beyond. *)
Context (W : Wire SM E) (G G' : History) (i : Z) (h h' : Host SM E) (els : list Election).
Context (new : list AppendEntriesRequest) (new_answers : list (Z * Z * AppendEntriesResponse)).
Let W' : Wire SM E := mkWire (updated (wire_net W) i h' els new) (new_answers ++ answered W).

Record update : Prop := {
  up_host : hosts (cluster_of W) !! i = Some h;
  up_grows : grows G G';
  up_led : ∀ t, led G' t = led G t ∨ ∃ Q, office G' t = Some (i, Q);
  up_stood : ∀ t j, j ≠ i → stood G' (t, j) = stood G (t, j);
  up_accepted : ∀ a t k, accepted W' G' a t k → accepted W G a t k ∨
    a = i ∧ ∀ v, host_durable v h → v.1 ≤ t;
  up_durable : ∀ v, host_durable v h → host_durable v h' }.

Context (Hup : update) (Hok : wire_ok cfg members W G).

Lemma update_voted a v : voted (cluster_of W) a v → voted (cluster_of W') a v.
Proof.
  intros (ha & Ha & Hv). unfold voted. change (hosts (cluster_of W')) with (<[i:=h']> (hosts (cluster_of W))).
  destruct (decide (a = i)) as [->|Hne].
  - rewrite lookup_insert_eq. exists h'. split; [done|]. apply (up_durable Hup).
    rewrite (up_host Hup) in Ha. congruence.
  - rewrite lookup_insert_ne by done. by exists ha.
Qed.

(** Voters stay good: they accept nothing of an earlier term. *)
Lemma update_voters v j l voters :
  (∀ a, a ∈ voters → voted (cluster_of W) a (v, j)) →
  voters_ok_for G (accepted W G) v l voters → voters_ok_for G' (accepted W' G') v l voters.
Proof.
  intros Hv Hvot a t k Ha Hacc Hlt. destruct (up_accepted Hup _ _ _ Hacc) as [Hold|[-> Hno]].
  - destruct (Hvot a t k Ha Hold Hlt) as [?|(u & Hu & Hl)]; [by left|right].
    exists u. split; [done|]. eapply lacks_grows; [apply Hup|by eapply accepted_entry|done].
  - destruct (Hv _ Ha) as (hi & Hi & Hd). rewrite (up_host Hup) in Hi. injection Hi as <-.
    specialize (Hno _ Hd). cbn in Hno. lia.
Qed.

(** An office that was held. *)
Lemma update_office v j Q :
  (∀ t, opened (cluster_of W) t → opened (cluster_of W') t) →
  office G v = Some (j, Q) → office_inv members W' G' v j Q.
Proof.
  intros Hop Ho. destruct (wo_office _ _ _ _ Hok _ _ _ Ho) as (H1 & Hj & H2 & H3 & H4).
  split_and!; [by apply Hop|done|done|by intros a Ha; apply update_voted, H3|].
  rewrite (gr_start _ _ (up_grows Hup) _ _ Ho). by eapply update_voters.
Qed.

(** An election whose requests and votes are among those it had. *)
Lemma update_election el el' :
  el ∈ elections (cluster_of W) → el_vote el' = el_vote el →
  stood G' (el_vote el) = stood G (el_vote el) →
  (∀ x, x ∈ el_requests el' → x ∈ el_requests el) → (∀ j, cast el' j → cast el j) →
  election_inv W' G' el'.
Proof.
  intros Hin Hv Hst Hreq Hcast. destruct (wo_elections _ _ _ _ Hok _ Hin) as [Hpos [Hs Hlow] Hr Hl].
  assert (Ht : el_term el' = el_term el) by (by injection Hv).
  split; rewrite ?Hv, ?Hst, ?Ht.
  - done.
  - split; [|done]. eapply sound_grows; [apply Hup|done].
  - intros j request Hx. eapply Hr, Hreq, Hx.
  - intros Ho voters Hvot. apply (update_voters _ (el_candidate el)).
    + intros a Ha. apply (co_cast _ _ _ (no_cluster _ _ _ (wo_net _ _ _ _ Hok)) _ _ Hin).
      by apply Hcast, Hvot.
    + apply Hl; [|by intros a Ha; apply Hcast, Hvot].
      destruct (office G (el_term el)) as [x|] eqn:Hx; [|done].
      by rewrite (gr_office _ _ (up_grows Hup) _ _ Hx) in Ho.
Qed.

(** Another host. *)
Lemma update_other j hj :
  j ≠ i → hosts (cluster_of W) !! j = Some hj → host_inv W' G' j hj.
Proof.
  intros Hne Hj. pose proof (up_grows Hup) as Hg.
  destruct (wo_hosts _ _ _ _ Hok _ _ Hj) as [Hd Ht Hh Hu].
  assert (Hacc : ∀ t k, accepted W' G' j t k → accepted W G j t k).
  { intros t k Ha. by destruct (up_accepted Hup _ _ _ Ha) as [|[? _]]. }
  assert (Hled : ∀ t Q, office G t = Some (j, Q) → led G' t = led G t).
  { intros t Q Ho. destruct (up_led Hup t) as [|[Q' Ho']]; [done|].
    rewrite (gr_office _ _ Hg _ _ Ho) in Ho'. congruence. }
  split.
  - destruct Hd as [Hs|(Hup' & x & Q & Ho & Hv & Hx)]; [left; by eapply sound_grows|right].
    split; [done|]. exists x, Q. rewrite (Hled _ _ Ho). split; [by apply Hg|done].
  - done.
  - intros t k Ha%Hacc. destruct (Hh _ _ Ha) as [Hle Hk]. split; [done|].
    eapply holds_grows; [done|by eapply accepted_entry|done].
  - intros n ->. destruct (Hu n eq_refl) as [Hs Hts Hho Hsv Hc Hl]. split.
    + by eapply sound_grows.
    + done.
    + intros t k Ha%Hacc. destruct (Hho _ _ Ha) as [Hle Hk]. split; [done|].
      eapply holds_grows; [done|by eapply accepted_entry|done].
    + intros k r Hr. eapply holds_grows; [done|by eapply sound_entry|by apply Hsv].
    + intros Hr. rewrite (up_stood Hup) by done. by apply Hc.
    + intros Hr. destruct (Hl Hr) as ([Q Ho] & Hlog & Hm). split_and!.
      * exists Q. by apply Hg.
      * by rewrite (Hled _ _ Ho).
      * intros p m Hp Hpm. destruct (Hm p m Hp Hpm) as [|(resp & Hin & Hx)]; [by left|right].
        exists resp. split; [apply elem_of_app; by right|done].
Qed.

Lemma wire_ok_update :
  net_ok cfg members (wire_net W') → history_ok G' →
  (∀ t, opened (cluster_of W) t → opened (cluster_of W') t) →
  (∀ v j Q, office G' v = Some (j, Q) → office G v = Some (j, Q) ∨ office_inv members W' G' v j Q) →
  (∀ el, el ∈ els → election_inv W' G' el) → host_inv W' G' i h' →
  (∀ q, q ∈ new → request_inv G' q) → (∀ a, a ∈ new_answers → answer_inv G' a) →
  wire_ok cfg members W' G'.
Proof.
  intros Hnet Hh Hop Hoff Hels Hhi Hnew Hans. split; try done.
  - intros v j Q Ho. destruct (Hoff _ _ _ Ho) as [Hold|]; [by apply update_office|done].
  - intros j hj Hj. change (<[i:=h']> (hosts (cluster_of W)) !! j = Some hj) in Hj.
    apply lookup_insert_Some in Hj as [[<- <-]|[Hne Hj]]; [done|]. by apply update_other.
  - intros q [Hq|Hq]%elem_of_app; [by apply Hnew|].
    eapply request_inv_grows; [apply Hup|by apply (wo_sent _ _ _ _ Hok)].
  - intros a [Ha|Ha]%elem_of_app; [by apply Hans|].
    eapply answer_inv_grows; [apply Hup|by apply (wo_answered _ _ _ _ Hok)].
Qed.
End update.

(** ** A log carried on *)
Section carrying.
Context {SM E : Type} `{HostEnv E, IRaftStorage E}.
Implicit Types (n : Node SM E) (W : Wire SM E) (G : History).

(** A host that stays up, whose log is kept or becomes [L]. *)
Lemma carried_inv W W' G G' i (X : Z → Z → Prop) L n n' :
  host_inv W G i (Up n) → carried X L n n' → node_id (config_ n) = i →
  grows G G' → (∀ v, stood G' v = stood G v) → (∀ a, a ∈ answered W → a ∈ answered W') →
  (disk_view (env_ n') = (current_term_ (core n'), L) →
     sound G' L ∨ tentative G' i (disk_view (env_ n'))) →
  (disk_view (env_ n') = disk_view (env_ n) → tentative G i (disk_view (env_ n)) →
     sound G' (disk_view (env_ n')).2 ∨ tentative G' i (disk_view (env_ n'))) →
  (log_ (core n') = L → sound G' L) → (∀ r, r ∈ L → term r ≤ current_term_ (core n')) →
  (∀ t k, entry G t k → t ≤ current_term_ (core n) →
     holds G (log_ (core n)) (current_term_ (core n)) t k → holds G L (current_term_ (core n')) t k) →
  (role_ (core n') = kLeader → led G (current_term_ (core n)) = log_ (core n) →
     led G' (current_term_ (core n)) = log_ (core n')) →
  (∀ t k, accepted W' G' i t k → accepted W G i t k ∨
     ∃ r, log_ (core n') !! k = Some r ∧ term r = t) →
  (role_ (core n) = kLeader → ∀ p m, X p m → m ≤ 0 ∨
     ∃ resp, (p, current_term_ (core n), resp) ∈ answered W' ∧ aresp_success resp = true ∧
       m ≤ aresp_match_index resp) →
  host_inv W' G' i (Up n').
Proof.
  intros [Hd Htd Hhd Hup] [Hcfg Hterm Hlog Hdisk Hcand Hlead] Hid Hg Hst Hans HL Htent HLs HLt HLh
    Hled Hacc HX.
  destruct (Hup n eq_refl) as [Hs Hts Hho Hsv Hc Hl]. clear Hup.
  unfold host_view in *. cbn [host_env] in *.
  set (v := disk_view (env_ n)) in *. set (v' := disk_view (env_ n')) in *.
  (* the new log in memory *)
  assert (Hs' : sound G' (log_ (core n'))).
  { destruct Hlog as [->|[Heq _]]; [by eapply sound_grows|]. rewrite Heq. by apply HLs. }
  assert (Hts' : ∀ r, r ∈ log_ (core n') → term r ≤ current_term_ (core n') ∧ term r ≤ v'.1).
  { intros r Hr. destruct Hlog as [Heq|[Heq Hv']]; rewrite Heq in Hr.
    - destruct (Hts _ Hr). split; [lia|]. destruct Hdisk as [->|[(t & ? & ->)| ->]]; cbn; lia.
    - rewrite Hv'. cbn. by split; apply HLt. }
  assert (Hkeep : ∀ t k, entry G t k → t ≤ current_term_ (core n) →
    holds G (log_ (core n)) (current_term_ (core n)) t k → holds G v.2 v.1 t k →
    holds G' (log_ (core n')) (current_term_ (core n')) t k ∧ holds G' v'.2 v'.1 t k).
  { intros t k Hk Ht Hm Hdv. pose proof (HLh _ _ Hk Ht Hm) as HLk. split.
    - eapply holds_grows; [done..|]. destruct Hlog as [->|[-> _]]; [by eapply holds_later|done].
    - eapply holds_grows; [done..|]. destruct Hdisk as [->|[(t' & ? & ->)| ->]]; [done| |done].
      by eapply holds_later. }
  assert (Hsv' : ∀ k r, log_ (core n') !! k = Some r → holds G' v'.2 v'.1 (term r) k).
  { intros k r Hr. destruct Hlog as [Heq|[Heq Hv']].
    - rewrite Heq in Hr. destruct (Hts r) as [? _]; [by eapply list_elem_of_lookup_2|].
      apply Hkeep; [by eapply sound_entry|done|by eapply sound_holds|by apply Hsv].
    - rewrite Hv'. cbn [fst snd]. rewrite Heq in Hr, Hs'. by eapply sound_holds. }
  assert (Hent : ∀ t k, accepted W' G' i t k →
    t ≤ current_term_ (core n') ∧ holds G' (log_ (core n')) (current_term_ (core n')) t k ∧
    t ≤ v'.1 ∧ holds G' v'.2 v'.1 t k).
  { intros t k Ha. destruct (Hacc _ _ Ha) as [Hold|(r & Hr & <-)].
    - destruct (Hho _ _ Hold) as [Ht Hm], (Hhd _ _ Hold) as [Htv Hdv].
      destruct (Hkeep t k) as [H1 H2]; [by eapply accepted_entry|done..|].
      split_and!; [lia|done| |done]. destruct Hdisk as [->|[(t' & ? & ->)| ->]]; cbn; lia.
    - destruct (Hts' r) as [? ?]; [by eapply list_elem_of_lookup_2|].
      split_and!; [done|by eapply sound_holds|done|by apply Hsv']. }
  split; unfold host_view; cbn [host_env]; fold v'.
  - destruct Hdisk as [Heq|[(t & ? & Heq)|Heq]].
    + destruct Hd as [Hd|(_ & Hd)]; [left; rewrite Heq; by eapply sound_grows|].
      destruct (Htent Heq Hd); [by left|right]. split; [by exists n'|done].
    + left. rewrite Heq. by eapply sound_grows.
    + destruct (HL Heq) as [|]; [left; by rewrite Heq|right]. split; [by exists n'|done].
  - destruct Hdisk as [->|[(t & ? & ->)| ->]]; [done| |done]. cbn. intros r Hr.
    destruct (Hts _ Hr). lia.
  - intros t k Ha. by destruct (Hent _ _ Ha) as (_ & _ & ? & ?).
  - intros ? [= <-]. split; try done.
    + intros t k Ha. by destruct (Hent _ _ Ha) as (? & ? & _).
    + intros Hr. destruct (Hcand Hr) as (Hr0 & Ht0 & Hl0). rewrite Hl0, Ht0, Hst. by apply Hc.
    + intros Hr. destruct (Hlead Hr) as (Hr0 & Ht0 & Hm0). rewrite Ht0.
      destruct (Hl Hr0) as ([Q Ho] & Hlg & Hm). split_and!.
      * exists Q. by apply Hg.
      * by apply Hled.
      * intros p m Hp Hpm. destruct (Hm0 p m ltac:(congruence) Hpm) as [Hold|Hx]; [|by apply HX].
        destruct (Hm p m Hp Hold) as [|(resp & Hin & Hx)]; [by left|right].
        exists resp. split; [by apply Hans|done].
Qed.

(** A host whose log is kept, with nothing newly accepted. *)
Lemma kept_inv W W' G i (X : Z → Z → Prop) n n' :
  host_inv W G i (Up n) → kept X n n' → node_id (config_ n) = i →
  (∀ a, a ∈ answered W → a ∈ answered W') →
  (∀ t k, accepted W' G i t k → accepted W G i t k) →
  (role_ (core n) = kLeader → ∀ p m, X p m → m ≤ 0 ∨
     ∃ resp, (p, current_term_ (core n), resp) ∈ answered W' ∧ aresp_success resp = true ∧
       m ≤ aresp_match_index resp) →
  host_inv W' G i (Up n').
Proof.
  intros Hi Hk Hid Hans Hacc HX. pose proof (hi_up _ _ _ _ Hi n eq_refl) as [Hs Hts _ _ _ _].
  pose proof (kept_log _ _ _ Hk) as Hlog. pose proof (ca_term _ _ _ _ Hk) as Hterm.
  eapply (carried_inv W W' G G); try done.
  - by left.
  - intros ->. by right.
  - intros r Hr. destruct (Hts _ Hr). lia.
  - intros t k _ _. by apply holds_later.
  - intros _ ->. done.
  - intros t k Ha. left. by apply Hacc.
Qed.
End carrying.
