(* ===== verification/Completeness.v ===== *)
(** The invariant of Wire is kept by every step: requests and answers, the leader's own
    entries, and the life cycle and elections of the nodes. *)
From S2P Require Import Prelude Command Types Timer Metrics Env Sim Node SimNode.
From S2P Require Import NodeLog Election AppendEntries Bytes Fs StateMachine Commit.
From S2P Require Import Replicator Propose SnapshotNode Steady Votes Links Cluster LogMatching.
From S2P Require Import Carry Histories Wire.

(** ** Sound logs of nodes *)
Section logs.
Implicit Types (G : History) (c : RaftCore).

Lemma sound_boundary G c : log_ok c → sound G (log_ c) → last_snapshot_index_ c = 0.
Proof.
  intros [(cmd & Hh & _) _ _ _] [Hb _ _]. rewrite Hh in Hb. by injection Hb.
Qed.

Lemma sound_at G c i :
  log_ok c → sound G (log_ c) → 0 ≤ i → LogAtIndexLocked c i = log_ c !! Z.to_nat i.
Proof.
  intros Hok Hs Hi. rewrite LogAtIndex_lookup, (sound_boundary G) by done.
  by rewrite decide_True, Z.sub_0_r by done.
Qed.

(** What a vote's comparison reads of the log. *)
Lemma sound_last_of G c r :
  sound G (log_ c) → last (log_ c) = Some r →
  LastLogTermLocked c = term r ∧ LastLogIndexLocked c = Z.of_nat (length (log_ c)) - 1.
Proof.
  intros Hs Hr. unfold LastLogTermLocked, LastLogIndexLocked. rewrite Hr. split; [done|].
  rewrite (contiguous_last _ _ _ (so_indexes _ _ Hs) Hr). lia.
Qed.

Lemma sound_nonempty G l : sound G l → ∃ r, last l = Some r.
Proof. intros [Hh _ _]. destruct (last l) eqn:Hl; [eauto|]. apply last_None in Hl. by subst. Qed.

(** A vote is granted to a log that reaches what the voter's log reaches. *)
Lemma grant_reaches G c l request t k :
  sound G (log_ c) → sound G l → describes request l → reaches (log_ c) t k →
  (LastLogTermLocked c < vreq_last_log_term request ∨
   LastLogTermLocked c = vreq_last_log_term request ∧
   LastLogIndexLocked c ≤ vreq_last_log_index request) → reaches l t k.
Proof.
  intros Hc Hl (x & Hx & Htx & Hix) (r & Hr & Hor) Hcmp.
  destruct (sound_last_of _ _ _ Hc Hr) as [Ht Hi]. rewrite Ht, Hi, Htx, Hix in Hcmp.
  exists x. split; [done|]. destruct Hor as [?|[? ?]], Hcmp as [?|[? ?]];
    first [left; lia|right; split; [congruence|lia]].
Qed.
End logs.

(** ** Local steps *)
Section local.
Context {SM E : Type} `{HostEnv E, IRaftStorage E, ISnapshotStorage E, !IStateMachine SM E}.
Context (recovered : PersistentRaftState → PersistentRaftState).
Context `{!StorageLaws E recovered, !RecoveredLog recovered, !DiskFrames SM E, !SnapshotIndices E}.
Context (cfg : Z → NodeConfig) (members : gset Z).
Implicit Types (n : Node SM E) (W : Wire SM E) (h : Host SM E) (G : History).

Lemma wire_node_id W G i n :
  wire_ok cfg members W G → hosts (cluster_of W) !! i = Some (Up n) → node_id (config_ n) = i.
Proof.
  intros Hok Hi. by destruct (co_hosts _ _ _ (no_cluster _ _ _ (wo_net _ _ _ _ Hok)) _ _ Hi) as [_ [? _]].
Qed.

Lemma wire_log_ok W G i n :
  wire_ok cfg members W G → hosts (cluster_of W) !! i = Some (Up n) → log_ok (core n).
Proof.
  intros Hok Hi. by destruct (no_hosts _ _ _ (wo_net _ _ _ _ Hok) _ _ Hi) as [[[? _ _] _] _].
Qed.

Lemma wire_up W G i n :
  wire_ok cfg members W G → hosts (cluster_of W) !! i = Some (Up n) → up_inv W G i n.
Proof. intros Hok Hi. by apply (hi_up _ _ _ _ (wo_hosts _ _ _ _ Hok _ _ Hi)). Qed.

(** The history stays: what is left of [update]. *)
Lemma update_same W G i h h' els new answers :
  hosts (cluster_of W) !! i = Some h → (∀ v, host_durable v h → host_durable v h') →
  (∀ a t k, accepted (mkWire (updated (wire_net W) i h' els new) (answers ++ answered W)) G a t k →
     accepted W G a t k ∨ a = i ∧ ∀ v, host_durable v h → v.1 ≤ t) →
  update W G G i h h' els new answers.
Proof. intros Hi Hd Ha. split; try done. by left. Qed.

Lemma opened_same W i h' els new answers :
  els = elections (cluster_of W) → ∀ t, opened (cluster_of W) t →
  opened (cluster_of (mkWire (updated (wire_net W) i h' els new) answers)) t.
Proof. by intros ->. Qed.

(** Only the answers and the history say what an election must satisfy. *)
Lemma election_inv_answers W W' G el :
  answered W' = answered W → election_inv W G el → election_inv W' G el.
Proof.
  intros Ha [? ? ? Hv]. split; [done..|]. intros Ho voters Hc. specialize (Hv Ho voters Hc).
  unfold voters_ok_for, accepted in *. by rewrite Ha.
Qed.

(** A host keeps its log, and no vote is cast. *)
Lemma wire_ok_kept W G i n n' new (X : Z → Z → Prop) els :
  let W' := mkWire (updated (wire_net W) i (Up n') els new) (answered W) in
  wire_ok cfg members W G → hosts (cluster_of W) !! i = Some (Up n) → quiet n n' →
  kept X n n' → net_ok cfg members (wire_net W') →
  (∀ t, opened (cluster_of W) t → opened (cluster_of W') t) →
  (∀ el, el ∈ els → election_inv W' G el) →
  (role_ (core n) = kLeader → ∀ p m, X p m → m ≤ 0 ∨
     ∃ resp, (p, current_term_ (core n), resp) ∈ answered W ∧ aresp_success resp = true ∧
       m ≤ aresp_match_index resp) →
  (∀ q, q ∈ new → request_inv G q) → wire_ok cfg members W' G.
Proof.
  intros W' Hok Hi Hq Hk Hnet Hop Hels HX Hnew.
  apply (wire_ok_update cfg members W G G i (Up n) (Up n') els new []); try done.
  - apply update_same; [done|intros v; by apply quiet_durable|by left].
  - apply Hok.
  - by left.
  - eapply (kept_inv W _ G i X n n'); try done; [by apply (wo_hosts _ _ _ _ Hok)|by eapply wire_node_id].
  - by intros a ?%not_elem_of_nil.
Qed.

(** *** Requests *)

(** The requests a leader builds are ends of its log. *)
Lemma build_request_inv W G i n peer_id t r n' q :
  wire_ok cfg members W G → hosts (cluster_of W) !! i = Some (Up n) →
  is_u64 (default 0 (next_index_ (core n) !! peer_id)) → LastLogIndexLocked (core n) < u64_max →
  BuildAppendEntriesRequest peer_id t n = (r, n') → q ∈ requests_of r → request_inv G q.
Proof.
  intros Hok Hi Hnext Hmax Hb Hq. destruct r as [| |q']; try (by apply not_elem_of_nil in Hq).
  apply list_elem_of_singleton in Hq as ->.
  pose proof (wire_log_ok _ _ _ _ Hok Hi) as Hlog. pose proof (wire_up _ _ _ _ Hok Hi) as Hu.
  destruct (BuildRequest_entries _ _ _ _ _ Hlog Hmax Hnext Hb) as ([Hc _] & _ & Hin).
  destruct (BuildRequest_shape _ _ _ _ _ Hlog Hnext Hb)
    as (Hr & Ht & Htq & _ & (a & Ha & Hta) & _ & _).
  destruct (ui_leader _ _ _ _ Hu Hr) as ([Q Ho] & Hled & _). rewrite Ht, <- Htq in *.
  split; [by exists (i, Q)|]. set (p := Z.to_nat (areq_prev_log_index q')).
  assert (Hprev : 0 ≤ areq_prev_log_index q').
  { rewrite LogAtIndex_lookup in Ha by done. case_decide; [|done].
    rewrite (sound_boundary G) in * by (done || apply Hu). lia. }
  rewrite (sound_at G) in Ha by (done || apply Hu).
  (* the entries are where the log has them *)
  assert (Hat : ∀ j e, areq_entries q' !! j = Some e → log_ (core n) !! (S p + j)%nat = Some e).
  { intros j e He. pose proof (Hc _ _ He) as Hidx. pose proof (list_elem_of_lookup_2 _ _ _ He) as Hel.
    apply Hin in Hel. rewrite (sound_at G) in Hel by first [done|apply Hu|lia].
    rewrite <- Hel. f_equal. lia. }
  pose proof (take_S_length _ p _ Ha) as Hlen.
  set (l := take (S p + length (areq_entries q')) (log_ (core n))).
  assert (Hl : l = take (S p) (log_ (core n)) ++ areq_entries q').
  { unfold l. rewrite <- (take_drop (S p) (log_ (core n))) at 1.
    rewrite take_app_ge by lia. f_equal. rewrite Hlen. replace (S p + length (areq_entries q') - S p)%nat with (length (areq_entries q')) by lia.
    apply list_eq_same_length with (length (areq_entries q')); [done| |].
    - rewrite length_take, length_drop. destruct (last (areq_entries q')) as [e|] eqn:Hlast.
      + rewrite last_lookup in Hlast. pose proof (lookup_lt_Some _ _ _ Hlast).
        apply Hat, lookup_lt_Some in Hlast. lia.
      + apply last_None in Hlast. rewrite Hlast. simpl. lia.
    - intros j x y Hj Hx Hy. rewrite lookup_take_lt, lookup_drop in Hx by done.
      rewrite (Hat _ _ Hy) in Hx. congruence. }
  exists l, p, a. split_and!.
  - rewrite Hled. apply prefix_take.
  - rewrite Hl, lookup_app_l; [|lia].
    by rewrite lookup_take_lt by lia.
  - lia.
  - done.
  - rewrite Hl, drop_app_ge by lia. by rewrite Hlen, Nat.sub_diag.
Qed.

(** What an accepted request makes of a sound log: the log itself, which already goes on as
    the request's, or the request's. *)
Lemma request_merge G q c :
  history_ok G → request_inv G q → log_ok c → sound G (log_ c) → prev_matches q c →
  ∃ l', l' `prefix_of` led G (areq_term q) ∧ sound G l' ∧
    areq_prev_log_index q + Z.of_nat (length (areq_entries q)) = Z.of_nat (length l') - 1 ∧
    (merged_log q c = log_ c ∧ l' `prefix_of` log_ c ∨
     merged_log q c = l' ∧ (log_ c `prefix_of` l' ∨ ∃ j, fork j (log_ c) l')).
Proof.
  intros Hh ([x Hx] & l & p & a & Hl & Ha & Hp & Hta & Hes) Hlog Hs (Hlow & Hhas & Hterm).
  assert (Hsl : sound G l).
  { destruct Hl as [z Hz]. pose proof (led_sound _ Hh _ _ Hx) as Hled.
    rewrite Hz in Hled. replace l with (take (length l) (l ++ z)) by (by rewrite take_app_length).
    apply sound_take; [done|]. apply lookup_lt_Some in Ha. lia. }
  rewrite TermAtIndex_ok in Hterm by done. apply HasLog_LogAtIndex in Hhas as [a' Ha']; [|done].
  rewrite Ha' in Hterm. rewrite (sound_at G) in Ha' by (done || lia).
  replace (Z.to_nat (areq_prev_log_index q)) with p in Ha' by lia.
  exists l. split_and!; [done|done| |].
  - rewrite Hes, length_drop. apply lookup_lt_Some in Ha. lia.
  - unfold merged_log, prefix_size. rewrite (sound_boundary G) by done.
    replace (Z.to_nat (areq_prev_log_index q + 1 - 0)) with (S p) by lia. rewrite Hes.
    apply (merge_sound G (log_ c) l p a' a); congruence.
Qed.

(** What a successful answer acknowledges is in the log. *)
Lemma append_acknowledged G q n resp b n' k :
  history_ok G → request_inv G q → log_ok (core n) → sound G (log_ (core n)) →
  entries_ok (areq_prev_log_index q) (areq_entries q) →
  OnAppendEntriesLocked q n = ((resp, b), n') → aresp_success resp = true →
  current_term_ (core n) ≤ areq_term q ∧
  aresp_match_index resp < Z.of_nat (length (led G (areq_term q))) ∧
  ∀ r, Z.of_nat k ≤ aresp_match_index resp → led G (areq_term q) !! k = Some r →
    log_ (core n') !! k = Some r.
Proof.
  intros Hh Hq Hlog Hs He Hrun Hsucc.
  destruct (OnAppendEntries_effect _ _ _ _ _ Hrun) as [_ Heff].
  destruct (append_effect_well_formed _ _ _ _ _ Heff Hlog He) as [_ Hall].
  destruct (Hall Hsucc) as (Ht & Hp & Hl' & _ & _ & Hm).
  destruct (request_merge _ _ _ Hh Hq Hlog Hs Hp) as (l & Hl & _ & Hlen & Hor).
  rewrite Hm, Hlen. pose proof (prefix_length _ _ Hl). split_and!; [done|lia|].
  intros r Hk Hr. assert (Hlk : l !! k = Some r).
  { destruct (lookup_lt_is_Some_2 l k) as [y Hy]; [lia|].
    pose proof (prefix_lookup_Some _ _ _ _ Hy Hl). congruence. }
  rewrite Hl'. destruct Hor as [[-> Hpre]|[-> _]]; [|done]. by eapply prefix_lookup_Some.
Qed.

(** The log a request leaves is sound, of the node's terms, and holds what the log held. *)
Lemma append_log_sound W G j n q L t' :
  up_inv W G j n → history_ok G → request_inv G q → log_ok (core n) →
  current_term_ (core n) ≤ t' →
  L = log_ (core n) ∨ L = merged_log q (core n) ∧ prev_matches q (core n) ∧ t' = areq_term q →
  sound G L ∧ (∀ r, r ∈ L → term r ≤ t') ∧
  ∀ t k, entry G t k → t ≤ current_term_ (core n) →
    holds G (log_ (core n)) (current_term_ (core n)) t k → holds G L t' t k.
Proof.
  intros Hu Hh Hqi Hlog Hterm HL. pose proof (ui_log _ _ _ _ Hu) as Hs.
  destruct HL as [->|(-> & Hp & ->)].
  - split_and!; [done| |intros t k _ _; by apply holds_later].
    intros r Hr. destruct (ui_terms _ _ _ _ Hu _ Hr). lia.
  - destruct (request_merge _ _ _ Hh Hqi Hlog Hs Hp) as (l & Hl & Hls & _ & Hor). split_and!.
    + by destruct Hor as [[-> _]|[-> _]].
    + intros r Hr. destruct Hor as [[Hm _]|[Hm _]]; rewrite Hm in Hr.
      * destruct (ui_terms _ _ _ _ Hu _ Hr). lia.
      * apply (led_terms G Hh). destruct Hl as [z ->]. apply elem_of_app. by left.
    + intros t k Hk Hle. apply (holds_merged G (log_ (core n)) l); try done; [apply Hqi|lia|].
      destruct Hor as [[-> _]|[-> Hor]]; [by left|right]. done.
Qed.

(** A request reaches a node. *)
Lemma wire_ok_append W G j q n resp b n' :
  let W' := put W j n' [] [(j, areq_term q, resp)] in
  wire_ok cfg members W G → q ∈ sent (wire_net W) → hosts (cluster_of W) !! j = Some (Up n) →
  OnAppendEntriesLocked q n = ((resp, b), n') → net_ok cfg members (wire_net W') →
  wire_ok cfg members W' G.
Proof.
  intros W' Hok Hq Hj Hrun Hnet. pose proof (wo_history _ _ _ _ Hok) as Hh.
  pose proof (wo_sent _ _ _ _ Hok _ Hq) as Hqi. pose proof (no_sent _ _ _ (wo_net _ _ _ _ Hok) _ Hq) as He.
  pose proof (wire_log_ok _ _ _ _ Hok Hj) as Hlog. pose proof (wire_up _ _ _ _ Hok Hj) as Hu.
  assert (Hack := λ k, append_acknowledged G q n resp b n' k Hh Hqi Hlog (ui_log _ _ _ _ Hu) He Hrun).
  assert (Hnewacc : ∀ a t k, accepted W' G a t k → accepted W G a t k ∨
    a = j ∧ t = areq_term q ∧ aresp_success resp = true ∧ Z.of_nat k ≤ aresp_match_index resp).
  { intros a t k [Hk [(rs & Hin & Hsucc & Hle)|Ho]]; [|left; by split; [|right]].
    apply elem_of_app in Hin as [[= -> -> ->]%list_elem_of_singleton|Hin]; [by right|left].
    split; [done|]. left. by exists rs. }
  assert (Hup : update W G G j (Up n) (Up n') (elections (cluster_of W)) [] [(j, areq_term q, resp)]).
  { apply update_same; [done| |].
    - intros v. apply quiet_durable. pose proof (quiet_OnAppendEntries recovered q n) as Hquiet.
      by rewrite Hrun in Hquiet.
    - intros a t k Ha. destruct (Hnewacc _ _ _ Ha) as [|(-> & -> & Hsucc & _)]; [by left|right].
      split; [done|]. intros v [Hv _]. destruct (Hack 0%nat Hsucc) as [Ht _].
      unfold hs_le, hs_of in Hv. cbn in Hv. lia. }
  apply (wire_ok_update cfg members W G G j _ _ _ _ _ Hup); try done.
  - by left.
  - intros el Hin. by apply (update_election cfg members W G G j _ _ _ _ _ Hup Hok el).
  - destruct (carried_OnAppendEntries recovered (λ _ _, False) q n Hlog He) as (L & Hca & HL).
    rewrite Hrun in Hca, HL. cbn [snd] in Hca, HL.
    destruct (append_log_sound W G j n q L _ Hu Hh Hqi Hlog (ca_term _ _ _ _ Hca)) as (HLs & HLt & HLh);
      [naive_solver|].
    eapply (carried_inv W W' G G j (λ _ _, False) L n n'); try done.
    + by apply (wo_hosts _ _ _ _ Hok).
    + by eapply wire_node_id.
    + intros a Ha. apply elem_of_app. by right.
    + intros _. by left.
    + intros ->. by right.
    + intros Hr ->. destruct HL as [->|(_ & _ & _ & Hr')]; [|congruence].
      by destruct Hca as [_ _ [->|[-> _]] _ _ _].
    + intros t k Ha. destruct (Hnewacc _ _ _ Ha) as [|(_ & -> & Hsucc & Hle)]; [by left|right].
      destruct (accepted_entry _ _ _ _ _ Ha) as (r & Hr & Htr). exists r. split; [|done].
      by apply (Hack k Hsucc).
  - by intros q' ?%not_elem_of_nil.
  - intros a ->%list_elem_of_singleton Hsucc. cbn [fst snd] in *. split; [apply Hqi|].
    by apply (Hack 0%nat Hsucc).
Qed.

(** An answer reaches the node that asked. *)
Lemma wire_ok_answer W G i p t target resp n :
  let W' := put W i (HandleAppendEntriesResponse p t target resp n).2 [] [] in
  wire_ok cfg members W G → (p, t, resp) ∈ answered W → hosts (cluster_of W) !! i = Some (Up n) →
  net_ok cfg members (wire_net W') → wire_ok cfg members W' G.
Proof.
  intros W' Hok Ha Hi Hnet.
  eapply (wire_ok_kept W G i n _ [] (raises p t resp n) (elections (cluster_of W))); try done.
  - apply (quiet_Handle recovered).
  - apply (kept_Handle recovered).
  - intros el Hin. eapply election_inv_answers; [|by apply (wo_elections _ _ _ _ Hok)]. done.
  - intros _ p' m (-> & Ht & Hs & [->| ->]); [right|by left]. exists resp. by rewrite Ht.
  - by intros q ?%not_elem_of_nil.
Qed.

(** *** The leader's own entries *)

(** The history after a leader's record [x]: the leader has it in memory, or nowhere but
    perhaps on its own disk. *)
Definition led_on G G' t (l l' : list LogRecord) (x : LogRecord) : Prop :=
  l' = l ++ [x] ∧ G' = extend G t (led G t ++ [x]) ∨ l' = l ∧ G' = G ∧ l' ≠ l ++ [x].

Lemma led_on_exists G t l l' x : l' = l ++ [x] ∨ l' = l → ∃ G', led_on G G' t l l' x.
Proof.
  destruct (decide (l' = l ++ [x])) as [->|Hne]; intros Hl; [by eexists; left|].
  destruct Hl as [|Hl]; [done|]. exists G. by right.
Qed.

Lemma led_on_ok G G' t i Q l l' x :
  history_ok G → office G t = Some (i, Q) → led G t = l → term x = t → contiguous 0 (l ++ [x]) →
  led_on G G' t l l' x →
  grows G G' ∧ history_ok G' ∧ stood G' = stood G ∧ office G' = office G ∧
  (∀ u, led G' u = led G u ∨ u = t) ∧ led G' t = l' ∧ (l' = l ++ [x] → sound G' (l ++ [x])).
Proof.
  intros Hh Ho Hled Hx Hc [[-> ->]|(-> & -> & Hne)]; [|split_and!; try done; by left].
  assert (Hh' : history_ok (extend G t (led G t ++ [x]))) by (eapply extend_ok; [done..|by rewrite Hled]).
  assert (Hlt : led (extend G t (led G t ++ [x])) t = l ++ [x]) by (cbn; by rewrite decide_True, Hled).
  split_and!; [|done|done|done| |done|].
  - apply extend_grows. by exists [x].
  - intros u. cbn. case_decide; [by right|by left].
  - intros _. rewrite <- Hlt. by apply (led_sound _ Hh' t (i, Q)).
Qed.

(** What the leader itself is left with. *)
Lemma entry_host W W' G G' i Q n n' x :
  let t := current_term_ (core n) in
  wire_ok cfg members W G → hosts (cluster_of W) !! i = Some (Up n) → office G t = Some (i, Q) →
  led G t = log_ (core n) → carried (λ _ _, False) (log_ (core n) ++ [x]) n n' → term x = t →
  current_term_ (core n') = t → contiguous 0 (log_ (core n) ++ [x]) → answered W' = answered W →
  led_on G G' t (log_ (core n)) (log_ (core n')) x →
  (∀ u k, accepted W' G' i u k → accepted W G i u k ∨ u = t ∧ log_ (core n') !! k = Some x) →
  host_inv W' G' i (Up n').
Proof.
  intros t Hok Hi Ho Hled Hca Hx Hterm Hc Hans Hon Hacc.
  pose proof (wire_up _ _ _ _ Hok Hi) as Hu.
  destruct (led_on_ok G G' t i Q _ _ x (wo_history _ _ _ _ Hok) Ho Hled Hx Hc Hon)
    as (Hg & Hh' & Hst & Hoff & _ & Hled' & HLs).
  eapply (carried_inv W W' G G' i (λ _ _, False) (log_ (core n) ++ [x]) n n'); try done.
  - by apply (wo_hosts _ _ _ _ Hok).
  - by eapply wire_node_id.
  - by intros v; rewrite Hst.
  - by rewrite Hans.
  - intros Hv. destruct Hon as [[Hl _]|(_ & -> & _)]; [left; by apply HLs|right].
    rewrite Hv. exists x, Q. cbn. rewrite Hterm. by rewrite Hled.
  - intros Hv Htent. rewrite Hv. destruct Hon as [[Hl _]|(_ & -> & _)]; [left|by right].
    destruct (ca_log _ _ _ _ Hca) as [Hk|[_ Hv']]; [|rewrite <- Hv, Hv'; by apply HLs].
    rewrite Hk in Hl. apply (f_equal length) in Hl. rewrite length_app in Hl. simpl in Hl. lia.
  - intros r [Hin| ->%list_elem_of_singleton]%elem_of_app; [|lia].
    destruct (ui_terms _ _ _ _ Hu _ Hin). lia.
  - intros u k _ _ Hk. rewrite Hterm. eapply holds_prefix; [|exact Hk]. by exists [x].
  - intros u k Ha. destruct (Hacc u k Ha) as [|(-> & Hk)]; [by left|right]. by exists x.
Qed.

(** Only the leader has accepted the new record. *)
Lemma extend_accepted W W' G t x i Q a u k :
  wire_ok cfg members W G → answered W' = answered W → office G t = Some (i, Q) →
  accepted W' (extend G t (led G t ++ [x])) a u k →
  accepted W G a u k ∨ a = i ∧ u = t ∧ k = length (led G t).
Proof.
  intros Hok Hans Ho [(r & Hr & Htr) Hor]. rewrite Hans in Hor. cbn in Hr, Hor.
  assert (Hcase : entry G u k ∨ u = t ∧ k = length (led G t)).
  { case_decide as Hd; [subst u|left; by exists r].
    apply lookup_app_Some in Hr as [Hr|[Hk Hr]]; [left; by exists r|right].
    split; [done|]. apply list_lookup_singleton_Some in Hr as [? _]. lia. }
  destruct Hcase as [Hk|[-> ->]]; [by left|right].
  destruct Hor as [(resp & Hin & Hs & Hle)|[Q' Ho']].
  - destruct (wo_answered _ _ _ _ Hok _ Hin Hs) as [_ Hm]. cbn in Hm. lia.
  - rewrite Ho in Ho'. naive_solver.
Qed.

Lemma entry_contiguous G i W n data :
  up_inv W G i n → log_ok (core n) → contiguous 0 (log_ (core n) ++ [new_record data (core n)]).
Proof.
  intros Hu Hlog. apply contiguous_app. split; [apply (ui_log _ _ _ _ Hu)|].
  apply contiguous_cons. split; [|apply contiguous_nil]. cbn.
  rewrite LastLogIndex_ok, (sound_boundary G) by first [done|apply (ui_log _ _ _ _ Hu)]. lia.
Qed.

Lemma wire_ok_entry W G i n n' data :
  let W' := put W i n' [] [] in
  wire_ok cfg members W G → hosts (cluster_of W) !! i = Some (Up n) → role_ (core n) = kLeader →
  quiet n n' → carried (λ _ _, False) (log_ (core n) ++ [new_record data (core n)]) n n' →
  (current_term_ (core n') = current_term_ (core n)) →
  net_ok cfg members (wire_net W') → ∃ G', wire_ok cfg members W' G' ∧ grows G G'.
Proof.
  intros W' Hok Hi Hr Hq Hca Hterm Hnet. pose proof (wo_history _ _ _ _ Hok) as Hh.
  pose proof (wire_log_ok _ _ _ _ Hok Hi) as Hlog. pose proof (wire_up _ _ _ _ Hok Hi) as Hu.
  destruct (ui_leader _ _ _ _ Hu Hr) as ([Q Ho] & Hled & _).
  pose proof (entry_contiguous _ _ _ _ data Hu Hlog) as Hc.
  set (x := new_record data (core n)) in *. set (t := current_term_ (core n)) in *.
  destruct (led_on_exists G t (log_ (core n)) (log_ (core n')) x) as [G' Hon].
  { destruct (ca_log _ _ _ _ Hca) as [|[? _]]; auto. }
  destruct (led_on_ok G G' t i Q _ _ x Hh Ho Hled eq_refl Hc Hon)
    as (Hg & Hh' & Hst & Hoff & Hother & _).
  assert (Hacc : ∀ a u k, accepted W' G' a u k → accepted W G a u k ∨
            a = i ∧ u = t ∧ log_ (core n') !! k = Some x).
  { intros a u k Ha. destruct Hon as [[Hl ->]|(_ & -> & _)]; [|by left].
    destruct (extend_accepted W W' G t x i Q a u k Hok eq_refl Ho Ha) as [|(-> & -> & ->)]; [by left|right].
    split_and!; [done..|]. rewrite Hl, Hled. by apply list_lookup_middle. }
  assert (Hup : update W G G' i (Up n) (Up n') (elections (cluster_of W)) [] []).
  { split; [done|done| |by rewrite Hst| |intros v; by apply quiet_durable].
    - intros u. destruct (Hother u) as [| ->]; [by left|right]. exists Q. by rewrite Hoff.
    - intros a u k Ha. destruct (Hacc a u k Ha) as [|(-> & -> & _)]; [by left|right].
      split; [done|]. intros v [Hv _]. unfold hs_le, hs_of in Hv. cbn in Hv. lia. }
  exists G'. split; [|done]. apply (wire_ok_update cfg members W G G' i _ _ _ _ _ Hup); try done.
  - intros v j Q'. rewrite Hoff. by left.
  - intros el Hin. apply (update_election cfg members W G G' i _ _ _ _ _ Hup Hok el); try done.
    by rewrite Hst.
  - apply (entry_host W W' G G' i Q n n' x); try done.
    intros u k Ha. destruct (Hacc i u k Ha) as [|(_ & ? & ?)]; [by left|by right].
  - by intros q ?%not_elem_of_nil.
  - by intros a ?%not_elem_of_nil.
Qed.

(** A step of a node on its own account. *)
Lemma wire_ok_own W G i n n' new :
  let W' := put W i n' new [] in
  wire_ok cfg members W G → hosts (cluster_of W) !! i = Some (Up n) → own_step n n' new →
  net_ok cfg members (wire_net W') → ∃ G', wire_ok cfg members W' G' ∧ grows G G'.
Proof.
  intros W' Hok Hi Hstep Hnet. pose proof (wire_log_ok _ _ _ _ Hok Hi) as Hlog.
  pose proof (local_step_quiet recovered _ _ (repl_step_local _ _ _ _ (own_step_repl [] _ _ _ Hstep))) as Hq.
  assert (Hgo : kept (λ _ _, False) n n' → (∀ q, q ∈ new → request_inv G q) →
    ∃ G', wire_ok cfg members W' G' ∧ grows G G').
  { intros Hk Hnew. exists G. split; [|done].
    apply (wire_ok_kept W G i n n' new (λ _ _, False) (elections (cluster_of W))); try done.
    intros el Hin. by eapply election_inv_answers; [|apply (wo_elections _ _ _ _ Hok)]. }
  destruct Hstep as [p t n r n' Hnext Hmax Hb|cmd n Hmax|n Hr Hmax| | | | | | | |];
    try (apply Hgo; [|by intros q ?%not_elem_of_nil];
         first [apply (kept_ApplyIteration recovered)|apply (kept_AdvanceCommit recovered)
               |apply (kept_steady recovered), (steady_OnHeartbeatTimer recovered)|apply (kept_steady recovered), (steady_OnSnapshotTimer recovered)|apply (kept_steady recovered), (steady_Stop recovered)
               |by apply kept_same]).
  - apply Hgo; [|intros q Hq'; by eapply build_request_inv].
    pose proof (kept_steady recovered (λ _ _, False) _ _ (steady_BuildRequest recovered p t n)) as Hk. by rewrite Hb in Hk.
  - destruct (carried_ProposeLocked recovered (λ _ _, False) cmd n Hlog Hmax)
      as (L & Hca & [->|(Hr & -> & Ht)]); [apply Hgo; [done|by intros q ?%not_elem_of_nil]|].
    by apply (wire_ok_entry W G i n _ (Serialize cmd)).
  - apply (wire_ok_entry W G i n _ kInternalNoOpCommand); try done.
    + by apply (carried_AppendLocalLog recovered).
    + by apply AppendLocalLog_term.
Qed.
End local.
