(* ===== verification/Offices.v ===== *)
(** The invariant of Wire over the life cycle and the elections: a node boots from its disk
    or dies, stands for election, votes, counts its votes, and takes office. *)
From S2P Require Import Prelude Command Types Timer Metrics Env Sim Node SimNode.
From S2P Require Import NodeLog Election AppendEntries Bytes Fs StateMachine Commit.
From S2P Require Import Replicator Propose SnapshotNode Steady Votes Links Cluster LogMatching.
From S2P Require Import Carry Histories Wire Completeness.

Section control.
Context {SM E : Type} `{HostEnv E, IRaftStorage E, ISnapshotStorage E, !IStateMachine SM E}.
Context (recovered : PersistentRaftState → PersistentRaftState).
Context `{!StorageLaws E recovered, !RecoveredLog recovered, !DiskFrames SM E, !SnapshotIndices E}.
Context (cfg : Z → NodeConfig) (scfg : Z → snapshotConfig) (sm0 : Z → SM) (members : gset Z).
Context (Hdep : deployment members cfg) (Hsnap : ∀ i, enabled (scfg i) = false).
Implicit Types (n : Node SM E) (W : Wire SM E) (h : Host SM E) (G : History).

(** Offices stay open. *)
Lemma opened_control (C C' : Cluster SM E) t :
  control_step cfg scfg sm0 C C' → opened C t → opened C' t.
Proof.
  intros Hstep.
  destruct Hstep as [| | |C p el before j request after n resp n' Hk
    |C p el before j resp after n go n' Hk|C p el n go n' Hk]; try done.
  - intros (el & Hin & Ht & Hw & Hd). eexists. split; [by apply list_elem_of_fmap_2|].
    by case_decide.
  - intros (el & Hin & Hrest). exists el. split; [apply elem_of_app; by left|done].
  - by eapply (opened_insert _ _ p el).
  - eapply (opened_insert _ _ p el); [done|done|..].
    + destruct (count_reply_won el j resp go (before ++ after)) as [Hv _]. by injection Hv.
    + intros Hw Hd. split; [by apply count_reply_won|by rewrite count_reply_due].
  - by eapply (opened_insert _ _ p el).
Qed.

(** *** Restart and crash *)

(** A node that starts from its disk. *)
Lemma boot_inv W G i e n e' :
  host_inv W G i (Down e) → e' = env_ n → log_ (core n) = (disk_view e).2 →
  (disk_view e).1 ≤ current_term_ (core n) → role_ (core n) = kFollower →
  disk_view e' = disk_view e ∨
    (∃ t, (disk_view e).1 ≤ t ∧ disk_view e' = (t, (disk_view e).2)) →
  host_inv W G i (Up n).
Proof.
  intros [[Hs|[[? [=]] _]] Htd Hhd _] -> Hl Ht Hr Hv. unfold host_view in *. cbn [host_env] in *.
  assert (Hv2 : (disk_view (env_ n)).2 = (disk_view e).2 ∧ (disk_view e).1 ≤ (disk_view (env_ n)).1).
  { destruct Hv as [->|(t & ? & ->)]; cbn; split; (done || lia). }
  destruct Hv2 as [Hv2 Hv1].
  split; unfold host_view; cbn [host_env]; rewrite ?Hv2.
  - by left.
  - intros r Hr'%Htd. lia.
  - intros t k Ha. destruct (Hhd _ _ Ha). split; [lia|by eapply holds_later].
  - intros ? [= <-]. split; rewrite ?Hl, ?Hv2, ?Hr; try done.
    + intros r Hr'%Htd. lia.
    + intros t k Ha. destruct (Hhd _ _ Ha). split; [lia|by eapply holds_later].
    + intros k r Hk. by eapply sound_holds.
Qed.

(** One that fails to. *)
Lemma down_inv W G i e e' :
  host_inv W G i (Down (SM := SM) e) →
  disk_view e' = disk_view e ∨
    (∃ t, (disk_view e).1 ≤ t ∧ disk_view e' = (t, (disk_view e).2)) →
  host_inv W G i (Down (SM := SM) e').
Proof.
  intros [[Hs|[[? [=]] _]] Htd Hhd _] Hv. unfold host_view in *. cbn [host_env] in *.
  split; unfold host_view; cbn [host_env]; [left|..|done];
    destruct Hv as [->|(t & ? & ->)]; try done; cbn [fst snd].
  - intros r Hr'%Htd. lia.
  - intros t' k Ha. destruct (Hhd _ _ Ha). split; [lia|by eapply holds_later].
Qed.

Lemma wire_ok_boot W G i e r e' :
  let h' := match r with inr n => Up (Start true n).2 | inl _ => Down e' end in
  let W' := mkWire (updated (wire_net W) i h' (elections (cluster_of W)) []) (answered W) in
  wire_ok cfg members W G → hosts (cluster_of W) !! i = Some (Down e) →
  RaftNode_new (cfg i) (scfg i) (sm0 i) e = (r, e') →
  net_ok cfg members (wire_net W') → wire_ok cfg members W' G.
Proof.
  intros h' W' Hok Hi Hnew Hnet. pose proof (no_hosts _ _ _ (wo_net _ _ _ _ Hok) _ _ Hi) as Hwf. cbn in Hwf.
  pose proof (wo_hosts _ _ _ _ Hok _ _ Hi) as Hhi.
  destruct (RaftNode_new_carry recovered _ _ _ _ _ _ (Hsnap i) Hnew Hwf) as [Hv Hn].
  destruct (RaftNode_new_durable recovered _ _ _ _ _ _ Hnew) as [Hdisk Hdn].
  destruct (co_hosts _ _ _ (no_cluster _ _ _ (wo_net _ _ _ _ Hok)) _ _ Hi) as [Hmem _].
  assert (Hup : update W G G i (Down e) h' (elections (cluster_of W)) [] []).
  { apply update_same; [done| |by left]. unfold h'. intros v Hdv. destruct r as [m|n]; [by apply Hdisk|].
    eapply quiet_durable; [apply (quiet_steady recovered), (steady_Start recovered)|]. by apply Hdn. }
  apply (wire_ok_update cfg members W G G i _ _ _ _ _ Hup); try done.
  - apply Hok.
  - by left.
  - intros el Hin. by apply (update_election cfg members W G G i _ _ _ _ _ Hup Hok el).
  - unfold h'. destruct r as [m|n].
    + eapply down_inv; [|exact Hv]. destruct Hhi. by split.
    + destruct (Hn n eq_refl) as (He & Hl & Ht & Hr). destruct (Hdn n eq_refl) as (_ & _ & Hid & _).
      apply (kept_inv W W' G i (λ _ _, False) n); try done.
      * by apply (boot_inv W G i e n e').
      * apply (kept_steady recovered), (steady_Start recovered).
      * rewrite Hid. by apply Hdep.
  - by intros q ?%not_elem_of_nil.
  - by intros a ?%not_elem_of_nil.
Qed.

(** Dead elections keep their votes. *)
Definition bury (i : Z) (el : Election) : Election :=
  if decide (el_candidate el = i) then el <| el_alive := false |> else el.

Lemma bury_same i el :
  el_vote (bury i el) = el_vote el ∧ el_requests (bury i el) = el_requests el ∧
  ∀ j, cast (bury i el) j → cast el j.
Proof. unfold bury. by case_decide. Qed.

(** The process dies; what its last write left becomes its log. *)
Lemma wire_ok_crash W G i n :
  let W' := mkWire (updated (wire_net W) i (Down (env_ n)) (bury i <$> elections (cluster_of W)) [])
              (answered W) in
  wire_ok cfg members W G → hosts (cluster_of W) !! i = Some (Up n) →
  (∀ t, opened (cluster_of W) t → opened (cluster_of W') t) →
  net_ok cfg members (wire_net W') → ∃ G', wire_ok cfg members W' G' ∧ grows G G'.
Proof.
  intros W' Hok Hi Hop Hnet. pose proof (wo_history _ _ _ _ Hok) as Hh.
  pose proof (wo_hosts _ _ _ _ Hok _ _ Hi) as [Hd Htd Hhd _]. unfold host_view in *. cbn [host_env] in *.
  set (v := disk_view (env_ n)) in *.
  assert (Hcase : ∃ G', grows G G' ∧ history_ok G' ∧ stood G' = stood G ∧ office G' = office G ∧
    sound G' v.2 ∧ (∀ u, led G' u = led G u ∨ ∃ Q, office G' u = Some (i, Q)) ∧
    ∀ a u k, accepted W' G' a u k → accepted W G a u k ∨
      a = i ∧ u = v.1 ∧ ∃ r, v.2 !! k = Some r ∧ term r = u).
  { destruct Hd as [Hs|(_ & x & Q & Ho & Hv2 & Hx & Hc)].
    - exists G. split_and!; try done; [by left|by left].
    - rewrite Hv2 in Hc. pose proof (extend_ok G _ x i Q Hh Ho Hx Hc) as Hh'.
      exists (extend G v.1 (led G v.1 ++ [x])).
      split_and!; [apply extend_grows; by exists [x]|done|done|done| | |].
      + replace v.2 with (led (extend G v.1 (led G v.1 ++ [x])) v.1); [by apply (led_sound _ Hh' _ (i, Q))|].
        cbn. by rewrite decide_True, Hv2 by done.
      + intros u. cbn. case_decide; [right; subst; by exists Q|by left].
      + intros a u k Ha.
        destruct (extend_accepted _ _ W W' G _ x i Q a u k Hok eq_refl Ho Ha) as [|(-> & -> & ->)]; [by left|right].
        split_and!; [done..|]. exists x. rewrite Hv2. split; [by apply list_lookup_middle|done]. }
  destruct Hcase as (G' & Hg & Hh' & Hst & Hoff & Hs & Hled & Hacc). exists G'. split; [|done].
  assert (Hup : update W G G' i (Up n) (Down (env_ n)) (bury i <$> elections (cluster_of W)) [] []).
  { split; [done|done|done|by rewrite Hst| |by intros w []]. intros a u k Ha.
    destruct (Hacc _ _ _ Ha) as [|(-> & -> & _)]; [by left|right]. split; [done|].
    intros w [_ (hs & Hhs & Hle)]. unfold disk_hs in Hhs. unfold v, disk_view.
    destruct (disk_state (env_ n)); [|done]. cbn in Hhs |- *. injection Hhs as <-.
    unfold hs_le in Hle. cbn in Hle. lia. }
  apply (wire_ok_update cfg members W G G' i _ _ _ _ _ Hup); try done.
  - intros w j Q. rewrite Hoff. by left.
  - intros el' (el & -> & Hin)%list_elem_of_fmap. destruct (bury_same i el) as (Hv' & Hr & Hc).
    apply (update_election cfg members W G G' i _ _ _ _ _ Hup Hok el); try done; [by rewrite Hst|by rewrite Hr].
  - split; unfold host_view; cbn [host_env]; fold v; [by left|done| |done].
    intros u k Ha. destruct (Hacc _ _ _ Ha) as [Hold|(_ & -> & r & Hr & Htr)].
    + destruct (Hhd _ _ Hold). split; [done|]. eapply holds_grows; [done|by eapply accepted_entry|done].
    + split; [done|]. rewrite <- Htr. by apply sound_holds.
  - by intros q ?%not_elem_of_nil.
  - by intros a ?%not_elem_of_nil.
Qed.

(** *** Standing for election *)

(** Whoever votes for itself in a new term leads no such term. *)
Lemma new_term_free W G i n t :
  wire_ok cfg members W G → hosts (cluster_of W) !! i = Some (Up n) →
  current_term_ (core n) < t → (∀ Q, office G t ≠ Some (i, Q)) ∧
  ∀ el, el ∈ elections (cluster_of W) → el_vote el ≠ (t, i).
Proof.
  intros Hok Hi Ht.
  assert (Hno : ∀ v, voted (cluster_of W) i v → v.1 < t).
  { intros v (hi & Hhi & Hd). rewrite Hi in Hhi. injection Hhi as <-. destruct Hd as [Hd _].
    unfold hs_le, hs_of in Hd. cbn in Hd. lia. }
  split.
  - intros Q Ho. destruct (wo_office _ _ _ _ Hok _ _ _ Ho) as (_ & HiQ & _ & Hv & _).
    specialize (Hno _ (Hv _ HiQ)). cbn in Hno. lia.
  - intros el Hin Hv. pose proof Hv as [= Hte Hce].
    assert (Hc : voted (cluster_of W) i (el_vote el)).
    { apply (co_cast _ _ _ (no_cluster _ _ _ (wo_net _ _ _ _ Hok))); [done|left; done]. }
    specialize (Hno _ Hc). rewrite Hv in Hno. cbn in Hno. lia.
Qed.

Lemma stands_inv W W' G i n n' :
  let G' := stand G (current_term_ (core n) + 1) i (log_ (core n)) in
  host_inv W G i (Up n) → stands n n' → grows G G' → answered W' = answered W →
  host_inv W' G' i (Up n').
Proof.
  intros G' Hhi (_ & Hr & Hl & Ht & Hv) Hg Hans.
  destruct Hhi as [_ _ _ Hup]. destruct (Hup n eq_refl) as [Hs Hts Hho _ _ _].
  assert (Hs' : sound G' (log_ (core n))) by (by eapply sound_grows).
  assert (Hacc : ∀ t k, accepted W' G' i t k → accepted W G i t k)
    by (intros t k; unfold accepted; by rewrite Hans).
  assert (Hho' : ∀ t k, accepted W' G' i t k → t ≤ current_term_ (core n) + 1 ∧
            holds G' (log_ (core n)) (current_term_ (core n) + 1) t k).
  { intros t k Ha%Hacc. destruct (Hho _ _ Ha) as [? Hh]. split; [lia|].
    eapply holds_grows; [done|by eapply accepted_entry|]. eapply holds_later; [|exact Hh]. lia. }
  split; unfold host_view; cbn [host_env]; rewrite ?Hv; cbn [fst snd].
  - by left.
  - intros r Hr'. destruct (Hts _ Hr'). lia.
  - done.
  - intros ? [= <-]. split; rewrite ?Hl, ?Ht, ?Hv, ?Hr; cbn [fst snd]; try done.
    + intros r Hr'. destruct (Hts _ Hr'). lia.
    + intros k r Hk. by eapply sound_holds.
    + intros _. cbn. by rewrite decide_True.
Qed.

(** The candidate's own vote, and the requests that describe its log. *)
Lemma new_election_inv W W' G i n t q requests el :
  let G' := stand G t i (log_ (core n)) in
  host_inv W G i (Up n) → grows G G' → answered W' = answered W →
  t = current_term_ (core n) + 1 → 0 < t →
  (∀ j request, (j, request) ∈ requests →
     vreq_last_log_index request = LastLogIndexLocked (core n) ∧
     vreq_last_log_term request = LastLogTermLocked (core n)) →
  history_ok G → el_vote el = (t, i) → el_requests el = requests → el_replies el = [] →
  el_granted el = [] → el_quorum el = q → election_inv W' G' el.
Proof.
  intros G' Hhi Hg Hans Ht Hpos Hreq Hh Hv Hrq Hrep Hgr _.
  destruct (hi_up _ _ _ _ Hhi n eq_refl) as [Hs Hts Hho _ _ _].
  assert (Hst : stood G' (el_vote el) = log_ (core n)) by (cbn; by rewrite decide_True).
  pose proof Hv as [= Hte Hce]. split; rewrite ?Hst, ?Hte.
  - done.
  - split; [by eapply sound_grows|]. intros r Hr. destruct (Hts _ Hr). lia.
  - intros j request Hin. rewrite Hrq in Hin. destruct (Hreq _ _ Hin) as [Hi' Ht'].
    destruct (sound_nonempty _ _ Hs) as [r Hr]. destruct (sound_last_of _ _ _ Hs Hr) as [Hlt Hli].
    exists r. split; [done|]. by rewrite Ht', Hi'.
  - intros _ voters Hvot a u k Ha Hacc Hlt. destruct (Hvot a Ha) as [->|[Hin|(? & Hin & _)]];
      [|rewrite Hgr in Hin; by apply not_elem_of_nil in Hin|rewrite Hrep in Hin; by apply not_elem_of_nil in Hin].
    rewrite Hce in Hacc. assert (Hacc' : accepted W G i u k) by (revert Hacc; unfold accepted; by rewrite Hans).
    destruct (Hho _ _ Hacc') as [_ [Hp|(w & Hw & Hl)]].
    + left. apply (prefix_reaches G Hh); [done|by eapply accepted_entry|done].
    + right. exists w. split; [lia|]. eapply lacks_grows; [done|by eapply accepted_entry|done].
Qed.

Lemma wire_ok_timeout W G i n g r n' :
  let els := elections (cluster_of W) ++ new_election r n' in
  let W' := mkWire (updated (wire_net W) i (Up n') els []) (answered W) in
  wire_ok cfg members W G → hosts (cluster_of W) !! i = Some (Up n) →
  0 ≤ current_term_ (core n) < u64_max → OnElectionTimeout g n = (r, n') →
  (∀ t, opened (cluster_of W) t → opened (cluster_of W') t) →
  net_ok cfg members (wire_net W') → ∃ G', wire_ok cfg members W' G' ∧ grows G G'.
Proof.
  intros els W' Hok Hi Ht Hrun Hop Hnet. pose proof (wo_history _ _ _ _ Hok) as Hh.
  destruct (OnElectionTimeout_spec recovered _ _ _ _ Hrun Ht) as [Hq _].
  pose proof (wo_hosts _ _ _ _ Hok _ _ Hi) as Hhi.
  destruct (OnElectionTimeout_carry recovered (λ _ _, False) _ _ _ _ Hrun Ht) as [[-> Hk]|[Hst Hr]].
  { exists G. split; [|done]. apply (wire_ok_kept cfg members W G i n n' [] (λ _ _, False) els); try done.
    - intros el. unfold els. cbn [new_election]. rewrite app_nil_r. intros Hin.
      by eapply election_inv_answers; [|apply (wo_elections _ _ _ _ Hok)].
    - by intros q ?%not_elem_of_nil. }
  set (t := current_term_ (core n) + 1) in *.
  destruct (new_term_free W G i n t Hok Hi ltac:(lia)) as [Hfree Hels].
  set (G' := stand G t i (log_ (core n))).
  pose proof (stand_grows G t i (log_ (core n)) Hfree) as Hg. fold G' in Hg.
  assert (Hup : update W G G' i (Up n) (Up n') els [] []).
  { split; [done|done|by left| |by left|intros v; by apply quiet_durable].
    intros u j Hj. cbn. rewrite decide_False; [done|]. congruence. }
  assert (Hid : node_id (config_ n') = i) by (rewrite (q_config _ _ Hq); by eapply wire_node_id).
  exists G'. split; [|done]. apply (wire_ok_update cfg members W G G' i _ _ _ _ _ Hup); try done.
  - by apply stand_ok.
  - by left.
  - intros el [Hin|Hin]%elem_of_app.
    + apply (update_election cfg members W G G' i _ _ _ _ _ Hup Hok el); try done.
      cbn. rewrite decide_False; [done|]. by apply Hels.
    + destruct Hr as [->|(requests & -> & Hreq)]; apply list_elem_of_singleton in Hin as ->;
        (eapply (new_election_inv W _ G i n t _ _); [done|done|done|done|lia|..]); try done;
        try (unfold el_vote; cbn; by rewrite Hid).
      intros j request. by intros ?%not_elem_of_nil.
  - by apply (stands_inv W _ G i n n').
  - by intros q ?%not_elem_of_nil.
  - by intros a ?%not_elem_of_nil.
Qed.

(** *** Votes *)

(** A granted vote went to a log that reaches what the voter has accepted. *)
Lemma grant_inv W G j n request resp n' t i l u k :
  wire_ok cfg members W G → hosts (cluster_of W) !! j = Some (Up n) →
  OnRequestVote request n = (resp, n') → vresp_vote_granted resp = true →
  (vreq_term request, vreq_candidate_id request) = (t, i) → office G t = None →
  sound G l → describes request l → accepted W G j u k → u < t →
  reaches l u k ∨ ∃ w, w < t ∧ lacks G u k w.
Proof.
  intros Hok Hj Hrun Hg [= <- <-] Hno Hl Hdes Hacc Hlt.
  pose proof (wire_up _ _ _ _ _ _ Hok Hj) as Hu. pose proof (ui_log _ _ _ _ Hu) as Hs.
  destruct (OnRequestVote_core request n) as (followed & persisted & Hcore).
  rewrite Hrun in Hcore. cbn [fst snd] in Hcore.
  destruct (vote_core_grant _ _ _ _ _ _ Hcore Hg) as (c1 & _ & _ & _ & _ & Hle & Hcmp).
  destruct (ui_holds _ _ _ _ Hu _ _ Hacc) as [_ [Hp|(w & Hw & Hlk)]].
  - left. apply (grant_reaches G (core n) l request); try done.
    apply (prefix_reaches G (wo_history _ _ _ _ Hok)); [done|by eapply accepted_entry|done].
  - right. exists w. split; [|done]. unfold hs_le, hs_of in Hle. cbn in Hle.
    assert (w ≠ vreq_term request) by (intros ->; destruct Hlk as [[x Hx] _]; congruence). lia.
Qed.

Lemma elections_insert_inv W W' G p el' (els : list Election) :
  answered W' = answered W → wire_ok cfg members W G → els = elections (cluster_of W) →
  election_inv W' G el' → ∀ e, e ∈ <[p := el']> els → election_inv W' G e.
Proof.
  intros Hans Hok -> Hel e [->|He]%elections_insert; [done|].
  eapply election_inv_answers; [done|by apply (wo_elections _ _ _ _ Hok)].
Qed.

Lemma wire_ok_vote W G j n n' p el before request after resp :
  let el' := el <| el_requests := before ++ after |> <| el_replies ::= cons (j, resp) |> in
  let W' := mkWire (updated (wire_net W) j (Up n') (<[p := el']> (elections (cluster_of W))) [])
              (answered W) in
  wire_ok cfg members W G → hosts (cluster_of W) !! j = Some (Up n) →
  elections (cluster_of W) !! p = Some el → el_requests el = before ++ (j, request) :: after →
  OnRequestVote request n = (resp, n') →
  (∀ t, opened (cluster_of W) t → opened (cluster_of W') t) →
  net_ok cfg members (wire_net W') → wire_ok cfg members W' G.
Proof.
  intros el' W' Hok Hj Hp Hreq Hrun Hop Hnet. pose proof (list_elem_of_lookup_2 _ _ _ Hp) as Hin.
  pose proof (steady_OnRequestVote recovered request n) as Hsteady.
  pose proof (quiet_steady recovered _ _ Hsteady) as Hq.
  pose proof (kept_steady recovered (λ _ _, False) _ _ Hsteady) as Hk. rewrite Hrun in Hq, Hk.
  pose proof (wo_elections _ _ _ _ Hok _ Hin) as [Hpos Hst Hdes Hvot].
  assert (Hmine : (j, request) ∈ el_requests el) by (rewrite Hreq; apply elem_of_app; by right; left).
  apply (wire_ok_kept cfg members W G j n n' [] (λ _ _, False) (<[p := el']> (elections (cluster_of W)))); try done.
  - apply (elections_insert_inv W _ G p); try done. split; [done|done| |].
    + intros i rq Hrq. apply (Hdes i rq). change (el_requests el') with (before ++ after) in Hrq.
      rewrite Hreq. apply elem_of_app in Hrq as [?|?]; apply elem_of_app; [by left|by right; right].
    + intros Ho voters Hc a t k Ha Hacc Hlt.
      assert (Hacc' : accepted W G a t k) by exact Hacc.
      destruct (Hc a Ha) as [Hold|[Hold|(rs & Hrs & Hgr)]].
      * apply (Hvot Ho [a] ltac:(intros ? ->%list_elem_of_singleton; by left) a t k); [by left|done..].
      * apply (Hvot Ho [a] ltac:(intros ? ->%list_elem_of_singleton; by right; left) a t k); [by left|done..].
      * cbn in Hrs. apply elem_of_cons in Hrs as [[= -> ->]|Hrs].
        -- eapply (grant_inv W G j n request resp n' (el_term el) (el_candidate el)); try done.
           ++ by apply (eo_requests _ _ _ (co_elections _ _ _ (no_cluster _ _ _ (wo_net _ _ _ _ Hok)) _ Hin) j).
           ++ apply Hst.
           ++ by apply (Hdes j).
        -- apply (Hvot Ho [a]) with a; [|by left|done..].
           intros ? ->%list_elem_of_singleton. right. right. by exists rs.
  - by intros q ?%not_elem_of_nil.
Qed.

Lemma count_reply_requests el j resp go rest :
  el_requests (count_reply el j resp go rest) = el_requests el.
Proof.
  unfold count_reply, CountVote. destruct go; [|done]. destruct (vresp_vote_granted resp); [|done].
  cbn [negb]. by destruct (_ && _).
Qed.

Lemma wire_ok_reply W G n n' p el before j resp after go :
  let i := el_candidate el in
  let el' := count_reply el j resp go (before ++ after) in
  let W' := mkWire (updated (wire_net W) i (Up n') (<[p := el']> (elections (cluster_of W))) [])
              (answered W) in
  wire_ok cfg members W G → hosts (cluster_of W) !! i = Some (Up n) →
  elections (cluster_of W) !! p = Some el → el_replies el = before ++ (j, resp) :: after →
  OnVoteResponseLocked (el_term el) resp n = (go, n') →
  (∀ t, opened (cluster_of W) t → opened (cluster_of W') t) →
  net_ok cfg members (wire_net W') → wire_ok cfg members W' G.
Proof.
  intros i el' W' Hok Hi Hp Hrep Hrun Hop Hnet. pose proof (list_elem_of_lookup_2 _ _ _ Hp) as Hin.
  pose proof (steady_OnVoteResponse recovered (el_term el) resp n) as Hsteady.
  pose proof (quiet_steady recovered _ _ Hsteady) as Hq.
  pose proof (kept_steady recovered (λ _ _, False) _ _ Hsteady) as Hk.
  rewrite Hrun in Hq, Hk.
  destruct (count_reply_spec cfg scfg sm0 members el j resp go before after
              (co_elections _ _ _ (no_cluster _ _ _ (wo_net _ _ _ _ Hok)) _ Hin) Hrep)
    as (_ & Hv & _ & Hcast).
  pose proof (wo_elections _ _ _ _ Hok _ Hin) as [Hpos Hst Hdes Hvot].
  assert (Hte : el_term el' = el_term el) by (by injection Hv).
  apply (wire_ok_kept cfg members W G i n n' [] (λ _ _, False) (<[p := el']> (elections (cluster_of W)))); try done.
  - apply (elections_insert_inv W _ G p); try done. fold el' in Hv, Hcast.
    split; rewrite ?Hv, ?Hte; [done|done| |].
    + intros a rq. unfold el'. rewrite count_reply_requests. apply Hdes.
    + intros Ho voters Hc. apply (Hvot Ho). intros a Ha. by apply Hcast, Hc.
  - by intros q ?%not_elem_of_nil.
Qed.

(** *** Taking office *)

(** What is accepted after [i] has taken office was accepted. *)
Lemma install_accepted W W' G t i Q a u k :
  0 < t → office G t = None → (∀ r, r ∈ stood G (t, i) → term r < t) →
  answered W' = answered W → accepted W' (install G t i Q) a u k → accepted W G a u k.
Proof.
  intros Hpos Hno Hlow Hans [Hk Hor]. apply install_entry in Hk as [Hne Hk]; [|done].
  split; [done|]. rewrite Hans in Hor. cbn in Hor. by rewrite decide_False in Hor by done.
Qed.

(** A candidate that has lost its chance leads nothing. *)
Lemma wire_ok_lost W G n n' p el :
  let i := el_candidate el in
  let els := <[p := el <| el_due := false |>]> (elections (cluster_of W)) in
  let W' := mkWire (updated (wire_net W) i (Up n') els []) (answered W) in
  wire_ok cfg members W G → hosts (cluster_of W) !! i = Some (Up n) →
  elections (cluster_of W) !! p = Some el → config_ n' = config_ n → core n' = core n →
  env_ n' = env_ n → (∀ t, opened (cluster_of W) t → opened (cluster_of W') t) →
  net_ok cfg members (wire_net W') → wire_ok cfg members W' G.
Proof.
  intros i els W' Hok Hi Hp Hcfg Hcore Henv Hop Hnet.
  pose proof (wo_elections _ _ _ _ Hok _ (list_elem_of_lookup_2 _ _ _ Hp)) as Hel.
  apply (wire_ok_kept cfg members W G i n n' [] (λ _ _, False) els); try done.
  - apply quiet_same; [done|by rewrite Hcore|by rewrite Hcore|by rewrite Henv].
  - apply kept_same; rewrite ?Hcore, ?Henv; done.
  - apply (elections_insert_inv W _ G p); try done. eapply (election_inv_answers W); [done|].
    by destruct Hel.
  - by intros q ?%not_elem_of_nil.
Qed.

(** The new office: those who voted in the election, a majority. *)
Lemma won_office W G h h' p el :
  let i := el_candidate el in
  let t := el_term el in
  let els := <[p := el <| el_due := false |>]> (elections (cluster_of W)) in
  let W' := mkWire (updated (wire_net W) i h' els []) (answered W) in
  let G' := install G t i (voters el) in
  wire_ok cfg members W G → elections (cluster_of W) !! p = Some el → el_due el = true →
  office G t = None → update W G G' i h h' els [] [] →
  office_inv members W' G' t i (voters el).
Proof.
  intros i t els W' G' Hok Hp Hdue Hno Hup. pose proof (list_elem_of_lookup_2 _ _ _ Hp) as Hin.
  pose proof (no_cluster _ _ _ (wo_net _ _ _ _ Hok)) as Hc.
  pose proof (wo_elections _ _ _ _ Hok _ Hin) as Hel.
  destruct (voters_ok _ _ Hdep _ (co_elections _ _ _ Hc _ Hin)) as (Hnd & Hmem & Hmaj).
  assert (Hwon : el_won el = true) by (by apply (eo_due _ _ _ (co_elections _ _ _ Hc _ Hin))).
  assert (Hcast : ∀ a, a ∈ voters el → cast el a).
  { intros a [->|Ha]%elem_of_cons; [by left|by right; left]. }
  split_and!.
  - exists (el <| el_due := false |>). split_and!; [|done|done|done].
    apply (list_elem_of_lookup_2 _ p), list_lookup_insert_eq, (lookup_lt_Some _ _ _ Hp).
  - by left.
  - split_and!; [done|done|by apply Hmaj].
  - intros a Ha. apply (update_voted W G G' i _ _ _ _ _ Hup).
    apply (co_cast _ _ _ Hc el a Hin). by apply Hcast.
  - unfold G'. rewrite install_start_new. fold G'. intros a u k Ha Hacc' Hlt.
    assert (Hold : accepted W G a u k).
    { apply (install_accepted W W' G t i (voters el)); try done; apply Hel. }
    destruct (ei_voters _ _ _ Hel Hno (voters el) Hcast a u k Ha Hold Hlt)
      as [?|(w & Hw & Hl)]; [by left|right].
    exists w. split; [done|]. eapply lacks_grows; [apply Hup|by eapply accepted_entry|done].
Qed.

(** A leader starts with the log it stood with. *)
Lemma lead_inv W W' G i Q n n' :
  let t := current_term_ (core n) in let G' := install G t i Q in
  host_inv W G i (Up n) → grows G G' → (∀ r, r ∈ log_ (core n) → term r < t) →
  stood G (t, i) = log_ (core n) → answered W' = answered W → env_ n' = env_ n →
  leader_step (node_id (config_ n)) (core n) (core n') → node_id (config_ n) = i →
  (∀ p m, p ≠ i → match_index_ (core n') !! p = Some m → m = 0) →
  0 < t → office G t = None → host_inv W' G' i (Up n').
Proof.
  intros t G' [Hd Htd Hhd Hup] Hg Hlow Hst Hans He [Hr _ Ht _ Hl _ _ _ _] Hid Hm Hpos Hno.
  destruct (Hup n eq_refl) as [Hs Hts Hho Hsv _ _]. unfold host_view in *. cbn [host_env] in *.
  assert (Hlow' : ∀ r, r ∈ stood G (t, i) → term r < t) by (by rewrite Hst).
  assert (Hacc : ∀ u k, accepted W' G' i u k → accepted W G i u k)
    by (intros u k; by apply install_accepted).
  split; unfold host_view; cbn [host_env]; rewrite ?He; try done.
  - destruct Hd as [Hd|(_ & x & Q' & Ho & Hv & Hx)]; [left; by eapply sound_grows|right].
    split; [by exists n'|]. exists x, Q'. split; [by apply Hg|]. cbn.
    rewrite decide_False; [done|]. intros Heq. rewrite Heq in Ho. congruence.
  - intros u k Ha%Hacc. destruct (Hhd _ _ Ha). split; [done|].
    eapply holds_grows; [done|by eapply accepted_entry|done].
  - intros ? [= <-]. split; rewrite ?Hl, ?Ht, ?He; try done.
    + by eapply sound_grows.
    + intros u k Ha%Hacc. destruct (Hho _ _ Ha). split; [done|].
      eapply holds_grows; [done|by eapply accepted_entry|done].
    + intros k r Hk. eapply holds_grows; [done|by eapply sound_entry|by apply Hsv].
    + intros _. split_and!.
      * exists Q. cbn. by rewrite decide_True.
      * cbn. by rewrite decide_True.
      * intros p m Hp Hpm. left. by rewrite (Hm p m Hp Hpm).
Qed.

Lemma wire_ok_won W G n n' p el go :
  let i := el_candidate el in
  let els := <[p := el <| el_due := false |>]> (elections (cluster_of W)) in
  let W' := mkWire (updated (wire_net W) i (Up n') els []) (answered W) in
  wire_ok cfg members W G → hosts (cluster_of W) !! i = Some (Up n) →
  elections (cluster_of W) !! p = Some el → el_due el = true →
  OnElectionWonLocked (el_term el) n = (go, n') →
  (∀ t, opened (cluster_of W) t → opened (cluster_of W') t) →
  net_ok cfg members (wire_net W') → ∃ G', wire_ok cfg members W' G' ∧ grows G G'.
Proof.
  intros i els W' Hok Hi Hp Hdue Hrun Hop Hnet. pose proof (list_elem_of_lookup_2 _ _ _ Hp) as Hin.
  pose proof (wo_elections _ _ _ _ Hok _ Hin) as Hel.
  pose proof (wire_node_id _ _ _ _ _ _ Hok Hi) as Hid.
  pose proof (OnElectionWon_env _ _ _ _ Hrun) as Henv.
  assert (Hbm : go = true → ∀ q m, q ≠ i → match_index_ (core n') !! q = Some m → m = 0).
  { intros ->. unfold OnElectionWonLocked in Hrun. repeat case_match; simplify_eq/=.
    intros q m Hq. apply BecomeLeader_match. by rewrite Hid. }
  pose proof Hrun as Hrun0. apply OnElectionWonLocked_effect in Hrun as [[Hcfg _] Heff].
  destruct Heff as [[-> Hcore]|(-> & Hrole & Hterm & Hls)].
  { exists G. split; [|done]. by apply (wire_ok_lost W G n n' p el). }
  pose proof (wire_up _ _ _ _ _ _ Hok Hi) as Hu.
  set (t := el_term el) in *. pose proof (ei_term _ _ _ Hel) as Hpos. fold t in Hpos.
  assert (Hno : office G t = None).
  { destruct (office G t) as [[j Q]|] eqn:Ho; [|done]. exfalso.
    eapply (due_not_opened cfg members Hdep); [apply (wo_net _ _ _ _ Hok)|done|done|].
    by apply (wo_office _ _ _ _ Hok _ _ _ Ho). }
  assert (Hst : stood G (t, i) = log_ (core n))
    by (rewrite (ui_candidate _ _ _ _ Hu Hrole), Hterm; done).
  destruct (ei_stood _ _ _ Hel) as [Hs Hlow]. change (el_vote el) with (t, i) in Hs, Hlow.
  set (Q := voters el). set (G' := install G t i Q).
  pose proof (install_grows G t i Q (wo_history _ _ _ _ Hok) Hpos Hno) as Hg.
  assert (Hacc : ∀ a u k, accepted W' G' a u k → accepted W G a u k)
    by (intros a u k; by apply install_accepted).
  assert (Hup : update W G G' i (Up n) (Up n') els [] []).
  { split; [done|done| |done|left; by apply Hacc|].
    - intros u. cbn. case_decide; [right; by exists Q|by left].
    - intros v [Hv Hd]. split; [|by rewrite Henv]. unfold hs_of in *.
      by rewrite (ls_term _ _ _ Hls), (ls_vote _ _ _ Hls). }
  exists G'. split; [|done]. apply (wire_ok_update cfg members W G G' i _ _ _ _ _ Hup); try done.
  - apply install_ok; try done. apply (wo_history _ _ _ _ Hok).
  - intros v j Q' Ho'. cbn in Ho'. case_decide as Hv; [right|by left].
    subst v. injection Ho' as <- <-. by eapply won_office.
  - intros e [->|He]%elections_insert.
    + by apply (update_election cfg members W G G' i _ _ _ _ _ Hup Hok el).
    + by apply (update_election cfg members W G G' i _ _ _ _ _ Hup Hok e).
  - unfold G'. rewrite <- Hterm. apply (lead_inv W _ G i Q n n'); rewrite ?Hterm; try done.
    + by apply (wo_hosts _ _ _ _ Hok).
    + by rewrite <- Hst.
    + by apply Hbm.
  - by intros q ?%not_elem_of_nil.
  - by intros a ?%not_elem_of_nil.
Qed.
End control.
