(* ===== verification/LeaderCompleteness.v ===== *)
(** Leader completeness: what a leader commits, every leader of its own or a later term
    holds. *)
From S2P Require Import Prelude Command Types Timer Metrics Env Sim Node SimNode.
From S2P Require Import NodeLog Election AppendEntries Bytes Fs StateMachine Commit.
From S2P Require Import Replicator Propose SnapshotNode Votes Links Cluster LogMatching.
From S2P Require Import Carry Histories Wire Completeness Offices.

(** ** Executions *)
Section executions.
Context {SM E : Type} `{HostEnv E, IRaftStorage E, ISnapshotStorage E, !IStateMachine SM E}.
Context (recovered : PersistentRaftState → PersistentRaftState).
Context `{!StorageLaws E recovered, !RecoveredLog recovered, !DiskFrames SM E, !SnapshotIndices E}.
Context (cfg : Z → NodeConfig) (scfg : Z → snapshotConfig) (sm0 : Z → SM) (members : gset Z).
Context (Hdep : deployment members cfg) (Hsnap : ∀ i, enabled (scfg i) = false).
Implicit Types (n m : Node SM E) (W : Wire SM E) (G : History).

Lemma wire_ok_control W G C' :
  wire_ok cfg members W G → control_step cfg scfg sm0 (cluster_of W) C' →
  net_ok cfg members (mkNet C' (sent (wire_net W))) →
  ∃ G', wire_ok cfg members (mkWire (mkNet C' (sent (wire_net W))) (answered W)) G' ∧ grows G G'.
Proof.
  intros Hok Hstep Hnet. assert (Hop := λ t, opened_control cfg scfg sm0 _ _ t Hstep).
  destruct W as [[C qs] ans]. unfold cluster_of in *. cbn [wire_net net_cluster sent answered] in *.
  destruct Hstep as [C i e r e' Hi Hnew|C i n Hi|C i n g r n' Hi Ht Hrun
    |C p el before j request after n resp n' Hk Hreq Hj Hrun
    |C p el before j resp after n go n' Hk Hal Hrep Hi Hrun
    |C p el n go n' Hk Hal Hdue Hi Hrun].
  - exists G. split; [|done].
    by apply (wire_ok_boot recovered cfg scfg sm0 members Hdep Hsnap (mkWire (mkNet C qs) ans) G i e r e').
  - by apply (wire_ok_crash cfg members (mkWire (mkNet C qs) ans) G i n).
  - by apply (wire_ok_timeout recovered cfg members (mkWire (mkNet C qs) ans) G i n g r n').
  - exists G. split; [|done].
    by apply (wire_ok_vote recovered cfg members (mkWire (mkNet C qs) ans) G j n n' p el before request after resp).
  - exists G. split; [|done].
    by apply (wire_ok_reply recovered cfg scfg sm0 members (mkWire (mkNet C qs) ans) G n n' p el before j resp after go).
  - by apply (wire_ok_won cfg members Hdep (mkWire (mkNet C qs) ans) G n n' p el go).
Qed.

Lemma wire_step_ok W W' G :
  wire_ok cfg members W G → wire_step cfg scfg sm0 W W' →
  ∃ G', wire_ok cfg members W' G' ∧ grows G G'.
Proof.
  intros Hok Hstep.
  assert (Hnet : net_ok cfg members (wire_net W')).
  { eapply (net_step_ok recovered cfg scfg sm0 members Hdep); [apply (wo_net _ _ _ _ Hok)|].
    by apply wire_step_net. }
  destruct Hstep as [W C' Hc|W j q n resp b n' Hq Hj Hrun|W i p t target resp n Ha Hi|W i n n' new Hi Ho].
  - by apply wire_ok_control.
  - exists G. split; [|done]. by apply (wire_ok_append recovered cfg members W G j q n resp b n').
  - exists G. split; [|done]. by apply (wire_ok_answer recovered cfg members W G i p t target resp n).
  - by apply (wire_ok_own recovered cfg members W G i n n' new).
Qed.

Lemma wire_steps_ok W W' G :
  rtc (wire_step cfg scfg sm0) W W' → wire_ok cfg members W G →
  ∃ G', wire_ok cfg members W' G' ∧ grows G G'.
Proof.
  intros Hsteps. revert G. induction Hsteps as [W|W W1 W2 Hstep _ IH]; intros G Hok; [by exists G|].
  destruct (wire_step_ok _ _ _ Hok Hstep) as (G1 & Hok1 & Hg1).
  destruct (IH _ Hok1) as (G2 & Hok2 & Hg2). exists G2. split; [done|by etrans].
Qed.

(** No term has been opened. *)
Definition blank : History :=
  mkHistory (λ _, []) (λ t, if decide (t = 0) then [bootstrap_record] else []) (λ _, None).

Lemma blank_sound : sound blank [bootstrap_record].
Proof.
  split; [done| |].
  - intros k r [-> <-]%list_lookup_singleton_Some. done.
  - by intros k r [-> <-]%list_lookup_singleton_Some.
Qed.

Lemma wire_init_ok W : wire_init members W → wire_ok cfg members W blank.
Proof.
  intros [Hinit Hans]. pose proof (net_init_ok cfg members _ Hinit) as Hnet.
  destruct Hinit as ((Hels & Hdown) & Hsent & Hdisk).
  assert (Hno : ∀ a t k, ¬ accepted W blank a t k).
  { intros a t k [_ [(resp & Hin & _)|[Q HQ]]]; [|done]. rewrite Hans in Hin. by apply not_elem_of_nil in Hin. }
  split; try done.
  - split; try done. intros t Ht _. cbn. by rewrite decide_False.
  - intros el. unfold cluster_of. rewrite Hels. by intros ?%not_elem_of_nil.
  - intros i h Hi. destruct (Hdown _ _ Hi) as (_ & e & ->).
    assert (Hv : host_view (SM := SM) (Down e) = (0, [bootstrap_record])).
    { unfold host_view, disk_view. cbn. by rewrite (Hdisk _ _ Hi). }
    split; rewrite ?Hv; try done.
    + left. apply blank_sound.
    + by intros r ->%list_elem_of_singleton.
    + intros t k Ha. by destruct (Hno _ _ _ Ha).
  - intros q. rewrite Hsent. by intros ?%not_elem_of_nil.
  - intros a. rewrite Hans. by intros ?%not_elem_of_nil.
Qed.

(** Answers are not forgotten. *)
Lemma accepted_steps W W' G G' a t k :
  rtc (wire_step cfg scfg sm0) W W' → grows G G' → accepted W G a t k → accepted W' G' a t k.
Proof.
  intros Hsteps Hg [Hk Hor]. split; [by eapply entry_grows|].
  assert (Hans : ∀ x, x ∈ answered W → x ∈ answered W').
  { clear - Hsteps. induction Hsteps as [|W1 W2 W3 Hstep _ IH]; [done|]. intros x Hx. apply IH.
    destruct Hstep; [done|cbn; rewrite ?elem_of_cons; by auto..]. }
  destruct Hor as [(resp & Hin & Hrest)|[Q HQ]]; [left|right].
  - exists resp. split; [by apply Hans|done].
  - exists Q. by apply Hg.
Qed.

(** ** Commitment *)

(** The peers that are counted. *)
Definition matched_peers (k : Z) (config : NodeConfig) (c : RaftCore) : list Z :=
  filter (λ p, k ≤ default (k - 1) (match_index_ c !! p)) (peer_node_id <$> peers config).

Lemma replicated_count_peers k config c :
  replicated_count k config c = 1 + Z.of_nat (length (matched_peers k config c)).
Proof.
  unfold replicated_count, matched_peers.
  match goal with |- foldl ?f _ _ = _ => set (count := f) end.
  assert (Hfold : ∀ l a, foldl count a l = a + Z.of_nat (length
    (filter (λ p, k ≤ default (k - 1) (match_index_ c !! p)) (peer_node_id <$> l)))); [|apply Hfold].
  induction l as [|p l IH]; intros a; [cbn; lia|].
  cbn [foldl fmap list_fmap]. rewrite IH, filter_cons. unfold count at 1.
  destruct (match_index_ c !! peer_node_id p) as [x|]; cbn [from_option]; unfold Datatypes.id;
    repeat case_decide; cbn [length]; lia.
Qed.

(** Those who made up the quorum have accepted the record. *)
Lemma committable_accepted W G i n k :
  wire_ok cfg members W G → hosts (cluster_of W) !! i = Some (Up n) → role_ (core n) = kLeader →
  committable (config_ n) (core n) k →
  let t := current_term_ (core n) in
  0 < t ∧ 0 ≤ k ∧ entry G t (Z.to_nat k) ∧
  ∃ l, majority members l ∧ ∀ a, a ∈ l → accepted W G a t (Z.to_nat k).
Proof.
  intros Hok Hi Hr (Hhas & Hterm & Hcount) t.
  pose proof (wire_log_ok _ _ _ _ _ _ Hok Hi) as Hlog. pose proof (wire_up _ _ _ _ _ _ Hok Hi) as Hu.
  destruct (ui_leader _ _ _ _ Hu Hr) as ([Q Ho] & Hled & Hmatch). fold t in Ho, Hled, Hmatch.
  pose proof (ho_pos _ (wo_history _ _ _ _ Hok) _ _ Ho) as Hpos.
  rewrite TermAtIndex_ok in Hterm by done. apply HasLog_LogAtIndex in Hhas as [r Hrk]; [|done].
  rewrite Hrk in Hterm. pose proof (ui_log _ _ _ _ Hu) as Hs.
  assert (Hk : 0 ≤ k).
  { rewrite LogAtIndex_lookup, (sound_boundary G) in Hrk by done. by case_decide. }
  rewrite (sound_at G) in Hrk by done.
  assert (Hent : entry G t (Z.to_nat k)) by (exists r; by rewrite Hled).
  assert (Hkpos : 0 < k).
  { destruct (decide (k = 0)) as [->|]; [|lia]. cbn in Hrk. rewrite <- head_lookup in Hrk.
    rewrite (so_head _ _ Hs) in Hrk. injection Hrk as <-. cbn in Hterm. lia. }
  split_and!; [done|done|done|].
  destruct (co_hosts _ _ _ (no_cluster _ _ _ (wo_net _ _ _ _ Hok)) _ _ Hi) as [Hmem [Hid Hpeers]].
  exists (i :: matched_peers k (config_ n) (core n)).
  assert (Hpeer : ∀ p, p ∈ matched_peers k (config_ n) (core n) →
            p ∈ members ∧ p ≠ i ∧ k ≤ default (k - 1) (match_index_ (core n) !! p)).
  { intros p [Hle Hp]%list_elem_of_filter. rewrite Hpeers in Hp.
    apply (elem_of_list_to_set (C := gset Z)) in Hp. rewrite (dep_peers _ _ Hdep _ Hmem) in Hp.
    split_and!; [set_solver|set_solver|done]. }
  split; [split_and!|].
  - apply NoDup_cons. split; [by intros (_ & ? & _)%Hpeer|]. apply NoDup_filter. rewrite Hpeers.
    by apply (dep_nodup _ _ Hdep).
  - intros a [->|(? & _)%Hpeer]%elem_of_cons; done.
  - rewrite replicated_count_peers in Hcount. unfold quorum_of in Hcount.
    rewrite Hpeers, <- ?Hpeers in Hcount. rewrite (deployment_size cfg members Hdep _ Hmem), <- Hpeers.
    cbn [length]. rewrite !Nat2Z.inj_succ. Z.div_mod_to_equations. lia.
  - intros a [->|Ha]%elem_of_cons; [split; [done|right; by exists Q]|].
    destruct (Hpeer _ Ha) as (_ & Hne & Hle). split; [done|left].
    destruct (match_index_ (core n) !! a) as [x|] eqn:Hx; cbn in Hle; [|lia].
    destruct (Hmatch a x Hne Hx) as [|(resp & Hin & Hsucc & Hm)]; [unfold Datatypes.id in Hle; lia|].
    exists resp. split_and!; [done|done|]. unfold Datatypes.id in Hle. lia.
Qed.

(** Later leaders stood with the log up to there. *)
Lemma committed_start W W' G G' i n k v :
  wire_ok cfg members W G → wire_ok cfg members W' G' → grows G G' →
  rtc (wire_step cfg scfg sm0) W W' →
  hosts (cluster_of W) !! i = Some (Up n) → role_ (core n) = kLeader →
  committable (config_ n) (core n) k → is_Some (office G' v) → current_term_ (core n) < v →
  take (S (Z.to_nat k)) (log_ (core n)) `prefix_of` start G' v.
Proof.
  intros Hok Hok' Hg Hsteps Hi Hr Hc Hv Hlt.
  destruct (committable_accepted _ _ _ _ _ Hok Hi Hr Hc) as (Hpos & Hk & Hent & l & Hmaj & Hacc).
  set (t := current_term_ (core n)) in *. pose proof (wo_history _ _ _ _ Hok') as Hh'.
  destruct (ui_leader _ _ _ _ (wire_up _ _ _ _ _ _ Hok Hi) Hr) as (_ & Hled & _).
  fold t in Hled. rewrite <- Hled, <- (entry_take _ _ Hg _ _ Hent).
  apply (chosen members G' (accepted W' G') Hh' t _ l); try done; [|by eapply entry_grows|].
  - intros w i' Q' Ho'. by destruct (wo_office _ _ _ _ Hok' _ _ _ Ho') as (_ & _ & ? & _ & ?).
  - intros a Ha. eapply accepted_steps; [done..|by apply Hacc].
Qed.

(** Every leader, then or later, in its term or a later one, holds the log up to there. *)
Lemma committed_prefix W W' G G' i j n m k :
  wire_ok cfg members W G → wire_ok cfg members W' G' → grows G G' →
  rtc (wire_step cfg scfg sm0) W W' →
  hosts (cluster_of W) !! i = Some (Up n) → role_ (core n) = kLeader →
  committable (config_ n) (core n) k →
  hosts (cluster_of W') !! j = Some (Up m) → role_ (core m) = kLeader →
  current_term_ (core n) ≤ current_term_ (core m) →
  take (S (Z.to_nat k)) (log_ (core n)) `prefix_of` log_ (core m).
Proof.
  intros Hok Hok' Hg Hsteps Hi Hr Hc Hj Hrm Hle.
  destruct (ui_leader _ _ _ _ (wire_up _ _ _ _ _ _ Hok Hi) Hr) as (_ & Hled & _).
  destruct (ui_leader _ _ _ _ (wire_up _ _ _ _ _ _ Hok' Hj) Hrm) as ([Q Ho] & Hledm & _).
  rewrite <- Hledm. destruct (decide (current_term_ (core n) = current_term_ (core m))) as [Heq|Hne].
  - rewrite <- Heq. etrans; [apply prefix_take|]. rewrite <- Hled. apply Hg.
  - etrans; [|apply start_led, (wo_history _ _ _ _ Hok')].
    eapply (committed_start W W' G G' i n k); try done. lia.
Qed.

(** Two logs of nodes with a common prefix. *)
Lemma prefix_agree W W' G G' i j n m (c : nat) (k : Z) :
  wire_ok cfg members W G → wire_ok cfg members W' G' →
  hosts (cluster_of W) !! i = Some (Up n) → hosts (cluster_of W') !! j = Some (Up m) →
  take (S c) (log_ (core n)) `prefix_of` log_ (core m) →
  is_Some (LogAtIndexLocked (core n) (Z.of_nat c)) → 0 ≤ k ≤ Z.of_nat c →
  ∃ r, LogAtIndexLocked (core n) k = Some r ∧ LogAtIndexLocked (core m) k = Some r.
Proof.
  intros Hok Hok' Hi Hj Hp Hc Hk.
  pose proof (ui_log _ _ _ _ (wire_up _ _ _ _ _ _ Hok Hi)) as Hs.
  pose proof (ui_log _ _ _ _ (wire_up _ _ _ _ _ _ Hok' Hj)) as Hs'.
  pose proof (wire_log_ok _ _ _ _ _ _ Hok Hi) as Hl. pose proof (wire_log_ok _ _ _ _ _ _ Hok' Hj) as Hl'.
  rewrite (sound_at G) in Hc by (done || lia).
  rewrite (sound_at G), (sound_at G') by (done || lia).
  destruct (lookup_lt_is_Some_2 (log_ (core n)) (Z.to_nat k)) as [r Hr].
  { apply lookup_lt_is_Some in Hc. lia. }
  exists r. split; [done|]. eapply prefix_lookup_Some; [|exact Hp]. rewrite lookup_take_lt; [done|lia].
Qed.

(** A leader that commits in an earlier term than one that led before it did. *)
Lemma start_agree W W' G G' i j n m (c d k : Z) :
  wire_ok cfg members W G → wire_ok cfg members W' G' → grows G G' →
  hosts (cluster_of W) !! i = Some (Up n) → role_ (core n) = kLeader →
  is_Some (LogAtIndexLocked (core n) c) →
  hosts (cluster_of W') !! j = Some (Up m) → role_ (core m) = kLeader →
  committable (config_ m) (core m) d → is_Some (LogAtIndexLocked (core m) d) →
  current_term_ (core m) < current_term_ (core n) → 0 ≤ k ≤ c → k ≤ d →
  ∃ r, LogAtIndexLocked (core n) k = Some r ∧ LogAtIndexLocked (core m) k = Some r.
Proof.
  intros Hok Hok' Hg Hi Hr Hc Hj Hrm Hcm Hd Hlt Hk Hkd.
  pose proof (wire_up _ _ _ _ _ _ Hok Hi) as Hu. pose proof (wire_up _ _ _ _ _ _ Hok' Hj) as Hu'.
  destruct (ui_leader _ _ _ _ Hu Hr) as ([Q Ho] & Hled & _).
  pose proof (gr_led _ _ Hg (current_term_ (core n))) as Hp. rewrite Hled in Hp.
  assert (Hp' : take (S (Z.to_nat d)) (log_ (core m)) `prefix_of` led G' (current_term_ (core n))).
  { etrans; [|apply start_led, (wo_history _ _ _ _ Hok')].
    eapply (committed_start W' W' G' G' j m d); try done. exists (i, Q). by apply Hg. }
  pose proof (ui_log _ _ _ _ Hu) as Hs. pose proof (ui_log _ _ _ _ Hu') as Hs'.
  pose proof (wire_log_ok _ _ _ _ _ _ Hok Hi) as Hl. pose proof (wire_log_ok _ _ _ _ _ _ Hok' Hj) as Hl'.
  rewrite (sound_at G) in Hc by (done || lia). rewrite (sound_at G') in Hd by (done || lia).
  rewrite (sound_at G), (sound_at G') by (done || lia).
  apply lookup_lt_is_Some in Hc, Hd.
  destruct (lookup_lt_is_Some_2 (log_ (core n)) (Z.to_nat k)) as [r Hrk]; [lia|].
  destruct (lookup_lt_is_Some_2 (log_ (core m)) (Z.to_nat k)) as [r' Hrk']; [lia|].
  exists r. split; [done|]. rewrite Hrk'.
  rewrite <- (prefix_lookup_Some _ _ _ _ Hrk Hp). symmetry. eapply prefix_lookup_Some; [|exact Hp'].
  rewrite lookup_take_lt; [done|lia].
Qed.
End executions.

(** ** Commits *)

(** The leader handles an answer, or looks at its progress entries. *)
Inductive commit_step {SM E} `{HostEnv E, IRaftStorage E} (W : Wire SM E) (n : Node SM E) :
    Node SM E → Prop :=
  | commit_on_answer peer_id t target resp :
      (peer_id, t, resp) ∈ answered W →
      commit_step W n (HandleAppendEntriesResponse peer_id t target resp n).2
  | commit_on_rule : commit_step W n (AdvanceCommitIndexUnlocked n).

Section commits.
Context {SM E : Type} `{HostEnv E, IRaftStorage E, ISnapshotStorage E, !IStateMachine SM E}.
Implicit Types (n : Node SM E) (W : Wire SM E).

Lemma AdvanceCommit_commits n :
  let n' := AdvanceCommitIndexUnlocked n in
  log_ok (core n) → commit_index_ (core n) < commit_index_ (core n') →
  role_ (core n') = kLeader ∧ committable (config_ n') (core n') (commit_index_ (core n')).
Proof.
  intros n' Hok Hlt. unfold n' in *.
  assert (Hcfg : config_ (AdvanceCommitIndexUnlocked n) = config_ n).
  { unfold AdvanceCommitIndexUnlocked. case_decide; [done|]. case_decide; [done|]. case_match; [|done].
    by rewrite (sbh_config _ _ (PersistStateLocked_frame _)). }
  destruct (AdvanceCommitIndex_cases n Hok) as [[Hc _]|(k & _ & Hr & Hk & _ & Hc)];
    rewrite Hc in Hlt |- *; [lia|]. by rewrite Hcfg.
Qed.

Lemma commit_step_commits W n n' :
  commit_step W n n' → log_ok (core n) → commit_index_ (core n) < commit_index_ (core n') →
  role_ (core n') = kLeader ∧ committable (config_ n') (core n') (commit_index_ (core n')).
Proof.
  intros Hstep Hok Hlt. destruct Hstep as [p t target resp _|]; [|by apply AdvanceCommit_commits].
  revert Hlt. unfold HandleAppendEntriesResponse.
  case_match; [cbn [snd]; lia|]. case_decide.
  { cbn [snd]. rewrite (proj1 (BecomeFollowerLocked_core (aresp_term resp) (-1) n)).
    unfold follower_core. case_decide; node_simpl; lia. }
  case_match; [cbn [snd]; lia|]. case_match; cbn [snd]; [|node_simpl; lia].
  intros Hlt. apply AdvanceCommit_commits; [by destruct Hok; split|done].
Qed.

Lemma commit_step_wire cfg scfg sm0 W i n n' :
  hosts (cluster_of W) !! i = Some (Up n) → commit_step W n n' →
  wire_step cfg scfg sm0 W (put W i n' [] []).
Proof. intros Hi [p t target resp Ha|]; [by apply WS_answer|by apply (WS_own _ _ _ W i n), OS_commit]. Qed.

(** In [W] node [i] moves its commit index, as a leader. *)
Definition commits W (i : Z) n n' : Prop :=
  hosts (cluster_of W) !! i = Some (Up n) ∧ commit_step W n n' ∧
  commit_index_ (core n) < commit_index_ (core n').

Section safety.
Context (recovered : PersistentRaftState → PersistentRaftState).
Context `{!StorageLaws E recovered, !RecoveredLog recovered, !DiskFrames SM E, !SnapshotIndices E}.
Context (cfg : Z → NodeConfig) (scfg : Z → snapshotConfig) (sm0 : Z → SM) (members : gset Z).
Context (Hdep : deployment members cfg) (Hsnap : ∀ i, enabled (scfg i) = false).

Lemma commits_ok W G i n n' :
  wire_ok cfg members W G → commits W i n n' →
  let W1 := put W i n' [] [] in
  hosts (cluster_of W1) !! i = Some (Up n') ∧ role_ (core n') = kLeader ∧
  committable (config_ n') (core n') (commit_index_ (core n')) ∧
  ∃ G1, wire_ok cfg members W1 G1 ∧ grows G G1 ∧
    is_Some (LogAtIndexLocked (core n') (commit_index_ (core n'))).
Proof.
  intros Hok (Hi & Hstep & Hlt) W1.
  destruct (wire_step_ok recovered cfg scfg sm0 members Hdep Hsnap _ _ _ Hok
    (commit_step_wire cfg scfg sm0 _ _ _ _ Hi Hstep)) as (G1 & Hok1 & Hg).
  destruct (commit_step_commits _ _ _ Hstep (wire_log_ok _ _ _ _ _ _ Hok Hi) Hlt) as [Hr Hc].
  assert (Hi1 : hosts (cluster_of W1) !! i = Some (Up n')) by apply lookup_insert_eq.
  split_and!; [done..|]. exists G1. split_and!; [done..|].
  apply HasLog_LogAtIndex; [apply (wire_log_ok _ _ _ _ _ _ Hok1 Hi1)|apply Hc].
Qed.

Lemma wire_reachable_ok W : wire_reachable cfg scfg sm0 members W → ∃ G, wire_ok cfg members W G.
Proof.
  intros (W0 & Hinit & Hto).
  destruct (wire_steps_ok recovered cfg scfg sm0 members Hdep Hsnap _ _ _ Hto (wire_init_ok _ _ _ Hinit))
    as (G & Hok & _). by exists G.
Qed.
End safety.
End commits.



(** ** A run *)

(** Executable steps of the network: those of the elections, a node's own, the [m]-th request
    delivered to a node and the [m]-th answer handled by one. *)
Inductive OwnEvent := OwnNoop | OwnPropose (cmd : Command) | OwnBuild (peer_id t : Z) | OwnApply.
Inductive WireEvent :=
  | WvControl (ev : Event) | WvOwn (i : Z) (ev : OwnEvent)
  | WvDeliver (j : Z) (m : nat) | WvAnswer (i : Z) (m : nat).

Section run.
Context {SM E : Type} `{HostEnv E, IRaftStorage E, ISnapshotStorage E, !IStateMachine SM E}.
Context (cfg : Z → NodeConfig) (scfg : Z → snapshotConfig) (sm0 : Z → SM).
Implicit Types (n : Node SM E) (W : Wire SM E).

Definition own_exec (ev : OwnEvent) n : option (Node SM E * list AppendEntriesRequest) :=
  if decide (LastLogIndexLocked (core n) < u64_max) then
    match ev with
    | OwnNoop => if decide (role_ (core n) = kLeader)
                 then Some ((AppendLocalLogUnlocked kInternalNoOpCommand n).2, []) else None
    | OwnPropose cmd => Some ((ProposeLocked cmd n).2, [])
    | OwnBuild peer_id t =>
        if decide (is_u64 (default 0 (next_index_ (core n) !! peer_id)))
        then let '(r, n') := BuildAppendEntriesRequest peer_id t n in Some (n', requests_of r)
        else None
    | OwnApply => Some ((ApplyIteration n).2, [])
    end
  else None.

Definition wire_exec (ev : WireEvent) W : option (Wire SM E) :=
  match ev with
  | WvControl ev =>
      C' ← exec cfg scfg sm0 ev (cluster_of W);
      Some (mkWire (mkNet C' (sent (wire_net W))) (answered W))
  | WvOwn i ev =>
      n ← running (cluster_of W) i; '(n', new) ← own_exec ev n; Some (put W i n' new [])
  | WvDeliver j m =>
      n ← running (cluster_of W) j; request ← sent (wire_net W) !! m;
      let '((resp, _), n') := OnAppendEntriesLocked request n in
      Some (put W j n' [] [(j, areq_term request, resp)])
  | WvAnswer i m =>
      n ← running (cluster_of W) i; '(peer_id, t, resp) ← answered W !! m;
      Some (put W i (HandleAppendEntriesResponse peer_id t 0 resp n).2 [] [])
  end.

Fixpoint wire_run (evs : list WireEvent) W : option (Wire SM E) :=
  match evs with
  | [] => Some W
  | ev :: evs => W' ← wire_exec ev W; wire_run evs W'
  end.

Lemma own_exec_step ev n n' new : own_exec ev n = Some (n', new) → own_step n n' new.
Proof.
  unfold own_exec. case_decide; [|done]. destruct ev as [|cmd|p t|].
  - case_decide; [|done]. intros [= <- <-]. by apply OS_noop.
  - intros [= <- <-]. by apply OS_propose.
  - case_decide; [|done]. destruct (BuildAppendEntriesRequest p t n) as [r n1] eqn:Hb.
    intros [= <- <-]. by eapply OS_build.
  - intros [= <- <-]. apply OS_apply.
Qed.

Lemma wire_exec_step ev W W' : wire_exec ev W = Some W' → wire_step cfg scfg sm0 W W'.
Proof.
  destruct ev as [ev|i ev|j m|i m]; cbn [wire_exec].
  - destruct (exec _ _ _ ev _) as [C'|] eqn:Hev; [|done]. intros [= <-]. by eapply WS_control, exec_step.
  - destruct (running _ i) as [n|] eqn:Hn; [|done]. cbn. destruct (own_exec ev n) as [[n' new]|] eqn:Ho; [|done].
    intros [= <-]. by eapply WS_own; [apply running_Some|apply own_exec_step in Ho].
  - destruct (running _ j) as [n|] eqn:Hn; [|done]. cbn. destruct (_ !! m) as [q|] eqn:Hq; [|done]. cbn.
    destruct (OnAppendEntriesLocked q n) as [[resp b] n'] eqn:Hrun. intros [= <-].
    eapply WS_append; [by eapply list_elem_of_lookup_2|by apply running_Some|exact Hrun].
  - destruct (running _ i) as [n|] eqn:Hn; [|done]. cbn.
    destruct (answered W !! m) as [[[p t] resp]|] eqn:Ha; [|done]. intros [= <-].
    by eapply WS_answer; [eapply list_elem_of_lookup_2|apply running_Some].
Qed.

Lemma wire_run_steps evs W W' : wire_run evs W = Some W' → rtc (wire_step cfg scfg sm0) W W'.
Proof.
  revert W. induction evs as [|ev evs IH]; intros W; cbn [wire_run]; [by intros [= <-]|].
  destruct (wire_exec ev W) as [W1|] eqn:Hev; [|done]. cbn. intros Hrun.
  eapply rtc_l; [by eapply wire_exec_step|by apply IH].
Qed.
End run.

Definition sim_no_snapshots : snapshotConfig := mkSnapshotConfig false ["snapshots"] 30 0 5 true "snapshot".
Definition sim_wire : Wire KvStateMachine SimEnv := mkWire sim_net [].
Definition sim_wire_run (evs : list WireEvent) (W : Wire KvStateMachine SimEnv) :=
  wire_run sim_config (λ _, sim_no_snapshots) (λ _, mkKv ∅) evs W.
Definition sim_wire_reachable (W : Wire KvStateMachine SimEnv) :=
  wire_reachable sim_config (λ _, sim_no_snapshots) (λ _, mkKv ∅) sim_members W.

(** Node 1 wins term 1 and gives its no-op to node 2. *)
Definition sim_term_1 : list WireEvent :=
  (WvControl <$> [EvBoot 1; EvBoot 2; EvBoot 3; EvTimeout 1 1; EvVote 0 0; EvReply 0 0; EvWon 0])
  ++ [WvOwn 1 OwnNoop; WvOwn 1 (OwnBuild 2 1); WvDeliver 2 0].

(** It appends a SET that stays with it, and crashes; node 2 wins term 2 with the vote of 3
    and replaces the SET, at node 1, by its own no-op. *)
Definition sim_term_2 (timer_generation : Z) : list WireEvent :=
  [WvOwn 1 (OwnPropose (mkCommand kSet "a" "1"))]
  ++ (WvControl <$> [EvCrash 1; EvBoot 1; EvTimeout 2 timer_generation; EvVote 1 1; EvReply 1 0; EvWon 1])
  ++ [WvOwn 2 OwnNoop; WvOwn 2 (OwnBuild 1 2); WvDeliver 1 0].

(** Node [i] with the last answer handled. *)
Definition answer_handled (i : Z) (W : Wire KvStateMachine SimEnv) :
    option (Node KvStateMachine SimEnv * Node KvStateMachine SimEnv) :=
  n ← running (cluster_of W) i; '(peer_id, t, resp) ← head (answered W);
  Some (n, (HandleAppendEntriesResponse peer_id t 0 resp n).2).

Lemma answer_handled_commits i W n n' :
  answer_handled i W = Some (n, n') → commit_index_ (core n) < commit_index_ (core n') →
  commits W i n n'.
Proof.
  unfold answer_handled. destruct (running _ i) as [n0|] eqn:Hn; [|done]. cbn.
  destruct (head (answered W)) as [[[p t] resp]|] eqn:Ha; [|done]. intros [= -> <-] Hlt.
  split_and!; [by apply running_Some|by apply commit_on_answer, head_Some_elem_of|exact Hlt].
Qed.

Lemma sim_wire_init : wire_init sim_members sim_wire.
Proof. split; [exact sim_net_init|done]. Qed.

Definition sim_noop (i t : Z) : LogRecord := mkLogRecord i t kInternalNoOpCommand.

(** Node 1 commits index 1 in term 1; then node 2 leads term 2, and commits index 2. *)
Definition sim_wire_commits :=
  W ← sim_wire_run sim_term_1 sim_wire;
  x ← answer_handled 1 W;
  W' ← sim_wire_run (sim_term_2 4) (put W 1 x.2 [] []);
  y ← answer_handled 2 W';
  Some (W, x, W', y).

Lemma sim_wire_outcome :
  (λ '(W, x, W', y),
     (commit_index_ (core x.1), current_term_ (core x.2), commit_index_ (core x.2),
      LogAtIndexLocked (core x.2) 1,
      (role_ (core y.1), current_term_ (core y.1), commit_index_ (core y.1), commit_index_ (core y.2)))) <$>
    sim_wire_commits =
  Some (0, 1, 1, Some (sim_noop 1 1), (kLeader, 2, 0, 2)).
Proof. vm_compute. reflexivity. Qed.

Lemma sim_wire_story :
  ∃ (W W' : Wire KvStateMachine SimEnv) n n' m m',
    sim_wire_reachable W ∧ commits W 1 n n' ∧
    rtc (wire_step sim_config (λ _, sim_no_snapshots) (λ _, mkKv ∅)) (put W 1 n' [] []) W' ∧
    commits W' 2 m m' ∧ role_ (core m) = kLeader ∧
    current_term_ (core n') = 1 ∧ commit_index_ (core n') = 1 ∧
    current_term_ (core m) = 2 ∧ commit_index_ (core m') = 2 ∧
    LogAtIndexLocked (core n') 1 = Some (sim_noop 1 1).
Proof.
  pose proof sim_wire_outcome as Hout.
  destruct sim_wire_commits as [[[[W [n n']] W'] [m m']]|] eqn:Hs; [|discriminate Hout].
  apply bind_Some in Hs as (W0 & HW & Hs). apply bind_Some in Hs as (x & Hn & Hs).
  apply bind_Some in Hs as (W1 & HW' & Hs). apply bind_Some in Hs as (y & Hm & Hs).
  injection Hs as -> -> -> ->. cbn [fst snd] in *.
  injection Hout as H1 H2 H3 H4 H5 H6 H7 H8.
  exists W, W', n, n', m, m'. split.
  { exists sim_wire. split; [exact sim_wire_init|exact (wire_run_steps _ _ _ _ _ _ HW)]. }
  split; [apply answer_handled_commits; [done|lia]|].
  split; [exact (wire_run_steps _ _ _ _ _ _ HW')|].
  split; [apply answer_handled_commits; [done|lia]|]. by split_and!.
Qed.


