(* ===== verification/CommitSafety.v ===== *)
(** State machine safety, but for one line.  CommitDivergence shows two nodes that commit
    different entries, because [OnAppendEntries] may move the commit index beyond what the
    request covers.  Here every execution in which it never does so: whatever two nodes hold
    for committed, now or later, is the same. *)
From S2P Require Import Prelude Command Types Timer Metrics Env Sim Node SimNode.
From S2P Require Import NodeLog Election AppendEntries Bytes Fs StateMachine Commit.
From S2P Require Import Replicator Propose SnapshotNode Steady Votes Links Cluster LogMatching.
From S2P Require Import Carry Histories Wire Completeness Offices Spots LeaderCompleteness.

(** ** Steps that stay within the request *)

(** The index [OnAppendEntries] would commit up to is one the request covers, or committed. *)
Definition covers (request : AppendEntriesRequest) (c : RaftCore) : Prop :=
  prev_matches request c →
  Z.min (areq_leader_commit request) (LastLogIndexLocked (set_log (merged_log request c) c)) ≤
  Z.max (commit_index_ c)
    (areq_prev_log_index request + Z.of_nat (length (areq_entries request))).

#[export] Instance prev_matches_dec request c : Decision (prev_matches request c).
Proof. unfold prev_matches. apply _. Defined.
#[export] Instance covers_dec request c : Decision (covers request c).
Proof. unfold covers. apply _. Defined.

Section covered.
Context {SM E : Type} `{HostEnv E, IRaftStorage E, ISnapshotStorage E, !IStateMachine SM E}.
Context (cfg : Z → NodeConfig) (scfg : Z → snapshotConfig) (sm0 : Z → SM).
Implicit Types (n : Node SM E) (W : Wire SM E).

(** [wire_step] with that condition on the requests that arrive. *)
Inductive covered_step : Wire SM E → Wire SM E → Prop :=
  | CV_control W C' :
      control_step cfg scfg sm0 (cluster_of W) C' →
      covered_step W (mkWire (mkNet C' (sent (wire_net W))) (answered W))
  | CV_append W j request n resp b n' :
      request ∈ sent (wire_net W) → hosts (cluster_of W) !! j = Some (Up n) →
      covers request (core n) → OnAppendEntriesLocked request n = ((resp, b), n') →
      covered_step W (put W j n' [] [(j, areq_term request, resp)])
  | CV_answer W i peer_id t target resp n :
      (peer_id, t, resp) ∈ answered W → hosts (cluster_of W) !! i = Some (Up n) →
      covered_step W (put W i (HandleAppendEntriesResponse peer_id t target resp n).2 [] [])
  | CV_own W i n n' new :
      hosts (cluster_of W) !! i = Some (Up n) → own_step n n' new →
      covered_step W (put W i n' new []).

Definition covered_reachable (members : gset Z) W : Prop :=
  ∃ W0, wire_init members W0 ∧ rtc covered_step W0 W.

Lemma covered_step_wire W W' : covered_step W W' → wire_step cfg scfg sm0 W W'.
Proof. destruct 1; by econstructor. Qed.
End covered.

(** ** Settled boundaries *)
Section settled.
Context {SM E : Type} `{HostEnv E, IRaftStorage E, ISnapshotStorage E, !IStateMachine SM E}.
Context (recovered : PersistentRaftState → PersistentRaftState).
Context `{!StorageLaws E recovered, !RecoveredLog recovered, !DiskFrames SM E, !SnapshotIndices E}.
Context (cfg : Z → NodeConfig) (scfg : Z → snapshotConfig) (sm0 : Z → SM) (members : gset Z).
Context (Hdep : deployment members cfg) (Hsnap : ∀ i, enabled (scfg i) = false).
Implicit Types (n m : Node SM E) (W : Wire SM E) (G : History) (l : list LogRecord).

(** Up to [c] the log [l] is that of a leader of a term up to [t], a record of which, at [c]
    or beyond, a majority has accepted. *)
Definition settled W G (c t : Z) l : Prop :=
  c ≤ 0 ∨ ∃ u k q, 0 < u ≤ t ∧ entry G u k ∧ majority members q ∧
    (∀ a, a ∈ q → accepted W G a u k) ∧ (Z.to_nat c ≤ k)%nat ∧
    take (S (Z.to_nat c)) l = take (S (Z.to_nat c)) (led G u).

#[export] Instance settled_lasting W G : Lasting (settled W G).
Proof.
  split; [|by left]. intros c c' t t' l [Hc|(u & k & q & Hu & He & Hq & Ha & Hk & Htk)] Hle Ht.
  { left. lia. }
  right. exists u, k, q. split_and!; [lia|lia|done..|lia|].
  replace (S (Z.to_nat c')) with (S (Z.to_nat c') `min` S (Z.to_nat c))%nat by lia.
  by rewrite <- !take_take, Htk.
Qed.

(** The log goes that far. *)
Lemma settled_length W G c t l : settled W G c t l → 0 < c → (S (Z.to_nat c) ≤ length l)%nat.
Proof.
  intros [?|(u & k & q & _ & He & _ & _ & Hk & Htk)] Hc; [lia|]. apply entry_lt in He.
  apply (f_equal length) in Htk. rewrite !length_take in Htk. lia.
Qed.

Lemma settled_take W G c t l l' :
  take (S (Z.to_nat c)) l' = take (S (Z.to_nat c)) l → settled W G c t l → settled W G c t l'.
Proof.
  intros Heq [?|(u & k & q & ? & ? & ? & ? & ? & Htk)]; [by left|right]. exists u, k, q.
  by rewrite Heq.
Qed.

Lemma settled_prefix W G c t l l' : l `prefix_of` l' → settled W G c t l → settled W G c t l'.
Proof.
  intros Hp Hs. destruct (decide (c ≤ 0)); [by left|].
  pose proof (settled_length _ _ _ _ _ Hs ltac:(lia)). eapply settled_take; [|exact Hs].
  symmetry. by apply take_prefix_eq.
Qed.

Lemma settled_grows W W' G G' c t l :
  (∀ a u k, accepted W G a u k → accepted W' G' a u k) → grows G G' →
  settled W G c t l → settled W' G' c t l.
Proof.
  intros Hacc Hg [?|(u & k & q & ? & He & ? & ? & ? & Htk)]; [by left|right]. exists u, k, q.
  split_and!; [lia|lia|by eapply entry_grows|done|by auto|done|]. rewrite Htk.
  apply take_prefix_eq; [apply Hg|]. apply entry_lt in He. lia.
Qed.

(** Every leader from then on has it. *)
Lemma settled_led W G c t l u :
  wire_ok cfg members W G → settled W G c t l → 0 < c → is_Some (office G u) → t ≤ u →
  take (S (Z.to_nat c)) l `prefix_of` led G u.
Proof.
  intros Hok [?|(v & k & q & Hv & He & Hq & Hacc & Hk & ->)] Hc Hu Hle; [lia|].
  destruct (decide (v = u)) as [->|Hne]; [apply prefix_take|].
  pose proof (wo_history _ _ _ _ Hok) as Hh. etrans; [|by apply start_led].
  etrans; [|apply (chosen members G (accepted W G) Hh v k q); try done; [|lia|lia]].
  - replace (S (Z.to_nat c)) with (S (Z.to_nat c) `min` S k)%nat by lia. rewrite <- take_take. apply prefix_take.
  - intros w i' Q' Ho. by destruct (wo_office _ _ _ _ Hok _ _ _ Ho) as (_ & _ & ? & _ & ?).
Qed.

(** Two settled logs agree. *)
Lemma settled_agree_le W G c v l d u l' k x :
  wire_ok cfg members W G → settled W G c v l → is_Some (office G u) → v ≤ u →
  take (S (Z.to_nat d)) l' = take (S (Z.to_nat d)) (led G u) →
  0 < Z.of_nat k → Z.of_nat k ≤ c → Z.of_nat k ≤ d → l !! k = Some x → l' !! k = Some x.
Proof.
  intros Hok Hs Hu Hle Htk Hk Hc Hd Hx.
  pose proof (settled_led _ _ _ _ _ _ Hok Hs ltac:(lia) Hu Hle) as Hp.
  rewrite <- (lookup_take_lt l' (S (Z.to_nat d))) by lia. rewrite Htk, lookup_take_lt by lia.
  eapply prefix_lookup_Some; [|exact Hp]. by rewrite lookup_take_lt by lia.
Qed.

Lemma settled_agree W G c t l d u l' k :
  wire_ok cfg members W G → settled W G c t l → settled W G d u l' →
  0 < Z.of_nat k → Z.of_nat k ≤ c → Z.of_nat k ≤ d → ∃ x, l !! k = Some x ∧ l' !! k = Some x.
Proof.
  intros Hok Hs Hs' Hk Hc Hd.
  destruct (lookup_lt_is_Some_2 l k) as [x Hx].
  { pose proof (settled_length _ _ _ _ _ Hs ltac:(lia)). lia. }
  destruct (lookup_lt_is_Some_2 l' k) as [y Hy].
  { pose proof (settled_length _ _ _ _ _ Hs' ltac:(lia)). lia. }
  pose proof Hs as [?|(v & j & q & Hv & He & Hq & Hacc & Hj & Htk)]; [lia|].
  pose proof Hs' as [?|(v' & j' & q' & Hv' & He' & Hq' & Hacc' & Hj' & Htk')]; [lia|].
  assert (Hoff : ∀ w i, entry G w i → 0 < w → is_Some (office G w))
    by (intros w i (r & Hr & _) ?; eapply led_office; [apply Hok|done|done]).
  assert (Hown : settled W G c v l) by (right; exists v, j, q; split_and!; (done || lia)).
  assert (Hown' : settled W G d v' l') by (right; exists v', j', q'; split_and!; (done || lia)).
  exists x. split; [done|]. destruct (decide (v ≤ v')).
  - eapply (settled_agree_le W G c v l d v'); try done. eapply Hoff; [done|lia].
  - pose proof (settled_agree_le W G d v' l' c v l k y Hok Hown' ltac:(eapply Hoff; [done|lia]) ltac:(lia)
      Htk Hk Hd Hc Hy). congruence.
Qed.

(** ** What a request does to them *)

Lemma settled_merge W G q n c t :
  wire_ok cfg members W G → request_inv G q → log_ok (core n) → sound G (log_ (core n)) →
  prev_matches q (core n) → t ≤ areq_term q →
  settled W G c t (log_ (core n)) → settled W G c (areq_term q) (merged_log q (core n)).
Proof.
  intros Hok Hq Hlog Hs Hp Ht Hc. destruct (decide (c ≤ 0)); [by left|].
  assert (Hc' : settled W G c (areq_term q) (log_ (core n))) by (by eapply lasting).
  destruct (request_merge _ _ _ (wo_history _ _ _ _ Hok) Hq Hlog Hs Hp) as (l' & Hl' & _ & _ & Hor).
  destruct Hor as [[-> _]|[-> [Hpre|(j & Htj & r & e & Hr & He & Hne)]]]; [done|by eapply settled_prefix|].
  eapply settled_take; [|exact Hc'].
  pose proof (settled_led _ _ _ _ _ _ Hok Hc ltac:(lia) (proj1 Hq) Ht) as Hled.
  (* the fork is beyond the boundary: there the log is the leader's *)
  assert (Hj : (S (Z.to_nat c) ≤ j)%nat).
  { destruct (decide (S (Z.to_nat c) ≤ j)%nat) as [|Hj]; [done|]. destruct Hne.
    assert (Hr' : led G (areq_term q) !! j = Some r)
      by (eapply prefix_lookup_Some; [|exact Hled]; by rewrite lookup_take_lt by lia).
    pose proof (prefix_lookup_Some _ _ _ _ He Hl'). congruence. }
  replace (S (Z.to_nat c)) with (S (Z.to_nat c) `min` j)%nat by lia.
  by rewrite <- !take_take, Htj.
Qed.

Lemma settled_commit W G q n d :
  wire_ok cfg members W G → request_inv G q → log_ok (core n) → sound G (log_ (core n)) →
  prev_matches q (core n) → d ≤ areq_prev_log_index q + Z.of_nat (length (areq_entries q)) →
  settled W G d (areq_term q) (led G (areq_term q)) →
  settled W G d (areq_term q) (merged_log q (core n)).
Proof.
  intros Hok Hq Hlog Hs Hp Hd Hc. destruct (decide (d ≤ 0)); [by left|].
  destruct (request_merge _ _ _ (wo_history _ _ _ _ Hok) Hq Hlog Hs Hp) as (l' & Hl' & _ & Hlen & Hor).
  assert (Hset : settled W G d (areq_term q) l').
  { eapply settled_take; [|exact Hc]. apply take_prefix_eq; [done|lia]. }
  destruct Hor as [[-> Hpre]|[-> _]]; [by eapply settled_prefix|done].
Qed.

Lemma settled_covered W G q n :
  wire_ok cfg members W G → request_inv G q → log_ok (core n) → sound G (log_ (core n)) →
  prev_matches q (core n) → current_term_ (core n) ≤ areq_term q → covers q (core n) →
  core_spot (settled W G) (core n) →
  settled W G (areq_leader_commit q) (areq_term q) (led G (areq_term q)) →
  let c := set_log (merged_log q (core n)) (core n) in
  settled W G (core_mark c) (areq_term q) (log_ c) ∧
  settled W G (Z.min (areq_leader_commit q) (LastLogIndexLocked c)) (areq_term q) (log_ c).
Proof.
  intros Hok Hq Hlog Hs Hp Ht Hcov Hn Hlead c. specialize (Hcov Hp). fold c in Hcov.
  assert (Hmark : settled W G (core_mark (core n)) (areq_term q) (log_ c)) by (by eapply settled_merge).
  split; [exact Hmark|]. set (d := Z.min _ _) in *.
  destruct (decide (d ≤ core_mark (core n))); [by eapply lasting|].
  apply settled_commit; try done; [unfold core_mark in *; lia|].
  eapply lasting; [exact Hlead|lia|done].
Qed.

(** ** The invariant *)

Record settled_ok W G : Prop := {
  se_disk : ∀ i h, hosts (cluster_of W) !! i = Some h → disk_spot (settled W G) (host_env h);
  se_core : ∀ i n, hosts (cluster_of W) !! i = Some (Up n) → core_spot (settled W G) (core n);
  se_sent : ∀ q, q ∈ sent (wire_net W) →
    settled W G (areq_leader_commit q) (areq_term q) (led G (areq_term q)) }.

Lemma settled_spots W G i n :
  settled_ok W G → hosts (cluster_of W) !! i = Some (Up n) → spots (settled W G) n.
Proof. intros [Hd Hc _] Hi. split; [by eapply Hc|by apply (Hd i (Up n))]. Qed.

(** What was settled stays so. *)
Definition outlives (W : Wire SM E) G (W' : Wire SM E) G' : Prop :=
  grows G G' ∧ ∀ c t l, settled W G c t l → settled W' G' c t l.

Lemma step_outlives W W' G G' :
  wire_step cfg scfg sm0 W W' → grows G G' → outlives W G W' G'.
Proof.
  intros Hstep Hg. split; [done|]. intros c t l. apply settled_grows; [|done]. intros a u k.
  by apply (accepted_steps cfg scfg sm0), Hg; apply rtc_once.
Qed.

Lemma disk_spot_outlives W W' G G' (e : E) :
  outlives W G W' G' → disk_spot (settled W G) e → disk_spot (settled W' G') e.
Proof. intros [_ Ho] Hd st Hst. by apply Ho, Hd. Qed.

Lemma spots_outlives W W' G G' n :
  outlives W G W' G' → spots (settled W G) n → spots (settled W' G') n.
Proof. intros Ho [Hc Hd]. split; [by apply Ho|by eapply disk_spot_outlives]. Qed.

(** One host changes and requests are sent. *)
Lemma settled_ok_update W W' G G' i h' new :
  outlives W G W' G' → settled_ok W G →
  hosts (cluster_of W') = <[i := h']> (hosts (cluster_of W)) →
  sent (wire_net W') = new ++ sent (wire_net W) →
  disk_spot (settled W' G') (host_env h') → (∀ n, h' = Up n → core_spot (settled W' G') (core n)) →
  (∀ q, q ∈ new → settled W' G' (areq_leader_commit q) (areq_term q) (led G' (areq_term q))) →
  settled_ok W' G'.
Proof.
  intros Ho Hok Hh Hs Hd Hc Hnew. split.
  - intros j h. rewrite Hh. intros [[<- <-]|[_ Hj]]%lookup_insert_Some; [done|].
    eapply disk_spot_outlives; [exact Ho|]. by eapply (se_disk _ _ Hok).
  - intros j n. rewrite Hh. intros [[<- ?]|[_ Hj]]%lookup_insert_Some; [by apply Hc|].
    apply Ho. by eapply (se_core _ _ Hok).
  - intros q. rewrite Hs. intros [Hq|Hq]%elem_of_app; [by apply Hnew|].
    eapply settled_prefix; [apply Ho|]. by apply Ho, (se_sent _ _ Hok).
Qed.

Lemma settled_ok_up W W' G G' i n' new :
  outlives W G W' G' → settled_ok W G →
  hosts (cluster_of W') = <[i := Up n']> (hosts (cluster_of W)) →
  sent (wire_net W') = new ++ sent (wire_net W) → spots (settled W' G') n' →
  (∀ q, q ∈ new → settled W' G' (areq_leader_commit q) (areq_term q) (led G' (areq_term q))) →
  settled_ok W' G'.
Proof.
  intros Ho Hok Hh Hs [Hc Hd] Hnew. apply (settled_ok_update W W' G G' i (Up n') new); try done.
  by intros ? [= <-].
Qed.

Lemma wire_wf W G i n :
  wire_ok cfg members W G → hosts (cluster_of W) !! i = Some (Up n) → node_wf n.
Proof. intros Hok Hi. by destruct (no_hosts _ _ _ (wo_net _ _ _ _ Hok) _ _ Hi). Qed.

(** The leader commits what a majority has accepted. *)
Lemma commit_core_spot W G W' G' i n n' :
  outlives W G W' G' → wire_ok cfg members W G → wire_ok cfg members W' G' →
  hosts (cluster_of W) !! i = Some (Up n) → hosts (cluster_of W') !! i = Some (Up n') →
  commit_step W n n' → log_ (core n') = log_ (core n) →
  current_term_ (core n) ≤ current_term_ (core n') →
  core_spot (settled W G) (core n) → core_spot (settled W' G') (core n').
Proof.
  intros Ho Hok Hok' Hi Hi' Hstep Hl Ht Hc.
  assert (Hb : core_mark (core n') = commit_index_ (core n')).
  { destruct (wire_wf _ _ _ _ Hok' Hi') as [[_ _ [? _]] _]. unfold core_mark. lia. }
  unfold core_spot. rewrite Hb.
  destruct (decide (commit_index_ (core n) < commit_index_ (core n'))) as [Hlt|Hge].
  - destruct (commit_step_commits _ _ _ Hstep (wire_log_ok _ _ _ _ _ _ Hok Hi) Hlt) as [Hr Hcm].
    destruct (committable_accepted recovered cfg scfg sm0 members Hdep Hsnap _ _ _ _ _ Hok' Hi' Hr Hcm)
      as (Hpos & Hk & He & q & Hq & Ha).
    destruct (ui_leader _ _ _ _ (wire_up _ _ _ _ _ _ Hok' Hi') Hr) as (_ & Hled & _).
    right. exists (current_term_ (core n')), (Z.to_nat (commit_index_ (core n'))), q.
    rewrite Hled. split_and!; (done || lia).
  - rewrite Hl. apply Ho. eapply lasting; [exact Hc|unfold core_mark; lia|done].
Qed.

(** *** Every step keeps it *)

Lemma settled_ok_control W C' G G' :
  let W' := mkWire (mkNet C' (sent (wire_net W))) (answered W) in
  outlives W G W' G' → wire_ok cfg members W G → control_step cfg scfg sm0 (cluster_of W) C' →
  settled_ok W G → settled_ok W' G'.
Proof.
  intros W' Ho Hwire Hstep Hok.
  assert (Hup : ∀ i n n', hosts (cluster_of W) !! i = Some (Up n) →
    hosts C' = <[i := Up n']> (hosts (cluster_of W)) →
    (spots (settled W' G') n → spots (settled W' G') n') → settled_ok W' G').
  { intros i n n' Hi Hh Hs. apply (settled_ok_up W W' G G' i n' []); try done.
    - by apply Hs, (spots_outlives W W' G G'), (settled_spots W G i).
    - by intros q ?%not_elem_of_nil. }
  assert (Hdown : ∀ i h', hosts C' = <[i := h']> (hosts (cluster_of W)) →
    disk_spot (settled W' G') (host_env h') → (∀ n, h' = Up n → spots (settled W' G') n) →
    settled_ok W' G').
  { intros i h' Hh Hd Hn. apply (settled_ok_update W W' G G' i h' []); try done.
    - intros n Hu. by apply Hn.
    - by intros q ?%not_elem_of_nil. }
  destruct W as [[C qs] ans]. unfold cluster_of in *. cbn [wire_net net_cluster sent answered] in *.
  destruct Hstep as [C i e r e' Hi Hnew|C i n Hi|C i n g r n' Hi Ht Hrun
    |C p el before j request after n resp n' Hk Hreq Hj Hrun
    |C p el before j resp after n go n' Hk Hal Hrep Hi Hrun
    |C p el n go n' Hk Hal Hdue Hi Hrun].
  - pose proof (no_hosts _ _ _ (wo_net _ _ _ _ Hwire) _ _ Hi) as Hwf. cbn in Hwf.
    pose proof (disk_spot_outlives _ _ _ _ _ Ho (se_disk _ _ Hok _ _ Hi)) as Hd.
    destruct (spots_RaftNode_new recovered (settled W' G') _ _ _ _ _ _ (Hsnap i) Hnew Hwf Hd) as [Hd' Hn].
    assert (Hstart : ∀ n, r = inr n → spots (settled W' G') (Start true n).2)
      by (intros n ->; by apply (spots_steady recovered (settled W' G') _ _ (steady_Start recovered true n)), Hn).
    eapply (Hdown i); [done|..]; (destruct r as [m|n]; [done|]).
    + by destruct (Hstart n eq_refl).
    + intros ? [= <-]. by apply Hstart.
  - eapply (Hdown i (Down (env_ n))); [done| |done].
    apply (disk_spot_outlives _ _ _ _ _ Ho), (se_disk _ _ Hok _ _ Hi).
  - eapply (Hup i n n'); [done..|]. intros Hs.
    pose proof (spots_OnElectionTimeout recovered (settled W' G') g n) as Hg. rewrite Hrun in Hg.
    apply Hg; (done || lia).
  - eapply (Hup j n n'); [done..|]. pose proof (steady_OnRequestVote recovered request n) as Hs.
    rewrite Hrun in Hs. by apply (spots_steady recovered (settled W' G') n).
  - eapply (Hup (el_candidate el) n n'); [done..|].
    pose proof (steady_OnVoteResponse recovered (el_term el) resp n) as Hs.
    rewrite Hrun in Hs. by apply (spots_steady recovered (settled W' G') n).
  - eapply (Hup (el_candidate el) n n'); [done..|]. intros Hs.
    pose proof (spots_OnElectionWon (settled W' G') (el_term el) n Hs) as Hg. by rewrite Hrun in Hg.
Qed.

Lemma settled_ok_append W G G' j q n resp b n' :
  let W' := put W j n' [] [(j, areq_term q, resp)] in
  outlives W G W' G' → wire_ok cfg members W G → q ∈ sent (wire_net W) →
  hosts (cluster_of W) !! j = Some (Up n) → covers q (core n) →
  OnAppendEntriesLocked q n = ((resp, b), n') → settled_ok W G → settled_ok W' G'.
Proof.
  intros W' Ho Hwire Hq Hj Hcov Hrun Hok.
  apply (settled_ok_up W W' G G' j n' []); try done; [|by intros x ?%not_elem_of_nil].
  pose proof (wire_log_ok _ _ _ _ _ _ Hwire Hj) as Hlog.
  pose proof (ui_log _ _ _ _ (wire_up _ _ _ _ _ _ Hwire Hj)) as Hs.
  pose proof (spots_OnAppendEntries recovered (settled W' G') q n Hlog) as Happ. rewrite Hrun in Happ.
  apply Happ.
  - by apply (no_sent _ _ _ (wo_net _ _ _ _ Hwire)).
  - by apply (spots_outlives W W' G G'), (settled_spots W G j).
  - intros Hp Ht. destruct (settled_covered W G q n) as [H1' H2']; try done.
    + by apply (wo_sent _ _ _ _ Hwire).
    + by eapply (se_core _ _ Hok).
    + by apply (se_sent _ _ Hok).
    + split; by apply Ho.
Qed.

Lemma settled_ok_answer W G G' i p t target resp n :
  let W' := put W i (HandleAppendEntriesResponse p t target resp n).2 [] [] in
  outlives W G W' G' → wire_ok cfg members W G → wire_ok cfg members W' G' →
  (p, t, resp) ∈ answered W → hosts (cluster_of W) !! i = Some (Up n) →
  settled_ok W G → settled_ok W' G'.
Proof.
  intros W' Ho Hwire Hwire' Ha Hi Hok.
  apply (settled_ok_up W W' G G' i (HandleAppendEntriesResponse p t target resp n).2 []); try done;
    [|by intros q ?%not_elem_of_nil].
  pose proof (kept_Handle recovered p t target resp n) as Hk.
  apply (spots_Handle recovered (settled W' G')).
  - apply (commit_core_spot W G W' G' i n); try done.
    + apply lookup_insert_eq.
    + by apply commit_on_answer.
    + by eapply kept_log.
    + apply Hk.
    + by eapply (se_core _ _ Hok).
  - by apply (spots_outlives W W' G G'), (settled_spots W G i).
Qed.

(** A request carries its leader's commit index. *)
Lemma build_settled W G i n peer_id t r n' q :
  wire_ok cfg members W G → hosts (cluster_of W) !! i = Some (Up n) →
  is_u64 (default 0 (next_index_ (core n) !! peer_id)) →
  BuildAppendEntriesRequest peer_id t n = (r, n') → q ∈ requests_of r → settled_ok W G →
  settled W G (areq_leader_commit q) (areq_term q) (led G (areq_term q)).
Proof.
  intros Hok Hi Hnext Hb Hq Hs. destruct r as [| |q']; try (by apply not_elem_of_nil in Hq).
  apply list_elem_of_singleton in Hq as ->.
  pose proof (wire_log_ok _ _ _ _ _ _ Hok Hi) as Hlog. pose proof (wire_up _ _ _ _ _ _ Hok Hi) as Hu.
  destruct (BuildRequest_shape _ _ _ _ _ Hlog Hnext Hb) as (Hr & Ht & Htq & Hc & _).
  destruct (ui_leader _ _ _ _ Hu Hr) as (_ & Hled & _). rewrite Htq, Hc, <- Ht, Hled.
  eapply lasting; [by eapply (se_core _ _ Hs)|unfold core_mark; lia|done].
Qed.

Lemma settled_ok_own W G G' i n n' new :
  let W' := put W i n' new [] in
  outlives W G W' G' → wire_ok cfg members W G → wire_ok cfg members W' G' →
  hosts (cluster_of W) !! i = Some (Up n) → own_step n n' new →
  settled_ok W G → settled_ok W' G'.
Proof.
  intros W' Ho Hwire Hwire' Hi Hstep Hok.
  pose proof (wire_log_ok _ _ _ _ _ _ Hwire Hi) as Hlog. pose proof (wire_wf _ _ _ _ Hwire Hi) as Hwf.
  pose proof (spots_outlives W W' G G' n Ho (settled_spots W G i n Hok Hi)) as Hn.
  assert (Hgo : spots (settled W' G') n' → new = [] → settled_ok W' G').
  { intros Hs ->. apply (settled_ok_up W W' G G' i n' []); try done. by intros q ?%not_elem_of_nil. }
  assert (Hst : steady recovered n n' → new = [] → settled_ok W' G')
    by (intros ?; by apply Hgo, (spots_steady recovered (settled W' G') n)).
  assert (Happ : ∀ x, settled W' G' (core_mark (core n)) (current_term_ (core n)) (log_ (core n) ++ [x]))
    by (intros x; eapply settled_prefix; [by exists [x]|apply Hn]).
  destruct Hstep as [p t n r n' Hnext Hmax Hb|cmd n Hmax|n Hr Hmax|n|n|n|n|p f n|m n|e n He|n].
  - apply (settled_ok_up W W' G G' i n' (requests_of r)); try done.
    + pose proof (steady_BuildRequest recovered p t n) as Hs. rewrite Hb in Hs.
      by apply (spots_steady recovered (settled W' G') n).
    + intros q Hq. eapply settled_prefix; [apply Ho|]. apply Ho. by eapply build_settled.
  - apply Hgo; [|done]. by apply (spots_ProposeLocked recovered (settled W' G')).
  - apply Hgo; [|done]. by apply (spots_AppendLocalLog recovered (settled W' G')).
  - apply Hgo; [|done]. by apply (spots_ApplyIteration recovered (settled W' G')).
  - apply Hgo; [|done]. pose proof (kept_AdvanceCommit recovered (λ _ _, False) n) as Hk.
    apply (spots_AdvanceCommit recovered (settled W' G')); [|done]. apply (commit_core_spot W G W' G' i n); try done.
    + apply lookup_insert_eq.
    + by apply commit_on_rule.
    + by eapply kept_log.
    + apply Hk.
    + by eapply (se_core _ _ Hok).
  - by apply Hst; [apply (steady_OnHeartbeatTimer recovered)|].
  - by apply Hst; [apply (steady_OnSnapshotTimer recovered)|].
  - by apply Hst; [apply (steady_on_replicator recovered)|].
  - by apply Hst; [apply steady_still|].
  - by apply Hst; [apply steady_still|].
  - by apply Hst; [apply (steady_Stop recovered)|].
Qed.

Lemma covered_step_ok W W' G :
  wire_ok cfg members W G → settled_ok W G → covered_step cfg scfg sm0 W W' →
  ∃ G', wire_ok cfg members W' G' ∧ settled_ok W' G' ∧ outlives W G W' G'.
Proof.
  intros Hok Hs Hstep. pose proof (covered_step_wire _ _ _ _ _ Hstep) as Hw.
  destruct (wire_step_ok recovered cfg scfg sm0 members Hdep Hsnap _ _ _ Hok Hw) as (G' & Hok' & Hg).
  pose proof (step_outlives _ _ _ _ Hw Hg) as Ho. exists G'. split_and!; [done| |done].
  destruct Hstep as [W C' Hc|W j q n resp b n' Hq Hj Hcov Hrun|W i p t target resp n Ha Hi|W i n n' new Hi Hown].
  - by apply (settled_ok_control W C' G).
  - by apply (settled_ok_append W G G' j q n resp b n').
  - by apply (settled_ok_answer W G G' i p t target resp n).
  - by apply (settled_ok_own W G G' i n n' new).
Qed.

Lemma covered_steps_ok W W' G :
  rtc (covered_step cfg scfg sm0) W W' → wire_ok cfg members W G → settled_ok W G →
  ∃ G', wire_ok cfg members W' G' ∧ settled_ok W' G' ∧ outlives W G W' G'.
Proof.
  intros Hsteps. revert G. induction Hsteps as [W|W W1 W2 Hstep _ IH]; intros G Hok Hs; [by exists G|].
  destruct (covered_step_ok _ _ _ Hok Hs Hstep) as (G1 & Hok1 & Hs1 & Hg1 & Ho1).
  destruct (IH _ Hok1 Hs1) as (G2 & Hok2 & Hs2 & Hg2 & Ho2). exists G2. split_and!; [done|done|].
  split; [by etrans|auto].
Qed.

Lemma wire_init_settled W : wire_init members W → settled_ok W blank.
Proof.
  intros [(( _ & Hdown) & Hsent & Hdisk) _]. split.
  - intros i h Hi st. destruct (Hdown _ _ Hi) as (_ & e & ->). cbn [host_env]. by rewrite (Hdisk _ _ Hi).
  - intros i n Hi. by destruct (Hdown _ _ Hi) as (_ & e & [=]).
  - intros q. rewrite Hsent. by intros ?%not_elem_of_nil.
Qed.

Lemma covered_reachable_ok W :
  covered_reachable cfg scfg sm0 members W → ∃ G, wire_ok cfg members W G ∧ settled_ok W G.
Proof.
  intros (W0 & Hinit & Hto).
  destruct (covered_steps_ok W0 W blank Hto) as (G & Hok & Hs & _);
    [by apply wire_init_ok|by apply wire_init_settled|by exists G].
Qed.
End settled.


(** ** A run *)

Section run.
Context {SM E : Type} `{HostEnv E, IRaftStorage E, ISnapshotStorage E, !IStateMachine SM E}.
Context (cfg : Z → NodeConfig) (scfg : Z → snapshotConfig) (sm0 : Z → SM).
Implicit Types W : Wire SM E.

(** The steps of LeaderCompleteness, those of requests only when they are covered. *)
Definition covered_exec (ev : WireEvent) W : option (Wire SM E) :=
  match ev with
  | WvDeliver j m =>
      n ← running (cluster_of W) j; request ← sent (wire_net W) !! m;
      if decide (covers request (core n)) then wire_exec cfg scfg sm0 ev W else None
  | _ => wire_exec cfg scfg sm0 ev W
  end.

Fixpoint covered_run (evs : list WireEvent) W : option (Wire SM E) :=
  match evs with
  | [] => Some W
  | ev :: evs => W' ← covered_exec ev W; covered_run evs W'
  end.

Lemma covered_exec_step ev W W' : covered_exec ev W = Some W' → covered_step cfg scfg sm0 W W'.
Proof.
  destruct ev as [ev|i ev|j m|i m]; cbn [covered_exec wire_exec].
  - destruct (exec _ _ _ ev _) as [C'|] eqn:Hev; [|done]. intros [= <-]. by eapply CV_control, exec_step.
  - destruct (running _ i) as [n|] eqn:Hn; [|done]. cbn. destruct (own_exec ev n) as [[n' new]|] eqn:Ho; [|done].
    intros [= <-]. by eapply CV_own; [apply running_Some|apply own_exec_step in Ho].
  - destruct (running _ j) as [n|] eqn:Hn; [|done]. cbn. destruct (_ !! m) as [q|] eqn:Hq; [|done]. cbn.
    case_decide; [|done]. destruct (OnAppendEntriesLocked q n) as [[resp b] n'] eqn:Hrun. intros [= <-].
    eapply CV_append; [by eapply list_elem_of_lookup_2|by apply running_Some|done|exact Hrun].
  - destruct (running _ i) as [n|] eqn:Hn; [|done]. cbn.
    destruct (answered W !! m) as [[[p t] resp]|] eqn:Ha; [|done]. intros [= <-].
    by eapply CV_answer; [eapply list_elem_of_lookup_2|apply running_Some].
Qed.

Lemma covered_run_steps evs W W' : covered_run evs W = Some W' → rtc (covered_step cfg scfg sm0) W W'.
Proof.
  revert W. induction evs as [|ev evs IH]; intros W; cbn [covered_run]; [by intros [= <-]|].
  destruct (covered_exec ev W) as [W1|] eqn:Hev; [|done]. cbn. intros Hrun.
  eapply rtc_l; [by eapply covered_exec_step|by apply IH].
Qed.
End run.

Definition sim_covered_run (evs : list WireEvent) (W : Wire KvStateMachine SimEnv) :=
  covered_run sim_config (λ _, sim_no_snapshots) (λ _, mkKv ∅) evs W.

(** Node 1 commits its no-op in term 1 and tells node 2; later node 2 leads term 2, replaces an
    entry of node 1 beyond it, commits its own no-op and tells node 1. *)
Definition sim_told (i j t : Z) : list WireEvent :=
  [WvAnswer i 0; WvOwn i (OwnBuild j t); WvDeliver j 0].
Definition sim_covered :=
  W ← sim_covered_run (sim_term_1 ++ sim_told 1 2 1) sim_wire;
  W' ← sim_covered_run (sim_term_2 5 ++ sim_told 2 1 2) W;
  n ← running (cluster_of W) 2; m ← running (cluster_of W') 1; Some (W, n, W', m).

Lemma sim_covered_outcome :
  (λ '(W, n, W', m), (role_ (core n), commit_index_ (core n), LogAtIndexLocked (core n) 1,
     (role_ (core m), commit_index_ (core m)))) <$> sim_covered =
  Some (kFollower, 1, Some (sim_noop 1 1), (kFollower, 2)).
Proof. vm_compute. reflexivity. Qed.

