(* ===== verification/Replicas.v ===== *)
(** Replicas: the state machines of the nodes.  Without snapshots the machine of a running
    node is the initial one with the records of its log up to [last_applied_] applied in
    order; with CommitSafety, machines that have applied as much are in the same state. *)
From S2P Require Import Prelude Command Types Timer Metrics Env Sim Node SimNode.
From S2P Require Import NodeLog Election AppendEntries Bytes Fs StateMachine Commit.
From S2P Require Import Replicator Propose SnapshotNode Steady Votes Links Cluster LogMatching.
From S2P Require Import Carry Histories Wire Completeness Offices Spots LeaderCompleteness.
From S2P Require Import CommitSafety.

(** ** Operations that apply nothing *)
Section idle.
Context {SM E : Type} `{HostEnv E, IRaftStorage E}.
Context (recovered : PersistentRaftState → PersistentRaftState) `{!StorageLaws E recovered}.
Implicit Types n : Node SM E.

Record idle n n' : Prop := {
  id_machine : state_machine_ n' = state_machine_ n;
  id_applied : last_applied_ (core n') = last_applied_ (core n) }.

#[export] Instance idle_preorder : PreOrder idle.
Proof. split; [done|]. intros n1 n2 n3 [] []. split; congruence. Qed.

Lemma idle_steady n n' : steady recovered n n' → idle n n'.
Proof. intros [_ Hm Hl _ _ _]. split; [done|apply Hl]. Qed.

Lemma idle_host n n' : same_but_host n n' → idle n n'.
Proof. intros [_ _ Hc _ _ _ Hm]. split; [done|by rewrite Hc]. Qed.

Lemma idle_persist n : idle n (PersistStateLocked n).2.
Proof. apply idle_host, PersistStateLocked_frame. Qed.

(** Replace a write by what is known of it. *)
Ltac idle_persist_call :=
  match goal with
  | |- context [PersistStateLocked ?m] =>
      let Hq := fresh "Hq" in pose proof (idle_persist m) as Hq;
      destruct (PersistStateLocked m) as [[[] ?] ?]; cbn [fst snd negb] in *
  end.
Ltac idle_trans Hq := etrans; [|etrans; [exact Hq|]]; done.

Lemma idle_AdvanceCommit n : idle n (AdvanceCommitIndexUnlocked n).
Proof.
  unfold AdvanceCommitIndexUnlocked. case_decide; [done|]. case_decide; [done|].
  case_match; [|done]. etrans; [|apply idle_persist]. done.
Qed.

Lemma idle_Handle peer_id t target response n :
  idle n (HandleAppendEntriesResponse peer_id t target response n).2.
Proof.
  unfold HandleAppendEntriesResponse. case_match; [done|].
  case_decide; [apply idle_steady, (steady_BecomeFollower recovered); lia|].
  case_match; [done|]. case_match; cbn [snd]; [|done].
  etrans; [|apply idle_AdvanceCommit]. done.
Qed.

Lemma idle_OnAppendEntries request n : idle n (OnAppendEntriesLocked request n).2.
Proof.
  split; [apply OnAppendEntriesLocked_machine|].
  destruct (OnAppendEntriesLocked request n) as [[resp b] n'] eqn:Hrun.
  apply OnAppendEntries_effect in Hrun as [_ Heff]. cbn [snd].
  pose proof (sl_applied _ _ (follower_core_same_log (areq_term request) (areq_leader_id request) (core n))) as Ha.
  pose proof (AppendLoop_log_only (areq_entries request) (leader_seen request (core n)) false None
                (areq_prev_log_index request)) as Hloop.
  destruct Heff as [|?|? c' probe _ _ _ Hl|? ? c1 c' changed old m p c _ _ Hl _ Hf]; try done;
    rewrite Hl in Hloop; destruct Hloop as [l ->]; [done|].
  apply finish_core_log in Hf as (_ & _ & _ & _ & _ & _ & ->). done.
Qed.

Lemma idle_AppendLocalLog data n : idle n (AppendLocalLogUnlocked data n).2.
Proof. unfold AppendLocalLogUnlocked. cbv zeta. idle_persist_call; idle_trans Hq. Qed.

Lemma idle_ProposeLocked cmd n : idle n (ProposeLocked cmd n).2.
Proof.
  unfold ProposeLocked. cbv zeta. case_match; [done|]. case_decide; [done|].
  case_match; [done|]. case_decide; [done|].
  match goal with |- context [AppendLocalLogUnlocked ?d ?m] =>
    pose proof (idle_AppendLocalLog d m) as Hq; destruct (AppendLocalLogUnlocked d m) as [i n1] end.
  cbn [snd] in Hq. case_decide; idle_trans Hq.
Qed.

Lemma idle_StartElection n : idle n (StartElection n).2.
Proof.
  unfold StartElection. cbv zeta. case_match; [done|].
  assert (Htimer : ∀ m, idle m (ResetElectionTimerLocked m))
    by (intros m; apply idle_host, ResetElectionTimer_frame).
  idle_persist_call.
  - assert (Hgo : idle n (ResetElectionTimerLocked n0)) by (etrans; [|apply Htimer]; idle_trans Hq).
    by destruct (decide (quorum_of (config_ n0) ≤ 1)).
  - etrans; [|apply Htimer]. idle_trans Hq.
Qed.

Lemma idle_OnElectionTimeout g n : idle n (OnElectionTimeout g n).2.
Proof.
  unfold OnElectionTimeout.
  assert (Hgo : idle n (OnElectionTimeoutLocked g n).2)
    by (unfold OnElectionTimeoutLocked; repeat case_match; done).
  destruct (OnElectionTimeoutLocked g n) as [[] m]; [|done]. etrans; [exact Hgo|apply idle_StartElection].
Qed.

Lemma idle_OnElectionWon t n : idle n (OnElectionWonLocked t n).2.
Proof.
  unfold OnElectionWonLocked. case_match; [done|]. case_match; [done|]. cbn [snd]. split.
  - unfold BecomeLeaderLocked. cbv zeta.
    match goal with |- context [ResetHeartbeatTimerLocked ?m] =>
      rewrite (sbh_sm _ _ (ResetHeartbeatTimer_frame m)) end.
    match goal with |- context [foldl ?f ?m ?l] =>
      assert (Hf : ∀ todo m1, state_machine_ (foldl f m1 todo) = state_machine_ m1); [|by rewrite Hf] end.
    induction todo as [|q todo IH]; intros m1; [done|]. cbn [foldl]. rewrite IH.
    unfold GetOrCreateReplicatorLocked. by case_match.
  - apply BecomeLeaderLocked_effect.
Qed.
End idle.

(** ** Records applied *)

(** The machine is what the log makes of [m0]. *)
Definition machine_of {SM E} `{HostEnv E, IRaftStorage E, !IStateMachine SM E} (m0 : SM) (n : Node SM E) :
    Prop :=
  state_machine_ n = replay (log_between 0 (last_applied_ (core n)) (core n)) m0.

Lemma log_between_app a b c :
  last_snapshot_index_ c = 0 → 0 ≤ a ≤ b → log_between 0 b c = log_between 0 a c ++ log_between a b c.
Proof.
  intros Hs Hab. unfold log_between. rewrite Hs.
  replace (Z.to_nat (b - 0)) with (Z.to_nat (a - 0) + Z.to_nat (b - a))%nat by lia.
  rewrite <- take_take_drop, drop_drop. do 3 f_equal. lia.
Qed.

(** The records between are those at the indexes between. *)
Lemma log_between_agree a c c' :
  last_snapshot_index_ c = 0 → last_snapshot_index_ c' = 0 →
  (∀ k : nat, 0 < Z.of_nat k ≤ a → log_ c !! k = log_ c' !! k) →
  log_between 0 a c = log_between 0 a c'.
Proof.
  intros Hs Hs' Hk. unfold log_between. rewrite Hs, Hs', Z.sub_0_r. apply list_eq. intros i.
  destruct (decide (i < Z.to_nat a)%nat).
  - rewrite !lookup_take_lt, !lookup_drop by done. apply Hk. lia.
  - by rewrite !lookup_take_ge by lia.
Qed.

Section machines.
Context {SM E : Type} `{HostEnv E, IRaftStorage E, !IStateMachine SM E, !ApplyAtomic SM E}.
Implicit Types n : Node SM E.

Lemma machine_of_apply m0 n :
  core_ok (core n) → last_snapshot_index_ (core n) = 0 →
  machine_of m0 n → machine_of m0 (ApplyIteration n).2.
Proof.
  intros Hok Hs Hm. destruct (ApplyIteration n) as [r n'] eqn:Hrun. cbn [snd].
  pose proof (core_snapshot_applied _ Hok).
  destruct (ApplyIteration_effect _ _ _ Hok Hrun) as [_ [(Hc & Hsm & _)|(x & Hx & _ & Hc & Hsm & _)]];
    unfold machine_of in *; rewrite Hsm, Hc; [done|].
  unfold set_applied. node_simpl. set (a := last_applied_ (core n)) in *.
  change (log_between 0 (a + 1) _) with (log_between 0 (a + 1) (core n)).
  rewrite (log_between_app a (a + 1)) by (done || lia).
  rewrite (log_between_cons a (a + 1) _ x (core_log _ Hok)) by (done || lia).
  rewrite log_between_nil. unfold replay in *. rewrite foldl_app, <- Hm. cbn [foldl].
  by destruct (LogAtIndex_Some _ _ _ (core_log _ Hok) Hx) as [-> _].
Qed.

Lemma machine_of_applied m0 n r n' b :
  last_applied_ (core n) = 0 → state_machine_ n = m0 → applied_to n r n' b → machine_of m0 n'.
Proof.
  intros Ha Hm (_ & _ & Hc & Hsm & _). unfold machine_of. by rewrite Hsm, Hc, Ha, Hm.
Qed.
End machines.

(** A node starts from the initial machine, and brings it up to the commit index. *)
Section restart.
Context {SM E : Type} `{HostEnv E, IRaftStorage E, ISnapshotStorage E, !IStateMachine SM E, !ApplyAtomic SM E}.
Context (recovered : PersistentRaftState → PersistentRaftState).
Context `{!StorageLaws E recovered, !RecoveredLog recovered, !DiskFrames SM E}.

Lemma RaftNode_new_machine config snapshot_config (sm : SM) (e : E) n e' :
  enabled snapshot_config = false →
  RaftNode_new config snapshot_config sm e = (inr n, e') → disk_wf e →
  (∀ st, disk_state e = Some st → head (ps_log st) = Some bootstrap_record) → machine_of sm n.
Proof.
  intros Hen Hrun Hwf Hhead.
  apply RaftNode_new_recovers in Hrun as [[[what ?] _]|(n0 & n1 & Hc & Hm & Hd & Hn & _ & [[what ?]|[= <-]])];
    [done|done| |done].
  destruct (recovered_node_wf n0 e Hc Hd Hwf) as [Hw0 _].
  assert (Ha0 : last_applied_ (core n0) = 0).
  { rewrite Hc. destruct (disk_state e); [|done]. unfold recovered_core. by case_decide. }
  assert (Hok : core_ok (core n0)).
  { apply core_wf_ok; [done|]. unfold applied_low. rewrite Ha0.
    assert (Hh : head (log_ (core n0)) = Some bootstrap_record).
    { rewrite Hc. unfold disk_wf in *. destruct (disk_state e) as [st|]; [|done].
      destruct (recovered_core_wf _ (Hwf st eq_refl)) as [_ ->]. by apply Hhead. }
    destruct (log_front _ (cw_log _ Hw0)) as (cmd & Hf & _). rewrite Hh in Hf.
    apply (f_equal (fmap index)) in Hf. cbn in Hf. injection Hf as <-. done. }
  destruct Hn as [->| ->].
  - unfold machine_of. by rewrite Ha0, log_between_nil, Hm.
  - destruct (ApplyCommittedEntries n0) as [rr n2] eqn:Hap.
    destruct (ApplyCommittedEntries_spec _ _ _ Hok Hap) as (_ & b & Hb). by eapply machine_of_applied.
Qed.
End restart.

(** ** The machines of a cluster *)
Section replicas.
Context {SM E : Type} `{HostEnv E, IRaftStorage E, ISnapshotStorage E, !IStateMachine SM E, !ApplyAtomic SM E}.
Context (recovered : PersistentRaftState → PersistentRaftState).
Context `{!StorageLaws E recovered, !RecoveredLog recovered, !DiskFrames SM E, !SnapshotIndices E}.
Context (cfg : Z → NodeConfig) (scfg : Z → snapshotConfig) (sm0 : Z → SM) (members : gset Z).
Context (Hdep : deployment members cfg) (Hsnap : ∀ i, enabled (scfg i) = false).
Implicit Types (n m : Node SM E) (W : Wire SM E) (G : History).

Definition machines_ok W : Prop :=
  ∀ i n, hosts (cluster_of W) !! i = Some (Up n) → machine_of (sm0 i) n.

(** The invariants so far, of one wire and its history. *)
Definition good W G : Prop := wire_ok cfg members W G ∧ settled_ok members W G.

Lemma good_core W G i n :
  good W G → hosts (cluster_of W) !! i = Some (Up n) →
  core_ok (core n) ∧ last_snapshot_index_ (core n) = 0.
Proof.
  intros [Hok _] Hi. pose proof (wire_wf cfg members _ _ _ _ Hok Hi) as [Hw _].
  pose proof (sound_boundary G _ (cw_log _ Hw) (ui_log _ _ _ _ (wire_up _ _ _ _ _ _ Hok Hi))) as Hs.
  split; [|done]. apply core_wf_ok; [done|]. unfold applied_low. rewrite Hs. apply Hw.
Qed.

(** What a node has applied every node that has committed as much holds, then and later. *)
Lemma good_agree W G W' G' i j n m a :
  good W G → good W' G' → outlives members W G W' G' →
  hosts (cluster_of W) !! i = Some (Up n) → hosts (cluster_of W') !! j = Some (Up m) →
  a ≤ commit_index_ (core n) → a ≤ commit_index_ (core m) →
  log_between 0 a (core n) = log_between 0 a (core m).
Proof.
  intros Hg Hg' Ho Hi Hj Ha Ha'. destruct (good_core _ _ _ _ Hg Hi) as [_ Hs].
  destruct (good_core _ _ _ _ Hg' Hj) as [_ Hs']. destruct Hg as [Hok Hset], Hg' as [Hok' Hset'].
  apply log_between_agree; [done|done|]. intros k Hk.
  destruct (settled_agree cfg members W' G' (core_mark (core n)) (current_term_ (core n)) (log_ (core n))
    (core_mark (core m)) (current_term_ (core m)) (log_ (core m)) k) as (x & -> & ->); try done;
    [apply Ho, (se_core _ _ _ Hset _ _ Hi)|apply (se_core _ _ _ Hset' _ _ Hj)|lia|unfold core_mark; lia..].
Qed.

Lemma machine_of_idle W G W' G' i n n' :
  good W G → good W' G' → outlives members W G W' G' →
  hosts (cluster_of W) !! i = Some (Up n) → hosts (cluster_of W') !! i = Some (Up n') →
  idle n n' → machine_of (sm0 i) n → machine_of (sm0 i) n'.
Proof.
  intros Hg Hg' Ho Hi Hi' [Hm Ha] Hn. unfold machine_of in *. rewrite Hm, Hn, Ha. f_equal.
  destruct (good_core _ _ _ _ Hg Hi) as [Hc _], (good_core _ _ _ _ Hg' Hi') as [Hc' _].
  pose proof (core_applied_commit _ Hc). pose proof (core_applied_commit _ Hc').
  apply (good_agree W G W' G' i i); (done || lia).
Qed.

(** One host changes. *)
Lemma machines_put W W' i h' :
  hosts (cluster_of W') = <[i := h']> (hosts (cluster_of W)) →
  (∀ n, h' = Up n → machine_of (sm0 i) n) → machines_ok W → machines_ok W'.
Proof.
  intros Hh Hn Hok j n. rewrite Hh. intros [[<- ?]|[_ Hj]]%lookup_insert_Some; [by apply Hn|by apply Hok].
Qed.

Lemma machines_up W W' G G' i n n' :
  good W G → good W' G' → outlives members W G W' G' →
  hosts (cluster_of W) !! i = Some (Up n) → hosts (cluster_of W') = <[i := Up n']> (hosts (cluster_of W)) →
  idle n n' → machines_ok W → machines_ok W'.
Proof.
  intros Hg Hg' Ho Hi Hh Hid Hok. eapply machines_put; [exact Hh| |done]. intros ? [= <-].
  eapply (machine_of_idle W G W' G'); try done; [by rewrite Hh, lookup_insert_eq|by apply Hok].
Qed.

Lemma machines_control W C' G G' :
  let W' := mkWire (mkNet C' (sent (wire_net W))) (answered W) in
  good W G → good W' G' → outlives members W G W' G' →
  control_step cfg scfg sm0 (cluster_of W) C' → machines_ok W → machines_ok W'.
Proof.
  intros W' Hg Hg' Ho Hstep Hok.
  assert (Hup : ∀ i n n', hosts (cluster_of W) !! i = Some (Up n) →
    hosts C' = <[i := Up n']> (hosts (cluster_of W)) → idle n n' → machines_ok W')
    by (intros i n n' Hi Hh Hid; by apply (machines_up W W' G G' i n n')).
  destruct W as [[C qs] ans]. unfold cluster_of in *. cbn [wire_net net_cluster sent answered] in *.
  destruct Hstep as [C i e r e' Hi Hnew|C i n Hi|C i n g r n' Hi Ht Hrun
    |C p el before j request after n resp n' Hk Hreq Hj Hrun
    |C p el before j resp after n go n' Hk Hal Hrep Hi Hrun
    |C p el n go n' Hk Hal Hdue Hi Hrun].
  - destruct Hg as [Hwire _]. pose proof (no_hosts _ _ _ (wo_net _ _ _ _ Hwire) _ _ Hi) as Hwf. cbn in Hwf.
    eapply (machines_put (mkWire (mkNet C qs) ans) W' i); [done| |done].
    intros n Hn. destruct r as [what|m]; [done|]. injection Hn as <-.
    assert (Hm : machine_of (sm0 i) m).
    { eapply RaftNode_new_machine; [apply (Hsnap i)|exact Hnew|done|].
      intros st Hst. destruct (wo_hosts _ _ _ _ Hwire _ _ Hi) as [[Hs|[[? [=]] _]] _ _ _].
      unfold host_view, disk_view in Hs. cbn [host_env] in Hs. rewrite Hst in Hs. apply Hs. }
    pose proof (steady_Start recovered true m) as [_ Hms Hl _ _ _].
    unfold machine_of, log_between in *. rewrite Hms, Hm. by destruct Hl as [-> _ -> -> _].
  - eapply (machines_put (mkWire (mkNet C qs) ans) W' i); [done|done|done].
  - eapply (Hup i n n'); [done..|]. pose proof (idle_OnElectionTimeout g n) as Hid. by rewrite Hrun in Hid.
  - eapply (Hup j n n'); [done..|]. apply (idle_steady recovered).
    pose proof (steady_OnRequestVote recovered request n) as Hs. by rewrite Hrun in Hs.
  - eapply (Hup (el_candidate el) n n'); [done..|]. apply (idle_steady recovered).
    pose proof (steady_OnVoteResponse recovered (el_term el) resp n) as Hs. by rewrite Hrun in Hs.
  - eapply (Hup (el_candidate el) n n'); [done..|]. pose proof (idle_OnElectionWon (el_term el) n) as Hid.
    by rewrite Hrun in Hid.
Qed.

Lemma own_step_machine W G W' G' i n n' new :
  good W G → good W' G' → outlives members W G W' G' →
  hosts (cluster_of W) !! i = Some (Up n) → hosts (cluster_of W') !! i = Some (Up n') →
  own_step n n' new → machine_of (sm0 i) n → machine_of (sm0 i) n'.
Proof.
  intros Hg Hg' Ho Hi Hi' Hstep.
  assert (Hst : steady recovered n n' → machine_of (sm0 i) n → machine_of (sm0 i) n')
    by (intros ?%idle_steady; by apply (machine_of_idle W G W' G')).
  destruct Hstep as [p t n r n' Hnext Hmax Hb|cmd n Hmax|n Hr Hmax|n|n|n|n|p f n|m n|e n He|n].
  - apply Hst. pose proof (steady_BuildRequest recovered p t n) as Hs. by rewrite Hb in Hs.
  - apply (machine_of_idle W G W' G'); [done..|]. apply idle_ProposeLocked.
  - apply (machine_of_idle W G W' G'); [done..|]. apply idle_AppendLocalLog.
  - apply machine_of_apply; by eapply (good_core W G i).
  - apply (machine_of_idle W G W' G'); [done..|]. apply idle_AdvanceCommit.
  - by apply Hst, (steady_OnHeartbeatTimer recovered).
  - by apply Hst, (steady_OnSnapshotTimer recovered).
  - by apply Hst, (steady_on_replicator recovered).
  - by apply Hst, steady_still.
  - by apply Hst, steady_still.
  - by apply Hst, (steady_Stop recovered).
Qed.

Lemma covered_step_machines W W' G G' :
  covered_step cfg scfg sm0 W W' → good W G → good W' G' → outlives members W G W' G' →
  machines_ok W → machines_ok W'.
Proof.
  intros Hstep Hg Hg' Ho Hok.
  destruct Hstep as [W C' Hc|W j q n resp b n' Hq Hj Hcov Hrun|W i p t target resp n Ha Hi|W i n n' new Hi Hown].
  - by apply (machines_control W C' G G').
  - apply (machines_up W (put W j n' [] [(j, areq_term q, resp)]) G G' j n n'); try done.
    pose proof (idle_OnAppendEntries q n) as Hid. by rewrite Hrun in Hid.
  - eapply (machines_up W (put W i _ [] []) G G' i n); try done. apply (idle_Handle recovered).
  - apply (machines_put W (put W i n' new []) i (Up n')); [done| |done]. intros ? [= <-].
    eapply (own_step_machine W G (put W i n' new []) G'); try done; [apply lookup_insert_eq|by apply Hok].
Qed.

Lemma covered_steps_machines W W' G :
  rtc (covered_step cfg scfg sm0) W W' → good W G → machines_ok W →
  ∃ G', good W' G' ∧ outlives members W G W' G' ∧ machines_ok W'.
Proof.
  intros Hsteps. revert G. induction Hsteps as [W|W W1 W2 Hstep _ IH]; intros G Hg Hm; [by exists G|].
  destruct Hg as [Hok Hs].
  destruct (covered_step_ok recovered cfg scfg sm0 members Hdep Hsnap _ _ _ Hok Hs Hstep)
    as (G1 & Hok1 & Hs1 & Ho1).
  destruct (IH G1 (conj Hok1 Hs1)) as (G2 & Hg2 & Ho2 & Hm2); [by eapply covered_step_machines|].
  exists G2. split_and!; [done| |done]. destruct Ho1 as [Hg1 Ho1], Ho2 as [Hg2' Ho2].
  split; [by etrans|auto].
Qed.

Lemma covered_reachable_machines W :
  covered_reachable cfg scfg sm0 members W → ∃ G, good W G ∧ machines_ok W.
Proof.
  intros (W0 & Hinit & Hto).
  destruct (covered_steps_machines W0 W blank Hto) as (G & Hg & _ & Hm); [| |by exists G].
  - split; [by apply wire_init_ok|by apply wire_init_settled].
  - intros i n Hi. destruct Hinit as [((_ & Hdown) & _) _]. by destruct (Hdown _ _ Hi) as (_ & e & [=]).
Qed.

(** The machine that has applied more is the other one with the records between. *)
Lemma machines_agree W G W' G' i j n m :
  good W G → good W' G' → outlives members W G W' G' →
  hosts (cluster_of W) !! i = Some (Up n) → hosts (cluster_of W') !! j = Some (Up m) →
  machine_of (sm0 i) n → machine_of (sm0 j) m → sm0 i = sm0 j →
  let a := last_applied_ (core n) in let b := last_applied_ (core m) in
  (a ≤ b → state_machine_ m = replay (log_between a b (core m)) (state_machine_ n)) ∧
  (b ≤ a → state_machine_ n = replay (log_between b a (core n)) (state_machine_ m)).
Proof.
  intros Hg Hg' Ho Hi Hj Hn Hm Heq a b. unfold machine_of in *. rewrite Heq in Hn. fold a in Hn. fold b in Hm.
  destruct (good_core _ _ _ _ Hg Hi) as [Hc Hs], (good_core _ _ _ _ Hg' Hj) as [Hc' Hs'].
  pose proof (core_applied_commit _ Hc). pose proof (core_applied_commit _ Hc').
  pose proof (core_snapshot_applied _ Hc). pose proof (core_snapshot_applied _ Hc').
  unfold replay in *. split; intros Hle.
  - rewrite Hm, Hn, (log_between_app a b) by (done || lia). rewrite foldl_app. do 2 f_equal.
    symmetry. apply (good_agree W G W' G' i j); (done || lia).
  - rewrite Hm, Hn, (log_between_app b a) by (done || lia). rewrite foldl_app. do 2 f_equal.
    apply (good_agree W G W' G' i j); (done || lia).
Qed.
End replicas.


(** ** A run *)

(** Node 1 commits its no-op and a SET with node 2, which applies both; then node 1 crashes and
    starts from its disk. *)
Definition sim_replicas :=
  W ← sim_covered_run (sim_term_1 ++ [WvAnswer 1 0; WvOwn 1 (OwnPropose (mkCommand kSet "k" "v"))]
        ++ [WvOwn 1 (OwnBuild 2 1); WvDeliver 2 0] ++ sim_told 1 2 1
        ++ [WvOwn 2 OwnApply; WvOwn 2 OwnApply]) sim_wire;
  W' ← sim_covered_run (WvControl <$> [EvCrash 1; EvBoot 1]) W;
  n ← running (cluster_of W) 2; m ← running (cluster_of W') 1; Some (W, n, W', m).

Lemma sim_replicas_outcome :
  (λ '(W, n, W', m), (last_applied_ (core n), Get "k" (state_machine_ n), last_applied_ (core m))) <$>
    sim_replicas = Some (2, Some "v", 2).
Proof. vm_compute. reflexivity. Qed.

