(* ===== verification/CommitDivergence.v ===== *)
(** A run of the network in which two nodes apply different commands at one index.
    [OnAppendEntries] moves the commit index to the smaller of the leader's commit index
    and the node's own last index, where Raft takes the last index the request covers.  A
    request holds at most [kMaxAppendEntriesPerRpc] entries, so when these all match and
    the node's log goes on beyond them with entries of an older leader, the node commits
    entries the leader does not have.  The hints of rejected requests normally keep the
    leader from sending such a request; here the hint was given before a write failure
    and a crash. *)
From S2P Require Import Prelude Command Types Timer Metrics Env Sim Node SimNode.
From S2P Require Import NodeLog Election AppendEntries Bytes Fs StateMachine Commit.
From S2P Require Import Replicator Propose SnapshotNode Votes Links Cluster LogMatching.

(** ** Rounds of replication *)

(** Beside the steps of LogMatching: a whole round of leader [i] with a peer, in which the
    answer is the peer's own, and the application of an entry. *)
Inductive RoundEvent :=
  | EvNet (ev : NetEvent) | EvRound (i peer_id t : Z) | EvApply (i : Z).

Section rounds.
Context {SM E : Type} `{HostEnv E, IRaftStorage E, ISnapshotStorage E, !IStateMachine SM E}.
Context (cfg : Z → NodeConfig) (scfg : Z → snapshotConfig) (sm0 : Z → SM).
Implicit Types N : Net SM E.

Definition round_exec (ev : RoundEvent) N : option (Net SM E) :=
  match ev with
  | EvNet ev => net_exec cfg scfg sm0 ev N
  | EvRound i peer_id t =>
      N ← net_exec cfg scfg sm0 (EvBuild i peer_id t) N;
      request ← head (sent N);
      peer ← running (net_cluster N) peer_id;
      let '((response, _), peer) := OnAppendEntriesLocked request peer in
      let N := put_host N peer_id peer [] in
      leader ← running (net_cluster N) i;
      Some (put_host N i (HandleAppendEntriesResponse peer_id t 0 response leader).2 [])
  | EvApply i =>
      n ← running (net_cluster N) i; Some (put_host N i (ApplyIteration n).2 [])
  end.

Fixpoint round_run (evs : list RoundEvent) N : option (Net SM E) :=
  match evs with
  | [] => Some N
  | ev :: evs => N' ← round_exec ev N; round_run evs N'
  end.

Lemma round_exec_steps ev N N' : round_exec ev N = Some N' → rtc (net_step cfg scfg sm0) N N'.
Proof.
  destruct ev as [ev|i p t|i]; cbn [round_exec]; intros Hrun.
  - by eapply rtc_once, net_exec_step.
  - destruct (net_exec _ _ _ _ N) as [N1|] eqn:Hb; [|done]. cbn in Hrun.
    destruct (head (sent N1)) as [q|] eqn:Hq; [|done]. cbn in Hrun.
    destruct (running (net_cluster N1) p) as [peer|] eqn:Hp; [|done]. cbn in Hrun.
    pose proof (RS_append (sent N1) q peer (head_Some_elem_of _ _ Hq)) as Ha.
    destruct (OnAppendEntriesLocked q peer) as [[response b] peer'].
    destruct (running _ i) as [leader|] eqn:Hl; [|done].
    cbn in Hrun. injection Hrun as <-.
    eapply rtc_l; [by eapply net_exec_step|].
    eapply rtc_l; [eapply NS_repl; [apply running_Some; exact Hp|exact Ha]|].
    eapply rtc_once, NS_repl; [by apply running_Some|apply RS_append_reply].
  - destruct (running (net_cluster N) i) as [n|] eqn:Hn; [|done]. cbn in Hrun. injection Hrun as <-.
    eapply rtc_once, NS_repl; [by apply running_Some|apply RS_apply].
Qed.

Lemma round_run_steps evs N N' : round_run evs N = Some N' → rtc (net_step cfg scfg sm0) N N'.
Proof.
  revert N. induction evs as [|ev evs IH]; intros N; cbn [round_run]; [by intros [= <-]|].
  destruct (round_exec ev N) as [N1|] eqn:Hev; [|done]. cbn. intros Hrun.
  etrans; [by eapply round_exec_steps|by apply IH].
Qed.
End rounds.

(** ** Five members *)

Definition five_peers : list PeerConfig := (λ i, mkPeerConfig i "") <$> [1; 2; 3; 4; 5].
Definition five_config (self : Z) : NodeConfig :=
  mkNodeConfig self "" (filter (λ p, peer_node_id p ≠ self) five_peers) 150 300 50 100 ["raft_data"]
    default_kv_limits.
Definition five_members : gset Z := {[1; 2; 3; 4; 5]}.

(** The disk of node 3 fails its first write. *)
Definition five_net : Net KvStateMachine SimEnv :=
  mkNet (mkCluster (<[3 := Down (sim_init <| sim_faults := [true] |>)]>
           (gset_to_gmap (Down sim_init) five_members)) []) [].

Lemma five_deployment : deployment five_members five_config.
Proof.
  assert (Hm : ∀ i, i ∈ five_members → i = 1 ∨ i = 2 ∨ i = 3 ∨ i = 4 ∨ i = 5)
    by (unfold five_members; set_solver).
  split.
  - intros i [->|[->|[->|[->| ->]]]]%Hm; done.
  - intros i [->|[->|[->|[->| ->]]]]%Hm; apply (bool_decide_unpack _); vm_compute; exact I.
  - intros i [->|[->|[->|[->| ->]]]]%Hm; vm_compute; reflexivity.
Qed.

Definition five_run : list RoundEvent → Net KvStateMachine SimEnv → option (Net KvStateMachine SimEnv) :=
  round_run five_config (λ _, default_snapshotConfig) (λ _, mkKv ∅).

Definition control (evs : list Event) : list RoundEvent := EvNet <$> (EvControl <$> evs).
Definition propose (i : Z) (k v : string) : RoundEvent := EvNet (EvPropose i (mkCommand kSet k v)).

Definition five_events : list RoundEvent :=
  (* node 2 wins term 1 with 1 and 4, and gives 256 entries to node 1 *)
  control [EvBoot 1; EvBoot 2; EvBoot 3; EvBoot 4; EvBoot 5;
           EvTimeout 2 1; EvVote 0 0; EvReply 0 0; EvVote 0 1; EvReply 0 0; EvWon 0]
  ++ replicate 256 (propose 2 "k" "v") ++ [EvRound 2 1 1]
  (* its entry 257 stays with it *)
  ++ [propose 2 "x" "old"]
  (* node 1 wins term 2 with 4 and 5, and has its own entry 257 *)
  ++ control [EvTimeout 1 4; EvVote 1 2; EvReply 1 0; EvVote 1 2; EvReply 1 0; EvWon 1]
  ++ [propose 1 "x" "new"]
  (* node 3 cannot write term 2, answers so, and crashes: it is in term 0 again *)
  ++ [EvRound 1 3 2] ++ control [EvCrash 3; EvBoot 3]
  (* node 2, still leading term 1, brings it the 256 entries and its own entry 257 *)
  ++ [EvRound 2 3 1; EvRound 2 3 1]
  (* node 1 brings 4 and 5 up to date and commits its entry 257 *)
  ++ [EvRound 1 4 2; EvRound 1 4 2; EvRound 1 4 2; EvRound 1 5 2; EvRound 1 5 2; EvRound 1 5 2]
  (* its next request to node 3 covers 1 to 256 *)
  ++ [EvRound 1 3 2]
  ++ replicate 257 (EvApply 1) ++ replicate 257 (EvApply 3).

Lemma five_init : net_init five_members five_net.
Proof.
  assert (Hh : ∀ i h, hosts (net_cluster five_net) !! i = Some h →
    i ∈ five_members ∧ ∃ e, h = Down e ∧ disk_state e = None).
  { intros i h Hi. cbn -[gset_to_gmap] in Hi.
    apply lookup_insert_Some in Hi as [[<- <-]|[_ Hi]]; [by split; [done|eexists]|].
    apply lookup_gset_to_gmap_Some in Hi as [Hi <-]. split; [done|by eexists]. }
  split; [split; [done|]|split; [done|]].
  - intros i h Hi. destruct (Hh _ _ Hi) as (? & e & ? & _). eauto.
  - intros i e Hi. by destruct (Hh _ _ Hi) as (_ & e' & [= ->] & ?).
Qed.

(** What the run ends in, of a node: the boundaries, the entry 257 and the value of [x]. *)
Definition outcome (n : Node KvStateMachine SimEnv) : Z * Z * option LogRecord * option string :=
  (commit_index_ (core n), last_applied_ (core n), LogAtIndexLocked (core n) 257,
   Get "x" (state_machine_ n)).

Lemma five_outcome :
  (λ N, (outcome <$> running (net_cluster N) 1, outcome <$> running (net_cluster N) 3)) <$>
    five_run five_events five_net =
  Some (Some (257, 257, Some (mkLogRecord 257 2 "SET|x|new"), Some "new"),
        Some (257, 257, Some (mkLogRecord 257 1 "SET|x|old"), Some "old")).
Proof. vm_compute. reflexivity. Qed.

