(* ===== verification/ThreadPool.v ===== *)
(** [ThreadPool] (src/modules/raft/runtime/thread_pool.h and .cpp): the critical
    sections of the pool under [mu_] as operations, every interleaving of clients
    and workers as a sequence of them, and what [Stop] guarantees.  A waiting worker
    may go on as soon as the predicate it passed to [cv_.wait] holds: both writers of
    that predicate notify after they release [mu_]. *)
From S2P Require Import Prelude.

(** Where a worker thread is: waiting on [cv_] (or for [mu_]), running a task
    outside the lock, or returned from [WorkerLoop]. *)
Inductive Worker (T : Type) := Idle | Busy (task : T) | Exited.
Arguments Idle {T}.
Arguments Busy {T} _.
Arguments Exited {T}.

(** The members; [joining] is [Stop] between its locked section and the end of its
    joins. *)
Record ThreadPool (T : Type) := mkThreadPool {
  worker_count_ : nat;
  stop_ : bool;
  tasks_ : list T;
  workers_ : list (Worker T);
  joining : bool }.
Arguments mkThreadPool {T} _ _ _ _ _.
Arguments worker_count_ {T} _.
Arguments stop_ {T} _.
Arguments tasks_ {T} _.
Arguments workers_ {T} _.
Arguments joining {T} _.
#[export] Instance eta_ThreadPool T : Eta (ThreadPool T) := λ p,
  mkThreadPool (worker_count_ p) (stop_ p) (tasks_ p) (workers_ p) (joining p).

Section pool.
Context {T : Type}.
Implicit Types (p : ThreadPool T) (t : T).

(** [Start]. *)
Definition Start p : ThreadPool T :=
  if negb (stop_ p) then p
  else p <| stop_ := false |> <| workers_ ::= λ ws, ws ++ replicate (worker_count_ p) Idle |>.

(** The constructor. *)
Definition ThreadPool_new (workers : nat) : ThreadPool T :=
  Start (mkThreadPool (if decide (workers = 0%nat) then 1 else workers) true [] [] false).

(** [Submit]: whether the task was queued. *)
Definition Submit t p : bool * ThreadPool T :=
  if stop_ p then (false, p) else (true, p <| tasks_ ::= λ q, q ++ [t] |>).

(** [Stop]: its locked section, and its end, which is reached once every worker
    can be joined. *)
Definition StopLocked p : ThreadPool T :=
  if stop_ p then p else p <| stop_ := true |> <| joining := true |>.
Definition exited (w : Worker T) : bool := match w with Exited => true | _ => false end.
Definition StopJoined p : option (ThreadPool T) :=
  if joining p && forallb exited (workers_ p)
  then Some (p <| workers_ := [] |> <| joining := false |>) else None.

(** [WorkerLoop] of worker [i], one turn: its locked section ([None] while [cv_]
    keeps it waiting), and the end of the task it took. *)
Definition WorkerTake (i : nat) p : option (ThreadPool T) :=
  match workers_ p !! i with
  | Some Idle =>
      match tasks_ p with
      | [] => if stop_ p then Some (p <| workers_ ::= <[i := Exited]> |>) else None
      | t :: rest => Some (p <| tasks_ := rest |> <| workers_ ::= <[i := Busy t]> |>)
      end
  | _ => None
  end.
Definition WorkerFinish (i : nat) p : option (ThreadPool T) :=
  match workers_ p !! i with
  | Some (Busy _) => Some (p <| workers_ ::= <[i := Idle]> |>)
  | _ => None
  end.

(** ** Runs

    The history of a pool beside its state: the tasks [Submit] queued, those a
    worker took and those that ran to their end, each in order. *)
Record Run := mkRun { pool : ThreadPool T; accepted : list T; taken : list T; ran : list T }.

(** What the workers do on their own. *)
Inductive worker_step : Run → Run → Prop :=
  | step_take i r p' t rest :
      WorkerTake i (pool r) = Some p' → tasks_ (pool r) = t :: rest →
      worker_step r (mkRun p' (accepted r) (taken r ++ [t]) (ran r))
  | step_exit i r p' :
      WorkerTake i (pool r) = Some p' → tasks_ (pool r) = [] →
      worker_step r (mkRun p' (accepted r) (taken r) (ran r))
  | step_finish i r p' t :
      WorkerFinish i (pool r) = Some p' → workers_ (pool r) !! i = Some (Busy t) →
      worker_step r (mkRun p' (accepted r) (taken r) (ran r ++ [t])).

(** Everything that can happen; [Start] is not called while a [Stop] is joining. *)
Inductive pool_step : Run → Run → Prop :=
  | step_worker r r' : worker_step r r' → pool_step r r'
  | step_submit r t p' : Submit t (pool r) = (true, p') →
      pool_step r (mkRun p' (accepted r ++ [t]) (taken r) (ran r))
  | step_reject r t p' : Submit t (pool r) = (false, p') →
      pool_step r (mkRun p' (accepted r) (taken r) (ran r))
  | step_stop r : pool_step r (mkRun (StopLocked (pool r)) (accepted r) (taken r) (ran r))
  | step_joined r p' : StopJoined (pool r) = Some p' →
      pool_step r (mkRun p' (accepted r) (taken r) (ran r))
  | step_start r : joining (pool r) = false →
      pool_step r (mkRun (Start (pool r)) (accepted r) (taken r) (ran r)).

Definition run_init (workers : nat) : Run := mkRun (ThreadPool_new workers) [] [] [].
Definition pool_reachable (workers : nat) (r : Run) : Prop := rtc pool_step (run_init workers) r.

(** ** The invariant *)
Definition held (w : Worker T) : list T := match w with Busy t => [t] | _ => [] end.

Record run_ok (r : Run) : Prop := {
  ok_queue : accepted r = taken r ++ tasks_ (pool r);
  ok_taken : taken r ≡ₚ ran r ++ (workers_ (pool r) ≫= held);
  ok_count : worker_count_ (pool r) ≠ 0%nat;
  ok_workers : stop_ (pool r) = false ∨ joining (pool r) = true → workers_ (pool r) ≠ [];
  ok_stopped : stop_ (pool r) = true → joining (pool r) = false →
    workers_ (pool r) = [] ∧ tasks_ (pool r) = [];
  ok_exited : Exited ∈ workers_ (pool r) → stop_ (pool r) = true ∧ tasks_ (pool r) = [] }.

(** Changing one worker changes what the workers hold. *)
Lemma held_update ws i w w' :
  ws !! i = Some w → <[i:=w']> ws ≫= held ≡ₚ held w' ++ (delete i ws ≫= held) ∧
                     ws ≫= held ≡ₚ held w ++ (delete i ws ≫= held).
Proof.
  intros Hi. rewrite <- (take_drop_middle _ _ _ Hi) at 3.
  rewrite insert_take_drop by (by eapply lookup_lt_Some). rewrite delete_take_drop.
  rewrite !bind_app. cbn [mbind list_bind]. rewrite !(Permutation_app_comm (_ ≫= _) (_ ++ _)).
  split; rewrite <- !app_assoc; apply Permutation_app_head, Permutation_app_comm.
Qed.

Lemma elem_of_insert_ne (ws : list (Worker T)) i w x : x ∈ <[i:=w]> ws → x ≠ w → x ∈ ws.
Proof.
  intros (j & Hj)%list_elem_of_lookup Hx. apply list_elem_of_lookup.
  apply list_lookup_insert_Some in Hj as [(_ & -> & _)|[_ Hj]]; [done|eauto].
Qed.

Lemma insert_not_nil (ws : list (Worker T)) i w : ws ≠ [] → <[i:=w]> ws ≠ [].
Proof. destruct ws, i; done. Qed.

Lemma worker_step_inv r r' :
  worker_step r r' →
  ∃ i w w', workers_ (pool r) !! i = Some w ∧ workers_ (pool r') = <[i:=w']> (workers_ (pool r)) ∧
    stop_ (pool r') = stop_ (pool r) ∧ joining (pool r') = joining (pool r) ∧
    worker_count_ (pool r') = worker_count_ (pool r) ∧ accepted r' = accepted r ∧
    ((∃ t, w = Idle ∧ w' = Busy t ∧ tasks_ (pool r) = t :: tasks_ (pool r') ∧
           taken r' = taken r ++ [t] ∧ ran r' = ran r) ∨
     (w = Idle ∧ w' = Exited ∧ tasks_ (pool r) = [] ∧ tasks_ (pool r') = [] ∧
      stop_ (pool r) = true ∧ taken r' = taken r ∧ ran r' = ran r) ∨
     (∃ t, w = Busy t ∧ w' = Idle ∧ tasks_ (pool r') = tasks_ (pool r) ∧
           taken r' = taken r ∧ ran r' = ran r ++ [t])).
Proof.
  intros [i r0 p' t rest Ht Hq|i r0 p' Ht Hq|i r0 p' t Hf Hb].
  - unfold WorkerTake in Ht. rewrite Hq in Ht.
    destruct (workers_ (pool r0) !! i) as [[]|] eqn:Hi; try done. injection Ht as <-.
    exists i, Idle, (Busy t). cbn. split_and!; try done. left. by exists t.
  - unfold WorkerTake in Ht. rewrite Hq in Ht.
    destruct (workers_ (pool r0) !! i) as [[]|] eqn:Hi; try done.
    destruct (stop_ (pool r0)) eqn:Hs; [|done]. injection Ht as <-.
    exists i, Idle, Exited. cbn. split_and!; try done. right; left. done.
  - unfold WorkerFinish in Hf. rewrite Hb in Hf. injection Hf as <-.
    exists i, (Busy t), Idle. cbn. split_and!; try done. right; right. by exists t.
Qed.

Lemma worker_step_ok r r' : run_ok r → worker_step r r' → run_ok r'.
Proof.
  intros [Hq Ht Hc Hw Hs He] (i & w & w' & Hi & Hws & Hst & Hj & Hwc & Ha & Hcase)%worker_step_inv.
  destruct (held_update _ _ _ w' Hi) as [Hnew Hold].
  assert (Hne : workers_ (pool r) ≠ []) by (intros Hn; by rewrite Hn in Hi).
  assert (Hstopped : ¬ (stop_ (pool r) = true ∧ joining (pool r) = false))
    by (intros [H1 H2]; by destruct (Hs H1 H2)).
  split.
  - rewrite Ha. destruct Hcase as [(t & _ & _ & Htk & -> & _)|[(_ & _ & Htk & Htk' & _ & -> & _)
      |(t & _ & _ & Htk & -> & _)]]; rewrite Hq.
    + by rewrite Htk, <- app_assoc.
    + by rewrite Htk, Htk'.
    + by rewrite Htk.
  - rewrite Hws, Hnew. rewrite Hold in Ht.
    destruct Hcase as [(t & -> & -> & _ & -> & ->)|[(-> & -> & _ & _ & _ & -> & ->)
      |(t & -> & -> & _ & -> & ->)]]; rewrite Ht; cbn [held app].
    + rewrite <- app_assoc. apply Permutation_app_head, Permutation_app_comm.
    + done.
    + by rewrite <- app_assoc.
  - by rewrite Hwc.
  - intros _. rewrite Hws. by apply insert_not_nil.
  - rewrite Hst, Hj. intros H1 H2. by destruct Hstopped.
  - rewrite Hst, Hws. intros Hex.
    destruct Hcase as [(t & _ & -> & Htk & _)|[(_ & -> & _ & Htk' & Hstop & _)|(t & _ & -> & Htk & _)]].
    + apply elem_of_insert_ne in Hex; [|done]. destruct (He Hex) as [_ Hnil]. by rewrite Hnil in Htk.
    + done.
    + apply elem_of_insert_ne in Hex; [|done]. rewrite Htk. by apply He.
Qed.

Lemma replicate_held n : replicate n Idle ≫= held = [].
Proof. by induction n. Qed.

Lemma Start_ok p (a b c : list T) :
  joining p = false → run_ok (mkRun p a b c) → run_ok (mkRun (Start p) a b c).
Proof.
  intros Hj [Hq Ht Hc Hw Hs He]. cbn in *. unfold Start. destruct (stop_ p) eqn:Hst; cbn [negb].
  - destruct (Hs eq_refl Hj) as [Hws Htk]. split; cbn; rewrite ?Hws, ?Htk in *; cbn in *; try done.
    + by rewrite replicate_held.
    + intros _. destruct (worker_count_ p); done.
    + intros Hin. apply elem_of_replicate in Hin as [? _]. done.
  - split; cbn; rewrite ?Hst; done.
Qed.

Lemma pool_step_ok r r' : run_ok r → pool_step r r' → run_ok r'.
Proof.
  intros Hok Hps. revert Hok.
  destruct Hps as [r0 r1 Hstep|r0 t p' Hsub|r0 t p' Hsub|r0|r0 p' Hjoin|r0 Hj]; intros Hok.
  - by eapply worker_step_ok.
  - unfold Submit in Hsub. destruct (stop_ (pool r0)) eqn:Hst; [done|]. injection Hsub as <-.
    destruct Hok as [Hq Ht Hc Hw Hs He]. split; cbn; try done.
    + by rewrite Hq, <- app_assoc.
    + by rewrite Hst.
    + intros Hex. by destruct (He Hex) as [? _]; congruence.
  - unfold Submit in Hsub. destruct (stop_ (pool r0)); [|done]. injection Hsub as <-. by destruct r0.
  - unfold StopLocked. destruct (stop_ (pool r0)) eqn:Hst; [by destruct r0|].
    destruct Hok as [Hq Ht Hc Hw Hs He]. split; cbn; try done.
    + intros _. apply Hw. by left.
    + intros Hex. by destruct (He Hex) as [? _]; congruence.
  - unfold StopJoined in Hjoin. destruct (joining (pool r0)) eqn:Hj; [|done].
    destruct (forallb exited (workers_ (pool r0))) eqn:Hall; [|done]. injection Hjoin as <-.
    destruct Hok as [Hq Ht Hc Hw Hs He].
    assert (Hex : Exited ∈ workers_ (pool r0)).
    { destruct (workers_ (pool r0)) as [|w ws]; [destruct (Hw (or_intror Hj) eq_refl)|].
      cbn in Hall. apply andb_true_iff in Hall as [Hw0 _]. destruct w; [done|done|by left]. }
    destruct (He Hex) as [Hstop Htasks].
    assert (Hheld : workers_ (pool r0) ≫= held = []).
    { clear -Hall. induction (workers_ (pool r0)) as [|w ws IH]; [done|].
      cbn in Hall. apply andb_true_iff in Hall as [Hw0 Hall]. destruct w; [done|done|by apply IH]. }
    split; cbn; try done.
    + by rewrite Ht, Hheld.
    + rewrite Hstop. intros [?|?]; done.
  - apply Start_ok; [done|]. by destruct r0.
Qed.

Lemma pool_reachable_ok workers r : pool_reachable workers r → run_ok r.
Proof.
  intros Hr. unfold pool_reachable in Hr. remember (run_init workers) as r0 eqn:Hr0.
  assert (Hok : run_ok r0).
  { subst r0. apply (Start_ok _ [] [] []); [done|]. split; cbn; try done.
    - destruct (decide (workers = 0%nat)); done.
    - intros [?|?]; done. }
  clear Hr0. induction Hr as [|r0 r1 r2 Hstep _ IH]; [done|]. apply IH. by eapply pool_step_ok.
Qed.

(** ** [Stop] drains the queue *)

(** What the workers still have to do: every queued task is taken and finished,
    every worker exits. *)
Definition work_left (w : Worker T) : nat := match w with Idle => 1 | Busy _ => 2 | Exited => 0 end.
Definition drain_bound p : nat := 2 * length (tasks_ p) + sum_list (work_left <$> workers_ p).

Lemma sum_list_cons x l : sum_list (x :: l) = (x + sum_list l)%nat.
Proof. done. Qed.

Lemma sum_update ws i w w' :
  ws !! i = Some w →
  (sum_list (work_left <$> <[i:=w']> ws) + work_left w = sum_list (work_left <$> ws) + work_left w')%nat.
Proof.
  revert i. induction ws as [|w0 ws IH]; intros [|i] Hi; [done..| |].
  - injection Hi as ->. change (<[0%nat:=w']> (w :: ws)) with (w' :: ws).
    rewrite !fmap_cons, !sum_list_cons. lia.
  - specialize (IH i Hi). change (<[S i:=w']> (w0 :: ws)) with (w0 :: <[i:=w']> ws).
    rewrite !fmap_cons, !sum_list_cons. lia.
Qed.

Lemma worker_step_measure r r' :
  worker_step r r' → drain_bound (pool r) = S (drain_bound (pool r')).
Proof.
  intros (i & w & w' & Hi & Hws & _ & _ & _ & _ & Hcase)%worker_step_inv.
  unfold drain_bound. pose proof (sum_update _ _ _ w' Hi) as Hsum. rewrite <- Hws in Hsum.
  destruct Hcase as [(t & -> & -> & -> & _)|[(-> & -> & -> & -> & _)|(t & -> & -> & -> & _)]];
    cbn [work_left length] in *; lia.
Qed.

Lemma worker_progress r :
  run_ok r → stop_ (pool r) = true →
  (∃ r', worker_step r r') ∨ (forallb exited (workers_ (pool r)) = true).
Proof.
  intros Hok Hst. destruct (forallb exited (workers_ (pool r))) eqn:Hall; [by right|left].
  assert (Hex : ∃ i w, workers_ (pool r) !! i = Some w ∧ exited w = false).
  { clear -Hall. induction (workers_ (pool r)) as [|w ws IH]; [done|]. cbn in Hall.
    destruct (exited w) eqn:Hw; [|by exists 0%nat, w].
    destruct (IH Hall) as (i & w' & ? & ?). by exists (S i), w'. }
  destruct Hex as (i & w & Hi & Hw). destruct w as [|t|]; [|eexists|done].
  - destruct (tasks_ (pool r)) as [|t rest] eqn:Hq; eexists.
    + eapply (step_exit i); [|done]. unfold WorkerTake. by rewrite Hi, Hq, Hst.
    + eapply (step_take i); [|done]. unfold WorkerTake. by rewrite Hi, Hq.
  - eapply (step_finish i); [|done]. unfold WorkerFinish. by rewrite Hi.
Qed.

Lemma worker_steps_stop r r' :
  rtc worker_step r r' → stop_ (pool r') = stop_ (pool r) ∧ accepted r' = accepted r ∧
    joining (pool r') = joining (pool r).
Proof.
  induction 1 as [|r0 r1 r2 Hstep _ (IH1 & IH2 & IH3)]; [done|].
  apply worker_step_inv in Hstep as (i & w & w' & _ & _ & H1 & H2 & _ & H3 & _).
  rewrite IH1, IH2, IH3. done.
Qed.
End pool.

(** C19: [Stop] drains the pool.  Once [stop_] is set, in any reachable state: the
    workers can make at most [drain_bound] more turns whatever their order; as long
    as one has not returned, some worker can make a turn; and when none can, every worker has returned, [Stop]
    can join them, and the tasks that ran are exactly those [Submit] accepted, each
    once. *)
Theorem Stop_drains {T} workers (r : Run (T := T)) :
  pool_reachable workers r → stop_ (pool r) = true → joining (pool r) = true →
  (∀ k r', nsteps worker_step k r r' → (k ≤ drain_bound (pool r))%nat) ∧
  (∀ r', rtc worker_step r r' → (¬ ∃ r'', worker_step r' r'') →
     ran r' ≡ₚ accepted r ∧ is_Some (StopJoined (pool r'))) ∧
  ∃ r', rtc worker_step r r' ∧ ran r' ≡ₚ accepted r ∧ is_Some (StopJoined (pool r')).
Proof.
  intros Hreach Hst Hj. apply pool_reachable_ok in Hreach as Hok.
  assert (Hend : ∀ r', rtc worker_step r r' → (¬ ∃ r'', worker_step r' r'') →
            ran r' ≡ₚ accepted r ∧ is_Some (StopJoined (pool r'))).
  { intros r' Hsteps Hno. destruct (worker_steps_stop _ _ Hsteps) as (Hst' & Ha & Hj').
    assert (Hok' : run_ok r') by (clear -Hok Hsteps; induction Hsteps; eauto using worker_step_ok).
    rewrite Hst in Hst'. destruct (worker_progress r' Hok' Hst') as [?|Hall]; [done|].
    unfold StopJoined. rewrite Hj', Hj, Hall. split; [|by eexists].
    assert (Hstep : pool_step r' (mkRun ((pool r') <| workers_ := [] |> <| joining := false |>)
              (accepted r') (taken r') (ran r')))
      by (apply step_joined; unfold StopJoined; by rewrite Hj', Hj, Hall).
    apply pool_step_ok in Hstep as [Hq Ht _ _ Hs _]; [|done]. cbn in Hq, Ht, Hs.
    destruct (Hs Hst' eq_refl) as [_ Htasks].
    rewrite <- Ha, Hq, Htasks, app_nil_r, Ht. by rewrite app_nil_r. }
  split; [|split; [exact Hend|]].
  - intros k. clear. revert r. induction k as [|k IH]; intros r r' Hk; [lia|].
    inversion Hk as [|? ? r1 ? Hstep Hrest]; subst. apply worker_step_measure in Hstep.
    specialize (IH _ _ Hrest). lia.
  - assert (Hrun : ∀ m r0, drain_bound (pool r0) = m → rtc worker_step r r0 →
              ∃ r', rtc worker_step r r' ∧ ¬ ∃ r'', worker_step r' r'').
    { induction m as [m IH] using lt_wf_ind. intros r0 Hm Hr0.
      destruct (worker_steps_stop _ _ Hr0) as (Hst0 & _). rewrite Hst in Hst0.
      assert (Hok0 : run_ok r0) by (clear -Hok Hr0; induction Hr0; eauto using worker_step_ok).
      destruct (worker_progress r0 Hok0 Hst0) as [[r1 Hstep]|Hall].
      - pose proof (worker_step_measure _ _ Hstep).
        eapply (IH (drain_bound (pool r1))); [lia|done|]. by eapply rtc_r.
      - exists r0. split; [done|]. intros [r1 (i & w & w' & Hi & _ & _ & _ & _ & _ & Hc)%worker_step_inv].
        apply list_elem_of_lookup_2 in Hi. assert (Hw : exited w = true).
        { clear -Hall Hi. rewrite forallb_forall in Hall. apply Hall. by apply list_elem_of_In. }
        destruct Hc as [(? & -> & _)|[(-> & _)|(? & -> & _)]]; done. }
    destruct (Hrun _ r eq_refl (rtc_refl _ _)) as (r' & Hsteps & Hno).
    exists r'. split; [done|]. by apply Hend.
Qed.

(** Two workers, three tasks queued, one of them taken when [Stop] begins. *)
Definition stopping_run : Run (T := nat) :=
  mkRun (mkThreadPool 2 true [2; 3]%nat [Idle; Busy 1%nat] true) [1; 2; 3]%nat [1]%nat [].

Lemma stopping_run_reachable : pool_reachable 2 stopping_run.
Proof.
  eapply rtc_l; [by eapply (step_submit _ 1%nat)|].
  eapply rtc_l; [by eapply (step_submit _ 2%nat)|].
  eapply rtc_l; [by eapply step_worker, (step_take 1%nat)|].
  eapply rtc_l; [by eapply (step_submit _ 3%nat)|].
  eapply rtc_l; [by apply step_stop|]. apply rtc_refl.
Qed.

Lemma Stop_drains_witness :
  (∃ r', rtc worker_step stopping_run r' ∧ ran r' ≡ₚ [1; 2; 3]%nat ∧ is_Some (StopJoined (pool r'))) ∧
  drain_bound (pool stopping_run) = 7%nat.
Proof.
  split; [|reflexivity].
  apply (Stop_drains 2 stopping_run stopping_run_reachable eq_refl eq_refl).
Defined.
