(* ===== verification/RaftStorage.v ===== *)
(** [FileRaftStorage] (src/modules/raft/storage/raft_storage.cpp): the hard state
    in [meta.bin], the log in segment files, the write-new-then-replace protocol
    of [Save], and the recovery [Load] makes of whatever it finds. *)
From S2P Require Import Prelude Types Bytes Digits Fs FsM Env.

Definition kLegacyFileMagic : Z := 1380340785.   (* 0x52465431 *)
Definition kLegacyFileVersion : Z := 2.
Definition kLegacyStateFileName : string := "raft_state.bin".
Definition kMetaMagic : Z := 1380799553.         (* 0x524D5441 *)
Definition kMetaVersion : Z := 1.
Definition kMetaFileName : string := "meta.bin".
Definition kMetaTempFileName : string := "meta.bin.tmp".
Definition kSegmentMagic : Z := 1380732743.      (* 0x524C4F47 *)
Definition kSegmentVersion : Z := 1.
Definition kEntryTypeNormal : Z := 1.
Definition kLogDirName : string := "log".
Definition kLogTempDirName : string := "log.tmp".
Definition kLogBackupDirName : string := "log.bak".
Definition kMaxEntriesPerSegment : Z := 512.
Definition kMaxCommandBytes : Z := 67108864.

(** ** Fault injection by environment variable *)
Inductive StorageFailpoint :=
  | kNone | kMetaFileSync | kMetaDirectorySync | kLogDirectoryReplace | kLogDirectorySync
  | kFinalSegmentPartialWrite.
#[export] Instance StorageFailpoint_eq_dec : EqDecision StorageFailpoint.
Proof. solve_decision. Defined.

(** [CurrentStorageFailpoint], of the value [getenv] returns. *)
Definition CurrentStorageFailpoint (value : option string) : StorageFailpoint :=
  match value with
  | None => kNone
  | Some failpoint =>
      if decide (failpoint = "meta_file_sync") then kMetaFileSync
      else if decide (failpoint = "meta_directory_sync") then kMetaDirectorySync
      else if decide (failpoint = "log_directory_replace") then kLogDirectoryReplace
      else if decide (failpoint = "log_directory_sync") then kLogDirectorySync
      else if decide (failpoint = "final_segment_partial_write") then kFinalSegmentPartialWrite
      else kNone
  end.

Definition BuildInjectedFailureMessage (operation : string) (p : path)
    (failure_class trusted_state_expectation recovery_expectation diagnostic_expectation : string) :
    string :=
  "injected durability failure, operation=" +:+ operation +:+ ", path=" +:+ path_string p +:+
  ", failure_class=" +:+ failure_class +:+ ", linux_specific=true, trusted_state_expectation=" +:+
  trusted_state_expectation +:+ ", recovery_expectation=" +:+ recovery_expectation +:+
  ", diagnostic_expectation=" +:+ diagnostic_expectation.

(** ** The recovered hard state *)

(** [ClampRecoveredHardState]. *)
Definition ClampRecoveredHardState (st : PersistentRaftState) : PersistentRaftState :=
  let recovered_last_log_index := last_log_index_of (ps_log st) in
  let st := if decide (recovered_last_log_index < ps_commit_index st)
            then st <| ps_commit_index := recovered_last_log_index |> else st in
  let st := if decide (recovered_last_log_index < ps_last_applied st)
            then st <| ps_last_applied := recovered_last_log_index |> else st in
  if decide (ps_commit_index st < ps_last_applied st)
  then st <| ps_last_applied := ps_commit_index st |> else st.

(** ** Segment entries *)

(** [struct SegmentEntryHeader]: 36 bytes of fields, 4 of padding at the end. *)
Record SegmentEntryHeader := mkSegmentEntryHeader {
  h_magic : Z;
  h_version : Z;
  h_index : Z;
  h_term : Z;
  h_type : Z;
  h_data_size : Z;
  h_checksum : Z }.
Definition header_size : nat := 40.

(** The object representation, with the padding the compiler left there. *)
Definition header_bytes (padding : Z) (h : SegmentEntryHeader) : bytes :=
  le_bytes 4 (h_magic h) ++ le_bytes 4 (h_version h) ++ le_bytes 8 (h_index h) ++
  le_bytes 8 (h_term h) ++ le_bytes 4 (h_type h) ++ le_bytes 4 (h_data_size h) ++
  le_bytes 4 (h_checksum h) ++ le_bytes 4 padding.

(** The [n] bytes at offset [i], as an integer. *)
Definition field (i n : nat) (b : bytes) : Z := le_value (take n (drop i b)).
Definition header_of (b : bytes) : SegmentEntryHeader :=
  mkSegmentEntryHeader (field 0 4 b) (field 4 4 b) (field 8 8 b) (field 16 8 b) (field 24 4 b)
    (field 28 4 b) (field 32 4 b).

(** [ComputeEntryChecksum]. *)
Definition ComputeEntryChecksum (i t type data_size : Z) (data : bytes) : Z :=
  let hash := kFnvOffset in
  let hash := Fnv1aAppend hash (le_bytes 8 i) in
  let hash := Fnv1aAppend hash (le_bytes 8 t) in
  let hash := Fnv1aAppend hash (le_bytes 4 type) in
  let hash := Fnv1aAppend hash (le_bytes 4 data_size) in
  match data with [] => hash | _ => Fnv1aAppend hash data end.

(** ** File names and descriptions *)

(** [SegmentFileName]. *)
Definition SegmentFileName (first_index : Z) : string :=
  "segment_" +:+ FormatIndex first_index +:+ ".log".

(** [ParseSegmentStartIndex]: [None] is false. *)
Definition ParseSegmentStartIndex (p : path) : option Z :=
  let name := filename p in
  let n := String.length name in
  if (n <=? 12)%nat then None
  else if negb (String.prefix "segment_" name) then None
  else if negb (String.eqb (String.substring (n - 4) 4 name) ".log") then None
  else
    let digits := String.substring 8 (n - 8 - 4) name in
    if decide (digits = "") then None
    else if negb (all_digits digits) then None
    else stoull digits.

Definition DescribeMetaLogBoundary (meta_path : path) (first last count : Z) : string :=
  "meta_path=" +:+ path_string meta_path +:+ ", first_log_index=" +:+ pretty first +:+
  ", last_log_index=" +:+ pretty last +:+ ", log_count=" +:+ pretty count.
Definition DescribeSegmentFiles (files : list (Z * path)) : string :=
  "[" +:+ String.concat ", " ((λ f, filename f.2) <$> files) +:+ "]".

(** ** Syncing and replacing *)
Definition SyncFile (p : path) : FsM unit :=
  open_fsync_close (fs_sync p) "open file for fsync failed: " "fsync file failed: "
    "close file after fsync failed: " p.
Definition SyncDirectory (p : path) : FsM unit :=
  open_fsync_close (fs_open_dir p) "open directory for fsync failed: " "fsync directory failed: "
    "close directory after fsync failed: " p.

(** [!parent_dir.empty() && !SyncDirectory(parent_dir, error)]. *)
Definition SyncParent (p : path) : FsM unit :=
  if decide (parent_path p = []) then mret () else SyncDirectory (parent_path p).

(** [InjectFailureIfRequested], with both expectations the same text. *)
Definition InjectFailureIfRequested (failpoint_env : option string) (failpoint : StorageFailpoint)
    (operation : string) (p : path) (trusted failure_class diagnostic : string) : FsM unit :=
  if decide (CurrentStorageFailpoint failpoint_env = failpoint)
  then fail (BuildInjectedFailureMessage operation p failure_class trusted trusted diagnostic)
  else mret ().

(** [failpoint_env] is the value of [RAFT_TEST_STORAGE_FAILPOINT], [padding] what
    is in the padding bytes of an entry header. *)
Section storage.
Variable failpoint_env : option string.
Variable padding : Z.

(** [ReplaceFile]. *)
Definition ReplaceFile (src dst : path) : FsM unit :=
  there ← gets (fs_exists dst);
  (if there : bool then
     with_ec (fs_remove dst) (λ e, "remove old file failed: " +:+ path_string dst +:+ ": " +:+ e)
   else mret ());;
  with_ec (fs_rename src dst) (λ e,
    "rename file failed: " +:+ path_string src +:+ " -> " +:+ path_string dst +:+ ": " +:+ e);;
  InjectFailureIfRequested failpoint_env kMetaDirectorySync
    "meta.bin parent directory sync after replace" (parent_path dst)
    "restart must stay on the previously trusted hard-state boundary if the new meta publish reached rename/replace but the parent directory sync did not complete"
    "directory sync"
    "error should identify that meta.bin reached rename/replace but the parent directory sync boundary did not complete";;
  SyncParent dst.

(** The first half of [ReplaceDirectory]: the old directory becomes the backup. *)
Definition Park (dst backup : path) : FsM unit :=
  with_ec (fs_remove_all backup) (λ e, "remove old log backup dir failed: " +:+ e);;
  there ← gets (fs_exists dst);
  (if there : bool then
     with_ec (fs_rename dst backup) (λ e, "rename old log dir to backup failed: " +:+ e)
   else mret ()).

(** The second half: the new directory takes its place and the backup goes, or
    comes back when the rename fails. *)
Definition Publish (src dst backup : path) : FsM (option string) :=
  renamed ← attempt (with_ec (fs_rename src dst) Datatypes.id);
  match renamed with
  | Some e =>
      restore ← gets (λ s, fs_exists backup s && negb (fs_exists dst s));
      (if restore : bool then ignore_ec (fs_rename backup dst) else mret ());;
      fail ("rename new log dir failed: " +:+ e)
  | None =>
      InjectFailureIfRequested failpoint_env kLogDirectorySync
        "log parent directory sync after publish" (parent_path dst)
        "restart must stay bounded by the last fully durable segment publish if the new log tree becomes visible but the parent directory sync does not complete"
        "directory sync"
        "error should identify that the parent directory sync boundary failed after the newer log tree became visible";;
      SyncParent dst;;
      removed ← attempt (with_ec (fs_remove_all backup) Datatypes.id);
      match removed with
      | Some e => mret (Some ("saved state but failed to remove old log backup dir: " +:+ e))
      | None => attempt (SyncParent dst)
      end
  end.

(** [ReplaceDirectory]: its result is the text left in [*error] on success. *)
Definition ReplaceDirectory (src dst backup : path) : FsM (option string) :=
  Park dst backup;;
  InjectFailureIfRequested failpoint_env kLogDirectoryReplace "log directory replace" dst
    "restart must keep the previously durable segment set and must not trust a partially published newer log boundary when replacing log/ fails"
    "replace/rename"
    "error should identify that replacing log/ failed before the newer segment tree became the trusted published boundary";;
  Publish src dst backup.

(** ** Writing *)

(** [FlushAndSyncSegmentFile] of an open stream; [close] after a flush has nothing
    left to write. *)
Definition FlushAndSyncSegmentFile (segment_path : path) (is_final_segment : bool) : FsM unit :=
  on_stream fs_flush (if is_final_segment then "flush final segment file failed"
                      else "flush segment file failed");;
  if is_final_segment && bool_decide (CurrentStorageFailpoint failpoint_env = kFinalSegmentPartialWrite)
  then
    let expectation := "save must fail before publishing the new log directory, so restart stays on the previously durable log boundary and ignores the partially written temp segment" in
    _ ← attempt (on_stream (fs_write segment_path [byte_of_Z 66]) "");
    fail (BuildInjectedFailureMessage "final segment partial write during save" segment_path
            "partial write" expectation expectation
            "error should identify that the final temp segment write stopped at a partial-record boundary and that recovery must reject the untrusted tail")
  else SyncFile segment_path.

(** The header [WriteSegments] builds for a record. *)
Definition entry_header (r : LogRecord) : SegmentEntryHeader :=
  let data_size := u32 (Z.of_nat (String.length (command r))) in
  mkSegmentEntryHeader kSegmentMagic kSegmentVersion (index r) (term r) kEntryTypeNormal data_size
    (ComputeEntryChecksum (index r) (term r) kEntryTypeNormal data_size (string_bytes (command r))).

(** One turn of the loop of [WriteSegments] after the segment is open. *)
Definition WriteEntry (p : path) (r : LogRecord) : FsM unit :=
  (if decide (4294967295 < Z.of_nat (String.length (command r)))
   then fail "log command too large" else mret ());;
  on_stream (fs_write p (header_bytes padding (entry_header r))) "write binary field failed";;
  if decide (command r = "") then mret ()
  else on_stream (fs_write p (string_bytes (command r))) "write segment command failed".

(** Opening the segment of the record at [first_index]. *)
Definition OpenSegment (log_dir : path) (first_index : Z) : FsM path :=
  let p := log_dir ++ [SegmentFileName first_index] in
  on_stream (fs_open_trunc p) ("open segment file for write failed: " +:+ path_string p);;
  mret p.

(** The loop of [WriteSegments]: [current] is the open segment and how many
    entries it holds; the result is the segment open at the end. *)
Fixpoint WriteRecords (log_dir : path) (current : option (path * Z)) (records : list LogRecord) :
    FsM (option path) :=
  match records with
  | [] => mret (fst <$> current)
  | r :: records =>
      opened ← match current with
               | None => p ← OpenSegment log_dir (index r); mret (p, 0)
               | Some (p, count) =>
                   if decide (kMaxEntriesPerSegment ≤ count) then
                     FlushAndSyncSegmentFile p false;;
                     p ← OpenSegment log_dir (index r); mret (p, 0)
                   else mret (p, count)
               end;
      WriteEntry opened.1 r;;
      WriteRecords log_dir (Some (opened.1, opened.2 + 1)) records
  end.

(** [WriteSegments]. *)
Definition WriteSegments (log_dir : path) (records : list LogRecord) : FsM unit :=
  match records with
  | [] => SyncDirectory log_dir
  | _ =>
      last_segment ← WriteRecords log_dir None records;
      match last_segment with
      | Some p => FlushAndSyncSegmentFile p true
      | None => mret ()
      end;;
      SyncDirectory log_dir
  end.

(** [WriteMeta]. *)
Definition first_log_index_of (log : list LogRecord) : Z :=
  match log with [] => 0 | r :: _ => index r end.
Definition WriteMeta (meta_path : path) (st : PersistentRaftState) : FsM unit :=
  on_stream (fs_open_trunc meta_path) ("open temp meta file failed: " +:+ path_string meta_path);;
  WritePod meta_path 4 kMetaMagic;;
  WritePod meta_path 4 kMetaVersion;;
  WritePod meta_path 8 (ps_current_term st);;
  WritePod meta_path 8 (ps_voted_for st);;
  WritePod meta_path 8 (ps_commit_index st);;
  WritePod meta_path 8 (ps_last_applied st);;
  WritePod meta_path 8 (first_log_index_of (ps_log st));;
  WritePod meta_path 8 (last_log_index_of (ps_log st));;
  WritePod meta_path 8 (Z.of_nat (length (ps_log st)));;
  on_stream fs_flush "flush temp meta file failed";;
  on_stream fs_flush "close temp meta file failed";;
  InjectFailureIfRequested failpoint_env kMetaFileSync "meta.bin file sync" meta_path
    "restart must keep the previously durable term/vote/commit_index/last_applied and must not expose newer hard state when meta file data was not durably synced"
    "file sync"
    "error should identify that the meta temp file sync boundary failed before the new hard-state publish became durable";;
  SyncFile meta_path.

(** The first half of [Save]: the new log and metadata under temporary names. *)
Definition Stage (data_dir : path) (st : PersistentRaftState) : FsM unit :=
  let log_tmp_dir := data_dir ++ [kLogTempDirName] in
  with_ec (fs_create_directories data_dir) (λ e, "create data dir failed: " +:+ e);;
  with_ec (fs_remove_all log_tmp_dir) (λ e, "remove stale temp log dir failed: " +:+ e);;
  with_ec (fs_create_directories log_tmp_dir) (λ e, "create temp log dir failed: " +:+ e);;
  WriteSegments log_tmp_dir (ps_log st);;
  WriteMeta (data_dir ++ [kMetaTempFileName]) st.

(** [Save]: the log directory is replaced first, then the metadata. *)
Definition Save (data_dir : path) (st : PersistentRaftState) : FsM unit :=
  Stage data_dir st;;
  ReplaceDirectory (data_dir ++ [kLogTempDirName]) (data_dir ++ [kLogDirName])
    (data_dir ++ [kLogBackupDirName]);;
  ReplaceFile (data_dir ++ [kMetaTempFileName]) (data_dir ++ [kMetaFileName]);;
  ignore_ec (fs_remove (data_dir ++ [kLegacyStateFileName]));;
  ignore_ec (fs_remove (data_dir ++ ["raft_state.bin.tmp"])).
End storage.

(** ** Reading the metadata *)

(** [std::vector<LogRecord>::reserve]: more than [max_size()] throws. *)
Definition vector_max_size : Z := 192153584101141162.
Definition reserve (n : Z) : Result unit :=
  if decide (vector_max_size < n) then Throw "vector::reserve" else Done ().

(** The fields of [meta.bin]. *)
Record MetaFields := mkMetaFields {
  m_current_term : Z;
  m_voted_for : Z;
  m_commit_index : Z;
  m_last_applied : Z;
  m_first_log_index : Z;
  m_last_log_index : Z;
  m_log_count : Z }.

(** What [ReadMeta] makes of the contents of the file. *)
Definition ParseMeta (meta_path : path) (b : bytes) : Result MetaFields :=
  let read_field name n b :=
    match ReadPod n b with
    | Fail e => Fail ("read meta field failed: path=" +:+ path_string meta_path +:+ ", field=" +:+
                      name +:+ ", reason=" +:+ e)
    | r => r
    end in
  let! (magic, b) := read_field "magic" 4%nat b in
  let! (version, b) := read_field "version" 4%nat b in
  let! (current_term, b) := read_field "current_term" 8%nat b in
  let! (voted_for, b) := read_field "voted_for" 8%nat b in
  let! (commit_index, b) := read_field "commit_index" 8%nat b in
  let! (last_applied, b) := read_field "last_applied" 8%nat b in
  let! (first, b) := read_field "first_log_index" 8%nat b in
  let! (last, b) := read_field "last_log_index" 8%nat b in
  let! (count, b) := read_field "log_count" 8%nat b in
  let boundary := "meta log boundary invariant failed: " +:+
                  DescribeMetaLogBoundary meta_path first last count in
  if decide (magic ≠ kMetaMagic) then
    Fail ("invalid raft meta magic: path=" +:+ path_string meta_path +:+ ", magic=" +:+ pretty magic)
  else if decide (version ≠ kMetaVersion) then
    Fail ("unsupported raft meta version: path=" +:+ path_string meta_path +:+ ", version=" +:+
          pretty version)
  else if decide (count = 0) then
    if decide (first ≠ 0 ∨ last ≠ 0) then Fail boundary
    else Done (mkMetaFields current_term (to_int voted_for) commit_index last_applied first last count)
  else if decide (last < first ∨ u64 (last - first + 1) ≠ count) then Fail boundary
  else Done (mkMetaFields current_term (to_int voted_for) commit_index last_applied first last count).

(** [ReadMeta]. *)
Definition ReadMeta (meta_path : path) : FsM MetaFields := λ s,
  match fs_read meta_path s with
  | (None, s) => (Fail ("open meta file failed: " +:+ path_string meta_path), s)
  | (Some b, s) => (ParseMeta meta_path b, s)
  end.

(** ** Reading the segments *)

(** The loop of [ReadSegmentFile] over the unread bytes [b] at offset [pos]: the
    records accepted, and, when the tail is bad, where it starts and why.  A turn
    consumes a header at least, so [fuel] beyond the length never runs out. *)
Fixpoint ScanSegment (fuel : nat) (first last : Z) (b : bytes) (pos : Z) (records : list LogRecord) :
    list LogRecord * option (Z * string) :=
  match fuel with
  | O => (records, None)              (* excluded: recovery_loops_terminate *)
  | S fuel =>
      match b with
      | [] => (records, None)
      | _ =>
          match read_bytes header_size b with
          | None => (records, Some (pos, "partial segment entry header"))
          | Some (hb, b) =>
              let h := header_of hb in
              if bool_decide (h_magic h ≠ kSegmentMagic) || bool_decide (h_version h ≠ kSegmentVersion) ||
                 bool_decide (h_type h ≠ kEntryTypeNormal) || bool_decide (kMaxCommandBytes < h_data_size h)
              then
                (records, Some (pos, "invalid segment entry header at offset=" +:+ pretty pos +:+
                   ", magic=" +:+ pretty (h_magic h) +:+ ", version=" +:+ pretty (h_version h) +:+
                   ", type=" +:+ pretty (h_type h) +:+ ", data_size=" +:+ pretty (h_data_size h)))
              else
                match read_bytes (Z.to_nat (h_data_size h)) b with
                | None => (records, Some (pos, "partial segment entry payload"))
                | Some (data, b) =>
                    let checksum :=
                      ComputeEntryChecksum (h_index h) (h_term h) (h_type h) (h_data_size h) data in
                    if decide (checksum ≠ h_checksum h) then
                      (records, Some (pos, "segment checksum mismatch at index=" +:+ pretty (h_index h) +:+
                         ", expected=" +:+ pretty (h_checksum h) +:+ ", actual=" +:+ pretty checksum))
                    else
                      let records :=
                        if bool_decide (first ≤ h_index h) && bool_decide (h_index h ≤ last)
                        then records ++ [mkLogRecord (h_index h) (h_term h) (bytes_string data)]
                        else records in
                      ScanSegment fuel first last b (pos + Z.of_nat header_size + h_data_size h) records
                end
          end
      end
  end.

(** [TruncateFile]. *)
Definition TruncateFile (p : path) (size : Z) : FsM unit :=
  with_ec (fs_resize_file p (Z.to_nat size))
    (λ e, "truncate segment file failed: " +:+ path_string p +:+ ": " +:+ e);;
  SyncFile p.

(** What the loop of [LoadSegments] carries: the records, [tail_truncated] and
    [recovery_diagnostics]. *)
Record Recovery := mkRecovery {
  rc_records : list LogRecord;
  rc_truncated : bool;
  rc_diagnostics : list string }.

(** [ReadSegmentFile]. *)
Definition ReadSegmentFile (p : path) (first last : Z) (r : Recovery) : FsM Recovery := λ s,
  match fs_read p s with
  | (None, s) => (Fail ("open segment file failed: " +:+ path_string p), s)
  | (Some b, s) =>
      match ScanSegment (S (length b)) first last b 0 (rc_records r) with
      | (records, None) => (Done (mkRecovery records (rc_truncated r) (rc_diagnostics r)), s)
      | (records, Some (pos, reason)) =>
          (TruncateFile p pos;;
           mret (mkRecovery records true
             (rc_diagnostics r ++
              ["segment tail truncated, path=" +:+ path_string p +:+ ", reason=" +:+ reason +:+
               ", truncate_offset=" +:+ pretty pos +:+ ", accepted_records=" +:+
               pretty (length records)]))) s
      end
  end.

(** The second loop of [LoadSegments]. *)
Fixpoint ReadSegments (files : list (Z * path)) (first last : Z) (r : Recovery) : FsM Recovery :=
  match files with
  | [] => mret r
  | (_, p) :: files =>
      r ← (if rc_truncated r then
             let cleanup := "removed_later_segment=" +:+ path_string p in
             with_ec (fs_remove p) (λ e, cleanup +:+ ", reason=" +:+ e);;
             mret (mkRecovery (rc_records r) true (rc_diagnostics r ++ [cleanup]))
           else ReadSegmentFile p first last r);
      ReadSegments files first last r
  end.

(** The first loop: the segment files of the directory. *)
Definition segment_entry (entry : path * FsNode) : option (Z * path) :=
  match entry.2 with
  | File _ => (λ i, (i, entry.1)) <$> ParseSegmentStartIndex entry.1
  | Dir => None
  end.
Definition start_le (a b : Z * path) : Prop := a.1 ≤ b.1.
#[export] Instance start_le_dec : RelDecision start_le.
Proof. unfold start_le. intros a b. apply _. Defined.
Definition SegmentFiles (log_dir : path) (s : Fs) : list (Z * path) :=
  merge_sort start_le (omap segment_entry (fs_list log_dir s)).

(** The check that indices follow each other, from the record before. *)
Fixpoint first_gap (previous : Z) (records : list LogRecord) : option (Z * Z) :=
  match records with
  | [] => None
  | r :: records => if decide (index r ≠ u64 (previous + 1)) then Some (previous, index r)
                    else first_gap (index r) records
  end.

(** The checks of [LoadSegments] on what was read: the records, or the error. *)
Definition CheckRecovery (log_dir : path) (first last expected_count : Z) (files : list (Z * path))
    (r : Recovery) : Result (list LogRecord) :=
  let records := rc_records r in
  let removed_later_segment :=
    existsb (String.prefix "removed_later_segment=") (rc_diagnostics r) in
  let accepted_truncated_prefix :=
    rc_truncated r && negb removed_later_segment &&
    match records with
    | [] => bool_decide (first = 0)
    | x :: _ => bool_decide (index x = first)
    end in
  if bool_decide (Z.of_nat (length records) ≠ expected_count) && negb accepted_truncated_prefix then
    Fail ("log count mismatch, log_dir=" +:+ path_string log_dir +:+ ", expected_count=" +:+
          pretty expected_count +:+ ", actual_count=" +:+ pretty (length records) +:+
          ", expected_first=" +:+ pretty first +:+ ", expected_last=" +:+ pretty last +:+
          match records with
          | [] => ""
          | x :: _ => ", actual_first=" +:+ pretty (index x) +:+ ", actual_last=" +:+
                      pretty (last_log_index_of records)
          end +:+ ", segment_files=" +:+ DescribeSegmentFiles files +:+
          foldr (λ d out, ", " +:+ d +:+ out) "" (rc_diagnostics r))
  else
    match records with
    | [] => Done []
    | x :: rest =>
        if bool_decide (index x ≠ first) ||
           (negb (rc_truncated r) && bool_decide (last_log_index_of records ≠ last))
        then
          Fail ("log boundary mismatch while loading segments, log_dir=" +:+ path_string log_dir +:+
                ", expected_first=" +:+ pretty first +:+ ", expected_last=" +:+ pretty last +:+
                ", actual_first=" +:+ pretty (index x) +:+ ", actual_last=" +:+
                pretty (last_log_index_of records) +:+ ", segment_files=" +:+
                DescribeSegmentFiles files)
        else
          match first_gap (index x) rest with
          | Some (previous, actual) =>
              Fail ("non-contiguous log indexes while loading segments, log_dir=" +:+
                    path_string log_dir +:+ ", previous_index=" +:+ pretty previous +:+
                    ", actual_index=" +:+ pretty actual +:+ ", segment_files=" +:+
                    DescribeSegmentFiles files)
          | None => Done records
          end
    end.

(** [LoadSegments]. *)
Definition LoadSegments (log_dir : path) (first last expected_count : Z) : FsM (list LogRecord) :=
  if decide (expected_count = 0) then mret []
  else
    there ← gets (fs_exists log_dir);
    if negb there then fail ("log dir does not exist: " +:+ path_string log_dir)
    else
      files ← gets (SegmentFiles log_dir);
      lift (reserve expected_count);;
      r ← ReadSegments files first last (mkRecovery [] false []);
      lift (CheckRecovery log_dir first last expected_count files r).

(** [LoadSegmented]. *)
Definition LoadSegmented (meta_path log_dir : path) : FsM PersistentRaftState :=
  let failed e := "load segmented raft state failed: meta=" +:+ path_string meta_path +:+
                  ", log_dir=" +:+ path_string log_dir +:+ e in
  m ← rename_error (λ e, failed (", reason=" +:+ e)) (ReadMeta meta_path);
  let first := m_first_log_index m in
  let last := m_last_log_index m in
  let count := m_log_count m in
  loaded ← rename_error
    (λ e, failed (", " +:+ DescribeMetaLogBoundary meta_path first last count +:+ ", reason=" +:+ e))
    (LoadSegments log_dir first last count);
  mret (ClampRecoveredHardState (mkPersistentRaftState (m_current_term m) (m_voted_for m)
          (m_commit_index m) (m_last_applied m) loaded)).

(** ** The legacy single-file state *)

(** [ReadString]. *)
Definition ReadString (b : bytes) : Result (string * bytes) :=
  let! (size, b) := ReadPod 8 b in
  if decide (kMaxCommandBytes < size) then Fail "string payload too large"
  else if decide (size = 0) then Done ("", b)
  else match read_bytes (Z.to_nat size) b with
       | Some (v, b) => Done (bytes_string v, b)
       | None => Fail "unexpected EOF while reading string payload"
       end.

(** The loop of [LoadLegacy]: a record takes 24 bytes at least, so [fuel] beyond
    the length of the file never runs out. *)
Fixpoint ReadLegacyLog (fuel : nat) (log_count : Z) (b : bytes) : Result (list LogRecord) :=
  if decide (log_count ≤ 0) then Done []
  else
    match fuel with
    | O => Fail "unexpected EOF"        (* excluded: recovery_loops_terminate *)
    | S fuel =>
        let! (i, b) := ReadPod 8 b in
        let! (t, b) := ReadPod 8 b in
        let! (c, b) := ReadString b in
        let! records := ReadLegacyLog fuel (log_count - 1) b in
        Done (mkLogRecord i t c :: records)
    end.

Definition ParseLegacy (b : bytes) : Result PersistentRaftState :=
  let! (magic, b) := ReadPod 4 b in
  let! (version, b) := ReadPod 4 b in
  let! (current_term, b) := ReadPod 8 b in
  let! (voted_for, b) := ReadPod 8 b in
  if decide (magic ≠ kLegacyFileMagic) then Fail "invalid legacy raft state magic"
  else if decide (version ≠ 1 ∧ version ≠ kLegacyFileVersion) then
    Fail "unsupported legacy raft state version"
  else
    let! (boundaries, b) :=
      (if decide (version = 1) then Done ((0, 0), b)
       else let! (commit_index, b) := ReadPod 8 b in
            let! (last_applied, b) := ReadPod 8 b in Done ((commit_index, last_applied), b)) in
    let! (log_count, b) := ReadPod 8 b in
    let! _ := reserve log_count in
    let! log := ReadLegacyLog (S (length b)) log_count b in
    Done (ClampRecoveredHardState
            (mkPersistentRaftState current_term (to_int voted_for) boundaries.1 boundaries.2 log)).

(** [LoadLegacy]. *)
Definition LoadLegacy (state_path : path) : FsM PersistentRaftState := λ s,
  match fs_read state_path s with
  | (None, s) => (Fail ("open legacy state file failed: " +:+ path_string state_path), s)
  | (Some b, s) => (ParseLegacy b, s)
  end.

(** ** [Load]: the state and [*has_state]; the outputs of a call that fails are
    not modelled, its one caller throws. *)
Definition Load (data_dir : path) : FsM (PersistentRaftState * bool) :=
  let meta_path := data_dir ++ [kMetaFileName] in
  let legacy_path := data_dir ++ [kLegacyStateFileName] in
  segmented ← gets (fs_exists meta_path);
  if segmented : bool then st ← LoadSegmented meta_path (data_dir ++ [kLogDirName]); mret (st, true)
  else
    legacy ← gets (fs_exists legacy_path);
    if legacy : bool then st ← LoadLegacy legacy_path; mret (st, true)
    else mret (mkPersistentRaftState 0 (-1) 0 0 [], false).
