(* ===== verification/RaftRecovery.v ===== *)
(** What [FileRaftStorage] guarantees: the entry codec, the segment directory, the
    replacement protocol of [Save] as steps between disk layouts, what [Load]
    recovers from each layout and from arbitrary bytes, and every crash point of a
    save. *)
From S2P Require Import Prelude Command Types Bytes Digits Fs FsM Layout Env Node NodeLog.
From S2P Require Import RaftStorage.

(** ** Entries *)

(** A record the format can hold. *)
Definition record_fits (r : LogRecord) : Prop :=
  is_u64 (index r) ∧ is_u64 (term r) ∧ Z.of_nat (String.length (command r)) ≤ kMaxCommandBytes.

(** What [WriteEntry] appends to a segment. *)
Definition entry_bytes (padding : Z) (r : LogRecord) : bytes :=
  header_bytes padding (entry_header r) ++ string_bytes (command r).
Definition entries_bytes (padding : Z) (rs : list LogRecord) : bytes :=
  concat (entry_bytes padding <$> rs).

(** A record of the accepted range, as [ScanSegment] keeps it. *)
Definition in_range (first last : Z) (r : LogRecord) : bool :=
  bool_decide (first ≤ index r) && bool_decide (index r ≤ last).

Section entries.
Implicit Types b : bytes.

Lemma length_header padding h : length (header_bytes padding h) = header_size.
Proof. unfold header_bytes. by rewrite !length_app, !length_le_bytes. Qed.

Lemma field_head v c n : length v = n → field 0 n (v ++ c) = le_value v.
Proof. intros <-. unfold field. by rewrite drop_0, take_app_length. Qed.

Lemma field_skip a b i n : field (length a + i) n (a ++ b) = field i n b.
Proof. unfold field. by rewrite drop_app_add. Qed.

Lemma field_le k z b i n : (k ≤ i)%nat → field i n (le_bytes k z ++ b) = field (i - k) n b.
Proof.
  intros Hk. rewrite <- (field_skip (le_bytes k z) b (i - k)), length_le_bytes. f_equal. lia.
Qed.

Lemma header_of_bytes padding h :
  0 ≤ h_magic h < 256 ^ 4 → 0 ≤ h_version h < 256 ^ 4 → is_u64 (h_index h) → is_u64 (h_term h) →
  0 ≤ h_type h < 256 ^ 4 → 0 ≤ h_data_size h < 256 ^ 4 → 0 ≤ h_checksum h < 256 ^ 4 →
  header_of (header_bytes padding h) = h.
Proof.
  intros Hm Hv Hi Ht Hty Hd Hc. unfold header_of, header_bytes.
  repeat (first [rewrite field_head by apply length_le_bytes | rewrite field_le by lia];
          cbn [Nat.sub]).
  rewrite !le_value_bytes_id by (unfold is_u64, u64_max in *; cbn; lia). by destruct h.
Qed.

Lemma checksum_range i t ty n data : 0 ≤ ComputeEntryChecksum i t ty n data < 256 ^ 4.
Proof.
  unfold ComputeEntryChecksum. cbv zeta.
  destruct data; repeat apply (Fnv1aAppend_range _ _); unfold kFnvOffset; cbn; lia.
Qed.

Lemma data_size_fits r :
  record_fits r → u32 (Z.of_nat (String.length (command r))) = Z.of_nat (String.length (command r)).
Proof. intros (_ & _ & Hc). unfold u32. apply Z.mod_small. unfold kMaxCommandBytes in Hc. lia. Qed.

Lemma entry_header_of padding r :
  record_fits r → header_of (header_bytes padding (entry_header r)) = entry_header r.
Proof.
  intros Hr. pose proof (data_size_fits r Hr) as Hd. destruct Hr as (Hi & Ht & Hc).
  apply header_of_bytes; unfold entry_header; cbn -[Z.pow]; try done.
  - rewrite Hd. unfold kMaxCommandBytes in Hc. change (256 ^ 4) with 4294967296. lia.
  - apply checksum_range.
Qed.

Lemma length_entry padding r :
  length (entry_bytes padding r) = (header_size + String.length (command r))%nat.
Proof. unfold entry_bytes. by rewrite length_app, length_header, length_string_bytes. Qed.

(** One whole entry is taken as the record it encodes. *)
Lemma ScanSegment_entry fuel padding first last r b pos records :
  record_fits r →
  ScanSegment (S fuel) first last (entry_bytes padding r ++ b) pos records =
    ScanSegment fuel first last b (pos + Z.of_nat (length (entry_bytes padding r)))
      (if in_range first last r then records ++ [r] else records).
Proof.
  intros Hr. cbn [ScanSegment].
  destruct (entry_bytes padding r ++ b) as [|x l] eqn:Hb.
  { apply (f_equal length) in Hb. rewrite length_app, length_entry in Hb. cbn in Hb. lia. }
  rewrite <- Hb. clear x l Hb. unfold entry_bytes at 1. rewrite <- app_assoc.
  rewrite read_bytes_app by apply length_header. cbv zeta. rewrite (entry_header_of padding r Hr).
  pose proof (data_size_fits r Hr) as Hd. pose proof Hr as (Hi & Ht & Hc).
  assert (Hsz : h_data_size (entry_header r) = Z.of_nat (String.length (command r))) by exact Hd.
  rewrite (bool_decide_false (h_magic _ ≠ _)) by (by intros []).
  rewrite (bool_decide_false (h_version _ ≠ _)) by (by intros []).
  rewrite (bool_decide_false (h_type _ ≠ _)) by (by intros []).
  rewrite (bool_decide_false (kMaxCommandBytes < _)) by lia. cbn [orb].
  rewrite Hsz, Nat2Z.id, read_bytes_app by apply length_string_bytes.
  rewrite <- Hsz. rewrite (decide_False (P := _ ≠ h_checksum _)) by (by intros []).
  rewrite bytes_string_bytes. rewrite length_entry.
  replace (pos + Z.of_nat header_size + h_data_size (entry_header r))
    with (pos + Z.of_nat (header_size + String.length (command r))) by lia.
  by destruct r.
Qed.

Lemma ScanSegment_entries fuel padding first last rs b pos records :
  Forall record_fits rs →
  ScanSegment (length rs + fuel) first last (entries_bytes padding rs ++ b) pos records =
    ScanSegment fuel first last b (pos + Z.of_nat (length (entries_bytes padding rs)))
      (records ++ filter (in_range first last) rs).
Proof.
  revert pos records. induction rs as [|r rs IH]; intros pos records Hrs.
  { cbn. rewrite app_nil_r. by rewrite Z.add_0_r. }
  apply Forall_cons in Hrs as [Hr Hrs]. cbn [length Nat.add].
  change (entries_bytes padding (r :: rs)) with (entry_bytes padding r ++ entries_bytes padding rs).
  rewrite <- app_assoc, ScanSegment_entry, IH by done. rewrite length_app. rewrite filter_cons.
  f_equal; [lia|]. destruct (in_range first last r) eqn:Hin.
  - rewrite decide_True by (by apply Is_true_true_2). by rewrite <- app_assoc.
  - rewrite decide_False by (by intros []). done.
Qed.

Lemma length_entries padding rs : (length rs ≤ length (entries_bytes padding rs))%nat.
Proof.
  induction rs as [|r rs IH]; [done|].
  change (entries_bytes padding (r :: rs)) with (entry_bytes padding r ++ entries_bytes padding rs).
  rewrite length_app, length_entry. cbn [length]. unfold header_size. lia.
Qed.
End entries.

(** ** The segment directory *)

(** Segments, newest first, after one more record. *)
Definition add_record (segments : list (list LogRecord)) (r : LogRecord) : list (list LogRecord) :=
  match segments with
  | rs :: older =>
      if decide (kMaxEntriesPerSegment ≤ Z.of_nat (length rs)) then [r] :: rs :: older
      else (rs ++ [r]) :: older
  | [] => [[r]]
  end.
Definition segments_of (records : list LogRecord) : list (list LogRecord) :=
  foldl add_record [] records.

Definition segment_name (rs : list LogRecord) : string := SegmentFileName (first_log_index_of rs).
Definition segment_tree (padding : Z) (segments : list (list LogRecord)) : gmap path bytes :=
  foldr (λ rs t, <[[segment_name rs] := entries_bytes padding rs]> t) ∅ segments.

Section writing.
Context (failpoint_env : option string) (padding : Z).
Implicit Types s : Fs.

Lemma SyncFile_Done p s u s' : SyncFile p s = (Done u, s') → nodes s' = nodes s.
Proof. apply open_fsync_close_Done. intros ???. apply fs_sync_nodes. Qed.
Lemma SyncDirectory_Done p s u s' : SyncDirectory p s = (Done u, s') → nodes s' = nodes s.
Proof. apply open_fsync_close_Done. intros ???. apply fs_open_dir_nodes. Qed.
Lemma SyncParent_Done p s u s' : SyncParent p s = (Done u, s') → nodes s' = nodes s.
Proof. unfold SyncParent. case_decide; [by intros [= _ <-]|apply SyncDirectory_Done]. Qed.
Lemma InjectFailure_Done fp operation p t c d s u s' :
  InjectFailureIfRequested failpoint_env fp operation p t c d s = (Done u, s') → s' = s.
Proof. unfold InjectFailureIfRequested. case_decide; [done|]. by intros [= _ <-]. Qed.

Lemma FlushAndSync_Done p final s u s' :
  FlushAndSyncSegmentFile failpoint_env p final s = (Done u, s') → nodes s' = nodes s.
Proof.
  unfold FlushAndSyncSegmentFile. intros H. step_run H s1 H1.
  apply on_stream_Done, fs_flush_nodes in H1. destruct (final && _).
  - step_run H s2 H2. done.
  - rewrite <- H1. by eapply SyncFile_Done.
Qed.

Lemma WriteEntry_Done p r b s u s' :
  WriteEntry padding p r s = (Done u, s') → nodes s !! p = Some (File b) →
  nodes s' !! p = Some (File (b ++ entry_bytes padding r)) ∧ only_at p s s'.
Proof.
  unfold WriteEntry, entry_bytes. intros H Hb. step_run H s1 H1.
  destruct (decide (_ < _)); [done|]. injection H1 as _ <-. step_run H s2 H2.
  apply on_stream_Done in H2.
  pose proof (fs_write_true _ _ _ _ _ H2 Hb) as Hb2. apply fs_write_only in H2.
  case_decide as He.
  - injection H as _ <-. rewrite He. change (string_bytes "") with (@nil ascii). by rewrite app_nil_r.
  - apply on_stream_Done in H. rewrite app_assoc. split; [by eapply fs_write_true|].
    apply fs_write_only in H. by etrans.
Qed.

Lemma OpenSegment_Done d i s p s' :
  OpenSegment d i s = (Done p, s') →
  p = d ++ [SegmentFileName i] ∧ nodes s' !! p = Some (File []) ∧ only_at p s s'.
Proof.
  unfold OpenSegment. intros H. step_run H s1 H1. apply on_stream_Done in H1.
  injection H as <- <-. split; [done|]. split; [by eapply fs_open_trunc_true|].
  by eapply fs_open_trunc_only.
Qed.

(** The open segment is the newest one. *)
Definition current_of (d : path) (segments : list (list LogRecord)) : option (path * Z) :=
  match segments with
  | [] => None
  | rs :: _ => Some (d ++ [segment_name rs], Z.of_nat (length rs))
  end.

Lemma first_snoc rs (r : LogRecord) :
  rs ≠ [] → first_log_index_of (rs ++ [r]) = first_log_index_of rs.
Proof. by destruct rs. Qed.

Lemma entries_snoc rs r :
  entries_bytes padding (rs ++ [r]) = entries_bytes padding rs ++ entry_bytes padding r.
Proof. unfold entries_bytes. rewrite fmap_app, concat_app. cbn. by rewrite app_nil_r. Qed.

(** One turn of the loop adds the record to the segments. *)
Lemma WriteTurn_fresh d segments r s p s1 u s2 :
  holds d (segment_tree padding segments) s →
  OpenSegment d (index r) s = (Done p, s1) → WriteEntry padding p r s1 = (Done u, s2) →
  p = d ++ [segment_name [r]] ∧ holds d (segment_tree padding ([r] :: segments)) s2.
Proof.
  intros Hd Ho Hw. apply OpenSegment_Done in Ho as (-> & Hp & Hoa). split; [done|].
  destruct (WriteEntry_Done _ _ _ _ _ _ Hw Hp) as [Hp2 Hoa2].
  eapply (holds_insert d _ (segment_name [r]) _ s); [done| |by etrans].
  etrans; [exact Hp2|]. unfold entries_bytes. cbn [fmap list_fmap concat]. by rewrite app_nil_r.
Qed.

Lemma WriteRecords_Done d segments records s out s' :
  WriteRecords failpoint_env padding d (current_of d segments) records s = (Done out, s') →
  Forall (λ rs, rs ≠ []) segments → holds d (segment_tree padding segments) s →
  holds d (segment_tree padding (foldl add_record segments records)) s'.
Proof.
  revert segments s. induction records as [|r records IH]; intros segments s H Hne Hd.
  { by injection H as _ <-. }
  cbn [WriteRecords] in H. apply bind_Done in H as (opened & s1 & Hop & H).
  apply bind_Done in H as (u & s2 & Hw & H). cbn [foldl].
  assert (Hnext : Some (opened.1, opened.2 + 1) = current_of d (add_record segments r) ∧
                  holds d (segment_tree padding (add_record segments r)) s2).
  { destruct segments as [|rs older]; cbn [current_of add_record] in *.
    - apply bind_Done in Hop as (p & s3 & Hop & [= <- <-]).
      destruct (WriteTurn_fresh _ [] _ _ _ _ _ _ Hd Hop Hw) as [-> Hd2]. done.
    - apply Forall_cons in Hne as [Hrs _]. case_decide as Hfull.
      + apply bind_Done in Hop as ([] & s3 & Hfl & Hop). apply FlushAndSync_Done in Hfl.
        apply bind_Done in Hop as (p & s4 & Hop & [= <- <-]).
        apply (holds_nodes _ _ _ s3) in Hd; [|done].
        destruct (WriteTurn_fresh _ (rs :: older) _ _ _ _ _ _ Hd Hop Hw) as [-> Hd2]. done.
      + injection Hop as <- <-. cbn [fst snd] in *.
        assert (Hp : nodes s !! (d ++ [segment_name rs]) = Some (File (entries_bytes padding rs))).
        { rewrite (Hd [segment_name rs]). cbn [segment_tree foldr]. by rewrite lookup_insert_eq. }
        destruct (WriteEntry_Done _ _ _ _ _ _ Hw Hp) as [Hp2 Hoa2].
        split.
        * unfold current_of, segment_name. rewrite first_snoc by done. do 2 f_equal.
          rewrite length_app. cbn. lia.
        * pose proof (holds_insert _ _ _ _ _ _ Hd Hp2 Hoa2) as Hd2. cbn [segment_tree foldr] in Hd2 |- *.
          rewrite insert_insert_eq in Hd2. unfold segment_name at 1. rewrite first_snoc by done.
          by rewrite entries_snoc. }
  destruct Hnext as [Hcur Hd2]. rewrite Hcur in H. apply (IH _ _ H); [|done].
  destruct segments as [|rs older]; cbn [add_record]; [by repeat constructor|].
  apply Forall_cons in Hne as [Hrs Hne]. case_decide; repeat constructor; try done. by destruct rs.
Qed.

Lemma WriteSegments_Done d records s u s' :
  WriteSegments failpoint_env padding d records s = (Done u, s') → holds d ∅ s →
  holds d (segment_tree padding (segments_of records)) s'.
Proof.
  unfold WriteSegments. intros H Hd. destruct records as [|r records].
  { eapply holds_nodes; [by eapply SyncDirectory_Done|done]. }
  apply bind_Done in H as (out & s1 & Hw & H). step_run H s2 Hf. apply SyncDirectory_Done in H.
  apply (WriteRecords_Done d []) in Hw; [|done|done]. eapply holds_nodes; [exact H|].
  eapply holds_nodes; [|exact Hw]. destruct out; [by eapply FlushAndSync_Done|by injection Hf as _ <-].
Qed.
End writing.

(** ** Segments of a contiguous log *)

Section segments.
Implicit Types (rs : list LogRecord) (chunks : list (list LogRecord)).

Lemma contiguous_first i rs : contiguous i rs → rs ≠ [] → first_log_index_of rs = i.
Proof. destruct rs as [|r rs]; [done|]. intros H _. rewrite <- (Z.add_0_r i). by apply (H 0%nat). Qed.

Lemma contiguous_last_index i rs :
  contiguous i rs → rs ≠ [] → last_log_index_of rs = i + Z.of_nat (length rs) - 1.
Proof.
  intros Hc Hne. unfold last_log_index_of. destruct (last rs) as [r|] eqn:Hl.
  - by apply (contiguous_last i rs r).
  - by apply last_None in Hl.
Qed.

(** The segments are a partition of the log, in order. *)
Lemma segments_of_spec rs :
  concat (reverse (segments_of rs)) = rs ∧ Forall (λ c, c ≠ []) (segments_of rs).
Proof.
  induction rs as [|r rs [IH1 IH2]] using rev_ind; [done|].
  unfold segments_of in *. rewrite foldl_snoc. destruct (foldl add_record [] rs) as [|c older].
  - cbn in IH1. subst. cbn. by repeat constructor.
  - cbn [add_record]. apply Forall_cons in IH2 as [Hc Ho].
    rewrite reverse_cons, concat_app in IH1. cbn [concat] in IH1. rewrite app_nil_r in IH1.
    case_decide; rewrite !reverse_cons, !concat_app; cbn [concat]; rewrite !app_nil_r.
    + rewrite IH1. by repeat constructor.
    + rewrite app_assoc, IH1. split; [done|]. constructor; [by destruct c|done].
Qed.

(** Each segment starts after the one before it. *)
Lemma starts_increase chunks i :
  Forall (λ c, c ≠ []) chunks → contiguous i (concat chunks) →
  StronglySorted Z.lt (first_log_index_of <$> chunks) ∧
  Forall (λ c, i ≤ first_log_index_of c < i + Z.of_nat (length (concat chunks))) chunks.
Proof.
  revert i. induction chunks as [|c chunks IH]; intros i Hne Hc; [by repeat constructor|].
  apply Forall_cons in Hne as [Hcne Hne]. cbn [concat] in Hc. apply contiguous_app in Hc as [Hc1 Hc2].
  destruct (IH _ Hne Hc2) as [Hs Hall]. cbn [fmap list_fmap concat]. rewrite length_app.
  pose proof (contiguous_first _ _ Hc1 Hcne) as Hf.
  assert (0 < length c)%nat by (destruct c; [done|cbn; lia]). rewrite Nat2Z.inj_add. split.
  - constructor; [done|]. rewrite Hf. apply Forall_fmap. eapply Forall_impl; [exact Hall|].
    intros x Hx. cbn in *. lia.
  - constructor; [lia|]. eapply Forall_impl; [exact Hall|]. intros x Hx. cbn in *. lia.
Qed.

Lemma ParseSegmentStartIndex_name d i :
  is_u64 i → ParseSegmentStartIndex (d ++ [SegmentFileName i]) = Some i.
Proof.
  intros Hi. destruct (FormatIndex_digits i) as (Hd & Hv & Hne); [u64_lia|].
  unfold ParseSegmentStartIndex. cbv zeta.
  assert (Hfn : filename (d ++ [SegmentFileName i]) = SegmentFileName i)
    by (unfold filename; apply List.last_last).
  rewrite Hfn. unfold SegmentFileName. set (digits := FormatIndex i) in *.
  assert (Hl : String.length ("segment_" +:+ digits +:+ ".log") = (12 + String.length digits)%nat).
  { rewrite !string_length_app. cbn [String.length]. lia. }
  rewrite Hl. assert (0 < String.length digits)%nat by (destruct digits; [done|cbn; lia]).
  rewrite (proj2 (Nat.leb_gt _ _)) by lia. rewrite prefix_app. cbn [negb].
  assert (Hsuf : String.substring (12 + String.length digits - 4) 4 ("segment_" +:+ digits +:+ ".log")
                 = ".log").
  { rewrite <- (string_app_assoc "segment_" digits ".log").
    rewrite substring_skip by (rewrite string_length_app; cbn [String.length]; lia). done. }
  rewrite Hsuf. cbn [negb String.eqb Ascii.eqb Bool.eqb].
  assert (Hdig : String.substring 8 (12 + String.length digits - 8 - 4)
                   ("segment_" +:+ digits +:+ ".log") = digits).
  { rewrite substring_skip by done. apply substring_take. lia. }
  rewrite Hdig. rewrite decide_False by done. rewrite Hd. cbn [negb].
  by apply stoull_FormatIndex.
Qed.

Lemma SegmentFileName_inj i j : is_u64 i → is_u64 j → SegmentFileName i = SegmentFileName j → i = j.
Proof.
  intros Hi Hj Heq. pose proof (ParseSegmentStartIndex_name [] i Hi) as H1.
  rewrite Heq, (ParseSegmentStartIndex_name [] j Hj) in H1. by injection H1.
Qed.

(** The files of segments with different starts do not overwrite each other. *)
Lemma segment_tree_lookup padding chunks :
  NoDup (first_log_index_of <$> chunks) → Forall (λ c, is_u64 (first_log_index_of c)) chunks →
  ∀ r b, segment_tree padding chunks !! r = Some b ↔
    ∃ c, c ∈ chunks ∧ r = [segment_name c] ∧ b = entries_bytes padding c.
Proof.
  induction chunks as [|c chunks IH]; intros Hnd Hu r b.
  { cbn. rewrite lookup_empty. set_solver. }
  cbn [fmap list_fmap] in Hnd. apply NoDup_cons in Hnd as [Hc Hnd].
  apply Forall_cons in Hu as [Huc Hu]. cbn [segment_tree foldr].
  rewrite lookup_insert_Some, (IH Hnd Hu). split.
  - intros [[<- <-]|[_ (c' & Hc' & -> & ->)]]; [exists c|exists c']; set_solver.
  - intros (c' & [->|Hc']%elem_of_cons & -> & ->); [by left|]. right.
    split; [|by exists c']. intros Heq. apply Hc.
    assert (Hname : segment_name c = segment_name c') by congruence.
    rewrite (SegmentFileName_inj _ _ Huc (proj1 (Forall_forall _ _) Hu _ Hc') Hname).
    by apply list_elem_of_fmap_2.
Qed.
End segments.

(** ** Reading back what was written *)
Section reading.
Implicit Types s : Fs.

Lemma NoDup_segment_entries (l : list (path * FsNode)) :
  NoDup l.*1 → NoDup (omap segment_entry l) ∧ ∀ y, y ∈ omap segment_entry l → y.2 ∈ l.*1.
Proof.
  induction l as [|[p x] l IH]; intros Hnd; [split; [constructor|set_solver]|].
  cbn [fmap list_fmap fst] in Hnd |- *. apply NoDup_cons in Hnd as [Hp Hnd].
  destruct (IH Hnd) as [IH1 IH2]. cbn [omap list_omap].
  destruct (segment_entry (p, x)) as [y|] eqn:Hy; [|split; [done|set_solver]].
  assert (Hy2 : y.2 = p).
  { unfold segment_entry in Hy. cbn in Hy. destruct x; [|done].
    destruct (ParseSegmentStartIndex p); [by injection Hy as <-|done]. }
  split.
  - constructor; [|done]. intros Hin%IH2. by rewrite Hy2 in Hin.
  - intros z [->|Hz]%elem_of_cons; [rewrite Hy2; by left|right; by apply IH2].
Qed.

#[local] Instance start_le_trans : Transitive start_le.
Proof. unfold start_le. intros ???. lia. Qed.
#[local] Instance start_le_total : Total start_le.
Proof. unfold start_le. intros ??. lia. Qed.

Lemma increasing_NoDup l : StronglySorted Z.lt l → NoDup l.
Proof.
  induction 1 as [|x l Hs IH Hall]; [constructor|]. constructor; [|done].
  intros Hx. eapply Forall_forall in Hx; [|exact Hall]. lia.
Qed.

(** The files of the segments, by start. *)
Definition files_of (d : path) (chunks : list (list LogRecord)) : list (Z * path) :=
  (λ c, (first_log_index_of c, d ++ [segment_name c])) <$> chunks.

Lemma SegmentFiles_names d t chunks s :
  holds d t s → (∀ r, is_Some (t !! r) ↔ ∃ c, c ∈ chunks ∧ r = [segment_name c]) →
  StronglySorted Z.lt (first_log_index_of <$> chunks) →
  Forall (λ c, is_u64 (first_log_index_of c)) chunks →
  SegmentFiles d s = files_of d chunks.
Proof.
  intros Hd Htree Hs Hu. unfold SegmentFiles.
  assert (Hnds : NoDup (first_log_index_of <$> chunks)) by (by apply increasing_NoDup).
  assert (Hperm : omap segment_entry (fs_list d s) ≡ₚ files_of d chunks).
  { apply NoDup_Permutation.
    - apply NoDup_segment_entries. unfold fs_list.
      eapply (sublist_NoDup _ _ (NoDup_fst_map_to_list (nodes s))).
      apply fmap_sublist, sublist_filter.
    - apply (NoDup_fmap_1 fst). unfold files_of. by rewrite <- list_fmap_compose.
    - intros [i p]. unfold files_of. rewrite list_elem_of_omap, list_elem_of_fmap. split.
      + intros ([q x] & Hq%elem_of_fs_list & Hy). destruct Hq as (Hq & Hpar & Hne).
        unfold segment_entry in Hy. cbn [fst snd] in Hy. destruct x as [b|]; [|done].
        destruct (ParseSegmentStartIndex q) as [j|] eqn:Hj; [|done]. injection Hy as <- <-.
        rewrite (app_removelast_last "" Hne) in Hq, Hj. unfold parent_path in Hpar.
        rewrite Hpar in Hq, Hj. rewrite Hd in Hq. cbn in Hq.
        destruct (t !! [List.last q ""]) as [b'|] eqn:Ht; [|done].
        destruct (proj1 (Htree [List.last q ""]) ltac:(by rewrite Ht)) as (c & Hc & [= Hname]).
        exists c. split; [|done].
        rewrite Hname in Hj. unfold segment_name in Hj.
        rewrite ParseSegmentStartIndex_name in Hj by (by eapply Forall_forall in Hu).
        injection Hj as <-. f_equal. rewrite (app_removelast_last "" Hne), Hpar. by rewrite Hname.
      + intros (c & [= -> ->] & Hc).
        destruct (proj2 (Htree [segment_name c])) as [b Hb]; [by exists c|].
        exists (d ++ [segment_name c], File b). split.
        * apply elem_of_fs_list. split.
          -- rewrite (Hd [segment_name c]). by rewrite Hb.
          -- unfold parent_path. rewrite removelast_last. split; [done|]. by destruct d.
        * unfold segment_entry, segment_name. cbn [fst snd].
          by rewrite ParseSegmentStartIndex_name by (by eapply Forall_forall in Hu). }
  apply (StronglySorted_unique_strong start_le).
  - intros [i1 p1] [i2 p2] H1 H2 Hle1 Hle2. unfold start_le in *. cbn [fst] in *.
    assert (i1 = i2) as -> by lia.
    rewrite merge_sort_Permutation, Hperm in H1. unfold files_of in *.
    apply list_elem_of_fmap in H1 as (c1 & [= Hc1 ->] & Hin1).
    apply list_elem_of_fmap in H2 as (c2 & [= Hc2 ->] & Hin2).
    unfold segment_name. by rewrite <- Hc1, <- Hc2.
  - apply (StronglySorted_merge_sort start_le); apply _.
  - unfold files_of. clear -Hs. induction chunks as [|c chunks IH]; [constructor|].
    cbn [fmap list_fmap] in *. apply StronglySorted_inv in Hs as [Hs Hall].
    constructor; [by apply IH|]. apply Forall_fmap, Forall_forall. intros x Hx.
    eapply Forall_forall in Hall; [|by apply list_elem_of_fmap_2]. unfold start_le. cbn in *. lia.
  - by rewrite merge_sort_Permutation.
Qed.

Lemma SegmentFiles_holds d padding chunks s :
  holds d (segment_tree padding (reverse chunks)) s →
  StronglySorted Z.lt (first_log_index_of <$> chunks) →
  Forall (λ c, is_u64 (first_log_index_of c)) chunks →
  SegmentFiles d s = files_of d chunks.
Proof.
  intros Hd Hs Hu. eapply SegmentFiles_names; [exact Hd| |done|done]. intros r. unfold is_Some.
  setoid_rewrite segment_tree_lookup; [|by rewrite fmap_reverse, reverse_Permutation; apply increasing_NoDup
                                       |by apply Forall_reverse].
  setoid_rewrite elem_of_reverse. naive_solver.
Qed.

(** Reading a whole segment of fitting records adds those of the range. *)
Lemma ReadSegmentFile_whole p padding first last rs r s :
  healthy s → nodes s !! p = Some (File (entries_bytes padding rs)) → Forall record_fits rs →
  ReadSegmentFile p first last r s =
    (Done (mkRecovery (rc_records r ++ filter (in_range first last) rs) (rc_truncated r)
             (rc_diagnostics r)), s).
Proof.
  intros Hs Hp Hf. unfold ReadSegmentFile. rewrite fs_read_healthy, Hp by done.
  pose proof (length_entries padding rs) as Hlen.
  replace (S (length (entries_bytes padding rs))) with
    (length rs + S (length (entries_bytes padding rs) - length rs))%nat by lia.
  rewrite <- (app_nil_r (entries_bytes padding rs)) at 2.
  rewrite ScanSegment_entries by done. done.
Qed.

Lemma ReadSegments_whole d padding first last chunks records diagnostics s :
  healthy s →
  Forall (λ c, nodes s !! (d ++ [segment_name c]) = Some (File (entries_bytes padding c)) ∧
               Forall record_fits c) chunks →
  ReadSegments (files_of d chunks) first last (mkRecovery records false diagnostics) s =
    (Done (mkRecovery (records ++ filter (in_range first last) (concat chunks)) false diagnostics), s).
Proof.
  intros Hs. revert records. induction chunks as [|c chunks IH]; intros records Hc.
  { cbn. by rewrite app_nil_r. }
  apply Forall_cons in Hc as [[Hn Hf] Hc]. cbn [files_of fmap list_fmap ReadSegments].
  erewrite bind_run by (cbn [rc_truncated]; by eapply ReadSegmentFile_whole).
  cbn [rc_records rc_truncated rc_diagnostics]. fold (files_of d chunks). rewrite IH by done.
  cbn [concat]. by rewrite filter_app, <- app_assoc.
Qed.
End reading.

(** ** Publishing *)

Section publishing.
Context (failpoint_env : option string) (padding : Z).
Implicit Types s : Fs.

Lemma SyncFile_under ps p : keeps (only_under ps) (SyncFile p).
Proof. apply open_fsync_close_under. intros s. apply sync_under. Qed.
Lemma SyncDirectory_under ps p : keeps (only_under ps) (SyncDirectory p).
Proof. apply open_fsync_close_under. intros s. apply open_dir_under. Qed.
Lemma SyncParent_under ps p : keeps (only_under ps) (SyncParent p).
Proof. unfold SyncParent. keeps_step. apply SyncDirectory_under. Qed.
Lemma InjectFailure_under ps fp operation p t c d :
  keeps (only_under ps) (InjectFailureIfRequested failpoint_env fp operation p t c d).
Proof. unfold InjectFailureIfRequested. keeps_step. Qed.

Lemma WriteMeta_under p st : keeps (only_under [p]) (WriteMeta failpoint_env p st).
Proof.
  unfold WriteMeta.
  keeps_step; first [apply WritePod_under; set_solver|apply InjectFailure_under|apply SyncFile_under
                    |intros s; first [apply open_trunc_under; set_solver|apply flush_under]].
Qed.

Lemma FlushAndSync_under ps p final : p ∈ ps →
  keeps (only_under ps) (FlushAndSyncSegmentFile failpoint_env p final).
Proof.
  intros Hp. unfold FlushAndSyncSegmentFile. keeps_step.
  - intros s. apply flush_under.
  - intros s. by apply write_under.
  - apply SyncFile_under.
Qed.

Lemma OpenSegment_under d i : keeps (only_under [d]) (OpenSegment d i).
Proof.
  apply (keeps_sub d (SegmentFileName i)). unfold OpenSegment. keeps_step.
  intros s. apply open_trunc_under. set_solver.
Qed.

Lemma WriteEntry_under p r : keeps (only_under [p]) (WriteEntry padding p r).
Proof. unfold WriteEntry. keeps_step; intros s; apply write_under; set_solver. Qed.

(** The open segment lies in the directory. *)
Lemma WriteRecords_under d current records :
  (∀ p c, current = Some (p, c) → ∃ x, p = d ++ [x]) →
  keeps (only_under [d]) (WriteRecords failpoint_env padding d current records) ∧
  ∀ s out s', WriteRecords failpoint_env padding d current records s = (Done (Some out), s') →
    ∃ x, out = d ++ [x].
Proof.
  revert current. induction records as [|r records IH]; intros current Hcur.
  { split; [apply keeps_ret; exact _|]. intros s out s' [= Hout _].
    destruct current as [[p c]|]; [|done]. injection Hout as <-. by eapply Hcur. }
  cbn [WriteRecords].
  set (opening := match current with None => _ | Some (p, count) => _ end).
  assert (Hopen : keeps (only_under [d]) opening ∧
                  ∀ s o s', opening s = (Done o, s') → ∃ x, o.1 = d ++ [x]).
  { assert (Hfresh : keeps (only_under [d]) (p ← OpenSegment d (index r); mret (p, 0)) ∧
              ∀ s o s', (p ← OpenSegment d (index r); mret (p, 0)) s = (Done o, s') →
                ∃ x, o.1 = d ++ [x]).
    { split; [apply keeps_bind; [exact _|apply OpenSegment_under|intros p; apply keeps_ret; exact _]|].
      intros s o s' H. apply bind_Done in H as (p & s1 & (-> & _)%OpenSegment_Done & [= <- _]). eauto. }
    subst opening. destruct current as [[p c]|]; [|exact Hfresh].
    destruct (Hcur p c eq_refl) as [x ->]. case_decide.
    - destruct Hfresh as [Hf1 Hf2]. split.
      + apply keeps_bind; [exact _| |done]. apply (keeps_sub d x). apply FlushAndSync_under. set_solver.
      + intros s o s' H1. apply bind_Done in H1 as (u & s1 & _ & H1). by eapply Hf2.
    - split; [apply keeps_ret; exact _|]. intros s o s' [= <- _]. eauto. }
  destruct Hopen as [Hk Hp].
  assert (Hrest : ∀ o : path * Z, (∃ x, o.1 = d ++ [x]) →
    keeps (only_under [d]) (WriteEntry padding o.1 r;;
       WriteRecords failpoint_env padding d (Some (o.1, o.2 + 1)) records) ∧
    ∀ s out s', (WriteEntry padding o.1 r;;
       WriteRecords failpoint_env padding d (Some (o.1, o.2 + 1)) records) s = (Done (Some out), s') →
       ∃ x, out = d ++ [x]).
  { intros [p c] [x Hx]. cbn [fst snd] in *. subst p.
    destruct (IH (Some (d ++ [x], c + 1))) as [IH1 IH2]; [by intros ?? [= <- _]; eauto|]. split.
    - apply keeps_bind; [exact _|apply (keeps_sub d x), WriteEntry_under|done].
    - intros s out s' H1. apply bind_Done in H1 as (u & s1 & _ & H1). by eapply IH2. }
  split.
  - intros s. unfold mbind, FsM_bind at 1. pose proof (Hk s) as Hs. specialize (Hp s).
    destruct (opening s) as [[o| |] s1]; [|done..]. cbn [snd] in Hs. etrans; [exact Hs|].
    destruct (Hrest o) as [Hr _]; [by eapply Hp|]. apply Hr.
  - intros s out s' H1. apply bind_Done in H1 as (o & s1 & Ho & H1).
    destruct (Hrest o) as [_ Hr]; [by eapply Hp|]. by eapply Hr.
Qed.

Lemma WriteSegments_under d records :
  keeps (only_under [d]) (WriteSegments failpoint_env padding d records).
Proof.
  unfold WriteSegments. destruct records as [|r records]; [apply SyncDirectory_under|].
  destruct (WriteRecords_under d None (r :: records)) as [Hk Hp]; [done|].
  intros s. unfold mbind, FsM_bind at 1. pose proof (Hk s) as Hs. specialize (Hp s).
  destruct (WriteRecords _ _ d None (r :: records) s) as [[o| |] s1]; [|done..]. cbn [snd] in Hs.
  etrans; [exact Hs|]. apply keeps_bind; [exact _| |intros _; apply SyncDirectory_under].
  destruct o as [p|]; [|apply keeps_ret; exact _]. destruct (Hp p s1 eq_refl) as [x ->].
  apply (keeps_sub d x), FlushAndSync_under. set_solver.
Qed.

(** After a successful [Park] nothing is at [dst], and the backup holds what was there. *)
Lemma Park_spec dst backup o s r s' :
  dst ≠ [] → apart dst backup → tree_is dst o s → Park dst backup s = (r, s') →
  only_under [dst; backup] s s' ∧
  match r with
  | Done _ => gone dst s' ∧ ∀ q, nodes s' !! (backup ++ q) = nodes s !! (dst ++ q)
  | _ => tree_is dst o s'
  end.
Proof.
  intros Hne Hap Ht. unfold Park, mbind, FsM_bind, with_ec at 1.
  pose proof (remove_all_under [backup] backup s ltac:(set_solver)) as Hu.
  pose proof (tree_is_under [backup] dst o s _ Hu ltac:(intros p ->%list_elem_of_singleton; by symmetry) Ht) as Ht1.
  assert (Hu2 : only_under [dst; backup] s (fs_remove_all backup s).2)
    by (intros q [_ Hq]%Forall_cons; by apply Hu).
  destruct (fs_remove_all backup s) as [[m|] s1] eqn:Hrm; cbn [snd] in *; [by intros [= <- <-]|].
  apply fs_remove_all_None in Hrm. cbn [gets].
  assert (Hsame : ∀ q, nodes s1 !! (dst ++ q) = nodes s !! (dst ++ q))
    by (intros q; rewrite Hrm, lookup_prune; by rewrite apart_app by (by symmetry)).
  destruct (fs_exists dst s1) eqn:Hex.
  - unfold with_ec. pose proof (rename_under [dst; backup] dst backup s1
      ltac:(set_solver) ltac:(set_solver) Hap) as Hu3.
    destruct (fs_rename dst backup s1) as [e s2] eqn:Hren. cbn [snd] in Hu3.
    destruct (fs_rename_here _ _ _ _ _ Hren Hap) as [[Hn He]|(-> & _ & Hn)].
    + destruct e; [|done]. intros [= <- <-]. split; [by etrans|].
      destruct o; intros q; rewrite Hn; apply Ht1.
    + intros [= <- <-]. split; [by etrans|]. split; intros q.
      * rewrite Hn. by apply move_from.
      * by rewrite Hn, move_to, Hsame.
  - intros [= <- <-]. split; [done|].
    assert (Hg : gone dst s1).
    { destruct o as [t|]; [|done]. unfold fs_exists in Hex. destruct dst; [done|].
      apply bool_decide_eq_false in Hex. destruct Hex. specialize (Ht1 []).
      rewrite app_nil_r in Ht1. rewrite Ht1. by eexists. }
    split; [done|]. intros q. rewrite <- Hsame, (Hg q), Hrm, lookup_prune. by rewrite under_app.
Qed.

(** Putting the new directory in place, and the clean-up. *)
Lemma Publish_spec src dst backup t o s r s' :
  apart src dst → apart src backup → apart dst backup → gone dst s → holds src t s →
  (∀ q, match o with Some t0 => nodes s !! (backup ++ q) =
                       match q with [] => Some Dir | _ => File <$> t0 !! q end
                   | None => nodes s !! (backup ++ q) = None end) →
  Publish failpoint_env src dst backup s = (r, s') →
  only_under [src; dst; backup] s s' ∧
  match r with
  | Done _ => holds dst t s'
  | _ => tree_is dst o s' ∨ gone dst s' ∨ holds dst t s'
  end.
Proof.
  intros Hsd Hsb Hdb Hg Ht Hb. unfold Publish, mbind at 1, FsM_bind at 1, attempt at 1, with_ec at 1.
  pose proof (rename_under [src; dst; backup] src dst s ltac:(set_solver) ltac:(set_solver) Hsd) as Hu.
  destruct (fs_rename src dst s) as [e s1] eqn:Hren. cbn [snd] in Hu.
  destruct (fs_rename_here _ _ _ _ _ Hren Hsd) as [[Hn He]|(-> & _ & Hn)].
  - destruct e as [e|]; [|done]. intros Hrun. unfold mbind, FsM_bind, gets in Hrun.
    destruct (fs_exists backup s1 && _); [|injection Hrun as <- <-; split; [done|]; right; left;
      intros q; rewrite Hn; apply Hg].
    unfold ignore_ec in Hrun. injection Hrun as <- <-.
    pose proof (rename_under [src; dst; backup] backup dst s1 ltac:(set_solver) ltac:(set_solver)
      ltac:(by symmetry)) as Hu2.
    destruct (fs_rename backup dst s1) as [e2 s2] eqn:Hback. cbn [snd] in *.
    split; [by etrans|].
    destruct (fs_rename_here _ _ _ _ _ Hback ltac:(by symmetry)) as [[Hn2 _]|(_ & _ & Hn2)].
    + right; left. intros q. rewrite Hn2, Hn. apply Hg.
    + left. destruct o as [t0|]; intros q; rewrite Hn2, move_to by (by symmetry); rewrite Hn; apply Hb.
  - intros Hrun.
    assert (Hd : holds dst t s1) by (intros q; rewrite Hn, move_to by done; apply Ht).
    assert (Hk : ∀ s2, only_under [backup] s1 s2 →
      only_under [src; dst; backup] s s2 ∧ holds dst t s2).
    { intros s2 Ho. split.
      - etrans; [exact Hu|]. intros q Hq. apply Ho. by do 2 apply Forall_cons in Hq as [_ Hq].
      - apply (tree_is_under [backup] dst (Some t) s1); [done| |done].
        intros p ->%list_elem_of_singleton. by symmetry. }
    match type of Hrun with ?m s1 = _ => assert (Hks : keeps (only_under [backup]) m) end.
    { keeps_step; first [apply InjectFailure_under|apply SyncParent_under|
        intros s2; apply remove_all_under; set_solver]. }
    specialize (Hks s1). rewrite Hrun in Hks. cbn [snd] in Hks. destruct (Hk _ Hks).
    destruct r; auto.
Qed.

Lemma ReplaceDirectory_spec src dst backup t o s r s' :
  dst ≠ [] → apart src dst → apart src backup → apart dst backup →
  holds src t s → tree_is dst o s → ReplaceDirectory failpoint_env src dst backup s = (r, s') →
  only_under [src; dst; backup] s s' ∧
  match r with
  | Done _ => holds dst t s'
  | _ => tree_is dst o s' ∨ gone dst s' ∨ holds dst t s'
  end.
Proof.
  intros Hne Hsd Hsb Hdb Ht Ho. unfold ReplaceDirectory, mbind at 1, FsM_bind at 1.
  destruct (Park dst backup s) as [r1 s1] eqn:Hpark.
  destruct (Park_spec _ _ _ _ _ _ Hne Hdb Ho Hpark) as [Hu1 Hp].
  assert (Hu : only_under [src; dst; backup] s s1)
    by (intros q [_ Hq]%Forall_cons; by apply Hu1).
  destruct r1 as [[]| |]; [|intros [= <- <-]; auto..]. destruct Hp as [Hg Hb].
  assert (Hsrc : holds src t s1).
  { apply (tree_is_under [dst; backup] src (Some t) s); [done| |done].
    intros p [->| ->%list_elem_of_singleton]%elem_of_cons; by symmetry. }
  unfold InjectFailureIfRequested at 1. case_decide; [intros [= <- <-]; auto|]. cbn.
  intros Hpub. destruct (Publish_spec src dst backup t o s1 r s' Hsd Hsb Hdb Hg Hsrc) as [Hu2 Hr];
    [|done|split; [by etrans|done]].
  intros q. destruct o as [t0|]; rewrite Hb; apply Ho.
Qed.

Lemma ReplaceFile_spec src dst b o s r s' :
  apart src dst → nodes s !! src = Some (File b) → file_is dst o s →
  ReplaceFile failpoint_env src dst s = (r, s') →
  only_under [src; dst] s s' ∧
  match r with
  | Done _ => file_is dst (Some b) s'
  | _ => file_is dst o s' ∨ file_is dst None s' ∨ file_is dst (Some b) s'
  end.
Proof.
  intros Hap Hb Ho Hrun.
  assert (Hk : keeps (only_under [src; dst]) (ReplaceFile failpoint_env src dst)).
  { unfold ReplaceFile. keeps_step; first [apply InjectFailure_under|apply SyncParent_under|
      intros s2; first [apply remove_under; set_solver|apply rename_under; set_solver]]. }
  specialize (Hk s). rewrite Hrun in Hk. split; [exact Hk|]. clear Hk.
  unfold ReplaceFile in Hrun. unfold mbind at 1, FsM_bind at 1, gets in Hrun.
  set (removing := if fs_exists dst s then _ else _) in Hrun.
  assert (Hrm : ∀ r1 s1, removing s = (r1, s1) →
    (file_is dst o s1 ∨ file_is dst None s1) ∧ nodes s1 !! src = Some (File b)).
  { intros r1 s1 Hr. subst removing. destruct (fs_exists dst s); [|injection Hr as <- <-; auto].
    unfold with_ec in Hr. destruct (fs_remove dst s) as [e s2] eqn:Hrm.
    assert (s1 = s2) as -> by (by destruct e; injection Hr).
    split; [|rewrite (fs_remove_only _ _ _ _ Hrm); [done|by apply apart_neq]].
    destruct (fs_remove_here _ _ _ _ Hrm) as [Heq|Heq]; [left|right]; unfold file_is; by rewrite Heq. }
  unfold mbind at 1, FsM_bind at 1 in Hrun. destruct (removing s) as [r1 s1] eqn:Hr1.
  destruct (Hrm _ _ eq_refl) as [Hold Hsrc].
  destruct r1 as [[]| |]; [|injection Hrun as <- <-; tauto..].
  unfold mbind at 1, FsM_bind at 1, with_ec in Hrun.
  destruct (fs_rename src dst s1) as [e s2] eqn:Hren.
  destruct (fs_rename_here _ _ _ _ _ Hren Hap) as [[Hn He]|(-> & _ & Hn)].
  { destruct e; [|done]. injection Hrun as <- <-.
    destruct Hold as [Hold|Hold]; [left|right; left]; unfold file_is; by rewrite Hn. }
  assert (Hdst : file_is dst (Some b) s2).
  { unfold file_is. rewrite Hn. pose proof (move_to src dst (nodes s1) [] Hap) as Hm.
    rewrite !app_nil_r in Hm. by rewrite Hm. }
  match type of Hrun with ?m s2 = _ => assert (Hks : keeps (only_under []) m) end.
  { keeps_step; first [apply InjectFailure_under|apply SyncParent_under]. }
  specialize (Hks s2). rewrite Hrun in Hks. cbn [snd] in Hks.
  assert (Hend : file_is dst (Some b) s') by (eapply file_is_under; [exact Hks|set_solver|done]).
  destruct r; auto.
Qed.

(** The contents of [meta.bin] for a state. *)
Definition meta_bytes (st : PersistentRaftState) : bytes :=
  le_bytes 4 kMetaMagic ++ le_bytes 4 kMetaVersion ++ le_bytes 8 (ps_current_term st) ++
  le_bytes 8 (ps_voted_for st) ++ le_bytes 8 (ps_commit_index st) ++
  le_bytes 8 (ps_last_applied st) ++ le_bytes 8 (first_log_index_of (ps_log st)) ++
  le_bytes 8 (last_log_index_of (ps_log st)) ++ le_bytes 8 (Z.of_nat (length (ps_log st))).

Lemma WriteMeta_Done p st s u s' :
  WriteMeta failpoint_env p st s = (Done u, s') → nodes s' !! p = Some (File (meta_bytes st)).
Proof.
  unfold WriteMeta. intros H. step_run H s0 Hopen. apply on_stream_Done, fs_open_trunc_true in Hopen.
  step_run H s1 H1. destruct (WritePod_Done _ _ _ _ _ _ _ H1 Hopen) as [F1 _].
  step_run H s2 H2. destruct (WritePod_Done _ _ _ _ _ _ _ H2 F1) as [F2 _].
  step_run H s3 H3. destruct (WritePod_Done _ _ _ _ _ _ _ H3 F2) as [F3 _].
  step_run H s4 H4. destruct (WritePod_Done _ _ _ _ _ _ _ H4 F3) as [F4 _].
  step_run H s5 H5. destruct (WritePod_Done _ _ _ _ _ _ _ H5 F4) as [F5 _].
  step_run H s6 H6. destruct (WritePod_Done _ _ _ _ _ _ _ H6 F5) as [F6 _].
  step_run H s7 H7. destruct (WritePod_Done _ _ _ _ _ _ _ H7 F6) as [F7 _].
  step_run H s8 H8. destruct (WritePod_Done _ _ _ _ _ _ _ H8 F7) as [F8 _].
  step_run H s9 H9. destruct (WritePod_Done _ _ _ _ _ _ _ H9 F8) as [F9 _].
  step_run H s10 H10. apply on_stream_Done, fs_flush_nodes in H10.
  step_run H s11 H11. apply on_stream_Done, fs_flush_nodes in H11.
  step_run H s12 H12. apply InjectFailure_Done in H12 as ->.
  apply SyncFile_Done in H. rewrite H, H11, H10, F9. unfold meta_bytes. by rewrite <- !app_assoc.
Qed.
End publishing.

(** ** Saving *)

(** What [Load] looks at: the log directory and [meta.bin]. *)
Definition layout (data_dir : path) (t : option (gmap path bytes)) (b : option bytes) (s : Fs) : Prop :=
  tree_is (data_dir ++ [kLogDirName]) t s ∧ file_is (data_dir ++ [kMetaFileName]) b s.

Section saving.
Context (failpoint_env : option string) (padding : Z).
Implicit Types s : Fs.

Lemma layout_under dir ps t b s s' :
  only_under ps s s' →
  Forall (λ p, ∃ x, p = dir ++ [x] ∧ x ≠ kLogDirName ∧ x ≠ kMetaFileName) ps →
  layout dir t b s → layout dir t b s'.
Proof.
  intros Ho Hps [Ht Hb]. split.
  - eapply tree_is_under; [exact Ho| |exact Ht]. intros p Hp.
    eapply Forall_forall in Hps as (x & -> & Hx & _); [|exact Hp]. by apply siblings_apart.
  - eapply file_is_under; [exact Ho| |exact Hb]. intros p Hp.
    eapply Forall_forall in Hps as (x & -> & _ & Hx); [|exact Hp]. by apply (siblings_apart dir x).
Qed.

Lemma layout_create dir x p t b s s' r :
  p = dir ∨ p = dir ++ [x] ∧ x ≠ kLogDirName ∧ x ≠ kMetaFileName →
  fs_create_directories p s = (r, s') → layout dir t b s → layout dir t b s'.
Proof.
  intros Hp Hc [Ht Hb].
  assert (Hq : ∀ y q, y = kLogDirName ∨ y = kMetaFileName →
    nodes s' !! ((dir ++ [y]) ++ q) = nodes s !! ((dir ++ [y]) ++ q)).
  { intros y q Hy. eapply fs_create_directories_other; [exact Hc|]. rewrite <- app_assoc.
    destruct Hp as [->|(-> & Hx1 & Hx2)].
    - intros [l Hl]. rewrite <- app_assoc in Hl. apply (f_equal length) in Hl.
      rewrite !length_app in Hl. cbn in Hl. lia.
    - intros Hpre. apply prefix_app_inv in Hpre. destruct Hpre as [l Hl]. cbn in Hl. naive_solver. }
  split.
  - destruct t; intros q; rewrite Hq by auto; apply Ht.
  - unfold file_is. specialize (Hq kMetaFileName []). rewrite !app_nil_r in Hq. by rewrite Hq by auto.
Qed.

Ltac siblings := repeat constructor; try (eexists; split; [reflexivity|split; discriminate]).

(** Every run of the staging half of [Save] leaves the layout alone; one that
    succeeds leaves the new segments and metadata in the temporary places. *)
Lemma Stage_layout dir st t b s r s' :
  layout dir t b s → Stage failpoint_env padding dir st s = (r, s') → layout dir t b s'.
Proof.
  intros Hl H. unfold Stage in H.
  assert (Hstep : ∀ {A B} ps (m : FsM A) (f : A → FsM B) s r s',
    keeps (only_under ps) m → Forall (λ p, ∃ x, p = dir ++ [x] ∧ x ≠ kLogDirName ∧ x ≠ kMetaFileName) ps →
    layout dir t b s → (m ≫= f) s = (r, s') →
    layout dir t b s' ∨ ∃ a s1, layout dir t b s1 ∧ f a s1 = (r, s')).
  { intros A B ps m f s0 r0 s0' Hk Hps Hl0 H0.
    pose proof (layout_under dir ps t b s0 _ (Hk s0) Hps Hl0) as Hl1.
    apply bind_cases in H0 as [(a & s1 & Hm & Hf)|[<- _]]; [|by left].
    rewrite Hm in Hl1. right. eauto. }
  assert (Hmk : ∀ {B} p g (f : unit → FsM B) s r s',
    p = dir ∨ p = dir ++ [kLogTempDirName] → layout dir t b s →
    (with_ec (fs_create_directories p) g ≫= f) s = (r, s') →
    layout dir t b s' ∨ ∃ a s1, layout dir t b s1 ∧ f a s1 = (r, s')).
  { intros B p g f s0 r0 s0' Hp Hl0 H0.
    assert (Hl1 : layout dir t b (fs_create_directories p s0).2).
    { destruct (fs_create_directories p s0) eqn:Hc.
      eapply (layout_create dir kLogTempDirName p); [|exact Hc|done].
      destruct Hp; [by left|right]. split; [done|split; discriminate]. }
    apply bind_cases in H0 as [(a & s1 & Hm & Hf)|[<- _]].
    - right. exists a, s1. split; [|done]. apply with_ec_Done in Hm. by rewrite Hm in Hl1.
    - left. by rewrite with_ec_state. }
  apply (Hmk _ dir) in H as [?|(? & s1 & Hl1 & H)]; [done| |by left|done].
  apply (Hstep _ _ [dir ++ [kLogTempDirName]]) in H as [?|(? & s2 & Hl2 & H)];
    [done| |by keeps_step; intros s0; apply remove_all_under; set_solver|siblings|done].
  apply (Hmk _ (dir ++ [kLogTempDirName])) in H as [?|(? & s3 & Hl3 & H)]; [done| |by right|done].
  apply (Hstep _ _ [dir ++ [kLogTempDirName]]) in H as [?|(? & s4 & Hl4 & H)];
    [done| |apply WriteSegments_under|siblings|done].
  pose proof (WriteMeta_under failpoint_env (dir ++ [kMetaTempFileName]) st s4) as Hk.
  rewrite H in Hk. eapply layout_under; [exact Hk|siblings|done].
Qed.

Lemma Stage_Done dir st s u s' :
  Stage failpoint_env padding dir st s = (Done u, s') →
  holds (dir ++ [kLogTempDirName]) (segment_tree padding (segments_of (ps_log st))) s' ∧
  nodes s' !! (dir ++ [kMetaTempFileName]) = Some (File (meta_bytes st)).
Proof.
  unfold Stage. intros H. step_run H s1 H1. step_run H s2 H2. step_run H s3 H3. step_run H s4 H4.
  apply with_ec_Done in H2, H3.
  assert (Hne : dir ++ [kLogTempDirName] ≠ []) by (by destruct dir).
  pose proof (fresh_directory _ _ _ _ Hne H2 H3) as Hf.
  apply WriteSegments_Done in H4; [|exact Hf].
  pose proof (WriteMeta_under failpoint_env (dir ++ [kMetaTempFileName]) st s4) as Hk.
  rewrite H in Hk. split; [|by eapply WriteMeta_Done].
  apply (tree_is_under [dir ++ [kMetaTempFileName]] _ (Some _) s4); [exact Hk| |exact H4].
  intros p ->%list_elem_of_singleton. by apply siblings_apart.
Qed.
End saving.
(** ** Loading *)

(** A state the format can hold: machine integers, a contiguous log. *)
Record storable (st : PersistentRaftState) : Prop := {
  sto_term : is_u64 (ps_current_term st);
  sto_vote : -2147483648 ≤ ps_voted_for st < 2147483648;
  sto_commit : is_u64 (ps_commit_index st);
  sto_applied : is_u64 (ps_last_applied st);
  sto_records : Forall record_fits (ps_log st);
  sto_contiguous : contiguous (first_log_index_of (ps_log st)) (ps_log st);
  sto_length : Z.of_nat (length (ps_log st)) ≤ vector_max_size }.

Section loading.
Implicit Types (s : Fs) (st : PersistentRaftState).

Lemma first_last_u64 rs :
  Forall record_fits rs → is_u64 (first_log_index_of rs) ∧ is_u64 (last_log_index_of rs).
Proof.
  intros Hf. split.
  - destruct Hf as [|r rs [Hr _] _]; [done|exact Hr].
  - unfold last_log_index_of. destruct (last rs) as [r|] eqn:Hl; [|done].
    apply last_Some_elem_of in Hl. eapply Forall_forall in Hf as [Hr _]; [exact Hr|done].
Qed.

(** The stored vote is the low 64 bits of the signed one. *)
Lemma read_vote v b :
  read_le 8 (le_bytes 8 v ++ b) = Some (v mod 18446744073709551616, b).
Proof.
  unfold read_le. rewrite read_bytes_app by apply length_le_bytes. by rewrite le_value_bytes.
Qed.

Lemma storable_boundary st :
  storable st → ps_log st ≠ [] →
  last_log_index_of (ps_log st) = first_log_index_of (ps_log st) + Z.of_nat (length (ps_log st)) - 1.
Proof. intros Hst Hne. apply contiguous_last_index; [apply Hst|done]. Qed.

Lemma ParseMeta_bytes p st :
  storable st →
  ParseMeta p (meta_bytes st) =
    Done (mkMetaFields (ps_current_term st) (ps_voted_for st) (ps_commit_index st)
      (ps_last_applied st) (first_log_index_of (ps_log st)) (last_log_index_of (ps_log st))
      (Z.of_nat (length (ps_log st)))).
Proof.
  intros Hst. pose proof (first_last_u64 _ (sto_records _ Hst)) as [Hf Hl].
  assert (Hlen : is_u64 (Z.of_nat (length (ps_log st))))
    by (pose proof (sto_length _ Hst); unfold vector_max_size in *; u64_lia).
  unfold ParseMeta, meta_bytes, ReadPod. cbv beta zeta.
  do 2 (rewrite (read_le_bytes 4) by done; cbn [and_then]).
  rewrite (read_le_u64 (ps_current_term st)) by apply Hst. cbn [and_then]. rewrite read_vote.
  cbn [and_then]. rewrite (read_le_u64 (ps_commit_index st)) by apply Hst. cbn [and_then].
  rewrite (read_le_u64 (ps_last_applied st)) by apply Hst. cbn [and_then].
  rewrite (read_le_u64 (first_log_index_of _)) by done. cbn [and_then].
  rewrite (read_le_u64 (last_log_index_of _)) by done. cbn [and_then].
  rewrite <- (app_nil_r (le_bytes 8 (Z.of_nat _))), read_le_u64 by done. cbn [and_then].
  rewrite to_int_id by apply Hst. rewrite !(decide_False (P := _ ≠ _)) by (by intros []).
  destruct (decide (ps_log st = [])) as [He|Hne].
  - rewrite He. cbn. done.
  - pose proof (storable_boundary _ Hst Hne) as Hb.
    assert (0 < length (ps_log st))%nat by (destruct (ps_log st); [done|cbn; lia]).
    rewrite decide_False by lia. rewrite decide_False; [done|].
    intros [Hlt|Hne2]; [lia|]. apply Hne2. rewrite u64_id; [lia|].
    replace (_ - _ + 1) with (Z.of_nat (length (ps_log st))) by lia. done.
Qed.

Lemma first_gap_contiguous i rs :
  contiguous (i + 1) rs → Forall record_fits rs → first_gap i rs = None.
Proof.
  revert i. induction rs as [|r rs IH]; intros i Hc Hf; [done|].
  apply Forall_cons in Hf as [[Hr _] Hf]. pose proof (Hc 0%nat r eq_refl) as Hi. cbn [first_gap].
  rewrite decide_False by (rewrite u64_id; [lia|]; replace (i + 1) with (index r) by lia; done).
  apply IH; [|done]. intros k r' Hk. rewrite (Hc (S k) r' Hk). lia.
Qed.

Lemma elem_of_concat {A} (x : A) c cs : c ∈ cs → x ∈ c → x ∈ concat cs.
Proof.
  intros Hc Hx. apply list_elem_of_In, in_concat. exists c. by rewrite <- !list_elem_of_In.
Qed.

Lemma filter_all_in_range first last rs :
  Forall (λ r, first ≤ index r ≤ last) rs → filter (in_range first last) rs = rs.
Proof.
  induction 1 as [|r rs Hr _ IH]; [done|]. rewrite filter_cons, decide_True, IH; [done|].
  unfold in_range. by rewrite !bool_decide_true by lia.
Qed.

Lemma contiguous_range i rs :
  contiguous i rs → Forall (λ r, i ≤ index r ≤ i + Z.of_nat (length rs) - 1) rs.
Proof.
  intros Hc. apply Forall_forall. intros r Hr. apply list_elem_of_lookup in Hr as [k Hk].
  rewrite (Hc k r Hk). apply lookup_lt_Some in Hk. lia.
Qed.

(** Loading the segments of a contiguous log gives the log. *)
Lemma LoadSegments_whole d padding rs s :
  healthy s → d ≠ [] → rs ≠ [] → contiguous (first_log_index_of rs) rs → Forall record_fits rs →
  Z.of_nat (length rs) ≤ vector_max_size →
  holds d (segment_tree padding (segments_of rs)) s →
  LoadSegments d (first_log_index_of rs) (last_log_index_of rs) (Z.of_nat (length rs)) s = (Done rs, s).
Proof.
  intros Hs Hdne Hne Hc Hf Hmax Hd.
  destruct (segments_of_spec rs) as [Hcat Hnes]. set (chunks := reverse (segments_of rs)) in *.
  assert (Hsegs : segments_of rs = reverse chunks) by (unfold chunks; by rewrite reverse_involutive).
  assert (Hcne : Forall (λ c, c ≠ []) chunks) by (by apply Forall_reverse).
  pose proof (contiguous_last_index _ _ Hc Hne) as Hlast.
  destruct (starts_increase chunks (first_log_index_of rs)) as [Hinc Hstarts]; [done|by rewrite Hcat|].
  rewrite Hcat in Hstarts. destruct (first_last_u64 rs Hf) as [Hu1 Hu2].
  assert (Hu : Forall (λ c, is_u64 (first_log_index_of c)) chunks)
    by (eapply Forall_impl; [exact Hstarts|]; intros c Hx; cbn in Hx; u64_lia).
  assert (Hnd : NoDup (first_log_index_of <$> reverse chunks))
    by (rewrite fmap_reverse, reverse_Permutation; by apply increasing_NoDup).
  assert (Hur : Forall (λ c, is_u64 (first_log_index_of c)) (reverse chunks)) by (by apply Forall_reverse).
  rewrite Hsegs in Hd. unfold LoadSegments.
  assert (0 < length rs)%nat by (destruct rs; [done|cbn; lia]).
  rewrite decide_False by lia. erewrite bind_run by reflexivity.
  assert (Hex : fs_exists d s = true).
  { unfold fs_exists. destruct d; [done|]. apply bool_decide_eq_true. specialize (Hd []).
    rewrite app_nil_r in Hd. rewrite Hd. by eexists. }
  rewrite Hex. cbn [negb]. erewrite bind_run by reflexivity.
  rewrite (SegmentFiles_holds d padding chunks s Hd Hinc Hu).
  unfold reserve. rewrite decide_False by lia. erewrite bind_run by reflexivity.
  erewrite bind_run; [|apply (ReadSegments_whole d padding); [done|]].
  - cbn [app]. rewrite Hcat, filter_all_in_range;
      [|eapply Forall_impl; [by apply contiguous_range|]; cbn; lia].
    unfold lift, CheckRecovery. cbn [rc_records rc_truncated rc_diagnostics existsb negb andb].
    rewrite bool_decide_false by (by intros []). cbn [andb].
    destruct rs as [|r rest]; [done|]. rewrite bool_decide_false by (by intros []).
    rewrite bool_decide_false by (by intros []). cbn [orb negb andb].
    rewrite first_gap_contiguous; [done| |by apply Forall_cons in Hf as [_ Hf]].
    intros k r' Hk. rewrite (Hc (S k) r' Hk). cbn. lia.
  - apply Forall_forall. intros c Hin. split.
    + rewrite (Hd [segment_name c]).
      rewrite (proj2 (segment_tree_lookup padding (reverse chunks) Hnd Hur [segment_name c]
                        (entries_bytes padding c))); [done|].
      exists c. split; [by apply elem_of_reverse|done].
    + apply Forall_forall. intros r Hr. eapply Forall_forall in Hf; [exact Hf|].
      rewrite <- Hcat. by eapply elem_of_concat.
Qed.

(** [Load] on readable metadata is [LoadSegments] on its boundary. *)
Lemma Load_via dir st s r s' :
  healthy s → storable st → file_is (dir ++ [kMetaFileName]) (Some (meta_bytes st)) s →
  LoadSegments (dir ++ [kLogDirName]) (first_log_index_of (ps_log st))
    (last_log_index_of (ps_log st)) (Z.of_nat (length (ps_log st))) s = (r, s') →
  match r with
  | Done rs => Load dir s = (Done (ClampRecoveredHardState (st <| ps_log := rs |>), true), s')
  | Fail _ => ∃ e, Load dir s = (Fail e, s')
  | Throw _ => True
  end.
Proof.
  intros Hs Hst Hb Hlog. unfold Load. erewrite bind_run by reflexivity.
  assert (Hex : fs_exists (dir ++ [kMetaFileName]) s = true).
  { unfold fs_exists. destruct (dir ++ [kMetaFileName]) eqn:Hd; [done|].
    apply bool_decide_eq_true. unfold file_is in Hb. rewrite Hb. by eexists. }
  rewrite Hex. unfold LoadSegmented.
  assert (Hmeta : ReadMeta (dir ++ [kMetaFileName]) s = (Done (mkMetaFields (ps_current_term st)
      (ps_voted_for st) (ps_commit_index st) (ps_last_applied st) (first_log_index_of (ps_log st))
      (last_log_index_of (ps_log st)) (Z.of_nat (length (ps_log st)))), s)).
  { unfold ReadMeta. rewrite fs_read_healthy by done. unfold file_is in Hb. rewrite Hb.
    cbn [fmap option_fmap option_map]. by rewrite ParseMeta_bytes. }
  unfold mbind, FsM_bind, rename_error. rewrite Hmeta.
  cbn [m_first_log_index m_last_log_index m_log_count m_current_term m_voted_for m_commit_index
       m_last_applied]. rewrite Hlog. destruct r; [by destruct st|by eexists|done].
Qed.

(** Loading a layout that was saved. *)
Lemma Load_layout dir padding st s :
  healthy s → storable st →
  layout dir (Some (segment_tree padding (segments_of (ps_log st)))) (Some (meta_bytes st)) s →
  Load dir s = (Done (ClampRecoveredHardState st, true), s).
Proof.
  intros Hs Hst [Ht Hb].
  assert (Hlog : LoadSegments (dir ++ [kLogDirName]) (first_log_index_of (ps_log st))
            (last_log_index_of (ps_log st)) (Z.of_nat (length (ps_log st))) s = (Done (ps_log st), s)).
  { destruct (decide (ps_log st = [])) as [He|Hne2]; [by rewrite He|].
    apply (LoadSegments_whole _ padding); try done; try apply Hst. by destruct dir. }
  rewrite (Load_via _ _ _ _ _ Hs Hst Hb Hlog). by destruct st.
Qed.
End loading.

(** ** What recovery can return *)

(** Machine integers, whatever was on disk. *)
Record well_typed (st : PersistentRaftState) : Prop := {
  wt_term : is_u64 (ps_current_term st);
  wt_vote : -2147483648 ≤ ps_voted_for st < 2147483648;
  wt_commit : is_u64 (ps_commit_index st);
  wt_applied : is_u64 (ps_last_applied st);
  wt_records : Forall record_fits (ps_log st) }.

(** Indices that follow each other as 64-bit integers do. *)
Definition successive (i : Z) (rs : list LogRecord) : Prop :=
  ∀ k r, rs !! k = Some r → index r = u64 (i + Z.of_nat k).

Section recovery.
Implicit Types (s : Fs) (st : PersistentRaftState).

Lemma to_int_range z : -2147483648 ≤ to_int z < 2147483648.
Proof.
  unfold to_int, u32. cbv zeta. pose proof (Z.mod_pos_bound z 4294967296). case_decide; lia.
Qed.

Lemma ClampRecoveredHardState_spec st :
  let c := ClampRecoveredHardState st in
  ps_current_term c = ps_current_term st ∧ ps_voted_for c = ps_voted_for st ∧
  ps_log c = ps_log st ∧
  ps_commit_index c = ps_commit_index st `min` last_log_index_of (ps_log st) ∧
  ps_last_applied c = ps_last_applied st `min` ps_commit_index c.
Proof.
  unfold ClampRecoveredHardState. cbv zeta.
  destruct (decide (_ < ps_commit_index st)); cbn;
    destruct (decide (_ < ps_last_applied st)); cbn; case_decide; cbn; split_and!; try done; lia.
Qed.

Lemma Clamp_well_typed st : well_typed st → well_typed (ClampRecoveredHardState st).
Proof.
  intros [Ht Hv Hc Ha Hr].
  destruct (ClampRecoveredHardState_spec st) as (H1 & H2 & H3 & H4 & H5). cbv zeta in *.
  destruct (first_last_u64 _ Hr) as [_ Hl].
  split; rewrite ?H1, ?H2, ?H3, ?H5, ?H4; try done; u64_lia.
Qed.

Lemma field_u64 i b : is_u64 (field i 8 b).
Proof.
  unfold field. pose proof (le_value_range (take 8 (drop i b))) as Hr.
  assert (Hle : 256 ^ Z.of_nat (length (take 8 (drop i b))) ≤ 256 ^ 8)
    by (apply Z.pow_le_mono_r; [lia|]; rewrite length_take; lia).
  unfold is_u64, u64_max. change (256 ^ 8) with 18446744073709551616 in Hle. lia.
Qed.

Lemma field_nonneg i n b : 0 ≤ field i n b.
Proof. apply le_value_range. Qed.

Lemma ScanSegment_fits fuel first last b pos records :
  Forall record_fits records → Forall record_fits (ScanSegment fuel first last b pos records).1.
Proof.
  revert b pos records. induction fuel as [|fuel IH]; intros b pos records Hf; [done|].
  cbn [ScanSegment]. destruct b as [|x b]; [done|].
  destruct (read_bytes header_size _) as [[hb b1]|]; [|done]. cbv zeta.
  destruct (_ || _ || _ || _) eqn:Hbad; [done|].
  destruct (read_bytes (Z.to_nat _) b1) as [[data b2]|] eqn:Hdata; [|done].
  destruct (decide (_ ≠ h_checksum _)); [done|]. apply IH.
  destruct (_ && _); [|done]. apply Forall_app. split; [done|]. constructor; [|done].
  rewrite !orb_false_iff, !bool_decide_eq_false in Hbad. destruct Hbad as [_ Hsize].
  apply read_bytes_Some in Hdata as [_ Hlen].
  split; [apply field_u64|]. split; [apply field_u64|]. cbn [command].
  rewrite <- length_string_bytes, string_bytes_string, Hlen.
  pose proof (field_nonneg 28 4 hb). cbn [h_data_size header_of] in *. lia.
Qed.

Lemma ReadSegments_fits files first last r s r' s' :
  ReadSegments files first last r s = (Done r', s') →
  Forall record_fits (rc_records r) → Forall record_fits (rc_records r').
Proof.
  revert r s. induction files as [|[i p] files IH]; intros r s H Hf; [by injection H as <- _|].
  cbn [ReadSegments] in H. apply bind_Done in H as (r1 & s1 & H1 & H).
  apply (IH _ _ H). destruct (rc_truncated r).
  - step_run H1 s2 H2. by injection H1 as <- _.
  - unfold ReadSegmentFile in H1. destruct (fs_read p s) as [[b|] s2]; [|done].
    pose proof (ScanSegment_fits (S (length b)) first last b 0 _ Hf) as Hs.
    destruct (ScanSegment _ _ _ _ _ _) as [records [[pos reason]|]]; cbn [fst] in Hs.
    + step_run H1 s3 H3. by injection H1 as <- _.
    + by injection H1 as <- _.
Qed.

Lemma first_gap_successive i rs :
  first_gap i rs = None → successive (i + 1) rs.
Proof.
  revert i. induction rs as [|r rs IH]; intros i Hg k x Hk; [done|]. cbn [first_gap] in Hg.
  case_decide as Hr; [done|]. destruct k as [|k].
  - injection Hk as <-. rewrite Hr. f_equal. lia.
  - rewrite (IH _ Hg k x Hk), Hr. unfold u64.
    replace ((i + 1) mod (u64_max + 1) + 1 + Z.of_nat k)
      with ((i + 1) mod (u64_max + 1) + (1 + Z.of_nat k)) by lia.
    rewrite Z.add_mod_idemp_l by done. f_equal. lia.
Qed.

Lemma CheckRecovery_Done d first last count files r rs :
  CheckRecovery d first last count files r = Done rs → Forall record_fits (rc_records r) →
  rs = rc_records r ∧ successive (first_log_index_of rs) rs.
Proof.
  unfold CheckRecovery. cbv zeta. destruct (_ && negb _); [done|]. intros H Hf.
  destruct (rc_records r) as [|x rest] eqn:Hr; [injection H as <-; split; [done|intros ???; done]|].
  destruct (_ || _); [done|]. destruct (first_gap (index x) rest) as [[]|] eqn:Hg; [done|].
  injection H as <-. split; [done|]. intros [|k] y Hy; cbn [first_log_index_of].
  - injection Hy as <-. apply Forall_cons in Hf as [[Hx _] _]. rewrite Z.add_0_r. by rewrite u64_id.
  - rewrite (first_gap_successive _ _ Hg k y Hy). f_equal. lia.
Qed.

Lemma LoadSegments_Done d first last count s rs s' :
  LoadSegments d first last count s = (Done rs, s') →
  Forall record_fits rs ∧ successive (first_log_index_of rs) rs.
Proof.
  unfold LoadSegments. destruct (decide (count = 0)); [intros [= <- _]; split; [done|intros ???; done]|]. intros H.
  apply bind_Done in H as (there & s1 & _ & H). destruct there; [|done]. cbn [negb] in H.
  apply bind_Done in H as (files & s2 & _ & H). step_run H s3 H3.
  apply bind_Done in H as (r & s4 & Hr & [Hc _]%lift_Done).
  pose proof (ReadSegments_fits _ _ _ _ _ _ _ Hr (Forall_nil_2 _)) as Hf.
  destruct (CheckRecovery_Done _ _ _ _ _ _ _ Hc Hf) as [-> Hs]. done.
Qed.

Ltac read_field H :=
  apply and_then_Done in H as ([? ?] & ? & H).

Lemma ParseMeta_Done p b m :
  ParseMeta p b = Done m →
  is_u64 (m_current_term m) ∧ -2147483648 ≤ m_voted_for m < 2147483648 ∧
  is_u64 (m_commit_index m) ∧ is_u64 (m_last_applied m).
Proof.
  unfold ParseMeta. cbv zeta. intros H. do 9 read_field H.
  assert (Hread : ∀ name n b r, match ReadPod n b with
      | Fail e => Fail ("read meta field failed: path=" +:+ path_string p +:+ ", field=" +:+ name +:+
                        ", reason=" +:+ e)
      | r => r end = Done r → ReadPod n b = Done r)
    by (intros ? n b' r; by destruct (ReadPod n b')).
  repeat match goal with E : match ReadPod _ _ with _ => _ end = Done _ |- _ => apply Hread in E end.
  assert (Hm : ∀ t v c a i l k, m = mkMetaFields t (to_int v) c a i l k →
    is_u64 t → is_u64 c → is_u64 a → is_u64 (m_current_term m) ∧
    -2147483648 ≤ m_voted_for m < 2147483648 ∧ is_u64 (m_commit_index m) ∧ is_u64 (m_last_applied m)).
  { intros ??????? -> ???. cbn. split_and!; try done; apply to_int_range. }
  repeat (case_decide; [done|]).
  case_decide; case_decide; try done; injection H as <-; (eapply Hm; [reflexivity|by eapply ReadPod_u64..]).
Qed.

Lemma ReadLegacyLog_fits fuel count b rs : ReadLegacyLog fuel count b = Done rs → Forall record_fits rs.
Proof.
  revert count b rs. induction fuel as [|fuel IH]; intros count b rs H; cbn [ReadLegacyLog] in H;
    case_decide; try (injection H as <-; constructor); [done|].
  apply and_then_Done in H as ([i b1] & Hi & H). apply and_then_Done in H as ([t b2] & Ht & H).
  apply and_then_Done in H as ([c b3] & Hc & H). apply and_then_Done in H as (rest & Hrest & [= <-]).
  constructor; [|by eapply IH].
  split; [by eapply ReadPod_u64|]. split; [by eapply ReadPod_u64|]. cbn [command].
  unfold ReadString in Hc. apply and_then_Done in Hc as ([size b4] & Hsize & Hc).
  case_decide; [done|]. case_decide; [by injection Hc as <- _|].
  destruct (read_bytes _ b4) as [[v b5]|] eqn:Hv; [|done]. injection Hc as <- _.
  apply read_bytes_Some in Hv as [_ Hv].
  rewrite <- length_string_bytes, string_bytes_string, Hv. apply ReadPod_Done in Hsize. lia.
Qed.

Lemma ParseLegacy_Done b st :
  ParseLegacy b = Done st → well_typed st ∧ ∃ st0, st = ClampRecoveredHardState st0.
Proof.
  unfold ParseLegacy. intros H. do 4 read_field H. repeat (case_decide; [done|]).
  apply and_then_Done in H as ([[c a] b'] & Hb & H). read_field H.
  apply and_then_Done in H as ([] & _ & H). apply and_then_Done in H as (log & Hlog & [= <-]).
  split; [|by eexists]. apply Clamp_well_typed.
  assert (Hca : is_u64 c ∧ is_u64 a).
  { case_decide; [by injection Hb as <- <- _|]. do 2 read_field Hb. injection Hb as <- <- _.
    split; by eapply ReadPod_u64. }
  split; cbn; [by eapply ReadPod_u64|apply to_int_range|apply Hca|apply Hca|by eapply ReadLegacyLog_fits].
Qed.
End recovery.

(** ** A torn tail *)
Section torn.
Implicit Types s : Fs.

(** Cut inside an entry, a segment is read up to that entry. *)
Lemma ScanSegment_torn padding first last rs r k fuel records :
  Forall record_fits rs → record_fits r → (0 < k < length (entry_bytes padding r))%nat →
  ∃ reason, ScanSegment (length rs + S fuel) first last
      (entries_bytes padding rs ++ take k (entry_bytes padding r)) 0 records =
    (records ++ filter (in_range first last) rs, Some (Z.of_nat (length (entries_bytes padding rs)), reason)).
Proof.
  intros Hf Hr Hk. rewrite ScanSegment_entries by done. rewrite Z.add_0_l.
  set (pos := Z.of_nat (length (entries_bytes padding rs))). cbn [ScanSegment].
  assert (Hlen : length (take k (entry_bytes padding r)) = k) by (rewrite length_take; lia).
  destruct (take k (entry_bytes padding r)) as [|x l] eqn:Hb; [cbn in Hlen; lia|]. rewrite <- Hb in *.
  clear x l Hb. destruct (decide (k < header_size)%nat) as [Hshort|Hlong].
  { unfold read_bytes. rewrite decide_False by lia. by eexists. }
  assert (Hsplit : take k (entry_bytes padding r) =
    header_bytes padding (entry_header r) ++ take (k - header_size) (string_bytes (command r))).
  { unfold entry_bytes. rewrite take_app_ge by (rewrite length_header; lia). by rewrite length_header. }
  rewrite Hsplit, read_bytes_app by apply length_header. cbv zeta.
  rewrite (entry_header_of padding r Hr). pose proof (data_size_fits r Hr) as Hd.
  assert (Hsz : h_data_size (entry_header r) = Z.of_nat (String.length (command r))) by exact Hd.
  destruct Hr as (_ & _ & Hc). rewrite length_entry in Hk.
  rewrite (bool_decide_false (h_magic _ ≠ _)) by (by intros []).
  rewrite (bool_decide_false (h_version _ ≠ _)) by (by intros []).
  rewrite (bool_decide_false (h_type _ ≠ _)) by (by intros []).
  rewrite (bool_decide_false (kMaxCommandBytes < _)) by lia. cbn [orb].
  rewrite Hsz, Nat2Z.id. unfold read_bytes at 1.
  rewrite decide_False by (rewrite length_take, length_string_bytes; lia). by eexists.
Qed.

Lemma SyncFile_healthy p b s :
  healthy s → nodes s !! p = Some (File b) → SyncFile p s = (Done (), s).
Proof.
  intros Hs Hp.
  assert (Hsync : fs_sync p s = (None, s)).
  { unfold fs_sync. rewrite fs_step_healthy by done. unfold is_file. rewrite Hp, orb_true_r. by destruct s. }
  unfold SyncFile, open_fsync_close, mbind, FsM_bind, with_ec.
  by rewrite Hsync, !(fs_healthy_tick s Hs).
Qed.

(** Reading a torn segment. *)
Lemma ReadSegmentFile_torn_run padding p first last rs r k records truncated diagnostics s :
  healthy s → Forall record_fits rs → record_fits r → (0 < k < length (entry_bytes padding r))%nat →
  nodes s !! p = Some (File (entries_bytes padding rs ++ take k (entry_bytes padding r))) →
  ∃ diagnostic s', ReadSegmentFile p first last (mkRecovery records truncated diagnostics) s =
      (Done (mkRecovery (records ++ filter (in_range first last) rs) true
               (diagnostics ++ [diagnostic])), s') ∧
    String.prefix "segment tail truncated, path=" diagnostic = true ∧ healthy s' ∧
    nodes s' !! p = Some (File (entries_bytes padding rs)) ∧ only_at p s s'.
Proof.
  intros Hs Hf Hr Hk Hp. set (b := entries_bytes padding rs ++ take k (entry_bytes padding r)) in *.
  assert (Hlen : (length rs ≤ length b)%nat)
    by (unfold b; rewrite length_app; pose proof (length_entries padding rs); lia).
  destruct (ScanSegment_torn padding first last rs r k (length b - length rs) records Hf Hr Hk)
    as [reason Hscan].
  replace (length rs + S (length b - length rs))%nat with (S (length b)) in Hscan by lia.
  fold b in Hscan. unfold ReadSegmentFile. rewrite fs_read_healthy, Hp by done.
  cbn [rc_records rc_truncated rc_diagnostics]. rewrite Hscan.
  set (pos := length (entries_bytes padding rs)).
  set (s1 := s <| nodes := <[p := File (entries_bytes padding rs)]> (nodes s) |>).
  assert (Hres : fs_resize_file p pos s = (None, s1)).
  { unfold fs_resize_file. rewrite fs_step_healthy by done. rewrite Hp. cbn [fst snd].
    unfold resize, b. unfold pos at 1. rewrite take_app_length, length_app.
    replace (pos - (length (entries_bytes padding rs) + _))%nat with 0%nat by (unfold pos; lia).
    by rewrite app_nil_r. }
  assert (Hs1 : healthy s1) by exact Hs.
  assert (Hp1 : nodes s1 !! p = Some (File (entries_bytes padding rs)))
    by (unfold s1; cbn [nodes set_field]; apply lookup_insert_eq).
  assert (Htr : TruncateFile p (Z.of_nat pos) s = (Done (), s1)).
  { unfold TruncateFile. rewrite Nat2Z.id. erewrite bind_run; [|unfold with_ec; by rewrite Hres].
    by eapply SyncFile_healthy. }
  erewrite bind_run by exact Htr. do 2 eexists. split; [reflexivity|].
  split; [apply prefix_app|]. split; [exact Hs1|]. split; [exact Hp1|].
  intros q Hq. unfold s1. cbn [nodes set_field]. by rewrite lookup_insert_ne.
Qed.
(** The diagnostic of a truncation is not that of a removed segment. *)
Lemma truncated_not_removed d :
  String.prefix "segment tail truncated, path=" d = true →
  String.prefix "removed_later_segment=" d = false.
Proof.
  destruct d as [|c d]; [done|]. cbn [String.prefix].
  destruct (ascii_dec "s" c) as [<-|]; [reflexivity|discriminate].
Qed.

(** A truncated prefix is accepted; the same records without a truncation are not. *)
Lemma CheckRecovery_prefix d first last count files rs diagnostic :
  rs ≠ [] → first = first_log_index_of rs → contiguous first rs → Forall record_fits rs →
  String.prefix "segment tail truncated, path=" diagnostic = true →
  CheckRecovery d first last count files (mkRecovery rs true [diagnostic]) = Done rs.
Proof.
  intros Hne -> Hc Hf Hd. unfold CheckRecovery. cbn [rc_records rc_truncated rc_diagnostics existsb].
  rewrite (truncated_not_removed _ Hd). cbn [orb negb andb]. destruct rs as [|x rest]; [done|].
  cbn [first_log_index_of]. rewrite (bool_decide_true (index x = index x)) by done. cbn [negb]. rewrite andb_false_r.
  rewrite (bool_decide_false (index x ≠ _)) by (by intros []). cbn [orb andb].
  rewrite first_gap_contiguous; [done| |by apply Forall_cons in Hf as [_ Hf]].
  intros k r' Hk. rewrite (Hc (S k) r' Hk). cbn. lia.
Qed.

Lemma CheckRecovery_short d first last count files rs :
  Z.of_nat (length rs) ≠ count →
  ∃ e, CheckRecovery d first last count files (mkRecovery rs false []) = Fail e.
Proof.
  intros Hc. unfold CheckRecovery. cbn [rc_records rc_truncated andb negb].
  rewrite bool_decide_true by done. by eexists.
Qed.
End torn.

(** ** Properties *)
Section properties.
Implicit Types (s : Fs) (st : PersistentRaftState).

Lemma layout_paths dir :
  apart (dir ++ [kLogTempDirName]) (dir ++ [kLogDirName]) ∧
  apart (dir ++ [kLogTempDirName]) (dir ++ [kLogBackupDirName]) ∧
  apart (dir ++ [kLogDirName]) (dir ++ [kLogBackupDirName]) ∧
  apart (dir ++ [kMetaTempFileName]) (dir ++ [kMetaFileName]).
Proof. split_and!; by apply siblings_apart. Qed.

(** The three publishing steps of [Save], as steps between layouts. *)
Lemma replace_log failpoint_env dir t0 b0 t1 f s r s' :
  layout dir t0 b0 s → holds (dir ++ [kLogTempDirName]) t1 s →
  nodes s !! (dir ++ [kMetaTempFileName]) = Some f →
  ReplaceDirectory failpoint_env (dir ++ [kLogTempDirName]) (dir ++ [kLogDirName])
    (dir ++ [kLogBackupDirName]) s = (r, s') →
  nodes s' !! (dir ++ [kMetaTempFileName]) = Some f ∧
  match r with
  | Done _ => layout dir (Some t1) b0 s'
  | _ => layout dir t0 b0 s' ∨ layout dir None b0 s' ∨ layout dir (Some t1) b0 s'
  end.
Proof.
  intros [Ht Hb] Htmp Hf Hrun. destruct (layout_paths dir) as (Hp1 & Hp2 & Hp3 & _).
  assert (Hne : dir ++ [kLogDirName] ≠ []) by (by destruct dir).
  destruct (ReplaceDirectory_spec failpoint_env _ _ _ t1 t0 s r s' Hne
              Hp1 Hp2 Hp3 Htmp Ht Hrun) as [Hu Hcases].
  assert (Hb' : file_is (dir ++ [kMetaFileName]) b0 s').
  { eapply file_is_under; [exact Hu| |done]. intros q Hq.
    apply elem_of_cons in Hq as [->|[->| ->%list_elem_of_singleton]%elem_of_cons]; by apply under_sibling. }
  split; [rewrite Hu; [done|repeat constructor; by apply under_sibling]|].
  unfold layout. cbn [tree_is]. destruct r; tauto.
Qed.

Lemma replace_meta failpoint_env dir t b0 b1 s r s' :
  layout dir t b0 s → nodes s !! (dir ++ [kMetaTempFileName]) = Some (File b1) →
  ReplaceFile failpoint_env (dir ++ [kMetaTempFileName]) (dir ++ [kMetaFileName]) s = (r, s') →
  match r with
  | Done _ => layout dir t (Some b1) s'
  | _ => layout dir t b0 s' ∨ layout dir t None s' ∨ layout dir t (Some b1) s'
  end.
Proof.
  intros [Ht Hb] Hf Hrun. destruct (layout_paths dir) as (_ & _ & _ & Hp).
  destruct (ReplaceFile_spec failpoint_env _ _ b1 b0 s r s' Hp Hf Hb Hrun) as [Hu Hcases].
  assert (Ht' : tree_is (dir ++ [kLogDirName]) t s').
  { eapply tree_is_under; [exact Hu| |done]. intros q Hq.
    apply elem_of_cons in Hq as [->| ->%list_elem_of_singleton]; by apply siblings_apart. }
  unfold layout. destruct r; tauto.
Qed.

Lemma remove_leftovers dir t b s r s' :
  layout dir t b s →
  (ignore_ec (fs_remove (dir ++ [kLegacyStateFileName]));;
   ignore_ec (fs_remove (dir ++ ["raft_state.bin.tmp"]))) s = (r, s') → layout dir t b s'.
Proof.
  intros Hl H.
  apply (layout_under dir [dir ++ [kLegacyStateFileName]; dir ++ ["raft_state.bin.tmp"]] _ _ s);
    [|repeat constructor; eexists; (split; [done|split; discriminate])|exact Hl].
  match type of H with ?m s = _ =>
    assert (Hk : keeps (only_under [dir ++ [kLegacyStateFileName]; dir ++ ["raft_state.bin.tmp"]]) m) end.
  { keeps_step; intros s4; apply remove_under; set_solver. }
  specialize (Hk s). by rewrite H in Hk.
Qed.

(** C14: what a [Save] can leave on disk.  Whatever operation fails, and wherever the
    process dies, the log directory and [meta.bin] are in one of five states: both
    old; the log directory missing; the new log with the old metadata; the new log
    without metadata; both new.  When [Save] reports success both are new. *)
Theorem Save_crash_states failpoint_env padding dir st t0 b0 s r s' :
  layout dir t0 b0 s → Save failpoint_env padding dir st s = (r, s') →
  let t1 := segment_tree padding (segments_of (ps_log st)) in
  let b1 := meta_bytes st in
  match r with
  | Done _ => layout dir (Some t1) (Some b1) s'
  | _ => layout dir t0 b0 s' ∨ layout dir None b0 s' ∨ layout dir (Some t1) b0 s' ∨
         layout dir (Some t1) None s' ∨ layout dir (Some t1) (Some b1) s'
  end.
Proof.
  intros Hl H t1 b1. unfold Save in H.
  assert (Hbad : ∀ {A} (r0 : Result A) (P Q : Prop), (∀ a, r0 ≠ Done a) → Q →
    match r0 with Done _ => P | _ => Q end) by (intros A [] P Q Hnd HQ; [by destruct (Hnd a)|done..]).
  assert (Hgood : ∀ {A} (r0 : Result A) (P Q : Prop), P → (P → Q) →
    match r0 with Done _ => P | _ => Q end) by (intros A [] P Q HP HQ; auto).
  apply bind_cases in H as [([] & s1 & Hst & H)|[Hst Hnd]].
  2:{ destruct (Stage failpoint_env padding dir st s) as [r1 s1] eqn:Hs. cbn [snd] in Hst. subst s1.
      apply Hbad; [done|]. left. by eapply Stage_layout. }
  pose proof (Stage_layout _ _ _ _ _ _ _ _ _ Hl Hst) as Hl1.
  apply Stage_Done in Hst as [Htmp Hmeta].
  apply bind_cases in H as [(out & s2 & Hrun & H)|[Hrun Hnd]].
  2:{ destruct (ReplaceDirectory _ _ _ _ s1) as [r2 s2] eqn:Hr. cbn [snd] in Hrun. subst s2.
      destruct (replace_log _ _ _ _ _ _ _ _ _ Hl1 Htmp Hmeta Hr) as [_ Hcases].
      apply Hbad; [done|]. destruct r2; tauto. }
  destruct (replace_log _ _ _ _ _ _ _ _ _ Hl1 Htmp Hmeta Hrun) as [Hmeta2 Hl2].
  apply bind_cases in H as [([] & s3 & Hrun3 & H)|[Hrun3 Hnd]].
  2:{ destruct (ReplaceFile _ _ _ s2) as [r3 s3] eqn:Hr. cbn [snd] in Hrun3. subst s3.
      pose proof (replace_meta _ _ _ _ _ _ _ _ Hl2 Hmeta2 Hr) as Hcases.
      apply Hbad; [done|]. destruct r3; tauto. }
  pose proof (replace_meta _ _ _ _ _ _ _ _ Hl2 Hmeta2 Hrun3) as Hl3. cbn in Hl3.
  apply Hgood; [|tauto]. by eapply remove_leftovers.
Qed.

(** C15: recovery returns well-typed states only, whatever bytes are on disk.  A
    [Load] that says there is a state returns machine integers within their types
    and records within the size limit, the boundaries ordered (applied, commit, end
    of the log), and, from the segmented layout, a log of successive indices. *)
Theorem Load_well_typed dir st s s' :
  Load dir s = (Done (st, true), s') →
  well_typed st ∧
  ps_last_applied st ≤ ps_commit_index st ≤ last_log_index_of (ps_log st) ∧
  (fs_exists (dir ++ [kMetaFileName]) s = true → successive (first_log_index_of (ps_log st)) (ps_log st)).
Proof.
  unfold Load. intros H.
  assert (Hclamp : ∀ st0, st = ClampRecoveredHardState st0 →
    ps_last_applied st ≤ ps_commit_index st ≤ last_log_index_of (ps_log st)).
  { intros st0 ->. destruct (ClampRecoveredHardState_spec st0) as (_ & _ & H3 & H4 & H5).
    rewrite H5, H3, H4. lia. }
  apply bind_Done in H as (segmented & s1 & [-> ->]%gets_Done & H).
  destruct (fs_exists (dir ++ [kMetaFileName]) s) eqn:Hex.
  - apply bind_Done in H as (st1 & s2 & H & [= -> _]). unfold LoadSegmented in H.
    apply bind_Done in H as (m & s3 & Hm%rename_error_Done & H).
    apply bind_Done in H as (rs & s4 & Hrs%rename_error_Done & [= Hst _]).
    apply LoadSegments_Done in Hrs as [Hf Hs].
    unfold ReadMeta in Hm. destruct (fs_read _ s) as [[b|] s5]; [|done]. injection Hm as Hm _.
    apply ParseMeta_Done in Hm as (Ht & Hv & Hc & Ha). rewrite <- Hst.
    split; [by apply Clamp_well_typed; split|].
    split; [rewrite Hst; by eapply Hclamp|]. intros _.
    match goal with |- context [ClampRecoveredHardState ?x] =>
      destruct (ClampRecoveredHardState_spec x) as (_ & _ & -> & _) end. exact Hs.
  - apply bind_Done in H as (legacy & s2 & _ & H). destruct legacy; [|done].
    apply bind_Done in H as (st1 & s3 & H & [= -> _]). unfold LoadLegacy in H.
    destruct (fs_read _ _) as [[b|] s4]; [|done]. injection H as H _.
    apply ParseLegacy_Done in H as [Hwt [st0 Hst0]]. split; [done|]. split; [by eapply Hclamp|done].
Qed.

(** One segment file, whole or torn. *)
Lemma LoadSegments_one d b rs count s :
  healthy s → d ≠ [] → rs ≠ [] → Forall record_fits rs → 0 < count ≤ vector_max_size →
  holds d {[ [segment_name rs] := b ]} s →
  ∀ last, LoadSegments d (first_log_index_of rs) last count s =
    (r ← ReadSegmentFile (d ++ [segment_name rs]) (first_log_index_of rs) last (mkRecovery [] false []);
     lift (CheckRecovery d (first_log_index_of rs) last count (files_of d [rs]) r)) s.
Proof.
  intros Hs Hd Hne Hf Hc Ht last. unfold LoadSegments. rewrite decide_False by lia.
  erewrite bind_run by reflexivity.
  assert (Hex : fs_exists d s = true).
  { unfold fs_exists. destruct d; [done|]. apply bool_decide_eq_true. specialize (Ht []).
    rewrite app_nil_r in Ht. rewrite Ht. by eexists. }
  rewrite Hex. cbn [negb]. erewrite bind_run by reflexivity.
  assert (Hfiles : SegmentFiles d s = files_of d [rs]).
  { destruct (first_last_u64 rs Hf) as [Hu _]. eapply SegmentFiles_names; [exact Ht| | |].
    - intros r. rewrite lookup_singleton_is_Some. set_solver.
    - by repeat constructor.
    - by apply Forall_singleton. }
  rewrite Hfiles. unfold reserve. rewrite decide_False by lia. erewrite bind_run by reflexivity.
  unfold files_of. cbn [fmap list_fmap ReadSegments rc_truncated].
  unfold mbind, FsM_bind. destruct (ReadSegmentFile _ _ _ _ s) as [[r| |] s1]; done.
Qed.

(** C37: recovery from a torn tail works once.  From a single-segment layout whose last
    entry was cut, [Load] returns the log without that entry and cuts the file back;
    but [meta.bin] still counts the entry, so the next [Load] of that disk, with no
    [Save] in between, fails: the node can no longer start. *)
Theorem Load_torn_tail dir padding st rs r k s :
  healthy s → storable st → ps_log st = rs ++ [r] → rs ≠ [] →
  (0 < k < length (entry_bytes padding r))%nat →
  layout dir (Some {[ [segment_name rs] := entries_bytes padding rs ++ take k (entry_bytes padding r) ]})
    (Some (meta_bytes st)) s →
  ∃ s1 e, Load dir s = (Done (ClampRecoveredHardState (st <| ps_log := rs |>), true), s1) ∧
    Load dir s1 = (Fail e, s1).
Proof.
  intros Hs Hst Hlog Hne Hk [Ht Hb]. set (d := dir ++ [kLogDirName]) in *.
  assert (Hd : d ≠ []) by (unfold d; by destruct dir).
  pose proof (sto_records _ Hst) as Hf. pose proof (sto_contiguous _ Hst) as Hc.
  rewrite Hlog in Hf. apply Forall_app in Hf as [Hf Hr].
  apply Forall_cons in Hr as [Hr _].
  assert (Hfirst : first_log_index_of (ps_log st) = first_log_index_of rs) by (rewrite Hlog; by destruct rs).
  rewrite Hfirst, Hlog in Hc. apply contiguous_app in Hc as [Hc _].
  pose proof (storable_boundary st Hst ltac:(rewrite Hlog; by destruct rs)) as Hlast.
  assert (Hlen : length (ps_log st) = S (length rs)) by (rewrite Hlog, length_app; cbn; lia).
  pose proof (sto_length _ Hst) as Hmax.
  assert (Hin : filter (in_range (first_log_index_of rs) (last_log_index_of (ps_log st))) rs = rs).
  { apply filter_all_in_range. eapply Forall_impl; [by apply contiguous_range|]. cbn. lia. }
  pose proof (LoadSegments_one d _ rs (Z.of_nat (length (ps_log st))) s Hs Hd Hne Hf ltac:(lia) Ht
                (last_log_index_of (ps_log st))) as Hload.
  assert (Hfile : nodes s !! (d ++ [segment_name rs]) =
            Some (File (entries_bytes padding rs ++ take k (entry_bytes padding r))))
    by (rewrite (Ht [segment_name rs]); by rewrite lookup_singleton_eq).
  destruct (ReadSegmentFile_torn_run padding (d ++ [segment_name rs]) (first_log_index_of rs)
    (last_log_index_of (ps_log st)) rs r k [] false [] s Hs Hf Hr Hk Hfile)
    as (diagnostic & s1 & Hread & Hdiag & Hs1 & Hfile1 & Honly).
  rewrite Hin in Hread. erewrite bind_run in Hload by exact Hread.
  unfold lift in Hload. cbn [app] in Hload. rewrite CheckRecovery_prefix in Hload by done.
  rewrite <- Hfirst in Hload.
  pose proof (Load_via _ _ _ _ _ Hs Hst Hb Hload) as Hfirst_load. cbn in Hfirst_load.
  assert (Ht1 : holds d {[ [segment_name rs] := entries_bytes padding rs ]} s1).
  { pose proof (holds_insert _ _ _ _ _ _ Ht Hfile1 Honly) as Hi.
    by rewrite insert_singleton_eq in Hi. }
  assert (Hb1 : file_is (dir ++ [kMetaFileName]) (Some (meta_bytes st)) s1).
  { unfold file_is. rewrite Honly; [exact Hb|]. unfold d. rewrite <- app_assoc.
    intros Heq%app_inv_head. discriminate. }
  pose proof (LoadSegments_one d _ rs (Z.of_nat (length (ps_log st))) s1 Hs1 Hd Hne Hf ltac:(lia) Ht1
                (last_log_index_of (ps_log st))) as Hload2.
  erewrite bind_run in Hload2 by (eapply ReadSegmentFile_whole; done).
  cbn [rc_records rc_truncated rc_diagnostics app] in Hload2. rewrite Hin in Hload2.
  unfold lift in Hload2. rewrite <- Hfirst in Hload2 at 1.
  destruct (CheckRecovery_short d (first_log_index_of rs) (last_log_index_of (ps_log st))
              (Z.of_nat (length (ps_log st))) (files_of d [rs]) rs) as [e He]; [lia|].
  rewrite He in Hload2.
  destruct (Load_via _ _ _ _ _ Hs1 Hst Hb1 Hload2) as [e2 He2]. eauto.
Qed.
End properties.
(** ** Every crash point of one save *)

(** What a restart finds. *)
Inductive Restart := rOld | rNew | rForgotten | rRefused | rOther.

(** A state with three entries on disk, then the state after compaction to two, in
    a later term with another vote. *)
Definition crash_old : PersistentRaftState :=
  mkPersistentRaftState 3 2 1 1
    [mkLogRecord 1 1 "SET|a|b"; mkLogRecord 2 3 "x"; mkLogRecord 3 3 "DEL|a"].
Definition crash_new : PersistentRaftState :=
  mkPersistentRaftState 4 1 2 2 [mkLogRecord 2 3 "x"; mkLogRecord 3 3 "DEL|a"].
Definition crash_disk : Fs := (Save None 0 ["data"] crash_old (mkFs ∅ [])).2.

(** The restart after the process died at the [k]-th operation of the save. *)
Definition restart_after (k : nat) : Restart :=
  let s := (Save None 0 ["data"] crash_new
              (crash_disk <| script := replicate k fOk ++ [fTorn 0] |>)).2 in
  match (Load ["data"] (s <| script := [] |>)).1 with
  | Done (st, true) => if decide (st = crash_old) then rOld else if decide (st = crash_new) then rNew
                       else rOther
  | Done (st, false) => rForgotten
  | _ => rRefused
  end.

(** Dying during [Save], operation by operation.  Up to the rename of the old log
    directory a restart finds the old state and after the rename of [meta.bin] the
    new one; but at the nine operations after the first rename the restart is
    refused, and between the removal and the rename of [meta.bin] it finds no state
    at all: term 0 and no vote, on a node that had voted in term 3. *)
Theorem Save_crash_points :
  restart_after <$> seq 0 46 =
    replicate 32 rOld ++ replicate 9 rRefused ++ [rForgotten] ++ replicate 4 rNew.
Proof. vm_compute. reflexivity. Qed.

(** Segment names.  The file name of a segment gives back its start index, for
    every 64-bit index, and no two indices share a name. *)
Theorem SegmentFileName_roundtrip d i :
  is_u64 i →
  ParseSegmentStartIndex (d ++ [SegmentFileName i]) = Some i ∧
  ∀ j, is_u64 j → SegmentFileName j = SegmentFileName i → j = i.
Proof.
  intros Hi. split; [by apply ParseSegmentStartIndex_name|]. intros j Hj. by apply SegmentFileName_inj.
Qed.

Lemma SegmentFileName_roundtrip_witness :
  ParseSegmentStartIndex (["data"; "log"] ++ [SegmentFileName 513]) = Some 513.
Proof. apply (SegmentFileName_roundtrip ["data"; "log"] 513). split; discriminate. Defined.

Lemma crash_new_storable : storable crash_new.
Proof.
  split; try (split; (discriminate || reflexivity)).
  - repeat constructor; discriminate.
  - intros k r Hk. do 2 (destruct k as [|k]; [injection Hk as <-; reflexivity|]). done.
  - discriminate.
Qed.

Lemma empty_layout dir : layout dir None None (mkFs ∅ []).
Proof. split; [intros r; apply lookup_empty|apply lookup_empty]. Qed.

Lemma Save_crash_states_witness :
  let s := (Save None 0 ["data"] crash_new (mkFs ∅ [])).2 in
  layout ["data"] (Some (segment_tree 0 (segments_of (ps_log crash_new)))) (Some (meta_bytes crash_new)) s.
Proof.
  cbv zeta. destruct (Save None 0 ["data"] crash_new (mkFs ∅ [])) as [r s] eqn:Hs. cbn [snd].
  assert (Hr : r = Done ()) by (apply (f_equal fst) in Hs; vm_compute in Hs; congruence). subst r.
  exact (Save_crash_states None 0 ["data"] crash_new None None (mkFs ∅ []) (Done ()) s
           (empty_layout _) Hs).
Defined.

Lemma Load_well_typed_witness :
  well_typed crash_new ∧ ps_last_applied crash_new ≤ ps_commit_index crash_new ≤ 3.
Proof.
  set (s := (Save None 0 ["data"] crash_new (mkFs ∅ [])).2).
  assert (Hl : Load ["data"] s = (Done (crash_new, true), (Load ["data"] s).2))
    by (vm_compute; reflexivity).
  destruct (Load_well_typed ["data"] crash_new s _ Hl) as (Hw & Hb & _). split; [exact Hw|exact Hb].
Defined.

(** The disk of the witnesses below: the save of [crash_new], its last entry cut. *)
Definition torn_rs : list LogRecord := [mkLogRecord 2 3 "x"].
Definition torn_record : LogRecord := mkLogRecord 3 3 "DEL|a".
Definition torn_file : bytes := entries_bytes 0 torn_rs ++ take 42 (entry_bytes 0 torn_record).
Definition torn_disk : Fs :=
  mkFs {[ ["data"] := Dir; ["data"; "log"] := Dir; ["data"; "log"; segment_name torn_rs] := File torn_file;
          ["data"; "meta.bin"] := File (meta_bytes crash_new) ]} [].

Lemma torn_layout :
  layout ["data"] (Some {[ [segment_name torn_rs] := torn_file ]}) (Some (meta_bytes crash_new)) torn_disk.
Proof.
  split; [|vm_compute; reflexivity]. intros r. unfold torn_disk. cbn [nodes].
  destruct r as [|x [|y r]].
  - by vm_compute.
  - destruct (decide (x = segment_name torn_rs)) as [->|Hx].
    + rewrite lookup_singleton_eq. by vm_compute.
    + rewrite lookup_singleton_ne by congruence.
      rewrite !lookup_insert_ne by (cbn; congruence). rewrite lookup_singleton_ne by done. done.
  - rewrite lookup_singleton_ne by congruence.
    rewrite !lookup_insert_ne by (cbn; congruence). rewrite lookup_singleton_ne by done. done.
Qed.

Lemma Load_torn_tail_witness :
  ∃ s1 e, Load ["data"] torn_disk = (Done (mkPersistentRaftState 4 1 2 2 torn_rs, true), s1) ∧
    Load ["data"] s1 = (Fail e, s1).
Proof.
  destruct (Load_torn_tail ["data"] 0 crash_new torn_rs torn_record 42 torn_disk eq_refl
              crash_new_storable eq_refl) as (s1 & e & H1 & H2);
    [discriminate|vm_compute; lia|exact torn_layout|].
  exists s1, e. split; [exact H1|exact H2].
Defined.

(** ** Termination *)
Lemma ScanSegment_enough first last f1 f2 b pos records :
  (length b < f1)%nat → (length b < f2)%nat →
  ScanSegment f1 first last b pos records = ScanSegment f2 first last b pos records.
Proof.
  revert f2 b pos records. induction f1 as [|f1 IH]; intros f2 b pos records H1 H2; [lia|].
  destruct f2 as [|f2]; [lia|]. cbn [ScanSegment]. destruct b as [|x b]; [done|].
  destruct (read_bytes header_size (x :: b)) as [[hb b1]|] eqn:Hh; [|done]. cbv zeta.
  destruct (_ || _ || _ || _); [done|].
  destruct (read_bytes (Z.to_nat _) b1) as [[data b2]|] eqn:Hd; [|done].
  destruct (decide (_ ≠ h_checksum _)); [done|].
  apply read_bytes_length in Hh, Hd. unfold header_size in Hh. apply IH; lia.
Qed.

Lemma ReadString_length b v b' : ReadString b = Done (v, b') → (8 + length b' ≤ length b)%nat.
Proof.
  unfold ReadString. intros H. apply and_then_Done in H as ([size b1] & H1 & H).
  apply ReadPod_length in H1. destruct (decide (_ < size)); [done|].
  destruct (decide (size = 0)); [injection H as _ <-; lia|].
  destruct (read_bytes _ b1) as [[w b2]|] eqn:Hr; [|done]. injection H as _ <-.
  apply read_bytes_length in Hr. lia.
Qed.

Lemma ReadLegacyLog_enough f1 f2 count b :
  (length b < f1)%nat → (length b < f2)%nat → ReadLegacyLog f1 count b = ReadLegacyLog f2 count b.
Proof.
  revert f2 count b. induction f1 as [|f1 IH]; intros f2 count b H1 H2; [lia|].
  destruct f2 as [|f2]; [lia|]. cbn [ReadLegacyLog]. destruct (decide (count ≤ 0)); [done|].
  destruct (ReadPod 8 b) as [[i b1]| |] eqn:Hi; [|done..]. cbn [and_then].
  destruct (ReadPod 8 b1) as [[t b2]| |] eqn:Ht; [|done..]. cbn [and_then].
  destruct (ReadString b2) as [[c b3]| |] eqn:Hc; [|done..]. cbn [and_then].
  apply ReadPod_length in Hi, Ht. apply ReadString_length in Hc. rewrite (IH f2); [done|lia..].
Qed.

(** C38: the readers stop by themselves.  The loops over a segment and over the legacy
    log, which the code writes as [while (true)] and as a count read from the file,
    end within the length of the file: any two bounds beyond it give the same result,
    so the bound the model runs them with never cuts a reading short. *)
Theorem recovery_loops_terminate first last f count b pos records :
  (length b < f)%nat →
  ScanSegment f first last b pos records = ScanSegment (S (length b)) first last b pos records ∧
  ReadLegacyLog f count b = ReadLegacyLog (S (length b)) count b.
Proof.
  intros Hf. split; [apply ScanSegment_enough|apply ReadLegacyLog_enough]; lia.
Qed.

Lemma recovery_loops_terminate_witness :
  ScanSegment 1000 2 3 torn_file 0 [] = ScanSegment (S (length torn_file)) 2 3 torn_file 0 [] ∧
  ReadLegacyLog 1000 7 torn_file = ReadLegacyLog (S (length torn_file)) 7 torn_file.
Proof. apply (recovery_loops_terminate 2 3 1000 7 torn_file 0 []). vm_compute. lia. Defined.
