(* ===== verification/RaftSaving.v ===== *)
(** FileRaftStorage on a disk that refuses nothing: [Save] succeeds.  What it needs of the
    data directory, [tidy], every run of [Save] leaves in place, a failing one or one in
    which the process dies too. *)
From S2P Require Import Prelude Types Bytes Digits Fs FsM Layout RaftStorage RaftRecovery.

(** ** A data directory that can be used *)

(** Nothing lies below [p]. *)
Definition childless (p : path) (s : Fs) : Prop := ∀ r, r ≠ [] → nodes s !! (p ++ r) = None.

Record tidy (dir : path) (s : Fs) : Prop := {
  td_path : ∀ q b, q `prefix_of` dir → nodes s !! q ≠ Some (File b);
  td_meta : childless (dir ++ [kMetaFileName]) s;
  td_temp : childless (dir ++ [kMetaTempFileName]) s;
  td_temp_dir : nodes s !! (dir ++ [kMetaTempFileName]) ≠ Some Dir }.

Definition keeps_tidy (dir : path) (s s' : Fs) : Prop := tidy dir s → tidy dir s'.
#[export] Instance keeps_tidy_preorder dir : PreOrder (keeps_tidy dir).
Proof. unfold keeps_tidy. split; [by intros s|]. intros s1 s2 s3. auto. Qed.

Section tidy.
Context (dir : path).
Implicit Types s : Fs.

Lemma under_longer (p q : path) (x : string) : q `prefix_of` p → under (p ++ [x]) q = false.
Proof.
  intros [l ->]. unfold under. apply bool_decide_eq_false. intros [l' Hl]. apply (f_equal length) in Hl.
  rewrite !length_app in Hl. cbn in Hl. lia.
Qed.

(** What happens under other names of the directory does not matter. *)
Lemma tidy_under ps s s' :
  only_under ps s s' →
  Forall (λ p, ∃ x, p = dir ++ [x] ∧ x ≠ kMetaFileName ∧ x ≠ kMetaTempFileName) ps →
  keeps_tidy dir s s'.
Proof.
  intros Ho Hps [H1 H2 H3 H4].
  assert (Hq : ∀ q, q `prefix_of` dir → nodes s' !! q = nodes s !! q).
  { intros q Hq. apply Ho. eapply Forall_impl; [exact Hps|]. intros p (x & -> & _). by apply under_longer. }
  assert (Hm : ∀ y r, y = kMetaFileName ∨ y = kMetaTempFileName →
    nodes s' !! ((dir ++ [y]) ++ r) = nodes s !! ((dir ++ [y]) ++ r)).
  { intros y r Hy. apply Ho. eapply Forall_impl; [exact Hps|]. intros p (x & -> & Hx1 & Hx2).
    apply apart_app, siblings_apart. by destruct Hy as [-> | ->]. }
  split.
  - intros q b Hpre. rewrite Hq by done. by apply H1.
  - intros r Hr. rewrite Hm by auto. by apply H2.
  - intros r Hr. rewrite Hm by auto. by apply H3.
  - specialize (Hm kMetaTempFileName []). rewrite !app_nil_r in Hm. by rewrite Hm by auto.
Qed.

Lemma tidy_keeps {A} ps (m : FsM A) :
  keeps (only_under ps) m →
  Forall (λ p, ∃ x, p = dir ++ [x] ∧ x ≠ kMetaFileName ∧ x ≠ kMetaTempFileName) ps →
  keeps (keeps_tidy dir) m.
Proof. intros Hk Hps s. eapply tidy_under; [apply Hk|exact Hps]. Qed.

Lemma tidy_nodes s s' : nodes s' = nodes s → keeps_tidy dir s s'.
Proof. intros Hn. apply (tidy_under []); [by apply same_under|constructor]. Qed.

(** Creating directories puts a directory at a prefix of the path, or nothing. *)
Lemma mkdirs_cases done todo ns q :
  (mkdirs done todo ns).2 !! q = ns !! q ∨
  (mkdirs done todo ns).2 !! q = Some Dir ∧ q `prefix_of` (done ++ todo).
Proof.
  revert done ns. induction todo as [|name todo IH]; intros done ns; [by left|]. cbn [mkdirs].
  replace (done ++ name :: todo) with ((done ++ [name]) ++ todo) by (by rewrite <- app_assoc).
  destruct (ns !! (done ++ [name])) as [[]|]; [by left|apply IH|].
  destruct (IH (done ++ [name]) (<[done ++ [name] := Dir]> ns)) as [Hq|?]; [|by right].
  destruct (decide (q = done ++ [name])) as [->|Hne]; [right|left].
  - rewrite Hq, lookup_insert_eq. split; [done|]. by apply prefix_app_r.
  - by rewrite Hq, lookup_insert_ne.
Qed.

Lemma tidy_create p s :
  p = dir ∨ (∃ x, p = dir ++ [x] ∧ x ≠ kMetaFileName ∧ x ≠ kMetaTempFileName) →
  keeps_tidy dir s (fs_create_directories p s).2.
Proof.
  intros Hp. destruct (fs_create_directories p s) as [r s'] eqn:Hc. cbn [snd].
  apply fs_step_cases in Hc as [[_ Hn]|Hc]; [by apply tidy_nodes|].
  assert (Hq : ∀ q, nodes s' !! q = nodes s !! q ∨ nodes s' !! q = Some Dir ∧ q `prefix_of` p).
  { intros q. pose proof (mkdirs_cases [] p (nodes s) q) as Hcase. by rewrite Hc in Hcase. }
  assert (Hm : ∀ y r, y = kMetaFileName ∨ y = kMetaTempFileName →
    ¬ ((dir ++ [y]) ++ r) `prefix_of` p).
  { intros y q Hy Hpre. destruct Hp as [->|(x & -> & Hx1 & Hx2)].
    - apply prefix_length in Hpre. rewrite !length_app in Hpre. cbn in Hpre. lia.
    - rewrite <- app_assoc in Hpre. apply prefix_app_inv in Hpre as [l Hl]. cbn in Hl.
      injection Hl as -> _. by destruct Hy. }
  intros [H1 H2 H3 H4]. split.
  - intros q b Hpre. destruct (Hq q) as [->|[-> _]]; [by apply H1|done].
  - intros q Hne. destruct (Hq ((dir ++ [kMetaFileName]) ++ q)) as [->|[_ Hpre]]; [by apply H2|].
    by apply Hm in Hpre; [|left].
  - intros q Hne. destruct (Hq ((dir ++ [kMetaTempFileName]) ++ q)) as [->|[_ Hpre]]; [by apply H3|].
    by apply Hm in Hpre; [|right].
  - destruct (Hq (dir ++ [kMetaTempFileName])) as [->|[_ Hpre]]; [done|].
    destruct (Hm kMetaTempFileName []); [by right|by rewrite app_nil_r].
Qed.

(** Writing the temporary metadata file: a file is there, or what was there before. *)
Definition file_only (p : path) (s s' : Fs) : Prop :=
  only_at p s s' ∧ (nodes s !! p ≠ Some Dir → nodes s' !! p ≠ Some Dir).
#[export] Instance file_only_preorder p : PreOrder (file_only p).
Proof.
  split; [done|]. intros s1 s2 s3 [H1 H2] [H3 H4]. split; [by etrans|auto].
Qed.

Lemma file_only_nodes p s s' : nodes s' = nodes s → file_only p s s'.
Proof. intros Hn. split; [by intros q _; rewrite Hn|by rewrite Hn]. Qed.

Lemma file_only_tidy s s' : file_only (dir ++ [kMetaTempFileName]) s s' → keeps_tidy dir s s'.
Proof.
  intros [Ho Hd] [H1 H2 H3 H4].
  split; [| | |by apply Hd].
  - intros q b Hq. rewrite Ho; [by apply H1|]. intros ->. apply prefix_length in Hq.
    rewrite length_app in Hq. cbn in Hq. lia.
  - intros r Hr. rewrite Ho; [by apply H2|]. rewrite <- app_assoc. by intros ?%app_inv_head.
  - intros r Hr. rewrite Ho; [by apply H3|]. intros Heq. rewrite <- (app_nil_r (dir ++ _)) in Heq at 2.
    by apply app_inv_head in Heq.
Qed.
End tidy.

Section keeping.
Context (failpoint_env : option string) (padding : Z) (dir : path).
Implicit Types s : Fs.

Lemma open_trunc_file p s : file_only p s (fs_open_trunc p s).2.
Proof.
  destruct (fs_open_trunc p s) as [r s'] eqn:H. split; [by eapply fs_open_trunc_only|].
  unfold fs_open_trunc in H. destruct (fs_step _ s) as [r1 s1] eqn:Hs. injection H as _ <-. cbn [snd].
  apply fs_step_cases in Hs as [[_ ->]|Hf]; [done|]. case_match; injection Hf as _ <-; [|done].
  by rewrite lookup_insert_eq.
Qed.

Lemma write_file_only p b s : file_only p s (fs_write p b s).2.
Proof.
  destruct (fs_write p b s) as [r s'] eqn:H. split; [by eapply fs_write_only|]. cbn [snd].
  assert (Ha : ∀ b' ns, ns !! p ≠ Some Dir → append_node p b' ns !! p ≠ Some Dir).
  { intros b' ns Hns. unfold append_node. destruct (ns !! p) as [[]|] eqn:Hp; try done; try by rewrite Hp.
    by rewrite lookup_insert_eq. }
  assert (Hstep : ∀ r1 s1, fs_step (λ ns, (None, append_node p b ns)) s = (r1, s1) →
    nodes s !! p ≠ Some Dir → nodes s1 !! p ≠ Some Dir).
  { intros r1 s1 [[_ ->]|[= _ <-]]%fs_step_cases; [done|apply Ha]. }
  unfold fs_write in H. destruct (script s) as [|[] l]; try (injection H as _ <-; apply Ha);
    destruct (fs_step _ s) as [r1 s1]; injection H as _ <-; by eapply Hstep.
Qed.

Lemma nothing_file p s s' : only_under [] s s' → file_only p s s'.
Proof. intros Ho. split; [intros q _; by apply Ho|]. by rewrite Ho. Qed.

Lemma WriteMeta_file p st : keeps (file_only p) (WriteMeta failpoint_env p st).
Proof.
  unfold WriteMeta, WritePod. keeps_step; intros s;
    first [apply open_trunc_file|apply write_file_only|apply nothing_file];
    first [apply flush_under|apply InjectFailure_under|apply SyncFile_under].
Qed.

(** Replacing [meta.bin] by the temporary file. *)
Lemma remove_meta_tidy s : keeps_tidy dir s (fs_remove (dir ++ [kMetaFileName]) s).2.
Proof.
  destruct (fs_remove (dir ++ [kMetaFileName]) s) as [r s'] eqn:Hr. cbn [snd].
  intros [H1 H2 H3 H4].
  assert (Hq : ∀ q, nodes s' !! q = nodes s !! q ∨ nodes s' !! q = None).
  { intros q. destruct (decide (q = dir ++ [kMetaFileName])) as [->|Hne].
    - by eapply fs_remove_here.
    - left. by eapply fs_remove_only. }
  assert (Hnone : ∀ q, nodes s !! q = None → nodes s' !! q = None)
    by (intros q Hn; destruct (Hq q) as [->|]; done).
  split; [intros q b Hb|intros q Hb; by apply Hnone, H2|intros q Hb; by apply Hnone, H3|].
  - destruct (Hq q) as [->| ->]; [by apply H1|done].
  - destruct (Hq (dir ++ [kMetaTempFileName])) as [->| ->]; done.
Qed.

Lemma rename_meta_tidy s :
  keeps_tidy dir s (fs_rename (dir ++ [kMetaTempFileName]) (dir ++ [kMetaFileName]) s).2.
Proof.
  destruct (fs_rename _ _ s) as [r s'] eqn:Hr. cbn [snd].
  assert (Hap : apart (dir ++ [kMetaTempFileName]) (dir ++ [kMetaFileName])) by (by apply siblings_apart).
  destruct (fs_rename_here _ _ _ _ _ Hr Hap) as [[Hn _]|(_ & _ & Hn)]; [by apply tidy_nodes|].
  intros [H1 H2 H3 H4]. split.
  - intros q b Hq. rewrite Hn, move_other; [by apply H1|done|by apply under_longer..].
  - intros q Hq. rewrite Hn, move_to by done. by apply H3.
  - intros q Hq. by rewrite Hn, move_from.
  - pose proof (move_from (dir ++ [kMetaTempFileName]) _ (nodes s) [] Hap) as Hf.
    rewrite app_nil_r in Hf. by rewrite Hn, Hf.
Qed.

Lemma nothing_tidy {A} (m : FsM A) : keeps (only_under []) m → keeps (keeps_tidy dir) m.
Proof. intros Hk. by apply (tidy_keeps dir []). Qed.

Lemma ReplaceFile_tidy : keeps (keeps_tidy dir)
  (ReplaceFile failpoint_env (dir ++ [kMetaTempFileName]) (dir ++ [kMetaFileName])).
Proof.
  unfold ReplaceFile. keeps_step.
  - intros s. apply remove_meta_tidy.
  - intros s. apply rename_meta_tidy.
  - apply nothing_tidy, InjectFailure_under.
  - apply nothing_tidy, SyncParent_under.
Qed.

Ltac other_names := repeat constructor; eexists; (split; [reflexivity|split; discriminate]).

Lemma ReplaceDirectory_under src dst backup :
  apart src dst → apart dst backup →
  keeps (only_under [src; dst; backup]) (ReplaceDirectory failpoint_env src dst backup).
Proof.
  intros H1 H2. assert (H3 : apart backup dst) by (by symmetry).
  unfold ReplaceDirectory, Park, Publish. keeps_step;
    first [apply InjectFailure_under|apply SyncParent_under|intros s0;
      first [apply remove_all_under; set_solver|apply rename_under; [set_solver..|done]]].
Qed.

(** Whatever happens in [Save], the directory can be used again. *)
Lemma Save_tidy st : keeps (keeps_tidy dir) (Save failpoint_env padding dir st).
Proof.
  unfold Save, Stage. keeps_step.
  - intros s. apply tidy_create. by left.
  - intros s. eapply (tidy_under dir [dir ++ [kLogTempDirName]]); [|other_names].
    apply remove_all_under. set_solver.
  - intros s. apply tidy_create. right. eexists. split; [done|split; discriminate].
  - eapply tidy_keeps; [apply WriteSegments_under|other_names].
  - intros s. apply file_only_tidy, WriteMeta_file.
  - eapply tidy_keeps; [apply ReplaceDirectory_under; by apply siblings_apart|other_names].
  - apply ReplaceFile_tidy.
  - intros s. eapply (tidy_under dir [dir ++ [kLegacyStateFileName]]); [|other_names].
    apply remove_under. set_solver.
  - intros s. eapply (tidy_under dir [dir ++ ["raft_state.bin.tmp"]]); [|other_names].
    apply remove_under. set_solver.
Qed.
End keeping.

(** ** Success on a healthy disk *)

Definition succeeds {A} (m : FsM A) (s : Fs) : Prop := ∃ a s', m s = (Done a, s').

(** A healthy disk stays healthy. *)
Definition stays_healthy (s s' : Fs) : Prop := healthy s → healthy s'.
#[export] Instance stays_healthy_preorder : PreOrder stays_healthy.
Proof. unfold stays_healthy. split; [by intros s|]. intros s1 s2 s3. auto. Qed.

Section success.
Implicit Types s : Fs.

Lemma succeeds_bind {A B} (m : FsM A) (f : A → FsM B) s :
  succeeds m s → (∀ a s1, m s = (Done a, s1) → succeeds (f a) s1) → succeeds (m ≫= f) s.
Proof.
  intros (a & s1 & Hm) Hf. destruct (Hf a s1 Hm) as (b & s2 & Hb). exists b, s2.
  by rewrite (bind_run _ _ _ _ _ Hm).
Qed.

Lemma succeeds_ret {A} (a : A) s : succeeds (mret a) s.
Proof. by exists a, s. Qed.

Lemma succeeds_attempt {A} (m : FsM A) s : succeeds m s → attempt m s = (Done None, (m s).2).
Proof. intros (a & s' & Hm). unfold attempt. by rewrite Hm. Qed.

Lemma succeeds_step f g s :
  healthy s → (f (nodes s)).1 = None → succeeds (with_ec (fs_step f) g) s.
Proof. intros Hs Hf. exists (). eexists. by rewrite with_ec_step, Hf. Qed.

Lemma succeeds_stream op e s : (op s).1 = true → succeeds (on_stream op e) s.
Proof. intros Hop. exists (), (op s).2. unfold on_stream. by destruct (op s) as [[] s1]. Qed.

Lemma healthy_step f s : stays_healthy s (fs_step f s).2.
Proof. intros Hs. rewrite fs_step_healthy by done. done. Qed.
Lemma healthy_tick s : stays_healthy s (fs_tick s).2.
Proof. intros Hs. by rewrite fs_healthy_tick. Qed.
Lemma healthy_remove_all p s : stays_healthy s (fs_remove_all p s).2.
Proof. intros Hs. unfold fs_remove_all. pose proof Hs as Hs'. unfold healthy in Hs'. rewrite Hs'. by apply healthy_step. Qed.
Lemma healthy_open_trunc p s : stays_healthy s (fs_open_trunc p s).2.
Proof.
  intros Hs. unfold fs_open_trunc. match goal with |- context [fs_step ?f s] =>
    pose proof (healthy_step f s Hs) end. by destruct (fs_step _ s).
Qed.
Lemma healthy_write p b s : stays_healthy s (fs_write p b s).2.
Proof.
  intros Hs. unfold fs_write. pose proof Hs as Hs'. unfold healthy in Hs'. rewrite Hs'.
  match goal with |- context [fs_step ?f s] => pose proof (healthy_step f s Hs) end.
  by destruct (fs_step _ s).
Qed.
Lemma healthy_flush s : stays_healthy s (fs_flush s).2.
Proof. intros Hs. unfold fs_flush. by rewrite fs_healthy_tick. Qed.

Lemma remove_all_succeeds p g s : healthy s → succeeds (with_ec (fs_remove_all p) g) s.
Proof.
  intros Hs. pose proof (succeeds_step (λ ns, (None, prune p ns)) g s Hs eq_refl) as H.
  unfold succeeds, with_ec, fs_remove_all in *. unfold healthy in Hs. by rewrite Hs.
Qed.

Lemma flush_succeeds e s : healthy s → succeeds (on_stream fs_flush e) s.
Proof. intros Hs. apply succeeds_stream. unfold fs_flush. by rewrite fs_healthy_tick. Qed.

Lemma write_succeeds p b e s : healthy s → succeeds (on_stream (fs_write p b) e) s.
Proof.
  intros Hs. apply succeeds_stream. unfold fs_write. pose proof Hs as Hs'. unfold healthy in Hs'.
  rewrite Hs', fs_step_healthy by done. by apply bool_decide_eq_true.
Qed.

Lemma open_trunc_succeeds p e s :
  healthy s → is_dir (parent_path p) (nodes s) = true → nodes s !! p ≠ Some Dir →
  succeeds (on_stream (fs_open_trunc p) e) s.
Proof.
  intros Hs Hd Hp. apply succeeds_stream. unfold fs_open_trunc. rewrite fs_step_healthy by done.
  rewrite Hd, (bool_decide_false (_ = Some Dir)) by done. by apply bool_decide_eq_true.
Qed.

Lemma fsync_succeeds f m1 m2 m3 p s :
  healthy s → (f (nodes s)).1 = None → succeeds (open_fsync_close (fs_step f) m1 m2 m3 p) s.
Proof.
  intros Hs Hf. unfold open_fsync_close. apply succeeds_bind; [by apply succeeds_step|].
  intros [] s1 H1%with_ec_Done. pose proof (healthy_step f s Hs) as Hs1. rewrite H1 in Hs1. cbn in Hs1.
  assert (Ht : ∀ g s2, healthy s2 → succeeds (with_ec fs_tick g) s2).
  { intros g s2 Hs2. exists (), s2. unfold with_ec. by rewrite fs_healthy_tick. }
  apply succeeds_bind; [by apply Ht|]. intros [] s2 H2%with_ec_Done. apply Ht.
  pose proof (healthy_tick s1 Hs1) as Hs2. by rewrite H2 in Hs2.
Qed.

Lemma SyncFile_succeeds p s b : healthy s → nodes s !! p = Some (File b) → succeeds (SyncFile p) s.
Proof.
  intros Hs Hp. apply fsync_succeeds; [done|]. unfold is_file. rewrite Hp.
  by rewrite orb_true_r.
Qed.
Lemma SyncDirectory_succeeds p s :
  healthy s → is_dir p (nodes s) = true → succeeds (SyncDirectory p) s.
Proof. intros Hs Hp. apply fsync_succeeds; [done|]. by rewrite Hp. Qed.
Lemma SyncParent_succeeds p s :
  healthy s → is_dir (parent_path p) (nodes s) = true → succeeds (SyncParent p) s.
Proof.
  intros Hs Hp. unfold SyncParent. case_decide; [apply succeeds_ret|by apply SyncDirectory_succeeds].
Qed.
Lemma InjectFailure_succeeds fp operation p t c d s :
  fp ≠ kNone → succeeds (InjectFailureIfRequested None fp operation p t c d) s.
Proof.
  intros Hfp. unfold InjectFailureIfRequested. rewrite decide_False by (intros He; by destruct Hfp).
  apply succeeds_ret.
Qed.

Lemma mkdirs_succeeds done todo ns :
  (∀ q b, q `prefix_of` (done ++ todo) → ns !! q ≠ Some (File b)) → (mkdirs done todo ns).1 = None.
Proof.
  revert done ns. induction todo as [|name todo IH]; intros done ns Hp; [easy|]. cbn [mkdirs].
  replace (done ++ name :: todo) with ((done ++ [name]) ++ todo) in Hp by (by rewrite <- app_assoc).
  destruct (ns !! (done ++ [name])) as [[b|]|] eqn:Hn; [| by apply IH|].
  - by destruct (Hp (done ++ [name]) b); [apply prefix_app_r|].
  - apply IH. intros q b Hq. destruct (decide (q = done ++ [name])) as [->|Hne].
    + by rewrite lookup_insert_eq.
    + rewrite lookup_insert_ne by done. by apply Hp.
Qed.

Lemma create_succeeds p g s :
  healthy s → (∀ q b, q `prefix_of` p → nodes s !! q ≠ Some (File b)) →
  succeeds (with_ec (fs_create_directories p) g) s.
Proof. intros Hs Hp. apply succeeds_step; [done|]. by apply mkdirs_succeeds. Qed.

Lemma rename_succeeds src dst g s :
  healthy s → is_Some (nodes s !! src) → nodes s !! dst = None → apart src dst →
  is_dir (parent_path dst) (nodes s) = true → succeeds (with_ec (fs_rename src dst) g) s.
Proof.
  intros Hs [x Hx] Hd Hap Hpar. apply succeeds_step; [done|]. rewrite Hx.
  rewrite decide_False by (by apply apart_neq). destruct Hap as [-> ->]. rewrite Hpar, Hd. cbn [orb negb].
  by destruct x.
Qed.
End success.

(** Runs that keep the disk healthy. *)
Section stay.
Context (failpoint_env : option string) (padding : Z).

Lemma healthy_sync opened m1 m2 m3 p :
  (∀ s, stays_healthy s (opened s).2) → keeps stays_healthy (open_fsync_close opened m1 m2 m3 p).
Proof. intros Hop. unfold open_fsync_close. keeps_step; [exact Hop|exact healthy_tick..]. Qed.

Lemma SyncDirectory_stays p : keeps stays_healthy (SyncDirectory p).
Proof. apply healthy_sync. intros s. apply healthy_step. Qed.
Lemma SyncFile_stays p : keeps stays_healthy (SyncFile p).
Proof. apply healthy_sync. intros s. apply healthy_step. Qed.
Lemma SyncParent_healthy p : keeps stays_healthy (SyncParent p).
Proof. unfold SyncParent. keeps_step. apply SyncDirectory_stays. Qed.
Lemma InjectFailure_healthy fp operation p t c d :
  keeps stays_healthy (InjectFailureIfRequested failpoint_env fp operation p t c d).
Proof. unfold InjectFailureIfRequested. keeps_step. Qed.

Lemma FlushAndSync_healthy p final :
  keeps stays_healthy (FlushAndSyncSegmentFile failpoint_env p final).
Proof.
  unfold FlushAndSyncSegmentFile. keeps_step;
    [exact healthy_flush|intros s; apply healthy_write|apply SyncFile_stays].
Qed.

Lemma OpenSegment_healthy d i : keeps stays_healthy (OpenSegment d i).
Proof. unfold OpenSegment. keeps_step. intros s. apply healthy_open_trunc. Qed.
Lemma WriteEntry_healthy p r : keeps stays_healthy (WriteEntry padding p r).
Proof. unfold WriteEntry. keeps_step; intros s; apply healthy_write. Qed.

Lemma WriteRecords_healthy d current records :
  keeps stays_healthy (WriteRecords failpoint_env padding d current records).
Proof.
  revert current. induction records as [|r records IH]; intros current; cbn [WriteRecords]; [keeps_step|].
  keeps_step; first [apply FlushAndSync_healthy|apply OpenSegment_healthy|apply WriteEntry_healthy|apply IH].
Qed.

Lemma WriteSegments_healthy d records :
  keeps stays_healthy (WriteSegments failpoint_env padding d records).
Proof.
  unfold WriteSegments. keeps_step;
    first [apply WriteRecords_healthy|apply FlushAndSync_healthy|apply SyncDirectory_stays].
Qed.

Lemma WriteMeta_healthy p st : keeps stays_healthy (WriteMeta failpoint_env p st).
Proof.
  unfold WriteMeta, WritePod. keeps_step;
    first [apply InjectFailure_healthy|apply SyncFile_stays|exact healthy_flush|
           intros s; first [apply healthy_open_trunc|apply healthy_write]].
Qed.

Lemma ReplaceDirectory_healthy src dst backup :
  keeps stays_healthy (ReplaceDirectory failpoint_env src dst backup).
Proof.
  unfold ReplaceDirectory, Park, Publish. keeps_step;
    first [apply InjectFailure_healthy|apply SyncParent_healthy
          |intros s0; first [apply healthy_remove_all|apply healthy_step]].
Qed.

Lemma Save_healthy dir st : keeps stays_healthy (Save failpoint_env padding dir st).
Proof.
  unfold Save, Stage, ReplaceFile. keeps_step;
    first [apply WriteSegments_healthy|apply WriteMeta_healthy|apply InjectFailure_healthy
          |apply ReplaceDirectory_healthy
          |apply SyncParent_healthy|intros s0; first [apply healthy_remove_all|apply healthy_step]].
Qed.

(** The run [H] of [m] went on from a healthy disk. *)
Lemma healthy_after {A} (m : FsM A) s r s' : keeps stays_healthy m → m s = (r, s') → healthy s → healthy s'.
Proof. intros Hk Hm Hs. specialize (Hk s Hs). by rewrite Hm in Hk. Qed.
End stay.

(** ** Writing the segments *)
Section segments.
Context (padding : Z).
Implicit Types s : Fs.

Definition writable_record (r : LogRecord) : Prop := Z.of_nat (String.length (command r)) ≤ 4294967295.

Lemma OpenSegment_succeeds d i t s :
  healthy s → holds d t s → succeeds (OpenSegment d i) s.
Proof.
  intros Hs Hd. unfold OpenSegment. apply succeeds_bind; [|intros; apply succeeds_ret].
  apply open_trunc_succeeds; [done| |].
  - unfold parent_path. rewrite removelast_last. unfold is_dir. destruct d; [done|].
    apply bool_decide_eq_true. specialize (Hd []). by rewrite app_nil_r in Hd.
  - rewrite (Hd [_]). by destruct (t !! _).
Qed.

Lemma WriteEntry_succeeds p r s : healthy s → writable_record r → succeeds (WriteEntry padding p r) s.
Proof.
  intros Hs Hr. unfold WriteEntry, writable_record in *. rewrite (decide_False (P := _ < _)) by lia.
  apply succeeds_bind; [apply succeeds_ret|]. intros [] s1 [_ ->]%ret_Done.
  apply succeeds_bind; [by apply write_succeeds|]. intros [] s2 H2%on_stream_Done.
  case_decide; [apply succeeds_ret|]. apply write_succeeds.
  pose proof (healthy_write p (header_bytes padding (entry_header r)) s Hs) as Hs2. by rewrite H2 in Hs2.
Qed.

Lemma FlushAndSync_succeeds p final b s :
  healthy s → nodes s !! p = Some (File b) → succeeds (FlushAndSyncSegmentFile None p final) s.
Proof.
  intros Hs Hp. unfold FlushAndSyncSegmentFile. apply succeeds_bind; [by apply flush_succeeds|].
  intros [] s1 H1%on_stream_Done.
  rewrite (bool_decide_false (_ = _)) by done. rewrite andb_false_r.
  pose proof (healthy_flush s Hs) as Hs1. rewrite H1 in Hs1.
  eapply SyncFile_succeeds; [done|]. by rewrite (fs_flush_nodes _ _ _ H1).
Qed.

(** The open segment is there. *)
Definition current_there (d : path) (current : option (path * Z)) s : Prop :=
  match current with Some (p, _) => ∃ x b, p = d ++ [x] ∧ nodes s !! p = Some (File b) | None => True end.

Lemma WriteRecords_succeeds d current records s t :
  healthy s → holds d t s → current_there d current s → Forall writable_record records →
  ∃ out s', WriteRecords None padding d current records s = (Done out, s') ∧
    (∃ t', holds d t' s') ∧
    match out with Some p => ∃ b, nodes s' !! p = Some (File b) | None => True end.
Proof.
  revert current s t. induction records as [|r records IH]; intros current s t Hs Hd Hc Hw.
  { cbn [WriteRecords]. exists (fst <$> current), s. split; [done|]. split; [by exists t|].
    destruct current as [[p c]|]; cbn; [|done]. destruct Hc as (x & b & _ & Hp). by exists b. }
  apply Forall_cons in Hw as [Hr Hw]. cbn [WriteRecords].
  match goal with |- context [mbind _ ?m s] => set (opening := m) end.
  assert (Hopen : ∃ p c s1 t1 b, opening s = (Done (p, c), s1) ∧ healthy s1 ∧ holds d t1 s1 ∧
            (∃ x, p = d ++ [x]) ∧ nodes s1 !! p = Some (File b)).
  { assert (Hfresh : ∀ s0 t0, healthy s0 → holds d t0 s0 →
      ∃ p c s1 t1 b, (p ← OpenSegment d (index r); mret (p, 0)) s0 = (Done (p, c), s1) ∧ healthy s1 ∧
        holds d t1 s1 ∧ (∃ x, p = d ++ [x]) ∧ nodes s1 !! p = Some (File b)).
    { intros s0 t0 Hs0 Hd0. destruct (OpenSegment_succeeds d (index r) t0 s0 Hs0 Hd0) as (p & s1 & Ho).
      pose proof (healthy_after _ _ _ _ (OpenSegment_healthy d (index r)) Ho Hs0) as Hs1.
      pose proof (OpenSegment_Done _ _ _ _ _ Ho) as (-> & Hp & Hoa).
      eexists _, _, s1, _, []. split; [by rewrite (bind_run _ _ _ _ _ Ho)|].
      split; [done|]. split; [by eapply holds_insert|]. eauto. }
    subst opening. destruct current as [[p c]|]; [|by eapply Hfresh].
    destruct Hc as (x & b & -> & Hp). case_decide.
    - destruct (FlushAndSync_succeeds _ false b s Hs Hp) as ([] & s1 & Hf).
      rewrite (bind_run _ _ _ _ _ Hf). apply (Hfresh s1 t).
      + by eapply (healthy_after _ _ _ _ (FlushAndSync_healthy None _ _) Hf).
      + eapply holds_nodes; [by eapply FlushAndSync_Done|done].
    - exists (d ++ [x]), c, s, t, b. split_and!; try done. by exists x. }
  destruct Hopen as (p & c & s1 & t1 & b & Ho & Hs1 & Hd1 & [x ->] & Hp).
  rewrite (bind_run _ _ _ _ _ Ho). cbn [fst snd].
  destruct (WriteEntry_succeeds (d ++ [x]) r s1 Hs1 Hr) as ([] & s2 & He).
  rewrite (bind_run _ _ _ _ _ He).
  destruct (WriteEntry_Done _ _ _ _ _ _ _ He Hp) as [Hp2 Hoa].
  eapply IH; [by eapply (healthy_after _ _ _ _ (WriteEntry_healthy padding _ _) He)
             |by eapply holds_insert|by repeat eexists|done].
Qed.

Lemma holds_dir d t s : holds d t s → is_dir d (nodes s) = true.
Proof.
  intros Hd. unfold is_dir. destruct d; [done|]. apply bool_decide_eq_true.
  specialize (Hd []). by rewrite app_nil_r in Hd.
Qed.

Lemma WriteSegments_succeeds d records s t :
  healthy s → holds d t s → Forall writable_record records →
  succeeds (WriteSegments None padding d records) s.
Proof.
  intros Hs Hd Hw. unfold WriteSegments. destruct records as [|r records].
  { apply SyncDirectory_succeeds; [done|by eapply holds_dir]. }
  destruct (WriteRecords_succeeds d None (r :: records) s t Hs Hd I Hw) as (out & s1 & Hr & [t1 Hd1] & Ho).
  pose proof (healthy_after _ _ _ _ (WriteRecords_healthy None padding d None (r :: records)) Hr Hs) as Hs1.
  apply succeeds_bind; [by exists out, s1|]. intros o s1' Hr'. rewrite Hr in Hr'. injection Hr' as <- <-.
  apply succeeds_bind.
  { destruct out as [p|]; [|apply succeeds_ret]. destruct Ho as [b Hb]. by eapply FlushAndSync_succeeds. }
  intros [] s2 H2. destruct out as [p|].
  - apply SyncDirectory_succeeds; [by eapply (healthy_after _ _ _ _ (FlushAndSync_healthy None _ _) H2)|].
    rewrite (FlushAndSync_Done _ _ _ _ _ _ H2). by eapply holds_dir.
  - apply ret_Done in H2 as [_ ->]. apply SyncDirectory_succeeds; [done|by eapply holds_dir].
Qed.
End segments.

(** ** What a successful [Save] leaves, whatever was there before *)
Section published.
Context (failpoint_env : option string) (padding : Z).
Implicit Types s : Fs.

Lemma Park_Done dst backup s u s' :
  dst ≠ [] → apart dst backup → Park dst backup s = (Done u, s') →
  nodes s' !! dst = None ∧ only_under [dst; backup] s s'.
Proof.
  intros Hne Hap H.
  assert (Hu : keeps (only_under [dst; backup]) (Park dst backup)).
  { unfold Park. keeps_step; intros s0; [apply remove_all_under; set_solver|].
    apply rename_under; [set_solver..|done]. }
  specialize (Hu s). rewrite H in Hu. split; [|exact Hu]. clear Hu.
  unfold Park in H. step_run H s1 H1. apply with_ec_Done in H1.
  apply bind_Done in H as (there & s2 & [-> ->]%gets_Done & H).
  destruct (fs_exists dst s1) eqn:Hex.
  - apply with_ec_Done, fs_rename_None in H; [|done].
    pose proof (move_from dst backup (nodes s1) [] Hap) as Hm. rewrite app_nil_r in Hm. by rewrite H.
  - apply ret_Done in H as [_ ->]. unfold fs_exists in Hex. destruct dst; [done|].
    apply bool_decide_eq_false in Hex. by apply eq_None_not_Some.
Qed.

Lemma Publish_Done src dst backup t s e s' :
  apart src dst → apart dst backup → holds src t s →
  Publish failpoint_env src dst backup s = (Done e, s') → holds dst t s'.
Proof.
  intros Hsd Hdb Ht H. unfold Publish in H.
  apply bind_Done in H as (renamed & s1 & Hr & H). unfold attempt, with_ec in Hr.
  destruct (fs_rename src dst s) as [[m|] s1'] eqn:Hren; injection Hr as <- <-.
  { apply bind_Done in H as (restore & s2 & _ & H). apply bind_Done in H as (? & ? & _ & H). done. }
  apply fs_rename_None in Hren; [|done].
  assert (Hd : holds dst t s1') by (intros q; rewrite Hren, move_to by done; apply Ht).
  match type of H with ?m s1' = _ => assert (Hks : keeps (only_under [backup]) m) end.
  { keeps_step; first [apply InjectFailure_under|apply SyncParent_under|
      intros s2; apply remove_all_under; set_solver]. }
  specialize (Hks s1'). rewrite H in Hks. cbn [snd] in Hks.
  apply (tree_is_under [backup] dst (Some t) s1'); [done| |done].
  intros p ->%list_elem_of_singleton. by symmetry.
Qed.

Lemma ReplaceDirectory_Done src dst backup t s e s' :
  dst ≠ [] → apart src dst → apart src backup → apart dst backup → holds src t s →
  ReplaceDirectory failpoint_env src dst backup s = (Done e, s') → holds dst t s'.
Proof.
  intros Hne Hsd Hsb Hdb Ht H. unfold ReplaceDirectory in H. step_run H s1 H1. step_run H s2 H2.
  apply InjectFailure_Done in H2 as ->. apply Park_Done in H1 as [_ Hu]; [|done..].
  eapply Publish_Done; [exact Hsd|exact Hdb| |exact H].
  apply (tree_is_under [dst; backup] src (Some t) s); [done| |done].
  intros p [->| ->%list_elem_of_singleton]%elem_of_cons; by symmetry.
Qed.

Lemma ReplaceFile_Done src dst b s u s' :
  apart src dst → nodes s !! src = Some (File b) →
  ReplaceFile failpoint_env src dst s = (Done u, s') →
  file_is dst (Some b) s' ∧ only_under [src; dst] s s'.
Proof.
  intros Hap Hb H.
  assert (Hk : keeps (only_under [src; dst]) (ReplaceFile failpoint_env src dst)).
  { unfold ReplaceFile. keeps_step; first [apply InjectFailure_under|apply SyncParent_under|
      intros s2; first [apply remove_under; set_solver|apply rename_under; set_solver]]. }
  specialize (Hk s). rewrite H in Hk. split; [|exact Hk]. clear Hk.
  unfold ReplaceFile in H. apply bind_Done in H as (there & s1 & [-> ->]%gets_Done & H).
  step_run H s2 H2.
  assert (Hb2 : nodes s2 !! src = Some (File b)).
  { destruct (fs_exists dst s); [|by apply ret_Done in H2 as [_ ->]].
    apply with_ec_Done, fs_remove_only in H2. rewrite H2; [done|by apply apart_neq]. }
  step_run H s3 H3. apply with_ec_Done, fs_rename_None in H3; [|done].
  match type of H with ?m s3 = _ => assert (Hks : keeps (only_under []) m) end.
  { keeps_step; first [apply InjectFailure_under|apply SyncParent_under]. }
  specialize (Hks s3). rewrite H in Hks. eapply file_is_under; [exact Hks|set_solver|].
  unfold file_is. rewrite H3. pose proof (move_to src dst (nodes s2) [] Hap) as Hm.
  rewrite !app_nil_r in Hm. by rewrite Hm.
Qed.

(** The layout of a saved state. *)
Definition saved_as (dir : path) (st : PersistentRaftState) (s : Fs) : Prop :=
  layout dir (Some (segment_tree padding (segments_of (ps_log st)))) (Some (meta_bytes st)) s.

Lemma Save_Done_layout dir st s u s' :
  Save failpoint_env padding dir st s = (Done u, s') → saved_as dir st s'.
Proof.
  intros H. destruct (layout_paths dir) as (Hp1 & Hp2 & Hp3 & Hp4).
  unfold Save in H. step_run H s1 H1. step_run H s2 H2. step_run H s3 H3.
  apply Stage_Done in H1 as [Htmp Hmeta].
  assert (Hmeta2 : nodes s2 !! (dir ++ [kMetaTempFileName]) = Some (File (meta_bytes st))).
  { pose proof (ReplaceDirectory_under failpoint_env _ _ _ Hp1 Hp3 s1) as Hu. rewrite H2 in Hu.
    rewrite Hu; [done|repeat constructor; by apply under_sibling]. }
  apply ReplaceDirectory_Done with (t := segment_tree padding (segments_of (ps_log st))) in H2;
    [|by destruct dir|done..].
  destruct (ReplaceFile_Done _ _ _ _ _ _ Hp4 Hmeta2 H3) as [Hf Hu].
  eapply remove_leftovers; [|exact H]. split; [|exact Hf].
  apply (tree_is_under [dir ++ [kMetaTempFileName]; dir ++ [kMetaFileName]] _ (Some _) s2); [done| |done].
  intros p [->| ->%list_elem_of_singleton]%elem_of_cons; by apply siblings_apart.
Qed.
End published.

(** ** [Save] succeeds *)
Section saving.
Context (padding : Z) (dir : path).
Implicit Types s : Fs.

Lemma WritePod_then {B} p n v (m : FsM B) s d :
  healthy s → nodes s !! p = Some (File d) →
  (∀ s1 d1, healthy s1 → nodes s1 !! p = Some (File d1) → succeeds m s1) →
  succeeds (WritePod p n v;; m) s.
Proof.
  intros Hs Hp Hm. apply succeeds_bind; [by apply write_succeeds|]. intros [] s1 H1.
  destruct (WritePod_Done _ _ _ _ _ _ _ H1 Hp) as [Hp1 _]. eapply Hm; [|done].
  apply on_stream_Done in H1. pose proof (healthy_write p (le_bytes n v) s Hs) as Hs1. by rewrite H1 in Hs1.
Qed.

Lemma flush_then {B} (p : path) e (m : FsM B) s d :
  healthy s → nodes s !! p = Some (File d) →
  (∀ s1 d1, healthy s1 → nodes s1 !! p = Some (File d1) → succeeds m s1) →
  succeeds (on_stream fs_flush e;; m) s.
Proof.
  intros Hs Hp Hm. apply succeeds_bind; [by apply flush_succeeds|]. intros [] s1 H1%on_stream_Done.
  pose proof (healthy_flush s Hs) as Hs1. rewrite H1 in Hs1. eapply (Hm s1 d); [done|].
  by rewrite (fs_flush_nodes _ _ _ H1).
Qed.

Ltac clear_files := repeat match goal with d : bytes |- _ => clear d end.

Lemma WriteMeta_succeeds p st s :
  healthy s → is_dir (parent_path p) (nodes s) = true → nodes s !! p ≠ Some Dir →
  succeeds (WriteMeta None p st) s.
Proof.
  intros Hs Hd Hp. unfold WriteMeta. apply succeeds_bind; [by apply open_trunc_succeeds|].
  intros [] s1 H1%on_stream_Done. pose proof (healthy_open_trunc p s Hs) as Hs1. rewrite H1 in Hs1.
  apply fs_open_trunc_true in H1. cbn in Hs1. revert s1 Hs1 H1.
  assert (Hend : ∀ s1 d1, healthy s1 → nodes s1 !! p = Some (File d1) → succeeds (SyncFile p) s1)
    by (intros; by eapply SyncFile_succeeds).
  intros s1 Hs1 H1. do 9 (eapply WritePod_then; [eassumption..|clear s1 Hs1 H1; clear_files; intros s1 d1 Hs1 H1]).
  do 2 (eapply flush_then; [eassumption..|clear s1 Hs1 H1; clear_files; intros s1 d1 Hs1 H1]).
  apply succeeds_bind; [by apply InjectFailure_succeeds|]. intros [] s2 ->%InjectFailure_Done.
  by eapply Hend.
Qed.

Lemma dir_kept ps s s' :
  only_under ps s s' → Forall (λ p, ∃ x, p = dir ++ [x]) ps →
  is_dir dir (nodes s) = true → is_dir dir (nodes s') = true.
Proof.
  intros Ho Hps. unfold is_dir. destruct dir as [|name p] eqn:Hd; [done|]. rewrite <- Hd in *.
  rewrite Ho; [done|]. eapply Forall_impl; [exact Hps|]. intros q [x ->]. by apply under_longer.
Qed.

(** The directory is there and nothing is in the way. *)
Record ready s : Prop := {
  rd_healthy : healthy s; rd_tidy : tidy dir s; rd_dir : is_dir dir (nodes s) = true }.

Definition other_name (p : path) : Prop :=
  ∃ x, p = dir ++ [x] ∧ x ≠ kMetaFileName ∧ x ≠ kMetaTempFileName.

Lemma ready_run {A} ps (m : FsM A) s r s' :
  Forall other_name ps → keeps (only_under ps) m → keeps stays_healthy m →
  m s = (r, s') → ready s → ready s'.
Proof.
  intros Hps Hu Hh Hm [H1 H2 H3]. specialize (Hu s). specialize (Hh s H1). rewrite Hm in Hu, Hh.
  split; [done|by eapply tidy_under|]. eapply dir_kept; [exact Hu| |done].
  eapply Forall_impl; [exact Hps|]. intros p (x & -> & _). by eexists.
Qed.

Ltac other_names := repeat constructor; eexists; (split; [reflexivity|split; discriminate]).

Lemma create_dir_ready g s :
  healthy s → tidy dir s →
  ∃ s', with_ec (fs_create_directories dir) g s = (Done (), s') ∧ ready s'.
Proof.
  intros Hs Ht. destruct (create_succeeds dir g s Hs (td_path _ _ Ht)) as ([] & s' & H).
  exists s'. split; [done|]. apply with_ec_Done in H.
  pose proof (tidy_create dir dir s (or_introl eq_refl) Ht) as Ht'.
  pose proof (healthy_step (mkdirs [] dir) s Hs) as Hh. fold (fs_create_directories dir) in Hh.
  rewrite H in Ht', Hh. split; [done..|]. unfold is_dir. destruct dir; [done|].
  apply bool_decide_eq_true. by eapply fs_create_directories_there.
Qed.

Lemma create_ready x g s :
  ready s → x ≠ kMetaFileName → x ≠ kMetaTempFileName → nodes s !! (dir ++ [x]) = None →
  ∃ s', with_ec (fs_create_directories (dir ++ [x])) g s = (Done (), s') ∧ ready s'.
Proof.
  intros [Hs Ht Hd] Hx1 Hx2 Hn.
  destruct (create_succeeds (dir ++ [x]) g s Hs) as ([] & s' & H).
  { intros q b [l Hl]. destruct (decide (l = [])) as [->|Hne].
    - rewrite app_nil_r in Hl. by rewrite <- Hl, Hn.
    - apply (td_path _ _ Ht). exists (removelast l). rewrite (app_removelast_last "" Hne), app_assoc in Hl.
      by apply app_inj_tail in Hl as [-> _]. }
  exists s'. split; [done|]. apply with_ec_Done in H.
  pose proof (tidy_create dir (dir ++ [x]) s ltac:(right; by exists x) Ht) as Ht'.
  pose proof (healthy_step (mkdirs [] (dir ++ [x])) s Hs) as Hh. fold (fs_create_directories (dir ++ [x])) in Hh.
  rewrite H in Ht', Hh. split; [done..|]. unfold is_dir in *.
  destruct dir as [|y d] eqn:Hdir; [done|]. rewrite <- Hdir in *.
  apply bool_decide_eq_true in Hd. apply bool_decide_eq_true.
  pose proof H as Hc. apply fs_step_cases in Hc as [[_ ->]|Hc]; [done|].
  pose proof (mkdirs_cases [] (dir ++ [x]) (nodes s) dir) as Hm. rewrite Hc in Hm. cbn [snd] in Hm.
  by destruct Hm as [->|[-> _]].
Qed.

Lemma Stage_succeeds st s :
  healthy s → tidy dir s → Forall writable_record (ps_log st) →
  ∃ s', Stage None padding dir st s = (Done (), s') ∧ ready s'.
Proof.
  intros Hs Ht Hw. unfold Stage. set (tmp := dir ++ [kLogTempDirName]).
  edestruct (create_dir_ready (λ e, "create data dir failed: " +:+ e) s Hs Ht) as (s1 & H1 & Hr1).
  rewrite (bind_run _ _ _ _ _ H1).
  destruct (remove_all_succeeds tmp (λ e, "remove stale temp log dir failed: " +:+ e) s1 (rd_healthy _ Hr1))
    as ([] & s2 & H2).
  rewrite (bind_run _ _ _ _ _ H2).
  assert (Hr2 : ready s2).
  { eapply (ready_run [tmp]); [other_names| | |exact H2|done]; keeps_step; intros s0;
      [apply remove_all_under; set_solver|apply healthy_remove_all]. }
  apply with_ec_Done in H2.
  destruct (create_ready kLogTempDirName (λ e, "create temp log dir failed: " +:+ e) s2 Hr2)
    as (s3 & H3 & Hr3); [done..| |].
  { pose proof (fs_remove_all_None _ _ _ H2) as ->. by rewrite lookup_prune, under_refl. }
  rewrite (bind_run _ _ _ _ _ H3). apply with_ec_Done in H3.
  pose proof (fresh_directory tmp s1 s2 s3 ltac:(by unfold tmp; destruct dir) H2 H3) as Hf.
  destruct (WriteSegments_succeeds padding tmp (ps_log st) s3 ∅ (rd_healthy _ Hr3) Hf Hw) as ([] & s4 & H4).
  rewrite (bind_run _ _ _ _ _ H4).
  assert (Hr4 : ready s4).
  { eapply (ready_run [tmp]); [other_names|apply WriteSegments_under|apply WriteSegments_healthy|exact H4|done]. }
  destruct (WriteMeta_succeeds (dir ++ [kMetaTempFileName]) st s4 (rd_healthy _ Hr4)) as ([] & s5 & H5).
  { unfold parent_path. rewrite removelast_last. apply Hr4. }
  { apply Hr4. }
  exists s5. split; [done|].
  pose proof (WriteMeta_file None (dir ++ [kMetaTempFileName]) st s4) as Hm. rewrite H5 in Hm.
  pose proof (WriteMeta_under None (dir ++ [kMetaTempFileName]) st s4) as Hu. rewrite H5 in Hu.
  split; [by eapply (healthy_after _ _ _ _ (WriteMeta_healthy None _ _) H5), Hr4
         |eapply file_only_tidy; [exact Hm|apply Hr4]
         |eapply dir_kept; [exact Hu|by repeat econstructor|apply Hr4]].
Qed.

Lemma parent_ready x s : ready s → is_dir (parent_path (dir ++ [x])) (nodes s) = true.
Proof. intros Hr. unfold parent_path. rewrite removelast_last. apply Hr. Qed.

Lemma Park_succeeds s :
  ready s → ∃ s1, Park (dir ++ [kLogDirName]) (dir ++ [kLogBackupDirName]) s = (Done (), s1) ∧ ready s1 ∧
    nodes s1 !! (dir ++ [kLogDirName]) = None ∧
    only_under [dir ++ [kLogDirName]; dir ++ [kLogBackupDirName]] s s1.
Proof.
  set (dst := dir ++ [kLogDirName]). set (backup := dir ++ [kLogBackupDirName]). intros Hr.
  assert (Hne : dst ≠ []) by (unfold dst; by destruct dir).
  assert (Hp : apart dst backup) by (by apply siblings_apart).
  assert (Hs1 : succeeds (Park dst backup) s).
  { unfold Park, succeeds. destruct (remove_all_succeeds backup (λ e, "remove old log backup dir failed: " +:+ e) s
      (rd_healthy _ Hr)) as ([] & s1 & H1). rewrite (bind_run _ _ _ _ _ H1).
    assert (Hr1 : ready s1).
    { eapply (ready_run [backup]); [other_names| | |exact H1|done]; keeps_step; intros s0;
        [apply remove_all_under; set_solver|apply healthy_remove_all]. }
    apply with_ec_Done, fs_remove_all_None in H1. erewrite bind_run by reflexivity.
    destruct (fs_exists dst s1) eqn:Hex; [|apply succeeds_ret].
    apply rename_succeeds; [apply Hr1| | |done|by apply parent_ready].
    - unfold fs_exists in Hex. destruct dst; [done|]. by apply bool_decide_eq_true in Hex.
    - by rewrite H1, lookup_prune, under_refl. }
  destruct Hs1 as ([] & s1 & H1). exists s1. split; [done|].
  destruct (Park_Done _ _ _ _ _ Hne Hp H1) as [Hn Hu]. split; [|done].
  split; [|eapply (tidy_under dir); [exact Hu|other_names|apply Hr]
          |eapply dir_kept; [exact Hu|by repeat econstructor|apply Hr]].
  eapply (healthy_after (Park dst backup)); [|exact H1|apply Hr]. unfold Park. keeps_step; intros s0;
    first [apply healthy_remove_all|apply healthy_step].
Qed.

Lemma Publish_succeeds s :
  ready s → nodes s !! (dir ++ [kLogTempDirName]) = Some Dir → nodes s !! (dir ++ [kLogDirName]) = None →
  succeeds (Publish None (dir ++ [kLogTempDirName]) (dir ++ [kLogDirName]) (dir ++ [kLogBackupDirName])) s.
Proof.
  set (src := dir ++ [kLogTempDirName]). set (dst := dir ++ [kLogDirName]).
  set (backup := dir ++ [kLogBackupDirName]). intros Hr Ht Hn.
  assert (Hp : apart src dst) by (by apply siblings_apart). unfold Publish, succeeds.
  assert (Hren : succeeds (with_ec (fs_rename src dst) Datatypes.id) s).
  { apply rename_succeeds; [apply Hr|by eexists|done|done|by apply parent_ready]. }
  pose proof Hren as ([] & s2 & H2).
  rewrite (bind_run _ _ _ _ _ (succeeds_attempt _ _ Hren)). rewrite H2. cbn [snd].
  assert (Hr2 : ready s2).
  { eapply (ready_run [src; dst]); [other_names| | |exact H2|done]; keeps_step; intros s0;
      [apply rename_under; [set_solver..|done]|apply healthy_step]. }
  erewrite bind_run by reflexivity.
  destruct (SyncParent_succeeds dst s2 (rd_healthy _ Hr2) (parent_ready _ _ Hr2)) as ([] & s3 & H3).
  rewrite (bind_run _ _ _ _ _ H3).
  assert (Hr3 : ready s3)
    by (eapply (ready_run []); [constructor|apply SyncParent_under|apply SyncParent_healthy|exact H3|done]).
  pose proof (remove_all_succeeds backup Datatypes.id s3 (rd_healthy _ Hr3)) as Hrem.
  pose proof Hrem as ([] & s4 & H4).
  rewrite (bind_run _ _ _ _ _ (succeeds_attempt _ _ Hrem)), H4. cbn [snd].
  assert (Hr4 : ready s4).
  { eapply (ready_run [backup]); [other_names| | |exact H4|done]; keeps_step; intros s0;
      [apply remove_all_under; set_solver|apply healthy_remove_all]. }
  eexists _, _. apply succeeds_attempt, SyncParent_succeeds; [apply Hr4|by apply parent_ready].
Qed.

Lemma ReplaceDirectory_succeeds s :
  ready s → nodes s !! (dir ++ [kLogTempDirName]) = Some Dir →
  succeeds (ReplaceDirectory None (dir ++ [kLogTempDirName]) (dir ++ [kLogDirName])
              (dir ++ [kLogBackupDirName])) s.
Proof.
  intros Hr Ht. destruct (Park_succeeds s Hr) as (s1 & H1 & Hr1 & Hn & Hu).
  unfold ReplaceDirectory, succeeds. rewrite (bind_run _ _ _ _ _ H1).
  erewrite bind_run by reflexivity. apply Publish_succeeds; [done| |done].
  rewrite Hu; [done|repeat constructor; by apply under_sibling].
Qed.

Lemma fs_remove_childless p g s :
  healthy s → childless p s → succeeds (with_ec (fs_remove p) g) s.
Proof.
  intros Hs Hp. apply succeeds_step; [done|]. rewrite decide_True; [done|].
  apply map_empty. intros q. unfold descendants. apply map_lookup_filter_None. right.
  intros x Hx [Hu Hne]. cbn [fst] in *. apply under_spec in Hu. rewrite Hu in Hx, Hne.
  rewrite Hp in Hx; [done|]. intros Hb. rewrite Hb, app_nil_r in Hne. done.
Qed.

Lemma ReplaceFile_succeeds b s :
  ready s → nodes s !! (dir ++ [kMetaTempFileName]) = Some (File b) →
  succeeds (ReplaceFile None (dir ++ [kMetaTempFileName]) (dir ++ [kMetaFileName])) s.
Proof.
  set (src := dir ++ [kMetaTempFileName]). set (dst := dir ++ [kMetaFileName]).
  intros [Hs Ht Hd] Hb. assert (Hap : apart src dst) by (by apply siblings_apart).
  unfold ReplaceFile, succeeds. erewrite bind_run by reflexivity.
  assert (Hrm : ∃ s1, (if fs_exists dst s then with_ec (fs_remove dst)
      (λ e, "remove old file failed: " +:+ path_string dst +:+ ": " +:+ e) else mret ()) s = (Done (), s1) ∧
    healthy s1 ∧ nodes s1 !! dst = None ∧ only_at dst s s1).
  { destruct (fs_exists dst s) eqn:Hex.
    - edestruct (fs_remove_childless dst) as ([] & s1 & H1); [exact Hs|apply Ht|].
      rewrite H1. exists s1. split; [done|]. apply with_ec_Done in H1.
      split; [|split; [|by eapply fs_remove_only]].
      + unfold fs_remove in H1. match type of H1 with fs_step ?f s = _ => pose proof (healthy_step f s Hs) as Hh end.
        by rewrite H1 in Hh.
      + apply fs_step_cases in H1 as [[? _]|Hf]; [done|]. case_decide; [|done]. injection Hf as <-.
        apply lookup_delete_eq.
    - exists s. split_and!; [done|done| |done]. unfold fs_exists in Hex. destruct dst as [|x p] eqn:Hdst.
      + by destruct dir.
      + apply bool_decide_eq_false in Hex. by apply eq_None_not_Some. }
  destruct Hrm as (s1 & H1 & Hs1 & Hn1 & Ho1). rewrite (bind_run _ _ _ _ _ H1).
  assert (Hd1 : is_dir dir (nodes s1) = true).
  { eapply (dir_kept [dst]); [|by repeat econstructor|exact Hd]. eapply only_at_under; [|exact Ho1]. by left. }
  assert (Hren : succeeds (with_ec (fs_rename src dst) (λ e,
    "rename file failed: " +:+ path_string src +:+ " -> " +:+ path_string dst +:+ ": " +:+ e)) s1).
  { apply rename_succeeds; [done| |done|done|unfold parent_path, dst; by rewrite removelast_last].
    rewrite Ho1 by (by apply apart_neq). rewrite Hb. by eexists. }
  destruct Hren as ([] & s2 & H2). rewrite (bind_run _ _ _ _ _ H2).
  erewrite bind_run by reflexivity. apply with_ec_Done in H2.
  assert (Hs2 : healthy s2).
  { unfold fs_rename in H2. match type of H2 with fs_step ?f s1 = _ => pose proof (healthy_step f s1 Hs1) as Hh end.
    by rewrite H2 in Hh. }
  apply SyncParent_succeeds; [done|]. unfold parent_path, dst. rewrite removelast_last.
  eapply (dir_kept [src; dst]); [|by repeat econstructor|exact Hd1].
  pose proof (rename_under [src; dst] src dst s1 ltac:(set_solver) ltac:(set_solver) Hap) as Hu.
  by rewrite H2 in Hu.
Qed.

(** The whole of [Save]. *)
Lemma Save_ready st s :
  healthy s → tidy dir s → Forall writable_record (ps_log st) →
  succeeds (Save None padding dir st) s.
Proof.
  intros Hs Ht Hw. destruct (Stage_succeeds st s Hs Ht Hw) as (s1 & H1 & Hr1).
  destruct (Stage_Done _ _ _ _ _ _ _ H1) as [Htmp Hmeta].
  unfold Save, succeeds. rewrite (bind_run _ _ _ _ _ H1).
  destruct (ReplaceDirectory_succeeds s1 Hr1) as (e & s2 & H2).
  { specialize (Htmp []). by rewrite app_nil_r in Htmp. }
  rewrite (bind_run _ _ _ _ _ H2). destruct (layout_paths dir) as (Hp1 & _ & Hp3 & _).
  pose proof (ReplaceDirectory_under None _ _ _ Hp1 Hp3 s1) as Hu. rewrite H2 in Hu. cbn [snd] in Hu.
  assert (Hr2 : ready s2).
  { refine (ready_run _ _ _ _ _ _ (ReplaceDirectory_under None _ _ _ Hp1 Hp3) _ H2 Hr1); [other_names|].
    apply ReplaceDirectory_healthy. }
  destruct (ReplaceFile_succeeds (meta_bytes st) s2 Hr2) as ([] & s3 & H3).
  { rewrite Hu; [done|repeat constructor; by apply under_sibling]. }
  rewrite (bind_run _ _ _ _ _ H3). by eexists _, _.
Qed.
End saving.

(** ** Properties *)

(** C12: saved is what is loaded.  When [Save] reports success, whatever was on disk
    before and whatever faults were met and ignored on the way, the next [Load] on a
    healthy disk returns the saved state with its boundaries clamped to the log, and
    says there is one: term, vote and log exactly, and the commit index whenever it is
    within the log. *)
Theorem Save_Load failpoint_env padding dir st s u s' :
  storable st → Save failpoint_env padding dir st s = (Done u, s') →
  (Load dir (s' <| script := [] |>)).1 = Done (ClampRecoveredHardState st, true).
Proof.
  intros Hst H%Save_Done_layout. by rewrite (Load_layout dir padding st).
Qed.

Lemma Save_Load_witness :
  (Load ["data"] ((Save None 0 ["data"] crash_new (mkFs ∅ [])).2 <| script := [] |>)).1 =
    Done (crash_new, true).
Proof.
  destruct (Save None 0 ["data"] crash_new (mkFs ∅ [])) as [r s] eqn:Hs. cbn [snd].
  assert (Hr : r = Done ()) by (apply (f_equal fst) in Hs; vm_compute in Hs; congruence). subst r.
  exact (Save_Load None 0 ["data"] crash_new (mkFs ∅ []) () s crash_new_storable Hs).
Defined.

(** C13: a disk that refuses nothing is enough.  On a healthy disk whose data directory can
    be used, [Save] of a state whose commands fit 32 bits of length succeeds, the disk
    stays healthy and usable, and the next [Load] returns the state. *)
Theorem Save_succeeds padding dir st s :
  healthy s → tidy dir s → storable st →
  ∃ s', Save None padding dir st s = (Done (), s') ∧ healthy s' ∧ tidy dir s' ∧
    Load dir s' = (Done (ClampRecoveredHardState st, true), s').
Proof.
  intros Hs Ht Hst.
  assert (Hw : Forall writable_record (ps_log st)).
  { eapply Forall_impl; [apply Hst|]. intros r Hr. unfold writable_record. destruct Hr. unfold kMaxCommandBytes in *. lia. }
  destruct (Save_ready padding dir st s Hs Ht Hw) as ([] & s' & H). exists s'.
  pose proof (healthy_after _ _ _ _ (Save_healthy None padding dir st) H Hs) as Hs'.
  pose proof (Save_tidy None padding dir st s) as Ht'. rewrite H in Ht'.
  split_and!; [done|done|by apply Ht'|]. apply Save_Done_layout in H. by apply (Load_layout dir padding st).
Qed.

(** An empty disk. *)
Lemma empty_tidy dir : tidy dir (mkFs ∅ []).
Proof. split; [intros q b _|intros r _|intros r _|]; by rewrite ?lookup_empty. Qed.

Lemma Save_succeeds_witness :
  ∃ s', Save None 0 ["data"] crash_new (mkFs ∅ []) = (Done (), s') ∧
    Load ["data"] s' = (Done (crash_new, true), s').
Proof.
  destruct (Save_succeeds 0 ["data"] crash_new (mkFs ∅ []) eq_refl (empty_tidy _) crash_new_storable)
    as (s' & H & _ & _ & Hl).
  exists s'. split; [exact H|exact Hl].
Defined.
