(* ===== verification/SnapshotStorage.v ===== *)
(** [FileSnapshotStorage] (src/modules/raft/storage/snapshot_storage.cpp): a snapshot
    is a directory [snapshot_<index>] with [data.bin] and a metadata file, staged
    beside its final place and renamed into it; the listing trusts a directory
    after checking its metadata and the checksum of its data. *)
From S2P Require Import Prelude Types Bytes Digits Fs FsM.

Definition kMetaMagic : Z := 1397771570.         (* 0x53504D32 *)
Definition kMetaVersion : Z := 2.
Definition kLegacyMetaMagic : Z := 1397771569.   (* 0x53504D31 *)
Definition kLegacyMetaVersion : Z := 1.
Definition kSnapshotDataFileName : string := "data.bin".
Definition kSnapshotMetaFileName : string := "__raft_snapshot_meta".
Definition kSnapshotPrefix : string := "snapshot_".
Definition kSnapshotStagingPrefix : string := ".snapshot_staging_".

(** ** Fault injection by environment variable *)
Inductive SnapshotStorageFailPoint :=
  | kNone | kStagedPublishAfterDataMetaWrite | kParentDirectorySyncAfterPublish
  | kPublishVisibleBeforeTrustedDirectorySync | kPruneRemoveOldDirectory.
#[export] Instance SnapshotStorageFailPoint_eq_dec : EqDecision SnapshotStorageFailPoint.
Proof. solve_decision. Defined.

(** [ActiveSnapshotStorageFailPoint], of the value [getenv] returns. *)
Definition ActiveSnapshotStorageFailPoint (value : option string) : SnapshotStorageFailPoint :=
  match value with
  | None => kNone
  | Some failpoint =>
      if decide (failpoint = "snapshot_staged_publish_after_data_meta_write")
      then kStagedPublishAfterDataMetaWrite
      else if decide (failpoint = "snapshot_parent_directory_sync_after_publish")
      then kParentDirectorySyncAfterPublish
      else if decide (failpoint = "snapshot_publish_visible_before_trusted_directory_sync")
      then kPublishVisibleBeforeTrustedDirectorySync
      else if decide (failpoint = "snapshot_prune_remove_old_directory")
      then kPruneRemoveOldDirectory
      else kNone
  end.

Definition BuildInjectedSnapshotFailure {A} (operation : string) (p : path)
    (failure_class trusted_state_expectation recovery_expectation diagnostic_expectation
     detail : string) : FsM A :=
  fail ("snapshot storage failure injection triggered, operation=" +:+ operation +:+
    ", path=" +:+ path_string p +:+ ", failure_class=" +:+ failure_class +:+
    ", linux_specific=true, trusted_state_expectation=" +:+ trusted_state_expectation +:+
    ", recovery_expectation=" +:+ recovery_expectation +:+
    ", diagnostic_expectation=" +:+ diagnostic_expectation +:+
    if decide (detail = "") then "" else ", detail=" +:+ detail).

(** [RemovePathIfExists]: the detail it leaves; its flag is not looked at. *)
Definition RemovePathIfExists (p : path) : FsM string := λ s,
  match fs_exists_ec p s with
  | (inl e, s) => (Done ("check failure artifact path failed: " +:+ path_string p +:+ ": " +:+ e), s)
  | (inr false, s) => (Done "", s)
  | (inr true, s) =>
      match fs_remove p s with
      | (Some e, s) =>
          (Done ("remove failure artifact path failed: " +:+ path_string p +:+ ": " +:+ e), s)
      | (None, s) => (Done "", s)
      end
  end.

(** [StartsWith]. *)
Definition StartsWith (value prefix : string) : bool := String.prefix prefix value.

(** ** Fields of the metadata file *)

(** [WriteString] on the stream of [p]. *)
Definition WriteString (p : path) (value : string) : FsM unit :=
  WritePod p 8 (Z.of_nat (String.length value));;
  if decide (value = "") then mret ()
  else on_stream (fs_write p (string_bytes value)) "write string failed".

(** [ReadString] of the unread bytes. *)
Definition kMaxStringBytes : Z := 1048576.
Definition ReadString (b : bytes) : Result (string * bytes) :=
  let! (size, b) := ReadPod 8 b in
  if decide (kMaxStringBytes < size) then Fail "string field is too large"
  else if decide (size = 0) then Done ("", b)
  else match read_bytes (Z.to_nat size) b with
       | Some (v, b) => Done (bytes_string v, b)
       | None => Fail "read string failed"
       end.

(** ** The checksum of a file, in blocks *)

Definition buffer_size : nat := Z.to_nat 65536.
#[global] Opaque buffer_size.

(** The loop of [ComputeFileChecksum]: it reads until a block comes back short; a
    turn consumes a whole block, so [fuel] beyond the length never runs out. *)
Fixpoint ChecksumBlocks (fuel : nat) (checksum : Z) (b : bytes) : Z :=
  match fuel with
  | O => checksum                     (* excluded: checksum_in_blocks *)
  | S fuel =>
      let block := take buffer_size b in
      let checksum := match block with [] => checksum | _ => Fnv1aAppend checksum block end in
      if decide (length block < buffer_size)%nat then checksum
      else ChecksumBlocks fuel checksum (drop buffer_size b)
  end.

#[global] Arguments ChecksumBlocks : simpl never.

(** [ComputeFileChecksum]. *)
Definition ComputeFileChecksum (p : path) : FsM Z := λ s,
  match fs_read p s with
  | (None, s) => (Fail ("open file for checksum failed: " +:+ path_string p), s)
  | (Some b, s) => (Done (ChecksumBlocks (S (length b)) kFnvOffset b), s)
  end.

(** ** Syncing and copying *)
Definition SyncFile (p : path) : FsM unit :=
  open_fsync_close (fs_sync p) "open snapshot file for fsync failed: "
    "fsync snapshot file failed: " "close snapshot file after fsync failed: " p.
Definition SyncDirectory (p : path) : FsM unit :=
  open_fsync_close (fs_open_dir p) "open snapshot directory for fsync failed: "
    "fsync snapshot directory failed: " "close snapshot directory after fsync failed: " p.

(** [CopyFilePortable]; [out << in.rdbuf()] of no characters at all sets [failbit]. *)
Definition CopyFilePortable (from to : path) : FsM unit := λ s,
  match fs_read from s with
  | (None, s) => (Fail ("open source snapshot failed: " +:+ path_string from), s)
  | (Some data, s) =>
      let failed := "copy snapshot data failed: " +:+ path_string to in
      (on_stream (fs_open_trunc to) ("open target snapshot failed: " +:+ path_string to);;
       (match data with [] => fail failed | _ => on_stream (fs_write to data) failed end);;
       on_stream fs_flush failed;;
       on_stream fs_flush ("close snapshot data failed: " +:+ path_string to);;
       SyncFile to) s
  end.

(** ** Metadata of a snapshot *)

(** [WriteMeta]. *)
Definition WriteMeta (p : path) (last_included_index last_included_term created_unix_ms : Z)
    (data_file_name : string) (checksum : Z) : FsM unit :=
  on_stream (fs_open_trunc p) ("open snapshot meta file failed: " +:+ path_string p);;
  WritePod p 4 kMetaMagic;;
  WritePod p 4 kMetaVersion;;
  WritePod p 8 created_unix_ms;;
  WritePod p 8 last_included_index;;
  WritePod p 8 last_included_term;;
  WritePod p 4 checksum;;
  WriteString p data_file_name;;
  on_stream fs_flush "flush snapshot meta file failed";;
  on_stream fs_flush ("close snapshot meta file failed: " +:+ path_string p);;
  SyncFile p.

(** The fields of the metadata file. *)
Record SnapshotFields := mkSnapshotFields {
  f_created_unix_ms : Z;
  f_last_included_index : Z;
  f_last_included_term : Z;
  f_checksum : Z;
  f_data_file_name : string }.

(** What [ReadDirectorySnapshot] makes of the contents of the metadata file. *)
Definition ParseSnapshotMeta (snapshot_dir : path) (b : bytes) : Result SnapshotFields :=
  let meta_path := snapshot_dir ++ [kSnapshotMetaFileName] in
  let! (magic, b) := ReadPod 4 b in
  let! (version, b) := ReadPod 4 b in
  let! (created, b) := ReadPod 8 b in
  let! (i, b) := ReadPod 8 b in
  let! (t, b) := ReadPod 8 b in
  let! (checksum, b) := ReadPod 4 b in
  let! (data_file_name, b) := ReadString b in
  if decide (magic ≠ kMetaMagic ∨ version ≠ kMetaVersion) then
    Fail ("invalid snapshot meta header: path=" +:+ path_string meta_path +:+ ", magic=" +:+
          pretty magic +:+ ", version=" +:+ pretty version)
  else if decide (data_file_name = "") then
    Fail ("snapshot data file name is empty: meta_path=" +:+ path_string meta_path)
  else Done (mkSnapshotFields created i t checksum data_file_name).

(** The name of the directory against the index of the metadata. *)
Definition CheckDirectoryIndex (snapshot_dir : path) (i : Z) : Result unit :=
  let name := filename snapshot_dir in
  if StartsWith name kSnapshotPrefix then
    let n := String.length kSnapshotPrefix in
    match stoull (String.substring n (String.length name - n) name) with
    | None => Fail ("invalid snapshot directory index: snapshot_dir=" +:+ path_string snapshot_dir)
    | Some dir_index =>
        if decide (dir_index ≠ i) then
          Fail ("snapshot directory index does not match meta: snapshot_dir=" +:+
                path_string snapshot_dir +:+ ", dir_index=" +:+ pretty dir_index +:+
                ", meta_index=" +:+ pretty i)
        else Done ()
    end
  else Done ().

(** [!exists(path, ec) || ec]. *)
Definition require_exists (p : path) (message : string) : FsM unit := λ s,
  match fs_exists_ec p s with
  | (inr true, s) => (Done (), s)
  | (_, s) => (Fail message, s)
  end.

(** [ReadDirectorySnapshot].  The data file name is taken as one path component,
    which is what [WriteMeta] is given. *)
Definition ReadDirectorySnapshot (snapshot_dir : path) : FsM SnapshotMeta := λ s,
  let meta_path := snapshot_dir ++ [kSnapshotMetaFileName] in
  match fs_read meta_path s with
  | (None, s) => (Fail ("open snapshot meta file failed: " +:+ path_string meta_path), s)
  | (Some b, s) =>
      (f ← lift (ParseSnapshotMeta snapshot_dir b);
       lift (CheckDirectoryIndex snapshot_dir (f_last_included_index f));;
       let data_path := snapshot_dir ++ [f_data_file_name f] in
       require_exists data_path ("snapshot data file missing: " +:+ path_string data_path);;
       actual ← ComputeFileChecksum data_path;
       if decide (actual ≠ f_checksum f) then
         fail ("snapshot checksum mismatch: data_path=" +:+ path_string data_path +:+
               ", expected=" +:+ pretty (f_checksum f) +:+ ", actual=" +:+ pretty actual)
       else
         mret (mkSnapshotMeta data_path meta_path snapshot_dir (f_last_included_index f)
                 (f_last_included_term f) (f_created_unix_ms f) (f_checksum f))) s
  end.

(** ** The old flat layout *)

(** A file name up to its last dot, and from it on. *)
Fixpoint last_dot (name : string) : option (string * string) :=
  match name with
  | "" => None
  | String c rest =>
      match last_dot rest with
      | Some (stem, ext) => Some (String c stem, ext)
      | None => if decide (c = "."%char) then Some ("", name) else None
      end
  end.

(** [path.stem()] and [path.extension()]: a leading dot starts no extension. *)
Definition stem_extension (name : string) : string * string :=
  match last_dot name with
  | Some (String c stem, ext) => (String c stem, ext)
  | _ => (name, "")
  end.

(** What [ReadLegacyFlatSnapshot] makes of the contents of the file. *)
Definition ParseFlatMeta (meta_path : path) (b : bytes) : Result SnapshotMeta :=
  let! (magic, b) := ReadPod 4 b in
  let! (version, b) := ReadPod 4 b in
  let! (created, b) := ReadPod 8 b in
  let! (i, b) := ReadPod 8 b in
  let! (t, b) := ReadPod 8 b in
  if decide (magic ≠ kLegacyMetaMagic ∨ version ≠ kLegacyMetaVersion)
  then Fail "invalid legacy snapshot meta header"
  else Done (mkSnapshotMeta
               (parent_path meta_path ++ [(stem_extension (filename meta_path)).1 +:+ ".bin"])
               meta_path [] i t created 0).

(** [ReadLegacyFlatSnapshot]. *)
Definition ReadLegacyFlatSnapshot (meta_path : path) : FsM SnapshotMeta := λ s,
  match fs_read meta_path s with
  | (None, s) => (Fail "open legacy snapshot meta failed", s)
  | (Some b, s) =>
      (m ← lift (ParseFlatMeta meta_path b);
       require_exists (snapshot_path m) "legacy snapshot data missing";;
       mret m) s
  end.

(** ** Listing *)

(** The loop of [ListSnapshotsWithDiagnostics]; the type of an entry is the one the
    iterator saw. *)
Fixpoint ScanEntries (entries : list (path * FsNode)) (out : SnapshotListResult) :
    FsM SnapshotListResult :=
  match entries with
  | [] => mret out
  | (p, node) :: entries =>
      let issue reason :=
        mkSnapshotListResult (snapshots out)
          (validation_issues out ++ [mkSnapshotValidationIssue p reason]) in
      let keep (r : string + SnapshotMeta) :=
        match r with
        | inl e => issue e
        | inr m => mkSnapshotListResult (snapshots out ++ [m]) (validation_issues out)
        end in
      match node with
      | Dir =>
          if StartsWith (filename p) kSnapshotStagingPrefix then
            ScanEntries entries (issue "staging snapshot directory ignored")
          else if negb (StartsWith (filename p) kSnapshotPrefix) then ScanEntries entries out
          else r ← try (ReadDirectorySnapshot p); ScanEntries entries (keep r)
      | File _ =>
          if decide ((stem_extension (filename p)).2 = ".meta") then
            r ← try (ReadLegacyFlatSnapshot p); ScanEntries entries (keep r)
          else ScanEntries entries out
      end
  end.

(** The order of [std::sort]: the newer first.  Which of two snapshots with the same
    index and time comes first is up to the library. *)
Definition newer (a b : SnapshotMeta) : Prop :=
  if decide (last_included_index a = last_included_index b)
  then created_unix_ms b ≤ created_unix_ms a
  else last_included_index b < last_included_index a.
#[export] Instance newer_dec : RelDecision newer.
Proof. unfold newer. intros a b. case_decide; apply _. Defined.

Section storage.
Variable snapshot_dir_ : path.

(** [ListSnapshotsWithDiagnostics]. *)
Definition ListSnapshotsWithDiagnostics : FsM SnapshotListResult := λ s,
  match fs_exists_ec snapshot_dir_ s with
  | (inr true, s) =>
      let '(entries, s) := fs_iterate snapshot_dir_ s in
      (out ← ScanEntries entries (mkSnapshotListResult [] []);
       mret (mkSnapshotListResult (merge_sort newer (snapshots out)) (validation_issues out))) s
  | (_, s) => (Done (mkSnapshotListResult [] []), s)
  end.

(** [ListSnapshots]. *)
Definition ListSnapshots : FsM (list SnapshotMeta) :=
  result ← ListSnapshotsWithDiagnostics; mret (snapshots result).

(** [LoadLatestValidSnapshot]: [None] is [*has_snapshot = false]. *)
Definition LoadLatestValidSnapshot : FsM (option SnapshotMeta) :=
  result ← ListSnapshotsWithDiagnostics; mret (head (snapshots result)).

(** ** Saving

    [failpoint_env] is the value of [RAFT_TEST_SNAPSHOT_STORAGE_FAILPOINT], [now_ms]
    the time [NowUnixMillis] returns. *)
Variable failpoint_env : option string.
Variable now_ms : Z.

Definition final_dir_of (last_included_index : Z) : path :=
  snapshot_dir_ ++ [kSnapshotPrefix +:+ FormatIndex last_included_index].
Definition staging_dir_of (last_included_index : Z) : path :=
  snapshot_dir_ ++ [kSnapshotStagingPrefix +:+ FormatIndex last_included_index +:+ "_" +:+ pretty now_ms].

(** The parts of [SaveSnapshotFile]: the directory and its parent are made durable. *)
Definition PrepareRoot : FsM unit :=
  with_ec (fs_create_directories snapshot_dir_) (λ e, "create snapshot dir failed: " +:+ e);;
  (if decide (parent_path snapshot_dir_ = []) then mret () else SyncDirectory (parent_path snapshot_dir_));;
  SyncDirectory snapshot_dir_.

(** The snapshot that is in place already, when it reads back. *)
Definition FindExisting (final_dir : path) : FsM (option SnapshotMeta) := λ s,
  match fs_exists_ec final_dir s with
  | (inl e, s) => (Fail ("check snapshot dir failed: " +:+ path_string final_dir +:+ ": " +:+ e), s)
  | (inr false, s) => (Done None, s)
  | (inr true, s) =>
      (r ← try (ReadDirectorySnapshot final_dir);
       mret (match r with inr m => Some m | inl _ => None end)) s
  end.

(** The staging directory with the data and its metadata; the checksum of the copy. *)
Definition StageSnapshot (input staging_dir : path) (i t : Z) : FsM Z :=
  with_ec (fs_remove_all staging_dir) (λ e,
    "remove stale snapshot staging dir failed: " +:+ path_string staging_dir +:+ ": " +:+ e);;
  with_ec (fs_create_directories staging_dir) (λ e,
    "create snapshot staging dir failed: " +:+ path_string staging_dir +:+ ": " +:+ e);;
  or_discard staging_dir (
    SyncDirectory snapshot_dir_;;
    CopyFilePortable input (staging_dir ++ [kSnapshotDataFileName]);;
    checksum ← ComputeFileChecksum (staging_dir ++ [kSnapshotDataFileName]);
    WriteMeta (staging_dir ++ [kSnapshotMetaFileName]) i t now_ms kSnapshotDataFileName checksum;;
    SyncDirectory staging_dir;;
    mret checksum).

(** An unreadable directory in the final place is removed. *)
Definition ClearFinal (final_dir : path) : FsM unit := λ s,
  match fs_exists_ec final_dir s with
  | (inl e, s) =>
      (Fail ("check invalid snapshot dir failed: " +:+ path_string final_dir +:+ ": " +:+ e), s)
  | (inr false, s) => (Done (), s)
  | (inr true, s) =>
      (with_ec (fs_remove_all final_dir) (λ e,
         "remove invalid snapshot dir failed: " +:+ path_string final_dir +:+ ": " +:+ e);;
       SyncDirectory snapshot_dir_) s
  end.

(** The rename into the final place. *)
Definition SwapIn (staging_dir final_dir : path) : FsM unit :=
  or_discard staging_dir (
    ClearFinal final_dir;;
    with_ec (fs_rename staging_dir final_dir) (λ e,
      "publish snapshot staging dir failed: " +:+ path_string staging_dir +:+ " -> " +:+
      path_string final_dir +:+ ": " +:+ e)).

(** The sync that makes the rename durable, or its injected failure. *)
Definition ConfirmPublish (final_dir : path) : FsM unit :=
  let visible := ActiveSnapshotStorageFailPoint failpoint_env in
  if decide (visible = kParentDirectorySyncAfterPublish) then
    let expectation := "if the new snapshot directory becomes visible but the parent directory sync does not complete, restart must stay on the last fully durable trusted snapshot boundary" in
    detail ← RemovePathIfExists (final_dir ++ [kSnapshotMetaFileName]);
    BuildInjectedSnapshotFailure "snapshot parent directory sync after publish" snapshot_dir_
      "directory sync" expectation expectation
      "error should identify that the snapshot directory became visible but the parent directory sync boundary did not complete"
      detail
  else if decide (visible = kPublishVisibleBeforeTrustedDirectorySync) then
    let expectation := "if restart sees a newer snapshot publish point without the required trusted publish completion, it must reject that snapshot and continue from the previous trusted snapshot plus replayable log tail" in
    detail ← RemovePathIfExists (final_dir ++ [kSnapshotMetaFileName]);
    BuildInjectedSnapshotFailure "snapshot publish visible before trusted directory sync" final_dir
      "directory sync" expectation expectation
      "error should identify that the newer snapshot publish point became visible without a trusted parent directory sync boundary"
      detail
  else SyncDirectory snapshot_dir_.

(** [SaveSnapshotFile]. *)
Definition SaveSnapshotFile (input : path) (i t : Z) : FsM SnapshotMeta :=
  if decide (input = []) then fail "input snapshot file path is empty"
  else
    PrepareRoot;;
    let final_dir := final_dir_of i in
    let staging_dir := staging_dir_of i in
    existing ← FindExisting final_dir;
    match existing with
    | Some m =>
        if decide (last_included_term m ≠ t) then
          fail ("existing snapshot has same index but different term: " +:+ path_string final_dir)
        else ignore_ec (fs_remove input);; mret m
    | None =>
        checksum ← StageSnapshot input staging_dir i t;
        if decide (ActiveSnapshotStorageFailPoint failpoint_env = kStagedPublishAfterDataMetaWrite) then
          BuildInjectedSnapshotFailure "snapshot staged publish after data/meta write" final_dir
            "replace/rename"
            "if staged snapshot publish fails before the final trusted publish point, restart must keep using the previously trusted snapshot and ignore the incomplete newer snapshot"
            "restart should keep using the last trusted snapshot and reject the incomplete newer snapshot publish attempt"
            "error should identify that the staged snapshot directory was never promoted to the trusted published snapshot boundary"
            "staging snapshot directory left in place for deterministic recovery fallback validation"
        else
          SwapIn staging_dir final_dir;;
          ConfirmPublish final_dir;;
          ignore_ec (fs_remove input);;
          mret (mkSnapshotMeta (final_dir ++ [kSnapshotDataFileName])
                  (final_dir ++ [kSnapshotMetaFileName]) final_dir i t now_ms checksum)
    end.

(** ** Pruning *)

(** One turn of the loop of [PruneSnapshots], whose callers ask for the error text. *)
Definition RemoveSnapshot (m : SnapshotMeta) : FsM unit :=
  if decide (snapshot_dir m ≠ []) then
    if decide (ActiveSnapshotStorageFailPoint failpoint_env = kPruneRemoveOldDirectory) then
      BuildInjectedSnapshotFailure "snapshot prune remove old directory" (snapshot_dir m)
        "prune/remove"
        "if pruning old snapshots fails during remove/publish cleanup, the newest trusted snapshot must remain loadable and restart must not mis-classify prune leftovers as the chosen trusted snapshot"
        "restart should keep the newest trusted snapshot loadable and should not let prune leftovers win trusted snapshot selection"
        "error should identify that pruning the old snapshot directory failed before cleanup completed"
        "old snapshot directory removal was rejected before mutating trusted snapshot selection"
    else with_ec (fs_remove_all (snapshot_dir m)) (λ e, "remove old snapshot dir failed: " +:+ e)
  else
    with_ec (fs_remove (snapshot_path m)) (λ e, "remove old snapshot data failed: " +:+ e);;
    with_ec (fs_remove (meta_path m)) (λ e, "remove old snapshot meta failed: " +:+ e).

Fixpoint RemoveSnapshots (l : list SnapshotMeta) : FsM unit :=
  match l with
  | [] => mret ()
  | m :: l => RemoveSnapshot m;; RemoveSnapshots l
  end.

(** [PruneSnapshots]. *)
Definition PruneSnapshots (max_keep : nat) : FsM unit :=
  let max_keep := if decide (max_keep = 0%nat) then 1%nat else max_keep in
  l ← ListSnapshots;
  if decide (length l ≤ max_keep)%nat then mret ()
  else RemoveSnapshots (drop max_keep l);; SyncDirectory snapshot_dir_.
End storage.
