(* ===== verification/SnapshotRecovery.v ===== *)
(** What [FileSnapshotStorage] guarantees: which directories and files the listing
    trusts and in what order, the checksum in blocks, and what a save and a pruning
    leave on disk wherever they fail or the process dies. *)
From S2P Require Import Prelude Types Bytes Digits Fs FsM Layout SnapshotStorage.

(** ** The checksum in blocks *)
Lemma buffer_size_pos : (0 < buffer_size)%nat.
Proof. with_strategy transparent [buffer_size] unfold buffer_size. lia. Qed.

Lemma ChecksumBlocks_spec fuel c b :
  (length b < fuel)%nat → ChecksumBlocks fuel c b = Fnv1aAppend c b.
Proof.
  revert c b. induction fuel as [|fuel IH]; intros c b Hf; [lia|].
  unfold ChecksumBlocks; fold ChecksumBlocks. cbv zeta.
  pose proof buffer_size_pos as Hpos. generalize dependent buffer_size. intros n Hpos.
  assert (Hblock : match take n b with [] => c | _ => Fnv1aAppend c (take n b) end =
                   Fnv1aAppend c (take n b)) by (by destruct (take n b)).
  rewrite Hblock, length_take. destruct (decide (n `min` length b < n)%nat) as [Hlt|Hlt].
  - by rewrite take_ge by lia.
  - rewrite IH by (rewrite length_drop; lia). by rewrite <- Fnv1aAppend_app, take_drop.
Qed.

(** ** What the listing trusts *)

(** The snapshot in directory [d]: metadata that reads back, with the index of the
    directory's name, and data with the recorded checksum. *)
Definition trusted (d : path) (ns : gmap path FsNode) : option SnapshotMeta :=
  let meta_path := d ++ [kSnapshotMetaFileName] in
  match ns !! meta_path with
  | Some (File b) =>
      match ParseSnapshotMeta d b with
      | Done f =>
          let data_path := d ++ [f_data_file_name f] in
          match CheckDirectoryIndex d (f_last_included_index f), ns !! data_path with
          | Done _, Some (File data) =>
              if decide (Fnv1aAppend kFnvOffset data = f_checksum f)
              then Some (mkSnapshotMeta data_path meta_path d (f_last_included_index f)
                           (f_last_included_term f) (f_created_unix_ms f) (f_checksum f))
              else None
          | _, _ => None
          end
      | _ => None
      end
  | _ => None
  end.

(** The snapshot of an old flat metadata file: a good header, and data beside it. *)
Definition trusted_flat (p : path) (ns : gmap path FsNode) : option SnapshotMeta :=
  match ns !! p with
  | Some (File b) =>
      match ParseFlatMeta p b with
      | Done m => if fs_exists (snapshot_path m) (mkFs ns []) then Some m else None
      | _ => None
      end
  | _ => None
  end.

(** The snapshot of an entry of the snapshot directory. *)
Definition listed (ns : gmap path FsNode) (entry : path * FsNode) : option SnapshotMeta :=
  match entry.2 with
  | Dir => if StartsWith (filename entry.1) kSnapshotStagingPrefix then None
           else if negb (StartsWith (filename entry.1) kSnapshotPrefix) then None
           else trusted entry.1 ns
  | File _ => if decide ((stem_extension (filename entry.1)).2 = ".meta")
              then trusted_flat entry.1 ns else None
  end.

Section reading.
Implicit Types (s : Fs) (d p : path).

Lemma and_then_no_throw {A B} (r : Result A) (f : A → Result B) :
  (∀ w, r ≠ Throw w) → (∀ a w, f a ≠ Throw w) → ∀ w, and_then r f ≠ Throw w.
Proof. destruct r; intros Hr Hf w; [apply Hf|done|by intros _; apply (Hr what)]. Qed.

Lemma ReadPod_no_throw n b w : ReadPod n b ≠ Throw w.
Proof. unfold ReadPod. by destruct (read_le n b). Qed.

Lemma ReadString_no_throw b w : ReadString b ≠ Throw w.
Proof.
  unfold ReadString. revert w. apply and_then_no_throw; [apply ReadPod_no_throw|].
  intros [size b1] w. destruct (decide _); [done|]. destruct (decide _); [done|].
  by destruct (read_bytes _ b1) as [[]|].
Qed.

Lemma ParseSnapshotMeta_no_throw d b w : ParseSnapshotMeta d b ≠ Throw w.
Proof.
  unfold ParseSnapshotMeta. cbv zeta. revert w.
  do 6 (apply and_then_no_throw; [apply ReadPod_no_throw|]; intros [? ?]).
  apply and_then_no_throw; [apply ReadString_no_throw|]. intros [? ?] w.
  destruct (decide _); [done|]. by destruct (decide _).
Qed.

Lemma CheckDirectoryIndex_no_throw d i w : CheckDirectoryIndex d i ≠ Throw w.
Proof.
  unfold CheckDirectoryIndex. cbv zeta. destruct (StartsWith _ _); [|done].
  destruct (stoull _); [|done]. by destruct (decide _).
Qed.

(** An outcome other than an exception. *)
Definition no_throw {A} (m : FsM A) : Prop := ∀ s w, (m s).1 ≠ Throw w.

Lemma ComputeFileChecksum_cases p s r s' :
  ComputeFileChecksum p s = (r, s') →
  nodes s' = nodes s ∧ ((∃ e, r = Fail e) ∨
    ∃ b, nodes s !! p = Some (File b) ∧ r = Done (Fnv1aAppend kFnvOffset b)).
Proof.
  unfold ComputeFileChecksum. destruct (fs_read p s) as [[b|] s1] eqn:Hr;
    apply fs_read_cases in Hr as [Hn Hb]; intros [= <- <-]; (split; [done|]); [right|left; eauto].
  exists b. split; [by apply Hb|]. by rewrite ChecksumBlocks_spec by lia.
Qed.

Lemma require_exists_cases p e s r s' :
  require_exists p e s = (r, s') →
  nodes s' = nodes s ∧ (r = Fail e ∨ r = Done () ∧ fs_exists p s = true).
Proof.
  unfold require_exists. destruct (fs_exists_ec p s) as [r1 s1] eqn:Hr.
  apply fs_exists_ec_cases in Hr as [Hn [->|[m ->]]].
  - destruct (fs_exists p s); intros [= <- <-]; auto.
  - intros [= <- <-]; auto.
Qed.

(** A read that succeeds found a trusted snapshot; no read changes the disk or throws. *)
Lemma ReadDirectorySnapshot_cases d s r s' :
  ReadDirectorySnapshot d s = (r, s') →
  nodes s' = nodes s ∧ ((∃ e, r = Fail e) ∨ ∃ m, r = Done m ∧ trusted d (nodes s) = Some m).
Proof.
  unfold ReadDirectorySnapshot, trusted. cbv zeta. intros H.
  destruct (fs_read (d ++ [kSnapshotMetaFileName]) s) as [[b|] s1] eqn:Hr;
    apply fs_read_cases in Hr as [Hn Hb]; [|injection H as <- <-; eauto].
  rewrite (Hb b eq_refl). unfold lift, mbind, FsM_bind in H.
  pose proof (ParseSnapshotMeta_no_throw d b) as Hp.
  destruct (ParseSnapshotMeta d b) as [f|e|w]; [|injection H as <- <-; eauto|by destruct (Hp w)].
  pose proof (CheckDirectoryIndex_no_throw d (f_last_included_index f)) as Hc.
  destruct (CheckDirectoryIndex _ _) as [[]|e|w]; [|injection H as <- <-; eauto|by destruct (Hc w)].
  destruct (require_exists _ _ s1) as [r2 s2] eqn:Hq.
  apply require_exists_cases in Hq as [Hn2 [->|[-> _]]]; [injection H as <- <-; split; [congruence|eauto]|].
  destruct (ComputeFileChecksum _ s2) as [r3 s3] eqn:Hcs.
  apply ComputeFileChecksum_cases in Hcs as [Hn3 [[e ->]|(data & Hd & ->)]];
    [injection H as <- <-; split; [congruence|eauto]|].
  rewrite Hn2, Hn in Hd. rewrite Hd.
  destruct (decide (Fnv1aAppend kFnvOffset data ≠ f_checksum f)) as [Hne|Heq];
    injection H as <- <-; (split; [congruence|]); [eauto|right].
  destruct (decide (Fnv1aAppend kFnvOffset data = f_checksum f)); [eauto|tauto].
Qed.

Lemma fs_exists_node p s x : nodes s !! p = Some x → fs_exists p s = true.
Proof. intros Hp. unfold fs_exists. destruct p; [done|]. rewrite Hp. by apply bool_decide_eq_true. Qed.

(** Without faults, exactly the trusted snapshots are read. *)
Lemma ReadDirectorySnapshot_trusted d s m :
  healthy s → trusted d (nodes s) = Some m → ReadDirectorySnapshot d s = (Done m, s).
Proof.
  intros Hs. unfold trusted, ReadDirectorySnapshot. cbv zeta. rewrite fs_read_healthy by done.
  destruct (nodes s !! (d ++ [_])) as [[b|]|]; [|done..].
  destruct (ParseSnapshotMeta d b) as [f| |]; [|done..].
  destruct (CheckDirectoryIndex _ _) as [[]| |] eqn:Hc; [|done..].
  destruct (nodes s !! (d ++ [f_data_file_name f])) as [[data|]|] eqn:Hd; [|done..].
  destruct (decide _) as [Heq|]; [|done]. intros [= <-].
  unfold lift, mbind, FsM_bind. rewrite Hc. unfold require_exists, ComputeFileChecksum.
  rewrite fs_exists_ec_healthy, (fs_exists_node _ _ _ Hd) by done.
  rewrite fs_read_healthy, Hd by done. rewrite ChecksumBlocks_spec by lia.
  by rewrite decide_False by tauto.
Qed.

(** A snapshot depends on the files of its directory only, and removing files makes
    no snapshot appear. *)
Lemma trusted_mono d ns ns' m :
  (∀ x b, ns' !! (d ++ [x]) = Some (File b) → ns !! (d ++ [x]) = Some (File b)) →
  trusted d ns' = Some m → trusted d ns = Some m.
Proof.
  intros Hsub. unfold trusted. cbv zeta.
  destruct (ns' !! (d ++ [_])) as [[b|]|] eqn:Hm; [|done..]. rewrite (Hsub _ _ Hm).
  destruct (ParseSnapshotMeta d b) as [f| |]; [|done..].
  destruct (CheckDirectoryIndex _ _) as [[]| |]; [|done..].
  destruct (ns' !! (d ++ [f_data_file_name f])) as [[data|]|] eqn:Hd; [|done..].
  by rewrite (Hsub _ _ Hd).
Qed.

Lemma trusted_same d ns ns' :
  (∀ x, ns' !! (d ++ [x]) = ns !! (d ++ [x])) → trusted d ns' = trusted d ns.
Proof. intros Hs. unfold trusted. cbv zeta. by repeat (rewrite Hs || case_match). Qed.

Lemma trusted_fields d ns m :
  trusted d ns = Some m →
  snapshot_dir m = d ∧ meta_path m = d ++ [kSnapshotMetaFileName] ∧
  ∃ data, ns !! snapshot_path m = Some (File data) ∧
    data_checksum m = Fnv1aAppend kFnvOffset data.
Proof.
  unfold trusted. cbv zeta. intros H.
  destruct (ns !! (d ++ [_])) as [[b|]|] eqn:Hm; [|done..].
  destruct (ParseSnapshotMeta d b) as [f| |]; [|done..].
  destruct (CheckDirectoryIndex _ _) as [[]| |]; [|done..].
  destruct (ns !! (d ++ [f_data_file_name f])) as [[data|]|] eqn:Hd; [|done..].
  destruct (decide _) as [Heq|]; [|done]. injection H as <-. cbn. eauto 10.
Qed.

(** The same for the flat layout. *)
Lemma ParseFlatMeta_no_throw p b w : ParseFlatMeta p b ≠ Throw w.
Proof.
  unfold ParseFlatMeta. revert w.
  do 5 (apply and_then_no_throw; [apply ReadPod_no_throw|]; intros [? ?]).
  intros w. by destruct (decide _).
Qed.

Lemma ReadLegacyFlatSnapshot_cases p s r s' :
  ReadLegacyFlatSnapshot p s = (r, s') →
  nodes s' = nodes s ∧ ((∃ e, r = Fail e) ∨ ∃ m, r = Done m ∧ trusted_flat p (nodes s) = Some m).
Proof.
  unfold ReadLegacyFlatSnapshot, trusted_flat. intros H.
  destruct (fs_read p s) as [[b|] s1] eqn:Hr;
    apply fs_read_cases in Hr as [Hn Hb]; [|injection H as <- <-; eauto].
  rewrite (Hb b eq_refl). unfold lift, mbind, FsM_bind in H.
  pose proof (ParseFlatMeta_no_throw p b) as Hp.
  destruct (ParseFlatMeta p b) as [m|e|w]; [|injection H as <- <-; eauto|by destruct (Hp w)].
  destruct (require_exists _ _ s1) as [r2 s2] eqn:Hq.
  apply require_exists_cases in Hq as [Hn2 [->|[-> Hx]]];
    injection H as <- <-; (split; [congruence|]); [eauto|right].
  unfold fs_exists in *. cbn [nodes]. rewrite Hn in Hx. rewrite Hx. eauto.
Qed.

Lemma ReadLegacyFlatSnapshot_trusted p s m :
  healthy s → trusted_flat p (nodes s) = Some m → ReadLegacyFlatSnapshot p s = (Done m, s).
Proof.
  intros Hs. unfold trusted_flat, ReadLegacyFlatSnapshot. rewrite fs_read_healthy by done.
  destruct (nodes s !! p) as [[b|]|]; [|done..].
  destruct (ParseFlatMeta p b) as [m0| |]; [|done..].
  destruct (fs_exists (snapshot_path m0) (mkFs (nodes s) [])) eqn:Hx; [|done]. intros [= ->].
  unfold lift, mbind, FsM_bind, require_exists. rewrite fs_exists_ec_healthy by done.
  unfold fs_exists in *. cbn [nodes] in Hx. by rewrite Hx.
Qed.
End reading.

(** ** The listing *)
#[export] Instance newer_trans : Transitive newer.
Proof. unfold newer. intros a b c. repeat case_decide; lia. Qed.
#[export] Instance newer_total : Total newer.
Proof. unfold newer. intros a b. repeat case_decide; lia. Qed.

(** What is in directory [root], to the listing. *)
Definition on_disk (root : path) (ns : gmap path FsNode) : list SnapshotMeta :=
  omap (listed ns) (fs_list root (mkFs ns [])).

Section listing.
Implicit Types (s : Fs) (root : path) (l : list SnapshotMeta).

(** A reader of the disk: it changes nothing and does not throw; what it returns is
    [found], and without faults it finds it. *)
Definition reads {A} (m : FsM A) (found : gmap path FsNode → option A) : Prop :=
  ∀ s, ∃ r s', m s = (r, s') ∧ nodes s' = nodes s ∧ (healthy s → s' = s) ∧
    ((∃ e, r = Fail e) ∧ (healthy s → found (nodes s) = None) ∨
     ∃ a, r = Done a ∧ found (nodes s) = Some a).

Lemma reads_intro {A} (m : FsM A) found :
  (∀ s r s', m s = (r, s') → nodes s' = nodes s ∧
     ((∃ e, r = Fail e) ∨ ∃ a, r = Done a ∧ found (nodes s) = Some a)) →
  (∀ s a, healthy s → found (nodes s) = Some a → m s = (Done a, s)) →
  keeps still m → reads m found.
Proof.
  intros Hcases Hok Hstill s. specialize (Hstill s). destruct (m s) as [r s'] eqn:Hm.
  exists r, s'. destruct (Hcases _ _ _ Hm) as [Hn Hr]. split_and!; try done.
  destruct Hr as [[e ->]|?]; [left|by right]. split; [eauto|]. intros Hs.
  destruct (found (nodes s)) as [a|] eqn:Hf; [|done]. by rewrite (Hok s a Hs Hf) in Hm.
Qed.

Lemma still_require p e : keeps still (require_exists p e).
Proof.
  intros s Hs. unfold require_exists. rewrite fs_exists_ec_healthy by done. by destruct (fs_exists p s).
Qed.

Lemma reads_directory d : reads (ReadDirectorySnapshot d) (trusted d).
Proof.
  apply reads_intro; [apply ReadDirectorySnapshot_cases|intros; by apply ReadDirectorySnapshot_trusted|].
  unfold ReadDirectorySnapshot. intros s. cbv zeta. apply still_read. intros b.
  eta_run. keeps_step; [apply still_require|].
  intros s0 Hs. unfold ComputeFileChecksum.
  rewrite fs_read_healthy by done. by destruct (nodes s0 !! _) as [[]|].
Qed.

Lemma reads_flat p : reads (ReadLegacyFlatSnapshot p) (trusted_flat p).
Proof.
  apply reads_intro; [apply ReadLegacyFlatSnapshot_cases|intros; by apply ReadLegacyFlatSnapshot_trusted|].
  unfold ReadLegacyFlatSnapshot. intros s. apply still_read. intros b.
  eta_run. keeps_step. apply still_require.
Qed.

(** The scan lists every trusted entry it could read. *)
Lemma ScanEntries_spec es out s :
  ∃ out' s' l, ScanEntries es out s = (Done out', s') ∧ nodes s' = nodes s ∧ (healthy s → s' = s) ∧
    snapshots out' = snapshots out ++ l ∧ l `sublist_of` omap (listed (nodes s)) es ∧
    (healthy s → l = omap (listed (nodes s)) es).
Proof.
  revert out s. induction es as [|[p node] es IH]; intros out s.
  { exists out, s, []. rewrite app_nil_r. by split_and!. }
  assert (Hread : ∀ m found (next : string + SnapshotMeta → SnapshotListResult), reads m found →
    (∀ e, snapshots (next (inl e)) = snapshots out) →
    (∀ a, snapshots (next (inr a)) = snapshots out ++ [a]) →
    found (nodes s) = listed (nodes s) (p, node) →
    ∃ out' s' l, (r ← try m; ScanEntries es (next r)) s = (Done out', s') ∧ nodes s' = nodes s ∧
      (healthy s → s' = s) ∧ snapshots out' = snapshots out ++ l ∧
      l `sublist_of` omap (listed (nodes s)) ((p, node) :: es) ∧
      (healthy s → l = omap (listed (nodes s)) ((p, node) :: es))).
  { intros m found next Hm Hl Hr Hf. destruct (Hm s) as (r & s1 & Hrun & Hn & Hst & Hcase).
    unfold mbind, FsM_bind, try. rewrite Hrun.
    destruct Hcase as [[[e ->] Hno]|(a & -> & Ha)].
    - destruct (IH (next (inl e)) s1) as (out' & s' & l & H1 & H2 & H3 & H4 & H5 & H6).
      exists out', s', l. rewrite Hl in H4. rewrite Hn in *.
      split_and!; [done|done|intros Hs; rewrite H3 by (by rewrite Hst); by apply Hst|done| |].
      + cbn [omap list_omap]. destruct (listed _ _); [by apply sublist_cons|done].
      + intros Hs. cbn [omap list_omap]. rewrite <- Hf, (Hno Hs). apply H6. by rewrite Hst.
    - destruct (IH (next (inr a)) s1) as (out' & s' & l & H1 & H2 & H3 & H4 & H5 & H6).
      exists out', s', (a :: l). rewrite Hr in H4. rewrite Hn in *. cbn [omap list_omap].
      rewrite <- Hf, Ha. split_and!; [done|done|intros Hs; rewrite H3 by (by rewrite Hst); by apply Hst| | |].
      + by rewrite H4, <- app_assoc.
      + by apply sublist_skip.
      + intros Hs. f_equal. apply H6. by rewrite Hst. }
  assert (Hskip : ∀ next : SnapshotListResult, snapshots next = snapshots out →
    listed (nodes s) (p, node) = None →
    ∃ out' s' l, ScanEntries es next s = (Done out', s') ∧ nodes s' = nodes s ∧
      (healthy s → s' = s) ∧ snapshots out' = snapshots out ++ l ∧
      l `sublist_of` omap (listed (nodes s)) ((p, node) :: es) ∧
      (healthy s → l = omap (listed (nodes s)) ((p, node) :: es))).
  { intros next Hnext Hf. destruct (IH next s) as (out' & s' & l & H1 & H2 & H3 & H4 & H5 & H6).
    exists out', s', l. cbn [omap list_omap]. rewrite Hf, <- Hnext. by split_and!. }
  cbn [ScanEntries]. unfold listed in *. cbn [fst snd] in *. destruct node as [data|].
  - destruct (decide _) as [He|He]; [|by apply Hskip].
    by eapply Hread; [apply reads_flat|..].
  - destruct (StartsWith (filename p) kSnapshotStagingPrefix); [by apply Hskip|].
    destruct (StartsWith (filename p) kSnapshotPrefix); cbn [negb] in *; [|by apply Hskip].
    by eapply Hread; [apply reads_directory|..].
Qed.

Lemma sublist_omap {A B} (f : A → option B) (l1 l2 : list A) :
  l1 `sublist_of` l2 → omap f l1 `sublist_of` omap f l2.
Proof.
  induction 1 as [|x l1 l2 _ IH|x l1 l2 _ IH]; cbn [omap list_omap]; [done| |];
    destruct (f x); by (apply sublist_skip + apply sublist_cons + idtac).
Qed.

(** The entries a listing goes through: all of them, or none when the directory is
    missing or cannot be opened. *)
Lemma listing_entries root s :
  ∃ es s1, nodes s1 = nodes s ∧ (healthy s → s1 = s) ∧
    es `sublist_of` fs_list root (mkFs (nodes s) []) ∧
    (healthy s → is_dir root (nodes s) = true → es = fs_list root (mkFs (nodes s) [])) ∧
    ListSnapshotsWithDiagnostics root s =
      (out ← ScanEntries es (mkSnapshotListResult [] []);
       mret (mkSnapshotListResult (merge_sort newer (snapshots out)) (validation_issues out))) s1.
Proof.
  unfold ListSnapshotsWithDiagnostics.
  destruct (fs_exists_ec root s) as [r s1] eqn:Hx.
  assert (Hst : healthy s → s1 = s ∧ r = inr (fs_exists root s)).
  { intros Hs. rewrite fs_exists_ec_healthy in Hx by done. by injection Hx. }
  apply fs_exists_ec_cases in Hx as [Hn Hr].
  destruct r as [e|[]].
  - exists [], s1. split_and!; [done|by intros Hs; apply Hst|apply sublist_nil_l| |done].
    intros Hs. by destruct (Hst Hs).
  - unfold fs_iterate. pose proof (fs_tick_nodes s1) as Ht.
    destruct (fs_tick s1) as [o s2] eqn:Htick. cbn [snd] in Ht.
    assert (Hst2 : healthy s → s2 = s ∧ o = None).
    { intros Hs. destruct (Hst Hs) as [-> _]. rewrite fs_healthy_tick in Htick by done. by injection Htick. }
    assert (Hl : fs_list root s2 = fs_list root (mkFs (nodes s) []))
      by (unfold fs_list; cbn; by rewrite Ht, Hn).
    exists (match o with Some _ => [] | None => fs_list root s2 end), s2. rewrite Hl.
    split_and!; [congruence|by intros Hs; apply Hst2| | |by destruct o].
    + destruct o; [apply sublist_nil_l|done].
    + intros Hs _. by destruct (Hst2 Hs) as [_ ->].
  - exists [], s1. split_and!; [done|by intros Hs; apply Hst|apply sublist_nil_l| |done].
    intros Hs Hd. destruct (Hst Hs) as [_ Hf]. injection Hf as Hf.
    unfold fs_exists, is_dir in *. destruct root; [done|]. apply bool_decide_eq_true in Hd.
    rewrite Hd in Hf. symmetry in Hf. apply bool_decide_eq_false in Hf. by destruct Hf.
Qed.

(** Every listing is sorted and made of trusted snapshots; without faults it is
    complete. *)
Lemma ListSnapshots_run root s :
  ∃ l s', ListSnapshots root s = (Done l, s') ∧ nodes s' = nodes s ∧ (healthy s → s' = s) ∧
    StronglySorted newer l ∧ (∃ l0, l ≡ₚ l0 ∧ l0 `sublist_of` on_disk root (nodes s)) ∧
    (healthy s → is_dir root (nodes s) = true → l ≡ₚ on_disk root (nodes s)).
Proof.
  destruct (listing_entries root s) as (es & s1 & Hn & Hst & Hsub & Hall & Hrun).
  unfold ListSnapshots. unfold mbind at 1, FsM_bind at 1. rewrite Hrun.
  destruct (ScanEntries_spec es (mkSnapshotListResult [] []) s1) as
    (out & s2 & l & Hscan & H2 & H3 & H4 & H5 & H6).
  unfold mbind, FsM_bind. rewrite Hscan. cbn [snapshots app] in H4. rewrite Hn in *.
  assert (Hp : merge_sort newer (snapshots out) ≡ₚ l) by (rewrite <- H4; apply merge_sort_Permutation).
  exists (merge_sort newer (snapshots out)), s2.
  split_and!; [done|done|intros Hs; rewrite H3 by (by rewrite Hst); by apply Hst| | |].
  - apply StronglySorted_merge_sort; exact _.
  - exists l. split; [done|]. etrans; [exact H5|]. by apply sublist_omap.
  - intros Hs Hd. rewrite Hp, H6 by (by rewrite Hst). unfold on_disk. by rewrite (Hall Hs Hd).
Qed.
End listing.
