(* ===== verification/SnapshotPublish.v ===== *)
(** Saving and pruning snapshots: what any run of [SaveSnapshotFile] and
    [PruneSnapshots] leaves on disk, and what a later listing makes of it. *)
From S2P Require Import Prelude Command Types Bytes Digits Fs FsM Layout SnapshotStorage SnapshotRecovery.

(** ** What a run leaves alone *)

(** Outside the ancestors of [root], which a save may create, only what lies under one
    of [ps] may have changed. *)
Definition away (root : path) (ps : list path) (s s' : Fs) : Prop :=
  ∀ q, ¬ q `prefix_of` root → Forall (λ p, under p q = false) ps → nodes s' !! q = nodes s !! q.
#[export] Instance away_preorder root ps : PreOrder (away root ps).
Proof. split; [done|]. intros s1 s2 s3 H1 H2 q Hr Hq. by rewrite H2, H1. Qed.

(** No file of directory [d] is new or changed. *)
Definition shrinks (d : path) (s s' : Fs) : Prop :=
  ∀ x b, nodes s' !! (d ++ [x]) = Some (File b) → nodes s !! (d ++ [x]) = Some (File b).
#[export] Instance shrinks_preorder d : PreOrder (shrinks d).
Proof. split; [by intros s x b|]. intros s1 s2 s3 H1 H2 x b H. by apply H1, H2. Qed.

Section frames.
Implicit Types (s : Fs) (d p root : path) (ps : list path).

Lemma only_under_away root ps s s' : only_under ps s s' → away root ps s s'.
Proof. intros Ho q _. apply Ho. Qed.

Lemma away_weaken root ps ps' s s' : ps ⊆ ps' → away root ps s s' → away root ps' s s'.
Proof.
  intros Hsub Ha q Hr Hq. apply Ha; [done|]. apply Forall_forall. intros p Hp.
  eapply Forall_forall in Hq; [exact Hq|]. by apply Hsub.
Qed.

Lemma away_keeps {A} root ps (m : FsM A) : keeps (only_under ps) m → keeps (away root ps) m.
Proof. intros Hm s. apply only_under_away, Hm. Qed.

Lemma prefix_snoc_cases (q d : path) (x : string) :
  q `prefix_of` d ++ [x] → q `prefix_of` d ∨ q = d ++ [x].
Proof.
  intros [l Hl]. destruct l as [|y l _] using rev_ind; [right; by rewrite app_nil_r in Hl|].
  rewrite app_assoc in Hl. apply app_inj_tail in Hl as [-> _]. left. by apply prefix_app_r.
Qed.

Lemma create_away root p ps s :
  p = root ∨ (∃ x, p = root ++ [x] ∧ p ∈ ps) → away root ps s (fs_create_directories p s).2.
Proof.
  intros Hp q Hr Hq. destruct (fs_create_directories p s) as [r s'] eqn:Hc. cbn [snd].
  eapply fs_create_directories_other; [exact Hc|]. destruct Hp as [->|(x & -> & Hx)]; [done|].
  intros [|Heq]%prefix_snoc_cases; [done|]. eapply Forall_forall in Hq; [|exact Hx].
  by rewrite Heq, under_refl in Hq.
Qed.

Lemma same_shrinks d s s' : (∀ x, nodes s' !! (d ++ [x]) = nodes s !! (d ++ [x])) → shrinks d s s'.
Proof. intros Hs x b. by rewrite Hs. Qed.

Lemma only_under_shrinks d ps s s' :
  Forall (λ p, apart p d) ps → only_under ps s s' → shrinks d s s'.
Proof.
  intros Hap Ho. apply same_shrinks. intros x. apply Ho. eapply Forall_impl; [exact Hap|].
  intros p Hp. cbn. by apply apart_app.
Qed.

Lemma foldr_delete_subseteq (ps : list path) (ns : gmap path FsNode) : foldr delete ns ps ⊆ ns.
Proof. induction ps as [|p ps IH]; [done|]. cbn [foldr]. etrans; [apply delete_subseteq|exact IH]. Qed.

(** A recursive removal only takes away, torn or not. *)
Lemma fs_remove_all_subseteq p s : nodes (fs_remove_all p s).2 ⊆ nodes s.
Proof.
  assert (Hstep : nodes (fs_step (λ ns, (None, prune p ns)) s).2 ⊆ nodes s).
  { destruct (fs_step _ s) as [r s'] eqn:Hs. apply fs_step_cases in Hs as [[_ Hs]|[= _ Hs]];
      cbn [snd]; rewrite Hs || rewrite <- Hs; [done|]. apply map_filter_subseteq. }
  unfold fs_remove_all. destruct (script s) as [|[] l]; try exact Hstep. apply foldr_delete_subseteq.
Qed.

Lemma remove_all_shrinks d p s : shrinks d s (fs_remove_all p s).2.
Proof. intros x b H. eapply lookup_weaken; [exact H|apply fs_remove_all_subseteq]. Qed.

Lemma keeps_or_discard {A} (R : relation Fs) `{!PreOrder R} d (m : FsM A) :
  keeps R m → (∀ s, R s (fs_remove_all d s).2) → keeps R (or_discard d m).
Proof.
  intros Hm Hd s. unfold or_discard. specialize (Hm s). destruct (m s) as [[a|e|w] s1]; [done| |done].
  etrans; [exact Hm|apply Hd].
Qed.

Lemma or_discard_Done {A} d (m : FsM A) s a s' : or_discard d m s = (Done a, s') → m s = (Done a, s').
Proof. unfold or_discard. by destruct (m s) as [[] s1]. Qed.

Lemma fs_read_under ps p s : only_under ps s (fs_read p s).2.
Proof.
  destruct (fs_read p s) as [r s'] eqn:Hr. apply fs_read_cases in Hr as [Hn _]. by apply same_under.
Qed.

Lemma ComputeFileChecksum_under ps p : keeps (only_under ps) (ComputeFileChecksum p).
Proof.
  intros s. destruct (ComputeFileChecksum p s) as [r s'] eqn:Hc.
  apply ComputeFileChecksum_cases in Hc as [Hn _]. by apply same_under.
Qed.

Lemma sync_snapshot_under ps p : keeps (only_under ps) (SyncFile p).
Proof. apply open_fsync_close_under. intros s. apply sync_under. Qed.
Lemma sync_root_under ps p : keeps (only_under ps) (SyncDirectory p).
Proof. apply open_fsync_close_under. intros s. apply open_dir_under. Qed.
Lemma sync_snapshot_Done p s u s' : SyncFile p s = (Done u, s') → nodes s' = nodes s.
Proof. apply open_fsync_close_Done. intros ???. apply fs_sync_nodes. Qed.
Lemma sync_root_Done p s u s' : SyncDirectory p s = (Done u, s') → nodes s' = nodes s.
Proof. apply open_fsync_close_Done. intros ???. apply fs_open_dir_nodes. Qed.
Lemma sync_root_nodes p s : nodes (SyncDirectory p s).2 = nodes s.
Proof. apply map_eq. intros q. by apply (sync_root_under [] p s q). Qed.

Lemma WriteString_under ps p v : p ∈ ps → keeps (only_under ps) (WriteString p v).
Proof.
  intros Hp. unfold WriteString. keeps_step; [by apply WritePod_under|]. intros s. by apply write_under.
Qed.

Lemma write_meta_under p i t now name c : keeps (only_under [p]) (WriteMeta p i t now name c).
Proof.
  unfold WriteMeta.
  keeps_step; first [apply WritePod_under; set_solver|apply WriteString_under; set_solver
                    |apply sync_snapshot_under
                    |intros s; first [apply open_trunc_under; set_solver|apply flush_under]].
Qed.

Lemma CopyFilePortable_under from to : keeps (only_under [to]) (CopyFilePortable from to).
Proof.
  intros s. unfold CopyFilePortable. pose proof (fs_read_under [to] from s) as Hr.
  destruct (fs_read from s) as [[data|] s1]; [|exact Hr]. etrans; [exact Hr|]. clear Hr.
  cbv zeta. revert s1. change (keeps (only_under [to]) (
    on_stream (fs_open_trunc to) ("open target snapshot failed: " +:+ path_string to);;
    (match data with
     | [] => fail ("copy snapshot data failed: " +:+ path_string to)
     | _ => on_stream (fs_write to data) ("copy snapshot data failed: " +:+ path_string to) end);;
    on_stream fs_flush ("copy snapshot data failed: " +:+ path_string to);;
    on_stream fs_flush ("close snapshot data failed: " +:+ path_string to);;
    SyncFile to)).
  keeps_step; first [apply sync_snapshot_under
    |intros s0; first [apply open_trunc_under; set_solver|apply write_under; set_solver|apply flush_under]].
Qed.
End frames.

(** ** Saving *)

(** The metadata file [WriteMeta] writes. *)
Definition snapshot_meta_bytes (i t now checksum : Z) (name : string) : bytes :=
  le_bytes 4 kMetaMagic ++ le_bytes 4 kMetaVersion ++ le_bytes 8 now ++ le_bytes 8 i ++
  le_bytes 8 t ++ le_bytes 4 checksum ++ le_bytes 8 (Z.of_nat (String.length name)) ++
  string_bytes name.

Section saving.
Context (root : path) (failpoint_env : option string) (now : Z).
Implicit Types (s : Fs) (input : path) (i t : Z).

Local Abbreviation final i := (final_dir_of root i).
Local Abbreviation staging i := (staging_dir_of root now i).

Lemma staging_apart i j : apart (staging i) (final j).
Proof. apply siblings_apart. discriminate. Qed.

Lemma write_meta_Done p i t c name s u s' :
  WriteMeta p i t now name c s = (Done u, s') → name ≠ "" →
  nodes s' !! p = Some (File (snapshot_meta_bytes i t now c name)).
Proof.
  unfold WriteMeta. intros H Hne. step_run H s0 Hopen. apply on_stream_Done, fs_open_trunc_true in Hopen.
  step_run H s1 H1. destruct (WritePod_Done _ _ _ _ _ _ _ H1 Hopen) as [F1 _].
  step_run H s2 H2. destruct (WritePod_Done _ _ _ _ _ _ _ H2 F1) as [F2 _].
  step_run H s3 H3. destruct (WritePod_Done _ _ _ _ _ _ _ H3 F2) as [F3 _].
  step_run H s4 H4. destruct (WritePod_Done _ _ _ _ _ _ _ H4 F3) as [F4 _].
  step_run H s5 H5. destruct (WritePod_Done _ _ _ _ _ _ _ H5 F4) as [F5 _].
  step_run H s6 H6. destruct (WritePod_Done _ _ _ _ _ _ _ H6 F5) as [F6 _].
  step_run H s7 H7. unfold WriteString in H7. step_run H7 s8 H8.
  destruct (WritePod_Done _ _ _ _ _ _ _ H8 F6) as [F7 _]. rewrite decide_False in H7 by done.
  apply on_stream_Done in H7. pose proof (fs_write_true _ _ _ _ _ H7 F7) as F8.
  step_run H s9 H9. apply on_stream_Done, fs_flush_nodes in H9.
  step_run H s10 H10. apply on_stream_Done, fs_flush_nodes in H10.
  apply sync_snapshot_Done in H. rewrite H, H10, H9, F8. unfold snapshot_meta_bytes.
  by rewrite <- !app_assoc.
Qed.

Lemma CopyFilePortable_Done from to s u s' :
  CopyFilePortable from to s = (Done u, s') →
  ∃ data, nodes s !! from = Some (File data) ∧ nodes s' !! to = Some (File data).
Proof.
  unfold CopyFilePortable. cbv zeta. intros H.
  destruct (fs_read from s) as [[data|] s1] eqn:Hr; [|done].
  apply fs_read_cases in Hr as [Hn Hd]. exists data. split; [by apply Hd|].
  step_run H s2 H2. apply on_stream_Done, fs_open_trunc_true in H2.
  step_run H s3 H3. assert (H3' : nodes s3 !! to = Some (File data)).
  { destruct data; [done|]. apply on_stream_Done in H3. by apply (fs_write_true _ _ _ _ _ H3 H2). }
  step_run H s4 H4. apply on_stream_Done, fs_flush_nodes in H4.
  step_run H s5 H5. apply on_stream_Done, fs_flush_nodes in H5.
  apply sync_snapshot_Done in H. by rewrite H, H5, H4.
Qed.

(** What a finished staging directory holds. *)
Definition staged (d : path) (i t c : Z) (data : bytes) (ns : gmap path FsNode) : Prop :=
  ns !! d = Some Dir ∧ ns !! (d ++ [kSnapshotDataFileName]) = Some (File data) ∧
  ns !! (d ++ [kSnapshotMetaFileName]) = Some (File (snapshot_meta_bytes i t now c kSnapshotDataFileName)) ∧
  c = Fnv1aAppend kFnvOffset data.

Lemma under_child (d : path) (x : string) : under (d ++ [x]) d = false.
Proof.
  unfold under. apply bool_decide_eq_false. intros Hp%prefix_length. rewrite length_app in Hp. cbn in Hp. lia.
Qed.

Lemma StageSnapshot_Done input i t s c s' :
  StageSnapshot root now input (staging i) i t s = (Done c, s') →
  ¬ input `prefix_of` staging i → under (staging i) input = false →
  ∃ data, nodes s !! input = Some (File data) ∧ staged (staging i) i t c data (nodes s').
Proof.
  unfold StageSnapshot. intros H Hpre Hin. step_run H s1 H1. step_run H s2 H2.
  apply with_ec_Done in H1, H2.
  assert (Hdir : nodes s2 !! staging i = Some Dir)
    by (eapply fs_create_directories_there; [by destruct root|exact H2]). apply or_discard_Done in H.
  step_run H s3 H3. apply sync_root_Done in H3. step_run H s4 H4.
  destruct (CopyFilePortable_Done _ _ _ _ _ H4) as (data & Hdata & Hcopy).
  pose proof (CopyFilePortable_under input (staging i ++ [kSnapshotDataFileName]) s3) as Hu4.
  rewrite H4 in Hu4. cbn [snd] in Hu4.
  apply bind_Done in H as (c1 & s5 & H5 & H). apply ComputeFileChecksum_cases in H5 as [Hn5 H5].
  destruct H5 as [[e H5]|(b & Hb & [= ->])]; [done|]. rewrite Hcopy in Hb. injection Hb as <-.
  step_run H s6 H6. step_run H s7 H7. apply sync_root_Done in H7. injection H as <- <-.
  exists data. split.
  - rewrite <- Hdata, H3. rewrite (fs_create_directories_other _ _ _ _ _ H2) by done.
    pose proof (fs_remove_all_other (staging i) s input Hin) as Hr. by rewrite H1 in Hr.
  - rewrite H7.
    pose proof (write_meta_under (staging i ++ [kSnapshotMetaFileName]) i t now kSnapshotDataFileName
      (Fnv1aAppend kFnvOffset data) s5) as Hu. rewrite H6 in Hu. cbn [snd] in Hu.
    split_and!; [| |by eapply write_meta_Done|done].
    + rewrite Hu by (constructor; [apply under_child|done]). rewrite Hn5.
      rewrite Hu4 by (constructor; [apply under_child|done]). by rewrite H3.
    + rewrite Hu; [by rewrite Hn5|]. constructor; [by apply under_sibling|done].
Qed.

Lemma StageSnapshot_away input i t :
  keeps (away root [staging i]) (StageSnapshot root now input (staging i) i t).
Proof.
  assert (Hsub : ∀ A x (m : FsM A), keeps (only_under [staging i ++ [x]]) m →
    keeps (away root [staging i]) m).
  { intros A x m Hm. by apply away_keeps, (keeps_sub _ x). }
  unfold StageSnapshot. keeps_step.
  - intros s. apply only_under_away, remove_all_under. by left.
  - intros s. apply create_away. right. eexists. split; [reflexivity|by left].
  - apply keeps_or_discard; [exact _| |intros s; apply only_under_away, remove_all_under; by left].
    keeps_step; try (apply away_keeps, sync_root_under).
    + eapply Hsub, CopyFilePortable_under.
    + apply away_keeps, ComputeFileChecksum_under.
    + eapply Hsub, write_meta_under.
Qed.

(** The new snapshot reads back. *)
Definition new_snapshot i t c : SnapshotMeta :=
  mkSnapshotMeta (final i ++ [kSnapshotDataFileName]) (final i ++ [kSnapshotMetaFileName]) (final i)
    i t now c.

Lemma ReadPod_bytes n z b : 0 ≤ z < 256 ^ Z.of_nat n → ReadPod n (le_bytes n z ++ b) = Done (z, b).
Proof. intros Hz. unfold ReadPod. by rewrite read_le_bytes. Qed.

Lemma ParseSnapshotMeta_bytes d i t c :
  is_u64 i → is_u64 t → is_u64 now → 0 ≤ c < 256 ^ 4 →
  ParseSnapshotMeta d (snapshot_meta_bytes i t now c kSnapshotDataFileName) =
    Done (mkSnapshotFields now i t c kSnapshotDataFileName).
Proof.
  intros Hi Ht Hn Hc. unfold ParseSnapshotMeta, snapshot_meta_bytes. cbv zeta.
  assert (H8 : ∀ z, is_u64 z → 0 ≤ z < 256 ^ Z.of_nat 8)
    by (intros z; change (256 ^ Z.of_nat 8) with 18446744073709551616; u64_lia).
  do 2 (rewrite ReadPod_bytes by (split; [discriminate|reflexivity]); cbn [and_then]).
  do 3 (rewrite ReadPod_bytes by auto; cbn [and_then]).
  rewrite ReadPod_bytes by exact Hc. cbn [and_then].
  assert (Hstr : ReadString (le_bytes 8 (Z.of_nat (String.length kSnapshotDataFileName)) ++
                   string_bytes kSnapshotDataFileName) = Done (kSnapshotDataFileName, []))
    by (vm_compute; reflexivity).
  rewrite Hstr. cbn [and_then]. rewrite decide_False by (intros [[]|[]]; reflexivity).
  by rewrite decide_False by discriminate.
Qed.

Lemma CheckDirectoryIndex_final i j : is_u64 i →
  CheckDirectoryIndex (final i) j = Done () ↔ j = i.
Proof.
  intros Hi. unfold CheckDirectoryIndex, final_dir_of. cbv zeta.
  assert (Hf : filename (root ++ [kSnapshotPrefix +:+ FormatIndex i]) = kSnapshotPrefix +:+ FormatIndex i)
    by (unfold filename; apply List.last_last).
  rewrite Hf. unfold StartsWith. rewrite prefix_app, substring_skip by done.
  rewrite string_length_app. replace (_ + _ - _)%nat with (String.length (FormatIndex i)) by lia.
  rewrite substring_all, stoull_FormatIndex by done.
  destruct (decide (i ≠ j)); split; intros; [done|congruence|lia|done].
Qed.

Lemma staged_trusted i t c data ns :
  is_u64 i → is_u64 t → is_u64 now →
  staged (final i) i t c data ns → trusted (final i) ns = Some (new_snapshot i t c).
Proof.
  intros Hi Ht Hn (_ & Hd & Hm & Hc). unfold trusted. cbv zeta. rewrite Hm.
  rewrite ParseSnapshotMeta_bytes; try done.
  2:{ rewrite Hc. apply Fnv1aAppend_range. split; [discriminate|reflexivity]. }
  cbn [f_last_included_index f_data_file_name f_checksum f_last_included_term f_created_unix_ms].
  rewrite (proj2 (CheckDirectoryIndex_final i i Hi) eq_refl), Hd. by rewrite decide_True.
Qed.

Lemma trusted_index i ns m : is_u64 i → trusted (final i) ns = Some m → last_included_index m = i.
Proof.
  intros Hi. unfold trusted. cbv zeta.
  destruct (ns !! (_ ++ [kSnapshotMetaFileName])) as [[b|]|]; [|done..].
  destruct (ParseSnapshotMeta _ b) as [f| |]; [|done..].
  destruct (CheckDirectoryIndex _ _) as [[]| |] eqn:Hc; [|done..].
  apply CheckDirectoryIndex_final in Hc; [|done].
  destruct (ns !! _) as [[data|]|]; [|done..]. destruct (decide _); [|done]. by intros [= <-].
Qed.
(** Renaming the staging directory into place. *)
Lemma ClearFinal_under i : keeps (only_under [final i]) (ClearFinal root (final i)).
Proof.
  intros s. unfold ClearFinal. destruct (fs_exists_ec (final i) s) as [r s1] eqn:Hx.
  apply fs_exists_ec_cases in Hx as [Hn _].
  assert (Hs : only_under [final i] s s1) by (by apply same_under).
  destruct r as [e|[]]; [exact Hs| |exact Hs]. etrans; [exact Hs|].
  match goal with |- only_under _ _ (?m s1).2 => assert (Hm : keeps (only_under [final i]) m) end.
  { keeps_step; [intros s0; apply remove_all_under; by left|apply sync_root_under]. }
  apply Hm.
Qed.

Lemma ClearFinal_shrinks i : keeps (shrinks (final i)) (ClearFinal root (final i)).
Proof.
  intros s. unfold ClearFinal. destruct (fs_exists_ec (final i) s) as [r s1] eqn:Hx.
  apply fs_exists_ec_cases in Hx as [Hn _].
  assert (Hs : shrinks (final i) s s1) by (apply same_shrinks; by rewrite Hn).
  destruct r as [e|[]]; [exact Hs| |exact Hs]. etrans; [exact Hs|].
  match goal with |- shrinks _ _ (?m s1).2 => assert (Hm : keeps (shrinks (final i)) m) end.
  { keeps_step; [intros s0; apply remove_all_shrinks|].
    intros s0. apply same_shrinks. by rewrite sync_root_nodes. }
  apply Hm.
Qed.

(** After the rename: at most the metadata goes again, when a failure is injected. *)
Lemma RemovePathIfExists_only p s s' d : RemovePathIfExists p s = (Done d, s') →
  only_at p s s' ∧ (nodes s' !! p = nodes s !! p ∨ nodes s' !! p = None).
Proof.
  unfold RemovePathIfExists. destruct (fs_exists_ec p s) as [r s1] eqn:Hx.
  apply fs_exists_ec_cases in Hx as [Hn _]. intros H.
  assert (Hs : nodes s' = nodes s → only_at p s s' ∧ (nodes s' !! p = nodes s !! p ∨ nodes s' !! p = None))
    by (intros Hs; split; [intros q _|left]; by rewrite Hs).
  destruct r as [e|[]]; [injection H as _ <-; by apply Hs| |injection H as _ <-; by apply Hs].
  assert (Hr : (fs_remove p s1).2 = s') by (by destruct (fs_remove p s1) as [[]]; injection H).
  destruct (fs_remove p s1) as [o s2] eqn:Hrm. cbn [snd] in Hr. subst s2. split.
  - intros q Hq. rewrite (fs_remove_only _ _ _ _ Hrm) by done. by rewrite Hn.
  - apply fs_remove_here in Hrm. by rewrite Hn in Hrm.
Qed.

Lemma is_dir_same (d : path) (ns ns' : gmap path FsNode) : ns' !! d = ns !! d → is_dir d ns' = is_dir d ns.
Proof. intros Hd. unfold is_dir. by destruct d; rewrite ?Hd. Qed.

(** The directory is swapped in whole, or the final place has at most lost files. *)
Lemma SwapIn_under i : keeps (only_under [staging i; final i]) (SwapIn root (staging i) (final i)).
Proof.
  unfold SwapIn. apply keeps_or_discard; [exact _| |intros s; apply remove_all_under; by left].
  keeps_step.
  - intros s q Hq. apply ClearFinal_under. apply Forall_cons in Hq as [_ Hq]. exact Hq.
  - intros s. apply rename_under; [by left|by right; left|apply staging_apart].
Qed.

Lemma rename_parent i s s' :
  fs_rename (staging i) (final i) s = (None, s') → is_dir root (nodes s') = true.
Proof.
  intros Hmv. pose proof (staging_apart i i) as Hap.
  pose proof (fs_rename_None _ _ _ _ Hmv Hap) as Hn.
  apply fs_step_cases in Hmv as [[? _]|Hf]; [done|].
  assert (Hroot : is_dir root (nodes s) = true).
  { destruct (nodes s !! staging i); [|done]. destruct (decide (staging i = final i)) as [Heq|_].
    { by destruct (apart_neq _ _ Hap). }
    destruct (under _ _ || under _ _); [done|].
    assert (Hp : parent_path (final i) = root) by (unfold parent_path, final_dir_of; apply removelast_last).
    rewrite Hp in Hf. by destruct (is_dir root (nodes s)). }
  rewrite <- Hroot. apply is_dir_same. rewrite Hn. apply move_other; [done|apply under_child..].
Qed.

Lemma SwapIn_cases i t c data s r s' :
  SwapIn root (staging i) (final i) s = (r, s') → staged (staging i) i t c data (nodes s) →
  shrinks (final i) s s' ∧ (∀ u, r ≠ Done u) ∨
  r = Done () ∧ staged (final i) i t c data (nodes s') ∧ is_dir root (nodes s') = true.
Proof.
  unfold SwapIn, or_discard. intros H Hst.
  match type of H with context [(?m ≫= ?f) s] => destruct ((m ≫= f) s) as [r1 s1] eqn:Hrun end.
  assert (Hdiscard : shrinks (final i) s s1 → (∀ u, r1 ≠ Done u) →
    shrinks (final i) s s' ∧ (∀ u, r ≠ Done u)).
  { intros Hs Hr. destruct r1 as [u|e|w]; [by destruct (Hr u)| |]; injection H as <- <-; [|done].
    split; [|done]. etrans; [exact Hs|apply remove_all_shrinks]. }
  apply bind_cases in Hrun as [([] & s2 & Hclear & Hren)|[Hs Hr]].
  2:{ left. apply Hdiscard; [|done]. rewrite <- Hs. apply ClearFinal_shrinks. }
  pose proof (ClearFinal_shrinks i s) as Hsh. pose proof (ClearFinal_under i s) as Hu.
  rewrite Hclear in Hsh, Hu. cbn [snd] in Hsh, Hu. unfold with_ec in Hren.
  pose proof (staging_apart i i) as Hap.
  destruct (fs_rename (staging i) (final i) s2) as [[e|] s3] eqn:Hmv; injection Hren as <- <-.
  - left. apply Hdiscard; [|done]. etrans; [exact Hsh|]. apply same_shrinks.
    destruct (fs_rename_here _ _ _ _ _ Hmv Hap) as [[Heq _]|[? _]]; [by rewrite Heq|done].
  - right. injection H as <- <-. split; [done|].
    pose proof (fs_rename_None _ _ _ _ Hmv Hap) as Hn.
    assert (Hx : ∀ x, nodes s3 !! (final i ++ x) = nodes s !! (staging i ++ x)).
    { intros x. rewrite Hn, move_to by done. apply Hu. constructor; [|done].
      by apply apart_app, symmetry. }
    destruct Hst as (Hdir & Hd & Hm & Hc). split; [split_and!; try by rewrite Hx|].
    + specialize (Hx []). rewrite !app_nil_r in Hx. by rewrite Hx.
    + done.
    + by eapply rename_parent.
Qed.

(** After the rename: the snapshot is there, or its metadata was taken away again by an
    injected failure, which is reported. *)
Lemma ConfirmPublish_cases i t c data s r s' :
  ConfirmPublish root failpoint_env (final i) s = (r, s') → staged (final i) i t c data (nodes s) →
  only_under [final i] s s' ∧
  (staged (final i) i t c data (nodes s') ∨
   (∀ u, r ≠ Done u) ∧ nodes s' !! (final i ++ [kSnapshotMetaFileName]) = None).
Proof.
  intros H (Hdir & Hd & Hm & Hc).
  assert (Hdetail : ∀ d s1, RemovePathIfExists (final i ++ [kSnapshotMetaFileName]) s = (Done d, s1) →
    only_under [final i] s s1 ∧
    (staged (final i) i t c data (nodes s1) ∨
     nodes s1 !! (final i ++ [kSnapshotMetaFileName]) = None)).
  { intros d s1 [Ho Hcase]%RemovePathIfExists_only. split.
    - eapply only_under_sub; [by left|]. eapply only_at_under; [by left|exact Ho].
    - destruct Hcase as [Hk|Hk]; [left|by right]. split_and!; [| |by rewrite Hk|done].
      + rewrite Ho; [done|]. intros Heq. pose proof (under_child (final i) kSnapshotMetaFileName) as Hu.
        rewrite <- Heq, under_refl in Hu. done.
      + rewrite Ho; [done|]. by intros Heq%app_inv_head. }
  assert (Hfail : ∀ g : string → FsM unit, (∀ d s1, ∃ e, g d s1 = (Fail e, s1)) →
    (detail ← RemovePathIfExists (final i ++ [kSnapshotMetaFileName]); g detail) s = (r, s') →
    only_under [final i] s s' ∧
    (staged (final i) i t c data (nodes s') ∨
     (∀ u, r ≠ Done u) ∧ nodes s' !! (final i ++ [kSnapshotMetaFileName]) = None)).
  { intros g Hg Hrun. unfold mbind, FsM_bind in Hrun.
    assert (Hdone : ∃ d s1, RemovePathIfExists (final i ++ [kSnapshotMetaFileName]) s = (Done d, s1)).
    { unfold RemovePathIfExists. destruct (fs_exists_ec _ s) as [[e|[]] s1]; eauto.
      destruct (fs_remove _ s1) as [[e|] s2]; eauto. }
    destruct Hdone as (d & s1 & Hdone). rewrite Hdone in Hrun. destruct (Hg d s1) as [e He].
    rewrite He in Hrun. injection Hrun as <- <-. destruct (Hdetail d s1 Hdone) as [? [?|?]]; auto. }
  unfold ConfirmPublish in H. cbv zeta in H.
  destruct (decide (_ = kParentDirectorySyncAfterPublish));
    [|destruct (decide (_ = kPublishVisibleBeforeTrustedDirectorySync))].
  - eapply Hfail; [|exact H]. intros; eexists; reflexivity.
  - eapply Hfail; [|exact H]. intros; eexists; reflexivity.
  - pose proof (sync_root_nodes root s) as Hn. rewrite H in Hn. cbn [snd] in Hn.
    split; [by apply same_under|]. left. rewrite Hn. by split_and!.
Qed.
Lemma PrepareRoot_away ps : keeps (away root ps) (PrepareRoot root).
Proof.
  unfold PrepareRoot. keeps_step; try (apply away_keeps, sync_root_under).
  intros s. apply create_away. by left.
Qed.

Lemma FindExisting_cases d s r s' :
  FindExisting d s = (r, s') →
  nodes s' = nodes s ∧ ∀ m, r = Done (Some m) → trusted d (nodes s) = Some m.
Proof.
  unfold FindExisting. destruct (fs_exists_ec d s) as [o s1] eqn:Hx.
  apply fs_exists_ec_cases in Hx as [Hn _]. destruct o as [e|[]].
  - intros [= <- <-]. done.
  - unfold mbind, FsM_bind, try.
    destruct (ReadDirectorySnapshot d s1) as [r1 s2] eqn:Hr.
    apply ReadDirectorySnapshot_cases in Hr as [Hn2 [[e ->]|(m & -> & Hm)]]; intros [= <- <-];
      (split; [congruence|]); [done|]. intros m' [= <-]. by rewrite <- Hn.
  - intros [= <- <-]. done.
Qed.

(** A file the save reads: neither an ancestor of the snapshot directory nor inside the
    directories it writes. *)
Definition input_apart i input : Prop :=
  ¬ input `prefix_of` root ∧ under (staging i) input = false ∧ under (final i) input = false.

(** Outside the directories it writes and the ancestors of [root], a save changes
    nothing but the input, which it may remove. *)
Definition untouched i input s s' : Prop :=
  ∀ q, ¬ q `prefix_of` root → under (staging i) q = false → under (final i) q = false →
    nodes s' !! q = nodes s !! q ∨ q = input ∧ nodes s' !! q = None.

(** How a save can end, as seen on disk. *)
Inductive save_outcome i t input s s' : Result SnapshotMeta → Prop :=
  | save_aborted r : (∀ m, r ≠ Done m) → shrinks (final i) s s' →
      nodes s' !! input = nodes s !! input → save_outcome i t input s s' r
  | save_existing m : trusted (final i) (nodes s) = Some m → last_included_term m = t →
      (∀ x, nodes s' !! (final i ++ [x]) = nodes s !! (final i ++ [x])) →
      save_outcome i t input s s' (Done m)
  | save_published c data r : nodes s !! input = Some (File data) →
      staged (final i) i t c data (nodes s') → is_dir root (nodes s') = true →
      (∀ m, r = Done m → m = new_snapshot i t c) → save_outcome i t input s s' r
  | save_hidden r : (∀ m, r ≠ Done m) → nodes s' !! (final i ++ [kSnapshotMetaFileName]) = None →
      nodes s' !! input = nodes s !! input → save_outcome i t input s s' r.

Lemma away_untouched i input s s' : away root [staging i; final i] s s' → untouched i input s s'.
Proof. intros Ha q Hr Hs Hf. left. apply Ha; [done|]. by repeat constructor. Qed.

Lemma untouched_remove i input s s1 o s' :
  away root [staging i; final i] s s1 → fs_remove input s1 = (o, s') → untouched i input s s'.
Proof.
  intros Ha Hrm q Hr Hs Hf. assert (Hq : nodes s1 !! q = nodes s !! q).
  { apply Ha; [done|]. by repeat constructor. }
  destruct (decide (q = input)) as [->|Hne].
  - apply fs_remove_here in Hrm as [Hk|Hk]; [left; congruence|by right].
  - left. by rewrite (fs_remove_only _ _ _ _ Hrm).
Qed.

Lemma away_final i input s s' x :
  root ≠ [] → input_apart i input → away root [staging i] s s' →
  nodes s' !! input = nodes s !! input ∧
  nodes s' !! (final i ++ [x]) = nodes s !! (final i ++ [x]).
Proof.
  intros Hroot (Hpre & Hst & Hfin) Ha. split.
  - apply Ha; [done|]. by constructor.
  - apply Ha; [|constructor; [apply apart_app, staging_apart|done]].
    intros Hp%prefix_length. unfold final_dir_of in Hp. rewrite !length_app in Hp. cbn in Hp. lia.
Qed.

(** Removing a file outside leaves a snapshot directory as it is. *)
Lemma staged_remove i t c data input s o s' :
  input_apart i input → fs_remove input s = (o, s') → staged (final i) i t c data (nodes s) →
  is_dir root (nodes s) = true →
  staged (final i) i t c data (nodes s') ∧ is_dir root (nodes s') = true.
Proof.
  intros (Hpre & _ & Hf) Hrm%fs_remove_only (Hdir & Hd & Hm & Hc) Hroot.
  assert (Hne : ∀ x, final i ++ x ≠ input) by (intros x Heq; by rewrite <- Heq, under_app in Hf).
  split; [split_and!|]; try (rewrite Hrm; done); [|exact Hc|].
  - specialize (Hne []). rewrite app_nil_r in Hne. by rewrite Hrm.
  - rewrite <- Hroot. apply is_dir_same, Hrm. intros Heq. apply Hpre. by rewrite Heq.
Qed.

(** The last steps: from the staged data to the answer. *)
Lemma publish_outcome i t c data input s0 s r s' :
  input_apart i input → away root [staging i; final i] s0 s →
  nodes s0 !! input = Some (File data) → nodes s !! input = Some (File data) →
  shrinks (final i) s0 s → staged (staging i) i t c data (nodes s) →
  (SwapIn root (staging i) (final i);;
   ConfirmPublish root failpoint_env (final i);;
   ignore_ec (fs_remove input);;
   mret (new_snapshot i t c)) s = (r, s') →
  untouched i input s0 s' ∧ save_outcome i t input s0 s' r.
Proof.
  intros Hap Ha0 Hin0 Hin Hsh0 Hst H. pose proof Hap as (Hpre & Hist & Hifin).
  pose proof (SwapIn_under i s) as Hu1.
  destruct (SwapIn root (staging i) (final i) s) as [r1 s1] eqn:H1. cbn [snd] in Hu1.
  assert (Ha1 : away root [staging i; final i] s0 s1) by (etrans; [exact Ha0|by apply only_under_away]).
  assert (Hinput : ∀ s2, away root [staging i; final i] s0 s2 → nodes s2 !! input = nodes s0 !! input)
    by (intros s2 Hs2; apply Hs2; [done|by repeat constructor]).
  pose proof (SwapIn_cases _ _ _ _ _ _ _ H1 Hst) as Hc1.
  apply bind_cases in H as [([] & s1' & H1' & H)|[Hend Hr]]; rewrite H1 in *.
  2:{ cbn [snd] in Hend. subst s1. split; [by apply away_untouched|].
      destruct Hc1 as [[Hsh _]|(_ & Hs1 & Hd1)].
      - apply save_aborted; [done|by etrans|by apply Hinput].
      - eapply save_published; [done|done|done|]. intros m ->. by destruct (Hr m). }
  injection H1' as -> ->. destruct Hc1 as [[_ Hno]|(_ & Hs1 & Hd1)]; [by destruct (Hno ())|].
  destruct (ConfirmPublish root failpoint_env (final i) s1') as [r2 s2] eqn:H2.
  destruct (ConfirmPublish_cases _ _ _ _ _ _ _ H2 Hs1) as [Hu2 Hc2].
  assert (Ha2 : away root [staging i; final i] s0 s2).
  { etrans; [exact Ha1|]. eapply away_weaken; [|by apply only_under_away]. set_solver. }
  assert (Hd2 : is_dir root (nodes s2) = true).
  { rewrite <- Hd1. apply is_dir_same, Hu2. constructor; [apply under_child|done]. }
  apply bind_cases in H as [([] & s2' & H2' & H)|[Hend Hr]]; rewrite H2 in *.
  2:{ cbn [snd] in Hend. subst s2. split; [by apply away_untouched|]. destruct Hc2 as [Hs2|[_ Hgone]].
      - eapply save_published; [done|done|done|]. intros m ->. by destruct (Hr m).
      - apply save_hidden; [done|done|by apply Hinput]. }
  injection H2' as -> ->. destruct Hc2 as [Hs2|[Hno _]]; [|by destruct (Hno ())].
  injection H as <- <-. cbn [snd].
  destruct (fs_remove input s2') as [o s3] eqn:H3. cbn [snd]. split; [by eapply untouched_remove|].
  destruct (staged_remove _ _ _ _ _ _ _ _ Hap H3 Hs2 Hd2) as [Hs3 Hd3].
  eapply save_published; [done|done|done|by intros m [= <-]].
Qed.

(** The answer when the snapshot is there already. *)
Lemma existing_outcome i t input m s0 s r s' :
  input_apart i input → away root [staging i] s0 s → trusted (final i) (nodes s0) = Some m →
  last_included_term m = t →
  (∀ x, nodes s !! (final i ++ [x]) = nodes s0 !! (final i ++ [x])) →
  (ignore_ec (fs_remove input);; mret m) s = (r, s') →
  untouched i input s0 s' ∧ save_outcome i t input s0 s' r.
Proof.
  intros (_ & _ & Hf) Ha Hm Ht Hx [= <- <-].
  destruct (fs_remove input s) as [o s3] eqn:H3. cbn [snd]. split.
  - eapply untouched_remove; [|exact H3]. eapply away_weaken; [|exact Ha]. set_solver.
  - apply save_existing; [done|done|]. intros x. rewrite (fs_remove_only _ _ _ _ H3); [done|].
    intros Heq. by rewrite <- Heq, under_app in Hf.
Qed.

(** Every run of a save, with any faults. *)
Lemma SaveSnapshotFile_outcome input i t s r s' :
  SaveSnapshotFile root failpoint_env now input i t s = (r, s') → root ≠ [] → input_apart i input →
  untouched i input s s' ∧ save_outcome i t input s s' r.
Proof.
  intros H Hroot Hin. unfold SaveSnapshotFile in H. destruct (decide (input = [])).
  { injection H as <- <-. split; [by left|]. by apply save_aborted. }
  assert (Hwide : ∀ s1, away root [staging i] s s1 → away root [staging i; final i] s s1)
    by (intros s1; apply away_weaken; set_solver).
  assert (Hearly : ∀ s1, away root [staging i] s s1 → (∀ m, r ≠ Done m) → s1 = s' →
    untouched i input s s' ∧ save_outcome i t input s s' r).
  { intros s1 Ha Hr ->. split; [by apply away_untouched, Hwide|]. apply save_aborted; [done| |].
    - apply same_shrinks. intros x. by eapply away_final.
    - by eapply (away_final i input s s' ""). }
  pose proof (PrepareRoot_away [staging i] s) as Ha1.
  apply bind_cases in H as [([] & s1 & H1 & H)|[Hend Hr]]; [|by eapply Hearly].
  rewrite H1 in Ha1. cbn [snd] in Ha1.
  destruct (FindExisting (final i) s1) as [r2 s2] eqn:H2.
  destruct (FindExisting_cases _ _ _ _ H2) as [Hn2 Hm2].
  assert (Ha2 : away root [staging i] s s2).
  { etrans; [exact Ha1|]. apply only_under_away. by apply same_under. }
  apply bind_cases in H as [(existing & s2' & H2' & H)|[Hend Hr]]; rewrite H2 in *;
    [|by eapply Hearly]. injection H2' as -> ->.
  assert (Hfin2 : ∀ x, nodes s2' !! (final i ++ [x]) = nodes s !! (final i ++ [x]))
    by (intros x; by eapply away_final).
  destruct existing as [m|].
  - specialize (Hm2 m eq_refl). rewrite <- Hn2 in Hm2.
    destruct (decide (last_included_term m ≠ t)) as [Hne|Heq]; [injection H as <- <-; by eapply Hearly|].
    eapply existing_outcome; [exact Hin|exact Ha2| |by apply dec_stable|exact Hfin2|exact H].
    rewrite <- Hm2. symmetry. by apply trusted_same.
  - pose proof (StageSnapshot_away input i t s2') as Ha3.
    destruct (StageSnapshot root now input (staging i) i t s2') as [r3 s3] eqn:H3. cbn [snd] in Ha3.
    assert (Ha23 : away root [staging i] s s3) by (by etrans).
    apply bind_cases in H as [(c & s3' & H3' & H)|[Hend Hr]]; rewrite H3 in *;
      [|by eapply Hearly]. injection H3' as -> ->.
    destruct (decide (_ = kStagedPublishAfterDataMetaWrite)); [injection H as <- <-; by eapply Hearly|].
    pose proof Hin as (Hpre & Hst & Hfin).
    destruct (StageSnapshot_Done _ _ _ _ _ _ H3) as (data & Hdata & Hstaged); [|done|].
    { intros [|Heq]%prefix_snoc_cases; [done|]. unfold staging_dir_of in Hst.
      by rewrite Heq, under_refl in Hst. }
    destruct (away_final i input s s2' "" Hroot Hin Ha2) as [Hi2 _].
    destruct (away_final i input s s3' "" Hroot Hin Ha23) as [Hi3 _].
    eapply (publish_outcome i t c data input s s3'); [exact Hin|by apply Hwide| | | |exact Hstaged|exact H].
    + congruence.
    + congruence.
    + apply same_shrinks. intros x. by eapply away_final.
Qed.
End saving.

(** ** What the next listing sees *)

Section seen.
Context (root : path) (failpoint_env : option string) (now : Z).
Implicit Types (s : Fs) (input : path) (i t : Z).

Local Abbreviation final i := (final_dir_of root i).
Local Abbreviation staging i := (staging_dir_of root now i).

Lemma entry_path s p x : (p, x) ∈ fs_list root s → ∃ y, p = root ++ [y].
Proof.
  intros (_ & Hp & Hne)%elem_of_fs_list. exists (List.last p ""). unfold parent_path in Hp.
  by rewrite (app_removelast_last "" Hne) at 1; rewrite Hp.
Qed.

Lemma elem_of_on_disk ns m :
  m ∈ on_disk root ns ↔
  ∃ p x, ns !! p = Some x ∧ parent_path p = root ∧ p ≠ [] ∧ listed ns (p, x) = Some m.
Proof.
  unfold on_disk. rewrite list_elem_of_omap. split.
  - intros ([p x] & (Hp & Hr & Hne)%elem_of_fs_list & Hl). by exists p, x.
  - intros (p & x & Hp & Hr & Hne & Hl). exists (p, x). split; [|done]. by apply elem_of_fs_list.
Qed.

Lemma parent_snoc (y : string) : parent_path (root ++ [y]) = root.
Proof. unfold parent_path. apply removelast_last. Qed.
Lemma filename_snoc (y : string) : filename (root ++ [y]) = y.
Proof. unfold filename. apply List.last_last. Qed.

(** Below the root nothing is an ancestor of it. *)
Lemma below_not_prefix (r : path) : r ≠ [] → ¬ (root ++ r) `prefix_of` root.
Proof. intros Hr Hp%prefix_length. rewrite length_app in Hp. destruct r; [done|]. cbn in Hp. lia. Qed.

(** Names that end in a digit and names that end in [.bin]. *)
Lemma string_bytes_app (a b : string) : string_bytes (a +:+ b) = string_bytes a ++ string_bytes b.
Proof. induction a as [|c a IH]; [done|]. exact (f_equal (cons c) IH). Qed.

Lemma all_digits_last d : all_digits d = true → d ≠ "" → ∃ c, last (string_bytes d) = Some c ∧ is_digit c = true.
Proof.
  induction d as [|c d IH]; [done|]. cbn [all_digits]. intros [Hc Hd]%andb_true_iff _.
  destruct d as [|c' d]; [by exists c|]. destruct (IH Hd) as (x & Hx & Hdx); [done|]. by exists x.
Qed.

Lemma digits_not_suffix (a b d suffix : string) c :
  all_digits d = true → d ≠ "" → last (string_bytes suffix) = Some c → is_digit c = false →
  a +:+ d ≠ b +:+ suffix.
Proof.
  intros Hd Hne Hs Hc Heq. destruct (all_digits_last d Hd Hne) as (c' & Hc' & Hdc).
  apply (f_equal string_bytes) in Heq. rewrite !string_bytes_app in Heq.
  apply (f_equal last) in Heq. rewrite !last_app, Hc', Hs in Heq. congruence.
Qed.

Lemma pretty_Z_digits z : 0 ≤ z → all_digits (pretty z) = true ∧ pretty z ≠ "".
Proof.
  intros Hz. assert (Hp : pretty z = pretty (Z.to_N z)) by (by destruct z).
  rewrite Hp. destruct (pretty_digits (Z.to_N z)) as (H1 & _ & H2). done.
Qed.

(** The names the save makes up end in a digit: no file name with an extension does. *)
Definition saved_name i (y : string) : Prop :=
  y = kSnapshotPrefix +:+ FormatIndex i ∨
  y = kSnapshotStagingPrefix +:+ FormatIndex i +:+ "_" +:+ pretty now.

Lemma saved_name_suffix i y b suffix c :
  is_u64 i → is_u64 now → saved_name i y → last (string_bytes suffix) = Some c → is_digit c = false →
  y ≠ b +:+ suffix.
Proof.
  intros Hi Hn [->| ->] Hs Hc.
  - destruct (FormatIndex_digits i) as (Hd & _ & Hne); [u64_lia|]. by eapply digits_not_suffix.
  - destruct (pretty_Z_digits now) as [Hd Hne]; [u64_lia|].
    rewrite <- (string_app_assoc (FormatIndex i)), <- string_app_assoc. by eapply digits_not_suffix.
Qed.

Lemma last_dot_app (v a b : string) : last_dot v = Some (a, b) → a +:+ b = v.
Proof.
  revert a b. induction v as [|c v IH]; intros a b; [done|]. cbn [last_dot].
  destruct (last_dot v) as [[a0 b0]|]; [intros [= <- <-]; by apply (f_equal (String c)), IH|].
  case_decide; [by intros [= <- <-]|done].
Qed.

Lemma string_app_empty (v : string) : v +:+ "" = v.
Proof. induction v as [|c v IH]; [done|]. exact (f_equal (String c) IH). Qed.

Lemma stem_extension_app name : (stem_extension name).1 +:+ (stem_extension name).2 = name.
Proof.
  unfold stem_extension. destruct (last_dot name) as [[[|c a] b]|] eqn:Hl; cbn [fst snd];
    try apply string_app_empty. by apply last_dot_app.
Qed.

Lemma trusted_flat_mono p ns ns' m :
  (∀ q x, q = p ∨ (∃ stem, q = parent_path p ++ [stem +:+ ".bin"]) → ns' !! q = Some x → ns !! q = Some x) →
  trusted_flat p ns' = Some m → trusted_flat p ns = Some m.
Proof.
  intros Hsub. unfold trusted_flat.
  destruct (ns' !! p) as [[b|]|] eqn:Hp; [|done..]. rewrite (Hsub p _ (or_introl eq_refl) Hp).
  destruct (ParseFlatMeta p b) as [m0| |] eqn:Hm; [|done..].
  assert (Hd : ∃ stem, snapshot_path m0 = parent_path p ++ [stem +:+ ".bin"]).
  { unfold ParseFlatMeta in Hm. do 5 (apply and_then_Done in Hm as ([? ?] & _ & Hm)).
    destruct (decide _); [done|]. injection Hm as <-. cbn. eauto. }
  unfold fs_exists. cbn [nodes]. destruct (snapshot_path m0) as [|x l] eqn:Hsp.
  { destruct Hd as [stem Hd]. by destruct (parent_path p). }
  destruct (bool_decide (is_Some (ns' !! (x :: l)))) eqn:Hx; [|done].
  apply bool_decide_eq_true in Hx as [n Hn]. rewrite (Hsub _ n (or_intror Hd) Hn).
  by rewrite bool_decide_true by (by eexists).
Qed.

(** Beside the names it makes up, a save puts nothing in the snapshot directory. *)
Lemma nothing_new i input data s s' y r z :
  untouched root now i input s s' → nodes s !! input = Some (File data) → ¬ saved_name i y →
  nodes s' !! (root ++ y :: r) = Some z → nodes s !! (root ++ y :: r) = Some z.
Proof.
  intros Hun Hin Hy Hq.
  assert (Hu : ∀ w, saved_name i w → under (root ++ [w]) (root ++ y :: r) = false).
  { intros w Hw. change (y :: r) with ([y] ++ r). rewrite app_assoc.
    apply apart_app, siblings_apart. congruence. }
  destruct (Hun (root ++ y :: r)) as [Hs|[_ Hs]];
    [by apply below_not_prefix|by apply Hu; right|by apply Hu; left|congruence|congruence].
Qed.

(** A listed snapshot other than the one at [final i] was listed before the save. *)
Lemma listed_before i input data s s' m :
  untouched root now i input s s' → is_u64 i → is_u64 now →
  nodes s !! input = Some (File data) → nodes s' !! final i = Some Dir →
  m ∈ on_disk root (nodes s') → trusted (final i) (nodes s') = Some m ∨ m ∈ on_disk root (nodes s).
Proof.
  intros Hun Hi Hnow Hin Hfin Hm.
  apply elem_of_on_disk in Hm as (p & x & Hp & Hpar & Hne & Hl).
  destruct (entry_path s' p x) as [y ->]; [by apply elem_of_fs_list|].
  pose proof (λ r z H, nothing_new i input data s s' y r z Hun Hin H) as Hold.
  unfold listed in Hl. cbn [fst snd] in Hl. rewrite filename_snoc in Hl.
  assert (Hname : (stem_extension y).2 = ".meta" → ¬ saved_name i y).
  { intros Hext Hy. pose proof (stem_extension_app y) as Ha. rewrite Hext in Ha. symmetry in Ha.
    by apply (saved_name_suffix i y (stem_extension y).1 ".meta" "a"%char Hi Hnow Hy). }
  destruct x as [b|].
  - destruct (decide _) as [Hext|]; [|done]. specialize (Hname Hext). right. apply elem_of_on_disk.
    exists (root ++ [y]), (File b). split_and!; [by apply Hold|done|done|]. unfold listed. cbn [fst snd].
    rewrite filename_snoc, decide_True by done. eapply trusted_flat_mono; [|exact Hl].
    intros q z [->|[stem ->]]; [by apply Hold|]. rewrite parent_snoc.
    apply (nothing_new i input data s s' _ [] z Hun Hin).
    intros Hy. by apply (saved_name_suffix i _ stem ".bin" "n"%char Hi Hnow Hy).
  - destruct (StartsWith y kSnapshotStagingPrefix) eqn:Hs1; [done|].
    destruct (StartsWith y kSnapshotPrefix) eqn:Hs2; cbn [negb] in *; [|done].
    destruct (decide (y = kSnapshotPrefix +:+ FormatIndex i)) as [->|Hyf]; [by left|right].
    assert (Hy : ¬ saved_name i y).
    { intros [->| ->]; [done|]. unfold StartsWith in Hs1. by rewrite prefix_app in Hs1. }
    apply elem_of_on_disk. exists (root ++ [y]), Dir. split_and!; [by apply Hold|done|done|].
    unfold listed. cbn [fst snd]. rewrite filename_snoc, Hs1, Hs2. cbn [negb].
    eapply trusted_mono; [|exact Hl]. intros z b. rewrite <- app_assoc. by apply Hold.
Qed.

(** A listed snapshot of the directory layout is the trusted one of its directory. *)
Lemma trusted_flat_fields p ns m : trusted_flat p ns = Some m → snapshot_dir m = [] ∧ meta_path m = p.
Proof.
  unfold trusted_flat. destruct (ns !! p) as [[b|]|]; [|done..].
  destruct (ParseFlatMeta p b) as [m0| |] eqn:Hm; [|done..].
  destruct (fs_exists _ _); [|done]. intros [= <-].
  unfold ParseFlatMeta in Hm. do 5 (apply and_then_Done in Hm as ([? ?] & _ & Hm)).
  destruct (decide _); [done|]. by injection Hm as <-.
Qed.

Lemma on_disk_trusted ns m :
  m ∈ on_disk root ns → snapshot_dir m ≠ [] →
  trusted (snapshot_dir m) ns = Some m ∧ parent_path (snapshot_dir m) = root ∧
  ns !! snapshot_dir m = Some Dir ∧ StartsWith (filename (snapshot_dir m)) kSnapshotStagingPrefix = false ∧
  StartsWith (filename (snapshot_dir m)) kSnapshotPrefix = true.
Proof.
  intros (p & x & Hp & Hpar & _ & Hl)%elem_of_on_disk Hd. unfold listed in Hl. cbn [fst snd] in Hl.
  destruct x as [b|].
  - destruct (decide _); [|done]. by destruct (trusted_flat_fields _ _ _ Hl) as [? _].
  - destruct (StartsWith _ kSnapshotStagingPrefix) eqn:H1; [done|].
    destruct (StartsWith _ kSnapshotPrefix) eqn:H2; [|done]. cbn [negb] in Hl.
    destruct (trusted_fields _ _ _ Hl) as (-> & _). done.
Qed.

(** The published snapshot is listed. *)
Lemma final_listed i ns m :
  ns !! final i = Some Dir → trusted (final i) ns = Some m → m ∈ on_disk root ns.
Proof.
  intros Hd Hm. apply elem_of_on_disk. exists (final i), Dir. unfold final_dir_of in *.
  split_and!; [done|apply parent_snoc|by destruct root|]. unfold listed. cbn [fst snd].
  rewrite filename_snoc. unfold StartsWith. rewrite prefix_app. exact Hm.
Qed.
End seen.
