(* ===== verification/Snapshots.v ===== *)
(** The guarantees of [FileSnapshotStorage]: saving never loses or corrupts a snapshot,
    a saved snapshot is the one the next start loads, the listing trusts exactly the
    snapshots that check, and pruning keeps the newest. *)
From S2P Require Import Prelude Types Bytes Digits Fs FsM Layout SnapshotStorage SnapshotRecovery.
From S2P Require Import SnapshotPublish.

#[export] Instance SnapshotMeta_eq_dec : EqDecision SnapshotMeta.
Proof. solve_decision. Defined.

Section guarantees.
Implicit Types (s : Fs) (root input : path) (i t : Z).

(** A sibling directory is out of the way of a save. *)
Lemma sibling_trusted root now i input s s' y :
  untouched root now i input s s' → ¬ saved_name now i y → under (root ++ [y]) input = false →
  trusted (root ++ [y]) (nodes s') = trusted (root ++ [y]) (nodes s).
Proof.
  intros Hun Hy Hin. apply trusted_same. intros x. rewrite <- app_assoc.
  assert (Hu : ∀ w, saved_name now i w → under (root ++ [w]) (root ++ [y] ++ [x]) = false).
  { intros w Hw. rewrite app_assoc. apply apart_app, siblings_apart. congruence. }
  destruct (Hun (root ++ [y] ++ [x])) as [Hs|[Heq _]];
    [by apply below_not_prefix|by apply Hu; right|by apply Hu; left|done|].
  by rewrite <- Heq, app_assoc, under_app in Hin.
Qed.

(** C16: Saving is safe.  Whatever operation of a [SaveSnapshotFile] fails, whatever
    failure is injected and wherever the process dies: every other snapshot directory is
    trusted exactly as before; the directory of this index is trusted as before, or not
    at all, or holds a complete copy of the input under the given index and term; the
    input is still there unless such a snapshot is in place; and success means that it
    is. *)
Theorem SaveSnapshotFile_safe root failpoint_env now input i t s r s' :
  SaveSnapshotFile root failpoint_env now input i t s = (r, s') →
  root ≠ [] → input_apart root now i input → is_u64 i → is_u64 t → is_u64 now →
  let final := final_dir_of root i in
  (∀ y, ¬ saved_name now i y → under (root ++ [y]) input = false →
     trusted (root ++ [y]) (nodes s') = trusted (root ++ [y]) (nodes s)) ∧
  (trusted final (nodes s') = trusted final (nodes s) ∨ trusted final (nodes s') = None ∨
   ∃ data m, nodes s !! input = Some (File data) ∧ trusted final (nodes s') = Some m ∧
     nodes s' !! snapshot_path m = Some (File data) ∧
     last_included_index m = i ∧ last_included_term m = t) ∧
  (nodes s' !! input = nodes s !! input ∨
   ∃ m, trusted final (nodes s') = Some m ∧ last_included_index m = i ∧ last_included_term m = t) ∧
  (∀ m, r = Done m →
     trusted final (nodes s') = Some m ∧ last_included_index m = i ∧ last_included_term m = t).
Proof.
  intros H Hroot Hap Hi Ht Hnow final.
  destruct (SaveSnapshotFile_outcome _ _ _ _ _ _ _ _ _ H Hroot Hap) as [Hun Hout].
  split; [intros y Hy Hin; by eapply sibling_trusted|].
  destruct Hout as [r Hr Hsh Hin|m Hm Hterm Hx|c data r Hd Hst Hdir Hr|r Hr Hgone Hin].
  - split; [|split; [by left|intros m Hm; by destruct (Hr m)]].
    destruct (trusted final (nodes s')) as [m|] eqn:Hm; [left|by auto].
    symmetry. eapply trusted_mono; [exact Hsh|exact Hm].
  - assert (Hsame : trusted final (nodes s') = trusted final (nodes s)) by (by apply trusted_same).
    pose proof (trusted_index _ _ _ _ Hi Hm) as Hidx. fold final in Hm. rewrite Hsame.
    split; [by left|]. split; [right; by exists m|]. by intros m' [= <-].
  - pose proof (staged_trusted _ _ _ _ _ _ _ Hi Ht Hnow Hst) as Htr. fold final in Htr. rewrite Htr.
    destruct Hst as (_ & Hdata & _). split; [|split].
    + right; right. exists data, (new_snapshot root now i t c). done.
    + right. by exists (new_snapshot root now i t c).
    + intros m ->%Hr. done.
  - assert (Hno : trusted final (nodes s') = None) by (unfold trusted, final; cbv zeta; by rewrite Hgone).
    split; [by auto|]. split; [by left|]. intros m Hm. by destruct (Hr m).
Qed.

(** The head of a sorted list is its greatest element. *)
Lemma newest_head (l : list SnapshotMeta) m :
  StronglySorted newer l → m ∈ l → (∀ m0, m0 ∈ l → m0 = m ∨ last_included_index m0 < last_included_index m) →
  head l = Some m.
Proof.
  destruct 1 as [|x l _ Hx]; intros Hm Hall; [by apply elem_of_nil in Hm|]. cbn. f_equal.
  apply elem_of_cons in Hm as [->|Hm]; [done|].
  destruct (Hall x) as [->|Hlt]; [by left|done|].
  eapply Forall_forall in Hx; [|exact Hm]. unfold newer in Hx. case_decide; lia.
Qed.

(** C17: What is saved is what is loaded.  After a [SaveSnapshotFile] that reports success,
    with an index above every snapshot on disk, the next start finds that snapshot as the
    latest valid one: the same metadata, and data equal to the input's. *)
Theorem SaveSnapshotFile_loads root failpoint_env now input i t s m s' data :
  SaveSnapshotFile root failpoint_env now input i t s = (Done m, s') →
  root ≠ [] → input_apart root now i input → is_u64 i → is_u64 t → is_u64 now →
  nodes s !! input = Some (File data) → trusted (final_dir_of root i) (nodes s) = None →
  (∀ m0, m0 ∈ on_disk root (nodes s) → last_included_index m0 < i) →
  let restarted := s' <| script := [] |> in
  LoadLatestValidSnapshot root restarted = (Done (Some m), restarted) ∧
  last_included_index m = i ∧ last_included_term m = t ∧
  nodes restarted !! snapshot_path m = Some (File data).
Proof.
  intros H Hroot Hap Hi Ht Hnow Hdata Hfree Hall restarted.
  destruct (SaveSnapshotFile_outcome _ _ _ _ _ _ _ _ _ H Hroot Hap) as [Hun Hout].
  inversion Hout as [r Hr|m0 Hm0|c data0 r Hd Hst Hdir Hr|r Hr]; subst;
    [by destruct (Hr m)|congruence| |by destruct (Hr m)].
  specialize (Hr m eq_refl). subst m. rewrite Hdata in Hd. injection Hd as <-.
  pose proof (staged_trusted _ _ _ _ _ _ _ Hi Ht Hnow Hst) as Htr.
  destruct Hst as (Hfin & Hcopy & _).
  destruct (ListSnapshots_run root restarted) as (l & s2 & Hl & _ & Hst & Hsorted & _ & Hperm).
  specialize (Hst eq_refl). subst s2. specialize (Hperm eq_refl Hdir).
  split; [|done]. unfold LoadLatestValidSnapshot, ListSnapshots in *.
  apply bind_Done in Hl as (res & s3 & Hres & [= <- ->]). erewrite bind_run by exact Hres.
  cbn [mret FsM_ret]. unfold mret, FsM_ret. do 3 f_equal. apply newest_head; [done| |].
  - rewrite Hperm. by eapply final_listed.
  - intros m0 Hm0. rewrite Hperm in Hm0.
    destruct (listed_before root now i input data s s' m0 Hun Hi Hnow Hdata Hfin Hm0) as [Hm1|Hm1].
    + left. rewrite Htr in Hm1. by injection Hm1.
    + right. by apply Hall.
Qed.

(** *** Pruning *)

(** Two sorted listings of distinct indices, one within the other, agree in order. *)
Lemma sorted_sublist (l l' : list SnapshotMeta) :
  StronglySorted newer l → StronglySorted newer l' → NoDup (last_included_index <$> l) → NoDup l' →
  (∀ m, m ∈ l' → m ∈ l) → l' `sublist_of` l.
Proof.
  revert l'. induction l as [|x l IH]; intros l' Hs Hs' Hnd Hnd' Hin.
  { destruct l' as [|y l']; [done|]. specialize (Hin y ltac:(by left)). by apply elem_of_nil in Hin. }
  inversion Hs as [|? ? Hsl Hx]; subst. cbn [fmap list_fmap] in Hnd. apply NoDup_cons in Hnd as [Hnx Hnd].
  destruct l' as [|y l']; [apply sublist_nil_l|]. inversion Hs' as [|? ? Hsl' Hy]; subst.
  apply NoDup_cons in Hnd' as [Hny Hnd'].
  destruct (decide (y = x)) as [->|Hne].
  - apply sublist_skip, IH; try done. intros m Hm. specialize (Hin m ltac:(by right)). by apply elem_of_cons in Hin as [->|Hml].
  - apply sublist_cons, IH; try done; [by constructor|].
    intros m Hm. pose proof (Hin m Hm) as Hml. apply elem_of_cons in Hml as [->|Hml]; [|done]. exfalso.
    apply elem_of_cons in Hm as [->|Hm]; [done|].
    assert (Hyl : y ∈ l) by (specialize (Hin y ltac:(by left)); by apply elem_of_cons in Hin as [Hyx|Hyl]).
    eapply Forall_forall in Hy; [|exact Hm]. eapply Forall_forall in Hx; [|exact Hyl].
    assert (Hidx : last_included_index y ≠ last_included_index x).
    { intros Heq. apply Hnx. rewrite <- Heq. by apply list_elem_of_fmap_2. }
    unfold newer in *. repeat case_decide; lia.
Qed.

Lemma sublist_drop_mono {A} k (l l' : list A) : l' `sublist_of` l → drop k l' `sublist_of` drop k l.
Proof.
  intros Hs. revert k. induction Hs as [|x l1 l2 Hs IH|x l1 l2 Hs IH]; intros [|k]; cbn [drop]; try done.
  - by apply sublist_skip.
  - by apply sublist_cons.
  - etrans; [|apply (IH k)]. replace (S k) with (k + 1)%nat by lia. rewrite <- drop_drop.
    apply sublist_drop.
Qed.

(** The listed snapshots are as distinct as their entries. *)
Definition entry_of (m : SnapshotMeta) : path :=
  if decide (snapshot_dir m = []) then meta_path m else snapshot_dir m.

Lemma NoDup_omap_key {A B K} (f : A → option B) (ka : A → K) (kb : B → K) (l : list A) :
  (∀ a b, a ∈ l → f a = Some b → kb b = ka a) → NoDup (ka <$> l) →
  NoDup (omap f l) ∧ ∀ b, b ∈ omap f l → kb b ∈ ka <$> l.
Proof.
  intros Hk. induction l as [|a l IH]; intros Hnd; [split; [constructor|intros b Hb; by apply elem_of_nil in Hb]|].
  cbn [fmap list_fmap omap list_omap] in *. apply NoDup_cons in Hnd as [Ha Hnd].
  destruct IH as [IH1 IH2]; [intros a' b' Ha'; apply Hk; by right|done|].
  destruct (f a) as [b|] eqn:Hf.
  - pose proof (Hk a b ltac:(by left) Hf) as Hb. split.
    + constructor; [|done]. intros Hin%IH2. by rewrite Hb in Hin.
    + intros b' [->|Hb']%elem_of_cons; [rewrite Hb; by left|right; by apply IH2].
  - split; [done|]. intros b Hb. right. by apply IH2.
Qed.

Lemma on_disk_NoDup root ns : NoDup (on_disk root ns).
Proof.
  apply (NoDup_omap_key (listed ns) fst entry_of).
  - intros [p x] m (_ & _ & Hne)%elem_of_fs_list Hl. unfold listed in Hl. cbn [fst snd] in *.
    unfold entry_of. destruct x as [b|].
    + destruct (decide _); [|done]. destruct (trusted_flat_fields _ _ _ Hl) as [-> ->]. done.
    + destruct (StartsWith _ _); [done|]. destruct (negb _); [done|].
      destruct (trusted_fields _ _ _ Hl) as (-> & _). by rewrite decide_False.
  - unfold fs_list. eapply sublist_NoDup; [|apply fmap_sublist, sublist_filter].
    apply NoDup_fst_map_to_list.
Qed.
(** Removing the directories of a list. *)
Definition loses (s s' : Fs) : Prop := nodes s' ⊆ nodes s.
#[local] Instance loses_preorder : PreOrder loses.
Proof. unfold loses. split; [by intros s|]. intros s1 s2 s3 H1 H2. by etrans. Qed.

Definition stays_healthy (s s' : Fs) : Prop := healthy s → healthy s'.
#[local] Instance stays_healthy_preorder : PreOrder stays_healthy.
Proof. split; [intros s Hs; exact Hs|]. intros s1 s2 s3 H1 H2 Hs. by apply H2, H1. Qed.

Lemma remove_all_healthy p s : stays_healthy s (fs_remove_all p s).2.
Proof. intros Hs. unfold fs_remove_all. rewrite Hs. by rewrite fs_step_healthy. Qed.

Lemma SyncDirectory_healthy p : keeps stays_healthy (SyncDirectory p).
Proof.
  unfold SyncDirectory, open_fsync_close. keeps_step; intros s Hs;
    [unfold fs_open_dir; by rewrite fs_step_healthy|by rewrite fs_healthy_tick..].
Qed.

Lemma RemoveSnapshot_keeps failpoint_env R `{!PreOrder R} m :
  snapshot_dir m ≠ [] → (∀ s, R s (fs_remove_all (snapshot_dir m) s).2) →
  keeps R (RemoveSnapshot failpoint_env m).
Proof.
  intros Hd HR. unfold RemoveSnapshot. rewrite decide_True by done. destruct (decide _).
  - apply keeps_fail. exact _.
  - by apply keeps_with_ec.
Qed.

Lemma RemoveSnapshots_keeps failpoint_env R `{!PreOrder R} l :
  Forall (λ m, snapshot_dir m ≠ []) l → (∀ m s, m ∈ l → R s (fs_remove_all (snapshot_dir m) s).2) →
  keeps R (RemoveSnapshots failpoint_env l).
Proof.
  induction l as [|m l IH]; intros Hd HR; [apply keeps_ret; exact _|].
  apply Forall_cons in Hd as [Hm Hd]. cbn [RemoveSnapshots].
  apply keeps_bind; [exact _| |intros _; apply IH; [done|]; intros m' s Hm'; apply HR; by right].
  apply RemoveSnapshot_keeps; [exact _|done|]. intros s. apply HR. by left.
Qed.

Lemma RemoveSnapshots_gone failpoint_env l s u s' m x :
  RemoveSnapshots failpoint_env l s = (Done u, s') → Forall (λ m, snapshot_dir m ≠ []) l → m ∈ l →
  nodes s' !! (snapshot_dir m ++ [x]) = None.
Proof.
  revert s. induction l as [|m0 l IH]; intros s H Hd Hm; [by apply elem_of_nil in Hm|].
  apply Forall_cons in Hd as [Hm0 Hd]. cbn [RemoveSnapshots] in H. step_run H s1 H1.
  apply elem_of_cons in Hm as [->|Hm]; [|by eapply IH].
  unfold RemoveSnapshot in H1. rewrite decide_True in H1 by done. destruct (decide _) in H1; [done|].
  apply with_ec_Done, fs_remove_all_None in H1.
  assert (Hl : loses s1 s').
  { pose proof (RemoveSnapshots_keeps failpoint_env loses l Hd) as Hk.
    assert (Hs : keeps loses (RemoveSnapshots failpoint_env l))
      by (apply Hk; intros; apply fs_remove_all_subseteq).
    specialize (Hs s1). by rewrite H in Hs. }
  destruct (nodes s' !! _) as [node|] eqn:Hn; [|done]. eapply lookup_weaken in Hn; [|exact Hl].
  by rewrite H1, lookup_prune, under_app in Hn.
Qed.

(** What a listing after a loss shows was listed before. *)
Lemma on_disk_loses root s s' m : loses s s' → m ∈ on_disk root (nodes s') → m ∈ on_disk root (nodes s).
Proof.
  intros Hl (p & x & Hp & Hpar & Hne & Hm)%elem_of_on_disk. apply elem_of_on_disk.
  exists p, x. split_and!; [by eapply lookup_weaken|done|done|]. unfold listed in *. cbn [fst snd] in *.
  destruct x as [b|].
  - destruct (decide _); [|done]. eapply trusted_flat_mono; [|exact Hm]. intros q z _ Hq.
    by eapply lookup_weaken.
  - destruct (StartsWith _ _); [done|]. destruct (negb _); [done|].
    eapply trusted_mono; [|exact Hm]. intros y b Hy. by eapply lookup_weaken.
Qed.

(** A snapshot whose directory is not among those removed is left alone. *)
Lemma kept_dir root (rest : list SnapshotMeta) ns s s' m :
  (∀ m', m' ∈ m :: rest → m' ∈ on_disk root ns ∧ snapshot_dir m' ≠ []) → m ∉ rest →
  only_under (snapshot_dir <$> rest) s s' →
  ∀ r, nodes s' !! (snapshot_dir m ++ r) = nodes s !! (snapshot_dir m ++ r).
Proof.
  intros Hall Hm Ho r. apply Ho, Forall_fmap, Forall_forall. intros m' Hm'. cbn.
  destruct (Hall m) as [Hd Hne]; [by left|]. destruct (Hall m') as [Hd' Hne']; [by right|].
  destruct (on_disk_trusted _ _ _ Hd Hne) as (Ht & Hp & _).
  destruct (on_disk_trusted _ _ _ Hd' Hne') as (Ht' & Hp' & _).
  assert (Hsnoc : ∀ p : path, p ≠ [] → parent_path p = root → ∃ y, p = root ++ [y]).
  { intros p Hnep Hpar. exists (List.last p ""). rewrite (app_removelast_last "" Hnep) at 1.
    unfold parent_path in Hpar. by rewrite Hpar. }
  destruct (Hsnoc _ Hne Hp) as [y Hy]. destruct (Hsnoc _ Hne' Hp') as [y' Hy']. rewrite Hy, Hy'.
  apply apart_app, siblings_apart. intros ->. apply Hm.
  assert (Heq : Some m = Some m') by (rewrite <- Ht, <- Ht'; congruence). by injection Heq as ->.
Qed.
Definition keep_count (max_keep : nat) : nat := if decide (max_keep = 0%nat) then 1%nat else max_keep.

(** A pruning as a listing and what it removes. *)
Lemma PruneSnapshots_run root failpoint_env k s r s' :
  PruneSnapshots root failpoint_env k s = (r, s') →
  ∃ l s1, ListSnapshots root s = (Done l, s1) ∧
    (∀ R, PreOrder R → R s1 s1 → keeps R (RemoveSnapshots failpoint_env (drop (keep_count k) l)) →
       keeps R (SyncDirectory root) → R s1 s') ∧
    (∀ u, r = Done u → ∀ m x, Forall (λ m, snapshot_dir m ≠ []) l → m ∈ drop (keep_count k) l →
       nodes s' !! (snapshot_dir m ++ [x]) = None).
Proof.
  unfold PruneSnapshots. fold (keep_count k). intros H.
  destruct (ListSnapshots_run root s) as (l & s1 & Hl & _). exists l, s1. split; [done|].
  erewrite bind_run in H by exact Hl. destruct (decide (length l ≤ keep_count k)%nat) as [Hle|_].
  { injection H as <- <-. rewrite drop_ge by done. split; [done|].
    intros u _ m x _ Hm. by apply elem_of_nil in Hm. }
  split.
  - intros R HR _ H1 H2. assert (Hk : keeps R (RemoveSnapshots failpoint_env (drop (keep_count k) l);;
      SyncDirectory root)) by (apply keeps_bind; [exact _|exact H1|intros _; exact H2]).
    specialize (Hk s1). by rewrite H in Hk.
  - intros u -> m x Hd Hm. step_run H s2 H2. apply sync_root_Done in H. rewrite H.
    eapply RemoveSnapshots_gone; [exact H2| |exact Hm]. by apply Forall_drop.
Qed.

(** The snapshots a pruning removes are not among the newest of the full listing, whatever
    reads failed while it listed. *)
Lemma pruned_not_newest root k s s1 l l0 :
  ListSnapshots root s = (Done l, s1) → l0 ≡ₚ on_disk root (nodes s) → StronglySorted newer l0 →
  NoDup (last_included_index <$> l0) →
  (∀ m, m ∈ l → m ∈ l0) ∧ ∀ m, m ∈ take k l0 → m ∉ drop k l.
Proof.
  intros Hl Hperm Hsorted Hidx.
  destruct (ListSnapshots_run root s) as (l1 & s2 & Hl1 & _ & _ & Hs1 & (lx & Hp & Hsub) & _).
  rewrite Hl in Hl1. injection Hl1 as <- <-.
  assert (Hin : ∀ m, m ∈ l → m ∈ l0).
  { intros m Hm. rewrite Hp in Hm. rewrite Hperm. by eapply elem_of_sublist. }
  split; [done|]. intros m Hm Hd.
  assert (Hnd : NoDup l) by (rewrite Hp; eapply sublist_NoDup; [apply on_disk_NoDup|exact Hsub]).
  assert (Hsl : l `sublist_of` l0) by (by apply sorted_sublist).
  eapply elem_of_sublist in Hd; [|by apply sublist_drop_mono].
  assert (Hnd0 : NoDup l0) by (rewrite Hperm; apply on_disk_NoDup).
  rewrite <- (take_drop k l0) in Hnd0. apply NoDup_app in Hnd0 as (_ & Hdisj & _). by eapply Hdisj.
Qed.

Lemma sorted_unique (l1 l2 : list SnapshotMeta) :
  StronglySorted newer l1 → StronglySorted newer l2 → NoDup (last_included_index <$> l2) →
  NoDup l1 → (∀ m, m ∈ l1 ↔ m ∈ l2) → l1 = l2.
Proof.
  intros H1 H2 Hidx Hnd Heq. assert (Hnd2 : NoDup l2) by (by eapply NoDup_fmap_1).
  assert (Hp : l1 ≡ₚ l2) by (by apply NoDup_Permutation).
  apply (anti_symm sublist); apply sorted_sublist; try done.
  - intros m. apply Heq.
  - by rewrite Hp.
  - intros m. apply Heq.
Qed.

(** The listing after a pruning that succeeds. *)
Lemma pruned_listing root failpoint_env k s u s' l :
  healthy s → ListSnapshots root s = (Done l, s) → is_dir root (nodes s) = true →
  Forall (λ m, snapshot_dir m ≠ []) l → NoDup (last_included_index <$> l) →
  PruneSnapshots root failpoint_env k s = (Done u, s') →
  (∀ m, m ∈ take (keep_count k) l → ∀ q, nodes s' !! (snapshot_dir m ++ q) = nodes s !! (snapshot_dir m ++ q)) →
  ListSnapshots root s' = (Done (take (keep_count k) l), s').
Proof.
  intros Hs Hl Hroot Hd Hidx H Hkept.
  destruct (ListSnapshots_run root s) as (l0 & s0 & Hl0 & _ & _ & Hsorted & _ & Hperm).
  rewrite Hl in Hl0. injection Hl0 as <- <-. specialize (Hperm Hs Hroot).
  destruct (PruneSnapshots_run _ _ _ _ _ _ H) as (l' & s1 & Hl' & Hk & Hgone).
  rewrite Hl in Hl'. injection Hl' as <- <-. specialize (Hgone u eq_refl).
  set (keep := take (keep_count k) l) in *. set (rest := drop (keep_count k) l) in *.
  assert (Hkr : keep ++ rest = l) by apply take_drop.
  assert (Hrestd : Forall (λ m, snapshot_dir m ≠ []) rest) by (by apply Forall_drop).
  assert (Hdisk : ∀ m, m ∈ l → m ∈ on_disk root (nodes s)) by (intros m; by rewrite Hperm).
  assert (Hlose : loses s s').
  { apply Hk; [exact _|reflexivity| |intros s0; unfold loses; by rewrite sync_root_nodes].
    apply RemoveSnapshots_keeps; [exact _|done|]. intros; apply fs_remove_all_subseteq. }
  assert (Hs' : healthy s').
  { apply (Hk stays_healthy); [exact _|by intros ?| |apply SyncDirectory_healthy|done].
    apply RemoveSnapshots_keeps; [exact _|done|]. intros; apply remove_all_healthy. }
  assert (Hroot' : is_dir root (nodes s') = true).
  { rewrite <- Hroot. apply is_dir_same.
    apply (Hk (only_under (snapshot_dir <$> rest))); [exact _|reflexivity| |apply sync_root_under|].
    - apply RemoveSnapshots_keeps; [exact _|done|]. intros m s0 Hm. apply remove_all_under.
      by apply list_elem_of_fmap_2.
    - apply Forall_fmap, Forall_forall. intros m Hm. cbn.
      assert (Hml : m ∈ l) by (rewrite <- Hkr; apply elem_of_app; by right).
      assert (Hne : snapshot_dir m ≠ []) by (by eapply Forall_forall in Hd).
      destruct (on_disk_trusted _ _ _ (Hdisk m Hml) Hne) as (_ & Hp & _).
      rewrite (app_removelast_last "" Hne). unfold parent_path in Hp. rewrite Hp. apply under_child. }
  destruct (ListSnapshots_run root s') as (l2 & s2 & Hl2 & _ & Hst2 & Hsorted2 & _ & Hperm2).
  rewrite (Hst2 Hs') in Hl2. specialize (Hperm2 Hs' Hroot'). rewrite Hl2. do 2 f_equal.
  assert (Hks : keep `sublist_of` l) by apply sublist_take.
  apply sorted_unique; [done| | | |].
  - rewrite <- Hkr in Hsorted. by apply StronglySorted_app in Hsorted as (_ & ? & _).
  - eapply sublist_NoDup; [exact Hidx|by apply fmap_sublist].
  - rewrite Hperm2. apply on_disk_NoDup.
  - intros m. rewrite Hperm2. split.
    + intros Hm. apply (on_disk_loses _ _ _ _ Hlose) in Hm as Hm0. rewrite <- Hperm, <- Hkr in Hm0.
      apply elem_of_app in Hm0 as [?|Hr]; [done|].
      assert (Hne : snapshot_dir m ≠ []) by (by eapply Forall_forall in Hrestd).
      destruct (on_disk_trusted _ _ _ Hm Hne) as (Ht & _).
      unfold trusted in Ht. cbv zeta in Ht. by rewrite Hgone in Ht.
    + intros Hm. assert (Hml : m ∈ l) by (by eapply elem_of_sublist).
      assert (Hne : snapshot_dir m ≠ []) by (by eapply Forall_forall in Hd).
      destruct (on_disk_trusted _ _ _ (Hdisk m Hml) Hne) as (Ht & Hp & Hdir & Hs1 & Hs2).
      apply elem_of_on_disk. exists (snapshot_dir m), Dir. split_and!; try done.
      * specialize (Hkept m Hm []). rewrite !app_nil_r in Hkept. by rewrite Hkept.
      * unfold listed. cbn [fst snd]. rewrite Hs1, Hs2. cbn [negb].
        rewrite (trusted_same _ (nodes s)); [done|]. intros x. by apply Hkept.
Qed.

(** C18: Pruning keeps the newest.  Let [l] be the snapshots on disk, newest first, all in
    the directory layout and of distinct indices.  Whatever fails or wherever the process
    dies in [PruneSnapshots], the first [max_keep] of them (one at least) are trusted
    afterwards as before; and when it succeeds without faults, the next listing shows
    exactly those. *)
Theorem PruneSnapshots_keeps_newest root failpoint_env max_keep s r s' l :
  ListSnapshots root (s <| script := [] |>) = (Done l, s <| script := [] |>) →
  is_dir root (nodes s) = true → Forall (λ m, snapshot_dir m ≠ []) l →
  NoDup (last_included_index <$> l) →
  PruneSnapshots root failpoint_env max_keep s = (r, s') →
  let keep := take (keep_count max_keep) l in
  (∀ m, m ∈ keep → trusted (snapshot_dir m) (nodes s') = Some m) ∧
  (healthy s → r = Done () → ListSnapshots root s' = (Done keep, s')).
Proof.
  intros Hl Hroot Hd Hidx H keep.
  destruct (ListSnapshots_run root (s <| script := [] |>)) as (l2 & s2 & Hl2 & _ & _ & Hsorted & _ & Hperm).
  rewrite Hl in Hl2. injection Hl2 as <- <-. specialize (Hperm eq_refl Hroot). cbn [set_field nodes] in Hperm.
  assert (Hall : ∀ m, m ∈ l → m ∈ on_disk root (nodes s) ∧ snapshot_dir m ≠ []).
  { intros m Hm. split; [by rewrite <- Hperm|]. by eapply Forall_forall in Hd. }
  destruct (PruneSnapshots_run _ _ _ _ _ _ H) as (l' & s1 & Hl' & Hk & Hgone).
  destruct (pruned_not_newest _ (keep_count max_keep) _ _ _ _ Hl' Hperm Hsorted Hidx) as [Hin Hnot].
  set (rest := drop (keep_count max_keep) l') in *.
  assert (Hrest : ∀ m, m ∈ rest → m ∈ l).
  { intros m Hm. apply Hin. eapply elem_of_sublist; [exact Hm|apply sublist_drop]. }
  assert (Hrestd : Forall (λ m, snapshot_dir m ≠ []) rest).
  { apply Forall_forall. intros m Hm. by apply Hall, Hrest. }
  destruct (ListSnapshots_run root s) as (l1 & s3 & Hl1 & Hn1 & Hst1 & _).
  rewrite Hl' in Hl1. injection Hl1 as <- <-.
  assert (Hu : only_under (snapshot_dir <$> rest) s s').
  { etrans; [by apply same_under|]. apply Hk; [exact _|reflexivity| |apply sync_root_under].
    apply RemoveSnapshots_keeps; [exact _|done|]. intros m s0 Hm. apply remove_all_under.
    by apply list_elem_of_fmap_2. }
  assert (Hkept : ∀ m, m ∈ keep → ∀ q, nodes s' !! (snapshot_dir m ++ q) = nodes s !! (snapshot_dir m ++ q)).
  { intros m Hm. eapply (kept_dir root rest (nodes s)); [|by apply Hnot|exact Hu].
    intros m' [->|Hm']%elem_of_cons; apply Hall; [|by apply Hrest].
    eapply elem_of_sublist; [exact Hm|apply sublist_take]. }
  split.
  - intros m Hm. rewrite (trusted_same _ (nodes s)) by (intros x; by apply Hkept).
    assert (Hml : m ∈ l) by (eapply elem_of_sublist; [exact Hm|apply sublist_take]).
    destruct (Hall m Hml) as [Hdm Hne]. by apply (on_disk_trusted root).
  - intros Hs ->. assert (Hsame : s <| script := [] |> = s) by (destruct s; cbn in *; by rewrite Hs).
    rewrite Hsame in Hl. eapply pruned_listing; [exact Hs|exact Hl|done..].
Qed.
(** C20: The checksum in blocks.  [ComputeFileChecksum] reads a file in blocks of 64 KiB
    into one buffer; its result is the FNV-1a hash of the whole contents in one pass,
    and its loop ends within the length of the file. *)
Theorem ComputeFileChecksum_whole p b s :
  healthy s → nodes s !! p = Some (File b) →
  ComputeFileChecksum p s = (Done (Fnv1aAppend kFnvOffset b), s) ∧
  ∀ fuel c, (length b < fuel)%nat → ChecksumBlocks fuel c b = Fnv1aAppend c b.
Proof.
  intros Hs Hp. split; [|intros; by apply ChecksumBlocks_spec]. unfold ComputeFileChecksum.
  rewrite fs_read_healthy, Hp by done. by rewrite ChecksumBlocks_spec by lia.
Qed.
End guarantees.

(** ** Witnesses *)

(** A disk with the snapshots 5 and 7, and the state-machine file of the next one. *)
Definition snap_root : path := ["snap"].
Definition snap_input : path := ["snap"; "in.tmp"].
Definition put_input (contents : string) (s : Fs) : Fs :=
  s <| nodes ::= <[snap_input := File (string_bytes contents)]> |>.
Definition snap_save (now i t : Z) (contents : string) (s : Fs) : Result SnapshotMeta * Fs :=
  SaveSnapshotFile snap_root None now snap_input i t (put_input contents s).
Definition snap_disk5 : Fs := (snap_save 1000 5 2 "five" (mkFs {[ ["snap"] := Dir ]} [])).2.
Definition snap_disk7 : Fs := (snap_save 1001 7 2 "seven" snap_disk5).2.
Definition snap_meta9 : SnapshotMeta :=
  mkSnapshotMeta (final_dir_of snap_root 9 ++ [kSnapshotDataFileName])
    (final_dir_of snap_root 9 ++ [kSnapshotMetaFileName]) (final_dir_of snap_root 9) 9 3 1002
    (Fnv1aAppend kFnvOffset (string_bytes "nine")).

Lemma snap_input_apart now i : input_apart snap_root now i snap_input.
Proof.
  split; [intros [l Hl]; discriminate|].
  split; unfold under; apply bool_decide_eq_false; intros [l Hl]; discriminate.
Qed.

(** The process dies in the 27th operation of the save of snapshot 9. *)
Lemma SaveSnapshotFile_safe_witness :
  let s := put_input "nine" snap_disk7 <| script := replicate 26 fOk ++ [fTorn 3] |> in
  let s' := (SaveSnapshotFile snap_root None 1002 snap_input 9 3 s).2 in
  trusted (final_dir_of snap_root 7) (nodes s') = trusted (final_dir_of snap_root 7) (nodes s) ∧
  nodes s' !! snap_input = Some (File (string_bytes "nine")).
Proof.
  intros s s'. destruct (SaveSnapshotFile snap_root None 1002 snap_input 9 3 s) as [r s1] eqn:Hrun.
  destruct (SaveSnapshotFile_safe snap_root None 1002 snap_input 9 3 s r s1 Hrun ltac:(discriminate)
    (snap_input_apart _ _) ltac:(vm_compute; split; discriminate) ltac:(vm_compute; split; discriminate)
    ltac:(vm_compute; split; discriminate)) as (Hothers & _ & Hinput & _).
  pose proof (f_equal snd Hrun) as Heq. cbn [snd] in Heq. change s' with s1. split.
  - apply Hothers; [intros [H|H]; vm_compute in H; discriminate|vm_compute; reflexivity].
  - destruct Hinput as [->|(m & Hm & _)]; [vm_compute; reflexivity|]. exfalso.
    assert (Hno : trusted (final_dir_of snap_root 9)
      (nodes (SaveSnapshotFile snap_root None 1002 snap_input 9 3 s).2) = None) by (vm_compute; reflexivity).
    rewrite Heq in Hno. congruence.
Defined.

Lemma SaveSnapshotFile_loads_witness :
  let s' := (snap_save 1002 9 3 "nine" snap_disk7).2 <| script := [] |> in
  LoadLatestValidSnapshot snap_root s' = (Done (Some snap_meta9), s').
Proof.
  intros s'. destruct (snap_save 1002 9 3 "nine" snap_disk7) as [r s1] eqn:Hrun.
  assert (Hr : r = Done snap_meta9).
  { apply (f_equal fst) in Hrun. cbn [fst] in Hrun. rewrite <- Hrun. vm_compute. reflexivity. }
  subst r. unfold s'. cbn [snd].
  refine (proj1 (SaveSnapshotFile_loads snap_root None 1002 snap_input 9 3 _ snap_meta9 s1
    (string_bytes "nine") Hrun ltac:(discriminate) (snap_input_apart _ _)
    ltac:(vm_compute; split; discriminate) ltac:(vm_compute; split; discriminate)
    ltac:(vm_compute; split; discriminate) ltac:(vm_compute; reflexivity)
    ltac:(vm_compute; reflexivity) _)).
  apply Forall_forall. vm_compute. repeat constructor.
Defined.

Definition snap_listed : list SnapshotMeta := Eval vm_compute in
  match (ListSnapshots snap_root snap_disk7).1 with Done l => l | _ => [] end.
Definition snap_pruned : Fs := (PruneSnapshots snap_root None 1 snap_disk7).2.

Lemma snap_listing :
  ListSnapshots snap_root (snap_disk7 <| script := [] |>) = (Done snap_listed, snap_disk7 <| script := [] |>).
Proof.
  assert (Hfst : (ListSnapshots snap_root (snap_disk7 <| script := [] |>)).1 = Done snap_listed)
    by (vm_compute; reflexivity).
  destruct (ListSnapshots_run snap_root (snap_disk7 <| script := [] |>)) as (l & s' & Hl & _ & Hs & _).
  rewrite (Hs eq_refl) in Hl. rewrite Hl in Hfst |- *. by injection Hfst as ->.
Qed.
Lemma snap_pruning : PruneSnapshots snap_root None 1 snap_disk7 = (Done (), snap_pruned).
Proof.
  assert (Hfst : (PruneSnapshots snap_root None 1 snap_disk7).1 = Done ()) by (vm_compute; reflexivity).
  unfold snap_pruned. rewrite <- Hfst. apply surjective_pairing.
Qed.

Lemma PruneSnapshots_keeps_newest_witness :
  ListSnapshots snap_root snap_pruned = (Done (take 1 snap_listed), snap_pruned) ∧
  last_included_index <$> snap_listed = [7; 5].
Proof.
  split; [|reflexivity].
  refine (proj2 (PruneSnapshots_keeps_newest snap_root None 1 snap_disk7 (Done ()) snap_pruned snap_listed
    snap_listing _ _ _ snap_pruning) _ eq_refl).
  - vm_compute. reflexivity.
  - repeat constructor; discriminate.
  - apply (bool_decide_unpack _). vm_compute. exact I.
  - vm_compute. reflexivity.
Defined.

Lemma ComputeFileChecksum_whole_witness :
  ComputeFileChecksum snap_input (put_input "nine" snap_disk7) =
    (Done (Fnv1aAppend kFnvOffset (string_bytes "nine")), put_input "nine" snap_disk7).
Proof. apply (ComputeFileChecksum_whole snap_input (string_bytes "nine")); vm_compute; reflexivity. Defined.
