(* ===== verification/FileHost.v ===== *)
(** The node on its own disk: the interfaces of Env implemented by FileRaftStorage,
    FileSnapshotStorage and KvStateMachine over one file system with faults, and what a
    crash and a restart leave of acknowledged writes and votes, down to the bytes. *)
From S2P Require Import Prelude Command Types Timer Metrics Env Bytes Digits Fs FsM Layout Node.
From S2P Require Import NodeLog Election AppendEntries StateMachine Commit Replicator Propose.
From S2P Require Import SnapshotNode Durability KvService.
From S2P Require Import SnapshotStorage RaftStorage RaftRecovery RaftSaving Links.

(** Recovery as the cluster's theorems ask for it. *)
#[export] Instance clamp_recovered_log : RecoveredLog ClampRecoveredHardState.
Proof.
  split; intros st; destruct (ClampRecoveredHardState_spec st) as (_ & _ & Hl & Hc & Ha); [done| |lia].
  intros r Hr. rewrite Hc. unfold last_log_index_of. by rewrite Hr.
Qed.

(** ** The host *)

(** The disk; the steady and the system clock in milliseconds; the directories the two
    storages were created with; the values of [RAFT_TEST_STORAGE_FAILPOINT] and
    [RAFT_TEST_SNAPSHOT_STORAGE_FAILPOINT]; the padding bytes of entry headers. *)
Record FileHost := mkFileHost {
  fh_fs : Fs;
  fh_steady : Z;
  fh_unix : Z;
  fh_data_dir : path;
  fh_snapshot_dir : path;
  fh_failpoint : option string;
  fh_snapshot_failpoint : option string;
  fh_padding : Z }.

#[export] Instance eta_FileHost : Eta FileHost := λ e,
  mkFileHost (fh_fs e) (fh_steady e) (fh_unix e) (fh_data_dir e) (fh_snapshot_dir e)
    (fh_failpoint e) (fh_snapshot_failpoint e) (fh_padding e).

(** A run of the storage code on the disk of the host. *)
Definition on_disk_of {A} (m : FsM A) (e : FileHost) : Result A * FileHost :=
  let '(r, s) := m (fh_fs e) in (r, e <| fh_fs := s |>).

(** The generator returns the lower bound.  The reads a node makes itself see no fault. *)
#[export] Instance file_host : HostEnv FileHost := {|
  steady_now := fh_steady;
  sleep_for d e := e <| fh_steady ::= λ t, t + d |> <| fh_unix ::= λ t, t + d |>;
  uniform_int lo hi e := (lo, e);
  create_directories p e :=
    let '(r, s) := fs_create_directories p (fh_fs e) in (r, e <| fh_fs := s |>);
  write_file p d e :=
    match fs_open_trunc p (fh_fs e) with
    | (false, s) => ((false, false), e <| fh_fs := s |>)
    | (true, s) =>
        let '(written, s) := fs_write p d s in
        let '(flushed, s) := fs_flush s in
        ((true, written && flushed), e <| fh_fs := s |>)
    end;
  read_file p e := match nodes (fh_fs e) !! p with Some (File b) => Some b | _ => None end;
  file_exists p e := fs_exists p (fh_fs e);
  remove_file p e := e <| fh_fs ::= λ s, (fs_remove p s).2 |> |}.

#[export] Instance file_storage : IRaftStorage FileHost := {|
  storage_Save st e :=
    match on_disk_of (Save (fh_failpoint e) (fh_padding e) (fh_data_dir e) st) e with
    | (Done _, e) => ((true, ""), e)
    | (Fail m, e) | (Throw m, e) => ((false, m), e)
    end;
  storage_Load e :=
    match on_disk_of (Load (fh_data_dir e)) e with
    | (Done (st, has_state), e) => ((true, st, has_state, ""), e)
    | (Fail m, e) | (Throw m, e) => ((false, mkPersistentRaftState 0 (-1) 0 0 [], false, m), e)
    end |}.

#[export] Instance file_snapshots : ISnapshotStorage FileHost := {|
  snapshot_SaveSnapshotFile p i t e :=
    match on_disk_of (SaveSnapshotFile (fh_snapshot_dir e) (fh_snapshot_failpoint e) (fh_unix e) p i t) e with
    | (Done meta, e) => ((Some meta, ""), e)
    | (Fail m, e) | (Throw m, e) => ((None, m), e)
    end;
  snapshot_ListSnapshots e :=
    match on_disk_of (ListSnapshots (fh_snapshot_dir e)) e with
    | (Done l, _) => (Some l, "")
    | (Fail m, _) | (Throw m, _) => (None, m)
    end;
  snapshot_ListSnapshotsWithDiagnostics e :=
    match on_disk_of (ListSnapshotsWithDiagnostics (fh_snapshot_dir e)) e with
    | (Done r, _) => (Some r, "")
    | (Fail m, _) | (Throw m, _) => (None, m)
    end;
  snapshot_PruneSnapshots keep e :=
    match on_disk_of (PruneSnapshots (fh_snapshot_dir e) (fh_snapshot_failpoint e) (Z.to_nat keep)) e with
    | (Done _, e) => ((true, ""), e)
    | (Fail m, e) | (Throw m, e) => ((false, m), e)
    end |}.

#[export] Instance file_machine : IStateMachine KvStateMachine FileHost := {|
  sm_Apply := Apply;
  sm_SaveSnapshot p m e :=
    let '(r, s) := SaveSnapshot p m (fh_fs e) in (r, e <| fh_fs := s |>);
  sm_LoadSnapshot p m e := (LoadSnapshot p m (fh_fs e)).1 |}.

#[export] Instance file_apply_atomic : ApplyAtomic KvStateMachine FileHost := kv_apply_atomic.

(** The process dies; the next one runs on a disk that works, without fault injection. *)
Definition reboot (e : FileHost) : FileHost :=
  e <| fh_fs ::= λ s, s <| script := [] |> |> <| fh_failpoint := None |>.

(** ** The contracts of Env *)

(** The disk holds the segments and the metadata of [st]. *)
Definition held (st : PersistentRaftState) (e : FileHost) : Prop :=
  saved_as (fh_padding e) (fh_data_dir e) st (fh_fs e).

#[export] Instance file_durable : DurableStorage FileHost held.
Proof.
  split; [|done]. intros st e e' err. cbn [storage_Save file_storage]. unfold on_disk_of.
  destruct (Save _ _ _ _ _) as [[u|m|m] s] eqn:Hs; intros [= _ <-]. unfold held.
  by apply Save_Done_layout in Hs.
Qed.

(** Nothing is in the way in the data directory [d]. *)
Definition usable (d : path) (e : FileHost) : Prop := fh_data_dir e = d ∧ tidy d (fh_fs e).
(** And the disk works. *)
Definition working (d : path) (e : FileHost) : Prop :=
  usable d e ∧ healthy (fh_fs e) ∧ fh_failpoint e = None.

Lemma usable_saves d e e' : saves e e' → usable d e → usable d e'.
Proof.
  apply saves_keep; [|done]. intros st e0 [Hd Ht]. cbn [storage_Save file_storage]. unfold on_disk_of.
  pose proof (Save_tidy (fh_failpoint e0) (fh_padding e0) (fh_data_dir e0) st (fh_fs e0)) as Hk.
  rewrite Hd in *. destruct (Save _ _ d st _) as [[u|m|m] s]; (split; [done|by apply Hk]).
Qed.

Lemma usable_reboot d e : usable d e → working d (reboot e).
Proof.
  intros [Hd Ht]. split; [|done]. split; [done|]. by apply (tidy_nodes d (fh_fs e)).
Qed.

Lemma held_reboot st e : held st e → held st (reboot e).
Proof. done. Qed.

(** A working disk takes every state whose commands fit. *)
Lemma working_takes d log : Forall writable_record log → takes (working d) log.
Proof.
  intros Hw st e <- [[Hd Ht] [Hs Hf]]. cbn [storage_Save file_storage]. unfold on_disk_of.
  rewrite Hf, Hd. destruct (Save_ready (fh_padding e) d st (fh_fs e) Hs Ht Hw) as ([] & s' & H).
  rewrite H. exists "". eexists. split; [done|].
  pose proof (healthy_after _ _ _ _ (Save_healthy None (fh_padding e) d st) H Hs) as Hs'.
  pose proof (Save_tidy None (fh_padding e) d st (fh_fs e)) as Ht'. rewrite H in Ht'.
  split; [|done]. split; [done|by apply Ht'].
Qed.

(** It gives back what it holds. *)
Lemma working_load d st e :
  working d e → storable st → held st e →
  storage_Load e = ((true, ClampRecoveredHardState st, true, ""), e).
Proof.
  intros [[Hd Ht] [Hs Hf]] Hst Hh. cbn [storage_Load file_storage]. unfold on_disk_of.
  rewrite (Load_layout _ (fh_padding e) st _ Hs Hst Hh). by destruct e.
Qed.

(** The identity file does not get in the way. *)
Lemma identity_working d config st e e1 :
  data_dir config = d → ValidateNodeIdentity config e = (None, e1) →
  working d e → held st e → working d e1 ∧ held st e1.
Proof.
  intros Hdir Hid Hw Hh. unfold ValidateNodeIdentity in Hid. rewrite Hdir in Hid.
  cbn [create_directories file_host] in Hid.
  destruct (fs_create_directories d (fh_fs e)) as [[m|] s] eqn:Hc; [done|].
  assert (H1 : working d (e <| fh_fs := s |>) ∧ held st (e <| fh_fs := s |>)).
  { destruct Hw as [[Hd Ht] [Hs Hf]]. split.
    - pose proof (tidy_create d d (fh_fs e) (or_introl eq_refl) Ht) as Ht'. rewrite Hc in Ht'.
      pose proof (healthy_step (mkdirs [] d) (fh_fs e) Hs) as Hs'. fold (fs_create_directories d) in Hs'.
      rewrite Hc in Hs'. done.
    - unfold held, saved_as in *. node_simpl. rewrite Hd in *.
      eapply (layout_create d "" d); [by left|exact Hc|exact Hh]. }
  clear Hc Hw Hh. set (e0 := e <| fh_fs := s |>) in *. clearbody e0. clear e s.
  destruct (file_exists _ e0).
  { destruct (ReadIdentityFile _ e0) as [m|values]; [done|].
    destruct (values !! "node_id") as [v|]; [|done]. destruct (stoi v) as [i|]; [|done].
    case_decide; [done|]. by injection Hid as <-. }
  set (p := d ++ [kIdentityFileName]) in *. cbn [write_file file_host] in Hid. destruct H1 as [[[Hd Ht] [Hs Hf]] Hh].
  pose proof (healthy_open_trunc p (fh_fs e0) Hs) as Hs1.
  assert (Ho1 : only_under [p] (fh_fs e0) (fs_open_trunc p (fh_fs e0)).2) by (apply open_trunc_under; set_solver).
  destruct (fs_open_trunc p (fh_fs e0)) as [[] s1]; [|done]. cbn [snd] in *.
  match type of Hid with context [fs_write p ?b s1] =>
    pose proof (healthy_write p b s1 Hs1) as Hs2;
    assert (Ho2 : only_under [p] s1 (fs_write p b s1).2) by (apply write_under; set_solver);
    destruct (fs_write p b s1) as [written s2] end. cbn [snd] in *.
  pose proof (healthy_flush s2 Hs2) as Hs3. pose proof (flush_under [p] s2) as Ho3.
  destruct (fs_flush s2) as [flushed s3]. cbn [snd] in *.
  assert (Ho : only_under [p] (fh_fs e0) s3) by (etrans; [exact Ho1|]; by etrans).
  destruct (written && flushed); [|done]. injection Hid as <-. split.
  - split; [split; [done|]|done]. revert Ht. apply (tidy_under d [p]); [exact Ho|].
    repeat constructor. eexists. split; [reflexivity|split; discriminate].
  - unfold held, saved_as in *. node_simpl. rewrite Hd in *.
    apply (layout_under d [p] _ _ (fh_fs e0)); [exact Ho| |exact Hh].
    repeat constructor. eexists. split; [reflexivity|split; discriminate].
Qed.

(** ** Restart *)

Lemma last_log_index_core c : log_ok c → last_log_index_of (log_ c) = LastLogIndexLocked c.
Proof.
  intros Hok. unfold last_log_index_of, LastLogIndexLocked. destruct (last (log_ c)) eqn:Hl; [done|].
  apply last_None in Hl. by apply log_ok_nonempty in Hok.
Qed.

(** The boundaries of a well-formed core need no clamping. *)
Lemma clamp_persistent c :
  core_ok c → commit_index_ c ≤ LastLogIndexLocked c →
  ClampRecoveredHardState (persistent_state c) = persistent_state c.
Proof.
  intros [Hlog _ Ha _] Hc. unfold ClampRecoveredHardState, persistent_state. cbv zeta. node_simpl.
  rewrite last_log_index_core by done. rewrite (decide_False (P := _ < commit_index_ c)) by lia. node_simpl.
  rewrite (decide_False (P := _ < last_applied_ c)) by lia. node_simpl.
  by rewrite decide_False by lia.
Qed.

(** The committed records, never compacted: the log without its first record, up to there. *)
Lemma storable_writable st : storable st → Forall writable_record (ps_log st).
Proof.
  intros Hst. eapply Forall_impl; [apply Hst|]. intros r (_ & _ & Hr). unfold writable_record.
  unfold kMaxCommandBytes in Hr. lia.
Qed.

(** From a disk that holds the state of [c] the constructor rebuilds the node. *)
Lemma FileHost_restarts config sc (sm : KvStateMachine) e e1 c :
  core_ok c → boundary_ok c → commit_index_ c ≤ LastLogIndexLocked c → last_snapshot_index_ c = 0 →
  accepted (SM := KvStateMachine) (E := FileHost) (commit_index_ c) c →
  storable (persistent_state c) → held (persistent_state c) e →
  usable (data_dir config) e → data_dir config ≠ [] → enabled sc = false →
  ValidateNodeIdentity config (reboot e) = (None, e1) →
  ∃ n, RaftNode_new config sc sm (reboot e) = (inr n, env_ n) ∧
    core n = mkCore kFollower (current_term_ c) (voted_for_ c) (-1) (log_ c) (commit_index_ c)
               (commit_index_ c) 0 (last_snapshot_term_ c) ∅ ∅ ∧
    state_machine_ n = replay (E := FileHost) (log_between 0 (commit_index_ c) c) sm.
Proof.
  intros Hok Hb Hci Hz Hacc Hst Hh Hu Hdir Hen Hid.
  destruct (identity_working (data_dir config) config (persistent_state c) (reboot e) e1 eq_refl Hid
    (usable_reboot _ _ Hu) Hh) as [Hw1 Hh1].
  pose proof (working_load _ _ _ Hw1 Hst Hh1) as Hl. rewrite clamp_persistent in Hl by done.
  destruct (RaftNode_new_restarts (working (data_dir config)) config sc sm (reboot e) e1 e1 c "")
    as (n & Hnew & _ & Hc & Hm); try done; [|by exists n].
  apply working_takes. exact (storable_writable _ Hst).
Qed.


(** ** Acknowledged writes *)
Section writes.
Context `{!PeerNet KvStateMachine FileHost}.
Implicit Types n : Node KvStateMachine FileHost.

(** Whether the state machine takes a command does not depend on its contents. *)
Lemma Apply_Ok_any i j data m m' : Ok (Apply i data m).1 = Ok (Apply j data m').1.
Proof.
  unfold Apply. repeat case_match; done.
Qed.

(** A [Put] answered OK is a proposal answered [kOk]. *)
Lemma Put_acknowledged k v n resp n1 :
  Put (mkPutRequest k v) n = (resp, n1) → wr_code resp = KV_STATUS_CODE_OK →
  ∃ r n', Propose (mkCommand kSet k v) n = (r, n') ∧ ProposeResult_Ok r = true ∧
    core n1 = core n' ∧ env_ n1 = env_ n' ∧ state_machine_ n1 = state_machine_ n' ∧
    config_ n1 = config_ n' ∧ ValidateCommandUnlocked (kv_limits (config_ n)) (mkCommand kSet k v) = None.
Proof.
  unfold Put. cbn [put_key put_value]. intros Hrun Hok.
  destruct (match ValidateKeyUnlocked (kv_limits (config_ n)) k with Some _ => _ | None => _ end);
    [by injection Hrun as <- <-|].
  destruct (Propose (mkCommand kSet k v) n) as [r n'] eqn:Hp. injection Hrun as <- <-.
  assert (Hr : ProposeResult_Ok r = true).
  { unfold FillCommonWriteResponse, ToKvStatusCode in Hok. cbn in Hok. unfold ProposeResult_Ok.
    by destruct (pr_status r). }
  exists r, n'. split_and!; try done.
  destruct (ValidateCommandUnlocked (kv_limits (config_ n)) (mkCommand kSet k v)) eqn:Hv; [|done].
  exfalso. unfold Propose, ProposeLocked in Hp.
  destruct (running_ n); cbn [negb] in Hp; [|by injection Hp as <- <-].
  case_decide; [by injection Hp as <- <-|]. rewrite Hv in Hp. by injection Hp as <- <-.
Qed.

(** The committed records of a log that never was compacted, one more. *)
Lemma log_between_committed self data c :
  log_ok c → last_snapshot_index_ c = 0 →
  log_between 0 (LastLogIndexLocked c + 1) (committed_core self data c) =
    log_between 0 (LastLogIndexLocked c) c ++
      [mkLogRecord (LastLogIndexLocked c + 1) (current_term_ c) data].
Proof.
  intros Hok Hz. pose proof (LastLogIndex_ok c Hok) as Hl. pose proof (log_ok_nonempty c Hok).
  assert (0 < length (log_ c))%nat by (destruct (log_ c); [done|cbn; lia]).
  unfold log_between, committed_core, appended_core. node_simpl.
  replace (Z.to_nat (0 + 1 - last_snapshot_index_ c)) with 1%nat by lia.
  rewrite drop_app_le by lia. rewrite (take_ge (_ ++ _)), (take_ge (drop _ _)); [done|..];
    rewrite ?length_app, ?length_drop; cbn; lia.
Qed.

(** What a proposal adds to what the machine takes, and to what a replay gives. *)
Lemma accepted_committed self data c m :
  log_ok c → LastLogIndexLocked c < u64_max →
  accepted (SM := KvStateMachine) (E := FileHost) (LastLogIndexLocked c) c →
  Ok (Apply (LastLogIndexLocked c + 1) data m).1 = true →
  accepted (SM := KvStateMachine) (E := FileHost) (LastLogIndexLocked c + 1) (committed_core self data c).
Proof.
  intros Hlog Hmax Hacc Happ i rec m' Hi Hrec. rewrite committed_lookup in Hrec by done. case_decide as Hd.
  - injection Hrec as <-. cbn [command]. change (Ok (Apply i data m').1 = true).
    by rewrite (Apply_Ok_any i (LastLogIndexLocked c + 1) data m' m).
  - apply (Hacc i); [lia|done].
Qed.

Lemma replay_committed self data c (m : KvStateMachine) :
  log_ok c → last_snapshot_index_ c = 0 →
  replay (E := FileHost) (log_between 0 (LastLogIndexLocked c + 1) (committed_core self data c)) m =
    (Apply (LastLogIndexLocked c + 1) data
       (replay (E := FileHost) (log_between 0 (LastLogIndexLocked c) c) m)).2.
Proof. intros Hlog Hz. rewrite log_between_committed by done. unfold replay. by rewrite foldl_app. Qed.

End writes.

(** ** Examples *)

#[local] Instance no_net : PeerNet KvStateMachine FileHost := {|
  net_RequestVote p r n := (None, n);
  net_AppendEntries p r n := (None, n);
  net_InstallSnapshot p r n := (None, n) |}.

(** A lone leader of term 1 on an empty disk. *)
Definition lone_config : NodeConfig :=
  mkNodeConfig 1 "127.0.0.1:50051" [] 150 300 50 100 ["data"] default_kv_limits.
Definition empty_host : FileHost := mkFileHost (mkFs ∅ []) 0 0 ["data"] ["snapshots"] None None 0.
Definition no_snapshots : snapshotConfig := mkSnapshotConfig false ["snapshots"] 30 0 5 true "snapshot".
Definition lone_core (r : Role) : RaftCore := mkCore r 1 1 1 [bootstrap_record] 0 0 0 0 ∅ ∅.
Definition lone_node (r : Role) : Node KvStateMachine FileHost :=
  mkNode lone_config no_snapshots (lone_core r) (mkNodeTimers TimerScheduler_new None 0 None None)
    (mkSnapshotWork false false false 0 0) Metrics_new ∅ true (mkKv ∅) empty_host.

Lemma lone_core_ok r : core_ok (lone_core r).
Proof.
  split; [split; [by eexists| |done|done]|done..]. intros k x Hk. destruct k; [by simplify_eq/=|done].
Qed.

Lemma lone_accepted r : accepted (SM := KvStateMachine) (E := FileHost) 0 (lone_core r).
Proof. intros i x m Hi. lia. Qed.

Lemma empty_host_usable : usable ["data"] empty_host.
Proof. split; [done|apply empty_tidy]. Qed.

(** What it has saved once it has put [k]. *)
Definition put_state : PersistentRaftState :=
  mkPersistentRaftState 1 1 1 1 [bootstrap_record; mkLogRecord 1 1 "SET|k|v"].
Lemma put_state_storable : storable put_state.
Proof.
  split; try (split; (discriminate || reflexivity)).
  - repeat constructor; discriminate.
  - intros k r Hk. do 2 (destruct k as [|k]; [injection Hk as <-; reflexivity|]). done.
  - discriminate.
Qed.


(** What it has saved once it has voted for node 7 in term 2. *)
Definition vote_state : PersistentRaftState := mkPersistentRaftState 2 7 0 0 [bootstrap_record].
Lemma vote_state_storable : storable vote_state.
Proof.
  split; try (split; (discriminate || reflexivity)).
  - repeat constructor; discriminate.
  - intros k r Hk. destruct k as [|k]; [injection Hk as <-; reflexivity|done].
  - discriminate.
Qed.

