(* ===== verification/Logging.v ===== *)
(** [logging.h] (src/modules/raft/runtime): levels, their names and parsing, and the
    line [LogWithLevel] prints for a message. *)
From S2P Require Import Prelude Types Bytes.

Inductive LogLevel := kDebug | kInfo | kWarn | kError.
#[export] Instance LogLevel_eq_dec : EqDecision LogLevel.
Proof. solve_decision. Defined.

(** [static_cast<int>(level)]. *)
Definition level_int (level : LogLevel) : Z :=
  match level with kDebug => 0 | kInfo => 1 | kWarn => 2 | kError => 3 end.

(** [LogLevelName]. *)
Definition LogLevelName (level : LogLevel) : string :=
  match level with kDebug => "DEBUG" | kInfo => "INFO" | kWarn => "WARN" | kError => "ERROR" end.

(** [TryParseLogLevel]: [None] is false. *)
Definition TryParseLogLevel (text : string) : option LogLevel :=
  if decide (text ∈ ["debug"; "DEBUG"; "Debug"]) then Some kDebug
  else if decide (text ∈ ["info"; "INFO"; "Info"]) then Some kInfo
  else if decide (text ∈ ["warn"; "WARN"; "warning"; "WARNING"]) then Some kWarn
  else if decide (text ∈ ["error"; "ERROR"; "Error"]) then Some kError
  else None.

(** Characters with an escape. *)
Definition ch_backslash : ascii := ascii_of_N 92.
Definition ch_quote : ascii := ascii_of_N 34.
Definition ch_newline : ascii := ascii_of_N 10.
Definition ch_return : ascii := ascii_of_N 13.
Definition ch_tab : ascii := ascii_of_N 9.

(** What the switch of [EscapeLogMessage] appends for a character. *)
Definition escape_char (ch : ascii) : string :=
  if decide (ch = ch_backslash) then String ch_backslash (String ch_backslash "")
  else if decide (ch = ch_quote) then String ch_backslash (String ch_quote "")
  else if decide (ch = ch_newline) then String ch_backslash "n"
  else if decide (ch = ch_return) then String ch_backslash "r"
  else if decide (ch = ch_tab) then String ch_backslash "t"
  else String ch "".

(** [EscapeLogMessage]. *)
Fixpoint EscapeLogMessage (message : string) : string :=
  match message with
  | "" => ""
  | String ch message => escape_char ch +:+ EscapeLogMessage message
  end.

(** [LogWithLevel]: the line printed, none below the global level. *)
Definition LogWithLevel (global : LogLevel) (now : string) (level : LogLevel) (tag message : string) :
    option string :=
  if decide (level_int level < level_int global) then None
  else
    let q := String ch_quote "" in
    Some ("ts=" +:+ q +:+ now +:+ q +:+ " level=" +:+ LogLevelName level +:+ " tag=" +:+ tag +:+
          " msg=" +:+ q +:+ EscapeLogMessage message +:+ q +:+ String ch_newline "").

(** [Log], [LogDebug], [LogWarn], [LogError]. *)
Definition Log (global : LogLevel) (now tag message : string) : option string :=
  LogWithLevel global now kInfo tag message.
Definition LogDebug (global : LogLevel) (now tag message : string) : option string :=
  LogWithLevel global now kDebug tag message.
Definition LogWarn (global : LogLevel) (now tag message : string) : option string :=
  LogWithLevel global now kWarn tag message.
Definition LogError (global : LogLevel) (now tag message : string) : option string :=
  LogWithLevel global now kError tag message.

(** ** Reading a message back *)

(** The inverse of the escapes, for a reader of the log. *)
Fixpoint unescape (s : string) : string :=
  match s with
  | "" => ""
  | String c s1 =>
      if decide (c = ch_backslash) then
        match s1 with
        | String d s2 =>
            String (if decide (d = "n"%char) then ch_newline
                    else if decide (d = "r"%char) then ch_return
                    else if decide (d = "t"%char) then ch_tab else d) (unescape s2)
        | "" => s
        end
      else String c (unescape s1)
  end.

(** A log line can be read back: the escape is reversible, and its result has no line
    break and no quote that a backslash does not precede. *)
Fixpoint all_chars (p : ascii → bool) (s : string) : bool :=
  match s with "" => true | String c s => p c && all_chars p s end.

Lemma unescape_cons c s : c ≠ ch_backslash → unescape (String c s) = String c (unescape s).
Proof. intros Hc. cbn [unescape]. by rewrite decide_False. Qed.

Lemma unescape_escape ch s : unescape (escape_char ch +:+ s) = String ch (unescape s).
Proof.
  unfold escape_char.
  destruct (decide (ch = ch_backslash)) as [->|H1]; [done|].
  destruct (decide (ch = ch_quote)) as [->|H2]; [done|].
  destruct (decide (ch = ch_newline)) as [->|H3]; [done|].
  destruct (decide (ch = ch_return)) as [->|H4]; [done|].
  destruct (decide (ch = ch_tab)) as [->|H5]; [done|].
  by apply unescape_cons.
Qed.

Lemma all_chars_app p a b : all_chars p (a +:+ b) = all_chars p a && all_chars p b.
Proof.
  induction a as [|c a IH]; [done|]. change (String c a +:+ b) with (String c (a +:+ b)).
  cbn [all_chars]. by rewrite IH, andb_assoc.
Qed.

Theorem EscapeLogMessage_readable m :
  unescape (EscapeLogMessage m) = m ∧
  all_chars (λ c, bool_decide (c ≠ ch_newline ∧ c ≠ ch_return)) (EscapeLogMessage m) = true.
Proof.
  induction m as [|ch m [IH1 IH2]]; [done|]. cbn [EscapeLogMessage]. split.
  - by rewrite unescape_escape, IH1.
  - rewrite all_chars_app, IH2, andb_true_r. unfold escape_char.
    destruct (decide (ch = ch_backslash)); [done|]. destruct (decide (ch = ch_quote)); [done|].
    destruct (decide (ch = ch_newline)); [done|]. destruct (decide (ch = ch_return)); [done|].
    destruct (decide (ch = ch_tab)); [done|]. cbn. by rewrite bool_decide_true.
Qed.
