(* ===== verification/ConfigFile.v ===== *)
(** The configuration of the server process (src/apps/main.cpp): the key=value file, the
    members of the cluster, and the node and snapshot configurations built from it. *)
From S2P Require Import Prelude Types Bytes Digits FsM Layout Logging.

(** ** Text *)

(** The lines [std::getline] reads. *)
Fixpoint getlines (text : string) : list string :=
  match text with
  | "" => []
  | String c text =>
      if decide (c = ch_newline) then "" :: getlines text
      else match getlines text with
           | [] => [String c ""]
           | line :: lines => String c line :: lines
           end
  end.

(** The characters before the first [c], and what follows it. *)
Fixpoint split_at (c : ascii) (s : string) : option (string * string) :=
  match s with
  | "" => None
  | String d s =>
      if decide (d = c) then Some ("", s)
      else match split_at c s with
           | Some (before, after) => Some (String d before, after)
           | None => None
           end
  end.

Fixpoint trim_end (s : string) : string :=
  match s with
  | "" => ""
  | String c s =>
      match trim_end s with
      | "" => if is_space c then "" else String c ""
      | t => String c t
      end
  end.

(** [Trim]. *)
Definition Trim (s : string) : string := trim_end (skip_spaces s).

(** [ParseBool]. *)
Definition ParseBool (value : string) : bool :=
  bool_decide (Trim value ∈ ["1"; "true"; "TRUE"; "yes"; "YES"; "on"]).

(** [std::stoi]: spaces, a sign, the longest run of digits. *)
Definition stoi (s : string) : Result Z :=
  let s := skip_spaces s in
  let '(neg, s) := match s with
                   | String "-"%char s => (true, s)
                   | String "+"%char s => (false, s)
                   | _ => (false, s)
                   end in
  let d := digits_prefix s in
  if decide (d = "") then Throw "stoi"
  else
    let v := if neg then - digits_from 0 d else digits_from 0 d in
    if decide (-2147483648 ≤ v < 2147483648) then Done v else Throw "stoi".

(** A path given as text: its components, the first one empty when it is absolute. *)
Fixpoint path_components (s : string) : path :=
  match s with
  | "" => [""]
  | String c s =>
      if decide (c = "/"%char) then "" :: path_components s
      else match path_components s with
           | [] => [String c ""]
           | x :: p => String c x :: p
           end
  end.
Definition path_of_string (s : string) : path :=
  match path_components s with
  | [] => []
  | x :: p => match x, filter (λ y, y ≠ "") p with
              | "", [] => if decide (s = "") then [] else [""]
              | _, q => x :: q
              end
  end.

(** ** The key=value file *)

(** One turn of the loop of [LoadKeyValueConfig]: the line's binding, if any. *)
Definition ParseLine (line : string) : Result (option (string * string)) :=
  let line := match split_at "#"%char line with Some (before, _) => before | None => line end in
  let line := Trim line in
  if decide (line = "") then Done None
  else match split_at "="%char line with
       | None => Throw ("bad config line, expected key=value: " +:+ line)
       | Some (before, after) =>
           let key := Trim before in
           let value := Trim after in
           if decide (key = "") then Throw "bad config line, empty key" else Done (Some (key, value))
       end.

Fixpoint ParseLines (lines : list string) (kv : gmap string string) : Result (gmap string string) :=
  match lines with
  | [] => Done kv
  | line :: lines =>
      let! binding := ParseLine line in
      ParseLines lines (match binding with Some (key, value) => <[key := value]> kv | None => kv end)
  end.

(** [LoadKeyValueConfig], of what opening the file gives. *)
Definition LoadKeyValueConfig (p : path) (contents : option string) : Result (gmap string string) :=
  match contents with
  | None => Throw ("failed to open config file: " +:+ path_string p)
  | Some text => ParseLines (getlines text) ∅
  end.

(** [GetInt], [GetString], [GetBool]. *)
Definition GetInt (kv : gmap string string) (key : string) (default_value : Z) : Result Z :=
  match kv !! key with None => Done default_value | Some v => stoi v end.
Definition GetString (kv : gmap string string) (key default_value : string) : string :=
  match kv !! key with None => default_value | Some v => v end.
Definition GetBool (kv : gmap string string) (key : string) (default_value : bool) : bool :=
  match kv !! key with None => default_value | Some v => ParseBool v end.

(** ** The cluster *)

(** [std::map] iterates in the order of its keys. *)
Definition key_le (a b : string * string) : Prop := String.leb a.1 b.1 = true.
#[export] Instance key_le_dec : RelDecision key_le.
Proof. unfold key_le. intros a b. apply _. Defined.
Definition by_key (kv : gmap string string) : list (string * string) :=
  merge_sort key_le (map_to_list kv).

Definition id_le (a b : Z * string) : Prop := a.1 ≤ b.1.
#[export] Instance id_le_dec : RelDecision id_le.
Proof. unfold id_le. intros a b. apply _. Defined.
Definition by_id (members : gmap Z string) : list (Z * string) :=
  merge_sort id_le (map_to_list members).

(** The loop of [LoadMembers]. *)
Fixpoint ReadMembers (entries : list (string * string)) (members : gmap Z string) :
    Result (gmap Z string) :=
  match entries with
  | [] => Done members
  | (key, value) :: entries =>
      if negb (String.prefix "node." key) then ReadMembers entries members
      else
        let id_part := String.substring 5 (String.length key - 5) key in
        if decide (id_part = "") then ReadMembers entries members
        else
          let! node_id := stoi id_part in
          if decide (node_id ≤ 0) then Throw ("node id must be positive: " +:+ key)
          else ReadMembers entries (<[node_id := value]> members)
  end.

(** [LoadMembers]. *)
Definition LoadMembers (kv : gmap string string) : Result (gmap Z string) :=
  let! members := ReadMembers (by_key kv) ∅ in
  if decide (members = ∅)
  then Throw "config must contain at least one node.<id>=<host:port> entry"
  else Done members.

(** The directory of the configuration file. *)
Definition config_dir (config_path current_path : path) : path :=
  if decide (removelast config_path = []) then current_path else removelast config_path.

(** [static_cast<std::size_t>] and [static_cast<std::uint64_t>] of an [int]. *)
Definition size_of_int (z : Z) : Z := u64 z.

(** [BuildNodeConfig]. *)
Definition BuildNodeConfig (kv : gmap string string) (override_node_id : Z)
    (config_path current_path : path) : Result NodeConfig :=
  let! members := LoadMembers kv in
  let! node_id := (if decide (0 < override_node_id) then Done override_node_id
                   else GetInt kv "node_id" 1) in
  match members !! node_id with
  | None => Throw ("node_id=" +:+ pretty node_id +:+ " is not present in config members")
  | Some address =>
      let peers := (λ m, mkPeerConfig m.1 m.2) <$> filter (λ m, m.1 ≠ node_id) (by_id members) in
      let! election_timeout_min := GetInt kv "election_timeout_min_ms" 800 in
      let! election_timeout_max := GetInt kv "election_timeout_max_ms" 1600 in
      let! heartbeat_interval := GetInt kv "heartbeat_interval_ms" 150 in
      let! rpc_deadline := GetInt kv "rpc_deadline_ms" 500 in
      let! max_key_bytes := GetInt kv "kv_max_key_bytes" 256 in
      let! max_value_bytes := GetInt kv "kv_max_value_bytes" (64 * 1024) in
      let! max_command_bytes := GetInt kv "kv_max_command_bytes" (1024 * 1024) in
      let data_root := match kv !! "data_root" with
                       | Some v => path_of_string v
                       | None => config_dir config_path current_path ++ ["raft_data"]
                       end in
      Done (mkNodeConfig node_id address peers election_timeout_min election_timeout_max
              heartbeat_interval rpc_deadline (data_root ++ ["node_" +:+ pretty node_id])
              (mkKvRequestLimits (size_of_int max_key_bytes) (size_of_int max_value_bytes)
                 (size_of_int max_command_bytes)))
  end.

(** [BuildSnapshotConfig]. *)
Definition BuildSnapshotConfig (kv : gmap string string) (node_id : Z)
    (config_path current_path : path) : Result snapshotConfig :=
  let snapshot_root := match kv !! "snapshot_root" with
                       | Some v => path_of_string v
                       | None => config_dir config_path current_path ++ ["raft_snapshots"]
                       end in
  let! log_threshold := GetInt kv "snapshot_log_threshold" 30 in
  let! snapshot_interval := GetInt kv "snapshot_interval_ms" 600000 in
  let! max_snapshot_count := GetInt kv "snapshot_max_count" 5 in
  Done (mkSnapshotConfig (GetBool kv "snapshot_enabled" true)
          (snapshot_root ++ ["node_" +:+ pretty node_id]) (size_of_int log_threshold)
          snapshot_interval (size_of_int max_snapshot_count)
          (GetBool kv "snapshot_load_on_startup" true)
          (GetString kv "snapshot_file_prefix" "snapshot")).

(** [PrintConfigSummary]: the messages logged, in order. *)
Definition PrintConfigSummary (config_path : path) (c : NodeConfig) (sc : snapshotConfig) : list string :=
  let known_peers := Z.of_nat (length (peers c)) in
  ["config=" +:+ path_string config_path;
   "node_id=" +:+ pretty (node_id c);
   "address=" +:+ address c;
   "known_peers=" +:+ pretty known_peers +:+
     " (addresses only; this process starts node_id=" +:+ pretty (node_id c) +:+ ")"] ++
  ((λ p, "remote peer." +:+ pretty (peer_node_id p) +:+ "=" +:+ peer_address p) <$> peers c) ++
  ["cluster_size=" +:+ pretty (known_peers + 1) +:+
     ", quorum=" +:+ pretty ((known_peers + 1) / 2 + 1)] ++
  (if decide (peers c = [])
   then ["single-node mode: this node can elect itself as leader; " +:+
         "use node.2/node.3 entries for a 3-node cluster"]
   else []) ++
  ["data_dir=" +:+ path_string (data_dir c);
   "kv_max_key_bytes=" +:+ pretty (max_key_bytes (kv_limits c)) +:+
     ", kv_max_value_bytes=" +:+ pretty (max_value_bytes (kv_limits c)) +:+
     ", kv_max_command_bytes=" +:+ pretty (max_command_bytes (kv_limits c));
   "snapshot_enabled=" +:+ (if enabled sc then "true" else "false");
   "snapshot_dir=" +:+ path_string (cfg_snapshot_dir sc)].

(** [main] up to the node's construction: [args] are the arguments after the program's
    name, [files] the readable files. *)
Definition Configure (args : list string) (current_path : path) (files : path → option string) :
    Result (LogLevel * NodeConfig * snapshotConfig) :=
  let config_path := match args with [] => ["config.txt"] | a :: _ => path_of_string a end in
  let! node_id_override := match args with _ :: b :: _ => stoi b | _ => Done (-1) end in
  let! kv := LoadKeyValueConfig config_path (files config_path) in
  let log_level_text := GetString kv "log_level" "info" in
  match TryParseLogLevel log_level_text with
  | None => Throw ("invalid log_level: " +:+ log_level_text)
  | Some log_level =>
      let! node_config := BuildNodeConfig kv node_id_override config_path current_path in
      let! snapshot_config := BuildSnapshotConfig kv (node_id node_config) config_path current_path in
      Done (log_level, node_config, snapshot_config)
  end.

(** ** Lemmas *)
Section lemmas.
Implicit Types (s t : string) (c : ascii).

(** [s] has no character [c]. *)
Definition lacks c s : bool := all_chars (λ d, bool_decide (d ≠ c)) s.

Lemma lacks_cons c d s : lacks c (String d s) = true → d ≠ c ∧ lacks c s = true.
Proof. unfold lacks. cbn. intros [Hd Hs]%andb_true_iff. by apply bool_decide_eq_true in Hd. Qed.

Lemma getlines_line line rest :
  lacks ch_newline line = true → getlines (line +:+ String ch_newline rest) = line :: getlines rest.
Proof.
  induction line as [|d line IH]; [done|]. intros [Hd Hl]%lacks_cons.
  change (String d line +:+ String ch_newline rest) with (String d (line +:+ String ch_newline rest)).
  cbn [getlines]. rewrite decide_False by done. by rewrite IH.
Qed.

Lemma split_at_here c a b : lacks c a = true → split_at c (a +:+ String c b) = Some (a, b).
Proof.
  induction a as [|d a IH]; intros Ha.
  { change ("" +:+ String c b) with (String c b). cbn [split_at]. by rewrite decide_True. }
  apply lacks_cons in Ha as [Hd Ha]. change (String d a +:+ String c b) with (String d (a +:+ String c b)).
  cbn [split_at]. rewrite decide_False by done. by rewrite IH.
Qed.

Lemma split_at_none c s : lacks c s = true → split_at c s = None.
Proof.
  induction s as [|d s IH]; [done|]. intros [Hd Hs]%lacks_cons. cbn [split_at].
  rewrite decide_False by done. by rewrite IH.
Qed.

Lemma skip_spaces_length s : (String.length (skip_spaces s) ≤ String.length s)%nat.
Proof. induction s as [|c s IH]; [done|]. cbn [skip_spaces]. destruct (is_space c); cbn in *; lia. Qed.

Lemma skip_spaces_app s t : skip_spaces s = s → s ≠ "" → skip_spaces (s +:+ t) = s +:+ t.
Proof.
  intros Hs Hne. destruct s as [|c s]; [done|].
  change (String c s +:+ t) with (String c (s +:+ t)). cbn [skip_spaces] in *.
  destruct (is_space c); [|done]. pose proof (skip_spaces_length s) as Hl. rewrite Hs in Hl. cbn in Hl. lia.
Qed.

Lemma trim_end_app s t : trim_end t = t → t ≠ "" → trim_end (s +:+ t) = s +:+ t.
Proof.
  intros Ht Hne. induction s as [|c s IH]; [done|]. change (String c s +:+ t) with (String c (s +:+ t)).
  cbn [trim_end]. rewrite IH. destruct (s +:+ t) eqn:Hst; [|done]. by destruct s.
Qed.

(** A key or value as the file can give it back. *)
Definition trimmed s : Prop := skip_spaces s = s ∧ trim_end s = s.

Lemma Trim_trimmed s : trimmed s → Trim s = s.
Proof. intros [H1 H2]. unfold Trim. by rewrite H1. Qed.

(** The binding [key=value] as a line of the file. *)
Definition binding_line (b : string * string) : string := b.1 +:+ String "="%char b.2.
Definition writable (b : string * string) : Prop :=
  trimmed b.1 ∧ trimmed b.2 ∧ b.1 ≠ "" ∧
  lacks "#"%char (binding_line b) = true ∧ lacks "="%char b.1 = true ∧
  lacks ch_newline (binding_line b) = true.

Lemma ParseLine_binding b : writable b → ParseLine (binding_line b) = Done (Some b).
Proof.
  destruct b as [k v]. intros (Hk & Hv & Hne & Hhash & Heq & _). unfold ParseLine. cbv zeta.
  rewrite split_at_none by done. unfold binding_line in *. cbn [fst snd] in *.
  assert (Hline : trimmed (k +:+ String "="%char v)).
  { split; [apply skip_spaces_app; [apply Hk|done]|].
    destruct (decide (v = "")) as [->|Hvne]; [by apply trim_end_app|].
    change (String "="%char v) with ("=" +:+ v). rewrite trim_end_app; [done| |done].
    apply trim_end_app; [apply Hv|done]. }
  rewrite (Trim_trimmed _ Hline), decide_False by (by destruct k).
  rewrite split_at_here by done. rewrite !Trim_trimmed by done. by rewrite decide_False.
Qed.

(** The text of a list of bindings. *)
Definition config_text (bindings : list (string * string)) : string :=
  foldr (λ b text, binding_line b +:+ String ch_newline text) "" bindings.

Lemma ParseLines_text bindings kv :
  Forall writable bindings →
  ParseLines (getlines (config_text bindings)) kv = Done (foldl (λ m b, <[b.1 := b.2]> m) kv bindings).
Proof.
  intros Hall. revert kv. induction Hall as [|b bindings Hb _ IH]; intros kv; [done|].
  cbn [config_text foldr]. rewrite getlines_line by apply Hb. cbn [ParseLines].
  rewrite ParseLine_binding by done. cbn [and_then]. destruct b as [k v]. apply IH.
Qed.

(** ** Members *)
#[local] Instance id_le_trans : Transitive id_le.
Proof. unfold id_le. intros ???. lia. Qed.
#[local] Instance id_le_total : Total id_le.
Proof. unfold id_le. intros ??. lia. Qed.

Lemma stoi_range s v : stoi s = Done v → -2147483648 ≤ v < 2147483648.
Proof.
  unfold stoi. cbv zeta. destruct (skip_spaces s) as [|[] ?]; repeat case_match; by intros [= <-].
Qed.

Definition good_id (i : Z) : Prop := 0 < i < 2147483648.

Lemma ReadMembers_ids entries members members' :
  ReadMembers entries members = Done members' → map_Forall (λ i _, good_id i) members →
  map_Forall (λ i _, good_id i) members'.
Proof.
  revert members. induction entries as [|[key value] entries IH]; intros members H Hm.
  { by injection H as <-. }
  cbn [ReadMembers] in H. destruct (negb _); [by eapply IH|]. cbv zeta in H.
  destruct (decide (_ = "")); [by eapply IH|].
  destruct (stoi _) as [i| |] eqn:Hi; [|done..]. cbn [and_then] in H. apply stoi_range in Hi.
  destruct (decide (i ≤ 0)); [done|]. eapply IH; [exact H|].
  apply map_Forall_insert_2; [unfold good_id; lia|done].
Qed.

Lemma filter_everything {A} (P : A → Prop) `{∀ x, Decision (P x)} (l : list A) :
  Forall P l → filter P l = l.
Proof. induction 1 as [|x l Hx _ IH]; [done|]. by rewrite filter_cons_True, IH. Qed.

(** A member and the others. *)
Lemma members_split (members : gmap Z string) i a :
  members !! i = Some a → (i, a) :: filter (λ m, m.1 ≠ i) (by_id members) ≡ₚ map_to_list members.
Proof.
  intros Hi. unfold by_id. rewrite merge_sort_Permutation. rewrite <- (map_to_list_delete _ _ _ Hi).
  rewrite filter_cons_False by (cbn; tauto). rewrite filter_everything; [done|].
  apply Forall_forall. intros [k x] Hj%elem_of_map_to_list. cbn. intros ->.
  by rewrite lookup_delete_eq in Hj.
Qed.

(** The node a configuration is for. *)
Definition self_peer (c : NodeConfig) : PeerConfig := mkPeerConfig (node_id c) (address c).

Lemma BuildNodeConfig_Done kv o p d (c : NodeConfig) :
  BuildNodeConfig kv o p d = Done c →
  ∃ members, LoadMembers kv = Done members ∧ (0 < o → node_id c = o) ∧
    members !! node_id c = Some (address c) ∧
    peers c = (λ m, mkPeerConfig m.1 m.2) <$> filter (λ m, m.1 ≠ node_id c) (by_id members).
Proof.
  unfold BuildNodeConfig. intros H. apply and_then_Done in H as (members & Hm & H).
  apply and_then_Done in H as (i & Hi & H). destruct (members !! i) as [a|] eqn:Ha; [|done].
  do 7 (apply and_then_Done in H as (? & _ & H)). injection H as <-. cbn.
  exists members. split_and!; try done. intros Ho. rewrite decide_True in Hi by done. by injection Hi.
Qed.
End lemmas.

(** One file, one cluster.  Two servers started from the same key=value file, each for
    its own node, agree on the cluster: the node itself and its peers are the same members
    with the same addresses (so the same number of nodes and the same majority); ids are
    positive machine integers, no member is listed twice and no node is its own peer; and
    the node id given on the command line wins. *)
Theorem BuildNodeConfig_cluster kv o1 p1 d1 c1 o2 p2 d2 c2 :
  BuildNodeConfig kv o1 p1 d1 = Done c1 → BuildNodeConfig kv o2 p2 d2 = Done c2 →
  self_peer c1 :: peers c1 ≡ₚ self_peer c2 :: peers c2 ∧
  NoDup (peer_node_id <$> self_peer c1 :: peers c1) ∧
  Forall (λ p, good_id (peer_node_id p)) (self_peer c1 :: peers c1) ∧
  (0 < o1 → node_id c1 = o1).
Proof.
  intros (m1 & Hm1 & Ho & Ha1 & Hp1)%BuildNodeConfig_Done (m2 & Hm2 & _ & Ha2 & Hp2)%BuildNodeConfig_Done.
  rewrite Hm1 in Hm2. injection Hm2 as <-.
  assert (Hall : ∀ c, m1 !! node_id c = Some (address c) →
    peers c = (λ m, mkPeerConfig m.1 m.2) <$> filter (λ m, m.1 ≠ node_id c) (by_id m1) →
    self_peer c :: peers c ≡ₚ (λ m, mkPeerConfig m.1 m.2) <$> map_to_list m1).
  { intros c Ha ->. by rewrite <- (members_split _ _ _ Ha). }
  pose proof (Hall c1 Ha1 Hp1) as H1. split; [by rewrite H1, Hall|].
  assert (Hids : peer_node_id <$> ((λ m, mkPeerConfig m.1 m.2) <$> map_to_list m1) = (map_to_list m1).*1)
    by (rewrite <- list_fmap_compose; by apply list_fmap_ext).
  split; [rewrite H1, Hids; apply NoDup_fst_map_to_list|]. split; [|done].
  rewrite H1. apply Forall_fmap, Forall_forall. intros [i a] Hi%elem_of_map_to_list. cbn.
  unfold LoadMembers in Hm1. apply and_then_Done in Hm1 as (m & Hr & Hm1).
  destruct (decide (m = ∅)); [done|]. injection Hm1 as ->.
  by apply (ReadMembers_ids _ _ _ Hr (map_Forall_empty _) i a).
Qed.

(** The key=value file reads back.  [LoadKeyValueConfig] of the text that lists some
    bindings, one line each, gives the map in which each key has its last value, for keys
    and values without surrounding blanks, comment or line marks. *)
Theorem LoadKeyValueConfig_text p bindings :
  Forall writable bindings →
  LoadKeyValueConfig p (Some (config_text bindings)) = Done (foldl (λ m b, <[b.1 := b.2]> m) ∅ bindings).
Proof. intros Hb. by apply ParseLines_text. Qed.

(** ** Examples *)
Definition ex_bindings : list (string * string) :=
  [("node.1", "127.0.0.1:5001"); ("node.2", "127.0.0.1:5002"); ("node.3", "127.0.0.1:5003");
   ("election_timeout_min_ms", "2000"); ("kv_max_key_bytes", "-1")].
Definition ex_start (id : string) : Result (LogLevel * NodeConfig * snapshotConfig) :=
  Configure ["cluster.txt"; id] ["home"]
    (λ p, if decide (p = ["cluster.txt"]) then Some (config_text ex_bindings) else None).
Definition ex_kv : gmap string string := list_to_map ex_bindings.

Lemma BuildNodeConfig_cluster_witness :
  ∃ c1 c2, BuildNodeConfig ex_kv 1 [] [] = Done c1 ∧ BuildNodeConfig ex_kv 3 [] [] = Done c2 ∧
    self_peer c1 :: peers c1 ≡ₚ self_peer c2 :: peers c2 ∧ node_id c1 = 1.
Proof.
  destruct (BuildNodeConfig ex_kv 1 [] []) as [c1| |] eqn:H1; [|vm_compute in H1; discriminate..].
  destruct (BuildNodeConfig ex_kv 3 [] []) as [c2| |] eqn:H2; [|vm_compute in H2; discriminate..].
  exists c1, c2. destruct (BuildNodeConfig_cluster _ _ _ _ _ _ _ _ _ H1 H2) as (H & _ & _ & Hid).
  split_and!; [done|done|done|]. by apply Hid.
Defined.

Lemma LoadKeyValueConfig_text_witness :
  LoadKeyValueConfig ["cluster.txt"] (Some (config_text ex_bindings)) =
    Done (foldl (λ m b, <[b.1 := b.2]> m) ∅ ex_bindings).
Proof. apply (LoadKeyValueConfig_text ["cluster.txt"] ex_bindings). repeat constructor; discriminate. Defined.

(** What [BuildNodeConfig] does not check: a minimum election timeout above the maximum (the
    arguments of [std::uniform_int_distribution] must be ordered), and a negative limit,
    which the conversion to [std::size_t] makes the largest one. *)
Theorem BuildNodeConfig_unchecked :
  ∃ level config snapshot_config, ex_start "1" = Done (level, config, snapshot_config) ∧
    election_timeout_max config < election_timeout_min config ∧
    max_key_bytes (kv_limits config) = u64_max.
Proof.
  destruct (ex_start "1") as [[[level config] sc]| |] eqn:H; [|vm_compute in H; discriminate..].
  exists level, config, sc. split; [done|]. vm_compute in H. injection H as <- <- <-. split; reflexivity.
Qed.
