(* ===== verification/KvClient.v ===== *)
(** The command-line client (src/apps/raft_kv_client.cpp): a request built from the
    arguments, the call on the stub, the text printed and the exit status.  The stub is
    generated code and gRPC: a class, with the service handlers of a node as an
    instance. *)
From S2P Require Import Prelude Types Bytes Logging Command Env Node StateMachine Propose Replicator KvService.

(** What a call returns: the status' error message, or the response. *)
Class KvStub (S : Type) := {
  stub_Put : PutRequest → S → (string + WriteResponse) * S;
  stub_Delete : DeleteRequest → S → (string + WriteResponse) * S;
  stub_Get : GetRequest → S → (string + GetResponse) * S;
  stub_Status : S → (string + StatusResponse) * S;
  stub_Health : S → (string + HealthResponse) * S;
  stub_Metrics : S → (string + MetricsResponse) * S }.

(** What the process leaves: standard output, standard error, exit status. *)
Record Exit := mkExit { out : string; err : string; status : Z }.

Definition newline : string := String ch_newline "".

(** The number of an enumerator, as [operator<<] prints it. *)
Definition code_number (c : KvStatusCode) : Z :=
  match c with
  | KV_STATUS_CODE_UNSPECIFIED => 0 | KV_STATUS_CODE_OK => 1 | KV_STATUS_CODE_NOT_LEADER => 2
  | KV_STATUS_CODE_INVALID_ARGUMENT => 3 | KV_STATUS_CODE_KEY_NOT_FOUND => 4
  | KV_STATUS_CODE_INTERNAL_ERROR => 5 | KV_STATUS_CODE_NODE_STOPPING => 6
  | KV_STATUS_CODE_TIMEOUT => 7
  end.
Definition bool_text (b : bool) : string := if b then "true" else "false".

(** [PrintUsage]. *)
Definition usage : string :=
  "usage:" +:+ newline +:+
  "  raft_kv_client <addr> put <key> <value>" +:+ newline +:+
  "  raft_kv_client <addr> get <key>" +:+ newline +:+
  "  raft_kv_client <addr> delete <key>" +:+ newline +:+
  "  raft_kv_client <addr> status" +:+ newline +:+
  "  raft_kv_client <addr> health" +:+ newline +:+
  "  raft_kv_client <addr> metrics" +:+ newline.
Definition usage_exit : Exit := mkExit "" usage 2.

Definition rpc_failed (message : string) : Exit := mkExit "" ("rpc failed: " +:+ message +:+ newline) 1.

(** The line [RunPut] and [RunDelete] print. *)
Definition write_line (r : WriteResponse) : string :=
  "code=" +:+ pretty (code_number (wr_code r)) +:+ " term=" +:+ pretty (wr_term r) +:+
  " leader_id=" +:+ pretty (wr_leader_id r) +:+ " leader_address=" +:+ wr_leader_address r +:+
  " log_index=" +:+ pretty (wr_log_index r) +:+ " message=" +:+ wr_message r +:+ newline.

Section client.
Context {S : Type} `{!KvStub S}.

(** [RunPut]. *)
Definition RunPut (key value : string) (s : S) : Exit * S :=
  match stub_Put (mkPutRequest key value) s with
  | (inl message, s) => (rpc_failed message, s)
  | (inr response, s) =>
      (mkExit (write_line response) ""
         (if decide (wr_code response = KV_STATUS_CODE_OK) then 0 else 2), s)
  end.

(** [RunDelete]. *)
Definition RunDelete (key : string) (s : S) : Exit * S :=
  match stub_Delete (mkDeleteRequest key) s with
  | (inl message, s) => (rpc_failed message, s)
  | (inr response, s) =>
      (mkExit (write_line response) ""
         (if decide (wr_code response = KV_STATUS_CODE_OK) then 0 else 2), s)
  end.

(** [RunGet]. *)
Definition RunGet (key : string) (s : S) : Exit * S :=
  match stub_Get (mkGetRequest key) s with
  | (inl message, s) => (rpc_failed message, s)
  | (inr r, s) =>
      (mkExit
         ("code=" +:+ pretty (code_number (gr_code r)) +:+ " term=" +:+ pretty (gr_term r) +:+
          " leader_id=" +:+ pretty (gr_leader_id r) +:+ " leader_address=" +:+ gr_leader_address r +:+
          " found=" +:+ bool_text (gr_found r) +:+ " value=" +:+ gr_value r +:+
          " message=" +:+ gr_message r +:+ newline) ""
         (if decide (gr_code r = KV_STATUS_CODE_OK) then 0 else 2), s)
  end.

Definition peer_line (p : PeerReplicationStatus) : string :=
  "peer_id=" +:+ pretty (prs_peer_id p) +:+ " address=" +:+ prs_address p +:+
  " match_index=" +:+ pretty (prs_match_index p) +:+ " next_index=" +:+ pretty (prs_next_index p) +:+
  newline.

(** [RunStatus]. *)
Definition RunStatus (s : S) : Exit * S :=
  match stub_Status s with
  | (inl message, s) => (rpc_failed message, s)
  | (inr r, s) =>
      (mkExit
         ("node_id=" +:+ pretty (str_node_id r) +:+ " address=" +:+ str_address r +:+
          " role=" +:+ str_role r +:+ " term=" +:+ pretty (str_term r) +:+
          " leader_id=" +:+ pretty (str_leader_id r) +:+ " leader_address=" +:+ str_leader_address r +:+
          " commit_index=" +:+ pretty (str_commit_index r) +:+
          " last_applied=" +:+ pretty (str_last_applied r) +:+
          " last_log_index=" +:+ pretty (str_last_log_index r) +:+
          " snapshot_index=" +:+ pretty (str_snapshot_index r) +:+ newline +:+
          foldr (λ p text, peer_line p +:+ text) "" (str_peers r)) "" 0, s)
  end.

(** [RunHealth]. *)
Definition RunHealth (s : S) : Exit * S :=
  match stub_Health s with
  | (inl message, s) => (rpc_failed message, s)
  | (inr r, s) =>
      (mkExit
         ("ok=" +:+ bool_text (hr_ok r) +:+ " node_id=" +:+ pretty (hr_node_id r) +:+
          " role=" +:+ hr_role r +:+ " term=" +:+ pretty (hr_term r) +:+
          " leader_id=" +:+ pretty (hr_leader_id r) +:+ " message=" +:+ hr_message r +:+ newline) ""
         (if hr_ok r then 0 else 2), s)
  end.

Definition rpc_line (m : string * Z * Z * Z * Z) : string :=
  let '(name, success, failure, total, max) := m in
  "rpc=" +:+ name +:+ " success=" +:+ pretty success +:+ " failure=" +:+ pretty failure +:+
  " total_latency_us=" +:+ pretty total +:+ " max_latency_us=" +:+ pretty max +:+ newline.

(** [RunMetrics]. *)
Definition RunMetrics (s : S) : Exit * S :=
  match stub_Metrics s with
  | (inl message, s) => (rpc_failed message, s)
  | (inr r, s) =>
      let m := mr_metrics r in
      (mkExit
         ("node_id=" +:+ pretty (mr_node_id r) +:+ " role=" +:+ mr_role r +:+
          " term=" +:+ pretty (mr_term r) +:+ " leader_id=" +:+ pretty (mr_leader_id r) +:+
          " leader_address=" +:+ mr_leader_address r +:+
          " propose_success=" +:+ pretty (ms_propose_success_count m) +:+
          " propose_failure=" +:+ pretty (ms_propose_failure_count m) +:+
          " elections=" +:+ pretty (ms_election_count m) +:+
          " leader_changes=" +:+ pretty (ms_leader_change_count m) +:+
          " snapshot_success=" +:+ pretty (ms_snapshot_success_count m) +:+
          " snapshot_failure=" +:+ pretty (ms_snapshot_failure_count m) +:+
          " storage_persist_failure=" +:+ pretty (ms_storage_persist_failure_count m) +:+ newline +:+
          foldr (λ x text, rpc_line x +:+ text) "" (ms_rpc_metrics m)) "" 0, s)
  end.

(** [main], of the arguments after the program's name. *)
Definition ClientMain (args : list string) (s : S) : Exit * S :=
  match args with
  | _ :: command :: rest =>
      if decide (command = "put") then
        match rest with [k; v] => RunPut k v s | _ => (usage_exit, s) end
      else if decide (command = "get") then
        match rest with [k] => RunGet k s | _ => (usage_exit, s) end
      else if decide (command = "delete") then
        match rest with [k] => RunDelete k s | _ => (usage_exit, s) end
      else if decide (command = "status") then RunStatus s
      else if decide (command = "health") then RunHealth s
      else if decide (command = "metrics") then RunMetrics s
      else (usage_exit, s)
  | _ => (usage_exit, s)
  end.
End client.

(** A node that answers every call. *)
#[export] Instance node_stub {SM E} `{HostEnv E, IRaftStorage E, ISnapshotStorage E, IStateMachine SM E,
    PeerNet SM E, KvCast SM} : KvStub (Node SM E) := {
  stub_Put r n := let '(a, n) := Put r n in (inr a, n);
  stub_Delete r n := let '(a, n) := Delete r n in (inr a, n);
  stub_Get r n := let '(a, n) := KvGet r n in (inr a, n);
  stub_Status n := let '(a, n) := Status n in (inr a, n);
  stub_Health n := let '(a, n) := Health n in (inr a, n);
  stub_Metrics n := let '(a, n) := MetricsRpc n in (inr a, n) }.

Section exit_status.
Context {S : Type} `{!KvStub S}.
Implicit Types s : S.

(** A run that prints the usage did not call the server. *)
Definition well_behaved (r : Exit * S) s : Prop :=
  (status r.1 = 0 ∨ status r.1 = 1 ∨ status r.1 = 2) ∧ (err r.1 = usage → r.2 = s).

(** The usage text starts with a u, a failure's text with an r. *)
Lemma usage_head : String.get 0 usage = Some "u"%char.
Proof. reflexivity. Qed.
Lemma rpc_failed_not_usage m : err (rpc_failed m) ≠ usage.
Proof. intros H%(f_equal (String.get 0)). rewrite usage_head in H. discriminate. Qed.
Lemma printed_not_usage : "" ≠ usage.
Proof. intros H%(f_equal (String.get 0)). rewrite usage_head in H. discriminate. Qed.

Lemma answered_well_behaved {A} (call : (string + A) * S) (text : A → string) (code : A → Z) s :
  (∀ a, code a = 0 ∨ code a = 2) →
  well_behaved (match call with
                | (inl message, s) => (rpc_failed message, s)
                | (inr a, s) => (mkExit (text a) "" (code a), s)
                end) s.
Proof.
  intros Hcode. destruct call as [[e|a] s']; split; cbn -[rpc_failed usage].
  - right. by left.
  - intros H. by destruct (rpc_failed_not_usage _ H).
  - destruct (Hcode a); tauto.
  - intros H. by destruct (printed_not_usage H).
Qed.

Lemma usage_well_behaved s : well_behaved (usage_exit, s) s.
Proof. split; [by do 2 right|done]. Qed.

Lemma zero_or_two (P : Prop) `{Decision P} : (if decide P then 0 else 2) = 0 ∨ (if decide P then 0 else 2) = 2.
Proof. case_decide; auto. Qed.

Lemma RunPut_well_behaved k v s : well_behaved (RunPut k v s) s.
Proof.
  apply (answered_well_behaved _ write_line (λ a, if decide (wr_code a = KV_STATUS_CODE_OK) then 0 else 2)).
  intros a. apply zero_or_two.
Qed.
Lemma RunDelete_well_behaved k s : well_behaved (RunDelete k s) s.
Proof.
  apply (answered_well_behaved _ write_line (λ a, if decide (wr_code a = KV_STATUS_CODE_OK) then 0 else 2)).
  intros a. apply zero_or_two.
Qed.
Lemma RunGet_well_behaved k s : well_behaved (RunGet k s) s.
Proof.
  apply (answered_well_behaved _ _ (λ a, if decide (gr_code a = KV_STATUS_CODE_OK) then 0 else 2)).
  intros a. apply zero_or_two.
Qed.
Lemma RunStatus_well_behaved s : well_behaved (RunStatus s) s.
Proof. apply (answered_well_behaved _ _ (λ _, 0)). by left. Qed.
Lemma RunHealth_well_behaved s : well_behaved (RunHealth s) s.
Proof. apply (answered_well_behaved _ _ (λ a, if hr_ok a then 0 else 2)). intros a. destruct (hr_ok a); auto. Qed.
Lemma RunMetrics_well_behaved s : well_behaved (RunMetrics s) s.
Proof. apply (answered_well_behaved _ _ (λ _, 0)). by left. Qed.

Lemma ClientMain_well_behaved args s : well_behaved (ClientMain args s) s.
Proof.
  destruct args as [|address [|command rest]]; [apply usage_well_behaved..|]. unfold ClientMain.
  destruct (decide (command = "put")).
  { destruct rest as [|k [|v [|x rest]]]; cbv iota; first [apply usage_well_behaved | apply RunPut_well_behaved]. }
  destruct (decide (command = "get")).
  { destruct rest as [|k [|x rest]]; cbv iota; first [apply usage_well_behaved | apply RunGet_well_behaved]. }
  destruct (decide (command = "delete")).
  { destruct rest as [|k [|x rest]]; cbv iota; first [apply usage_well_behaved | apply RunDelete_well_behaved]. }
  destruct (decide (command = "status")); [apply RunStatus_well_behaved|].
  destruct (decide (command = "health")); [apply RunHealth_well_behaved|].
  destruct (decide (command = "metrics")); [apply RunMetrics_well_behaved|apply usage_well_behaved].
Qed.

(** A script can rely on the exit status: it is 0, 1 or 2, and 0 for a write means that
    the server answered [KV_STATUS_CODE_OK] to the request the arguments spell; wrong
    arguments never reach the server. *)
Theorem ClientMain_status args s :
  well_behaved (ClientMain args s) s ∧
  (∀ address rest, args = address :: "put" :: rest → status (ClientMain args s).1 = 0 →
     ∃ k v a, rest = [k; v] ∧ (stub_Put (mkPutRequest k v) s).1 = inr a ∧ wr_code a = KV_STATUS_CODE_OK) ∧
  (∀ address rest, args = address :: "delete" :: rest → status (ClientMain args s).1 = 0 →
     ∃ k a, rest = [k] ∧ (stub_Delete (mkDeleteRequest k) s).1 = inr a ∧ wr_code a = KV_STATUS_CODE_OK).
Proof.
  split; [apply ClientMain_well_behaved|]. split; intros address rest ->.
  - destruct rest as [|k [|v [|x rest]]]; [discriminate..| |discriminate].
    change (ClientMain _ s) with (RunPut k v s). unfold RunPut.
    destruct (stub_Put _ s) as [[e|a] s'] eqn:Hp; [discriminate|]. cbn [fst status].
    destruct (decide _); [|discriminate]. intros _. exists k, v, a. by rewrite Hp.
  - destruct rest as [|k [|x rest]]; [discriminate| |discriminate].
    change (ClientMain _ s) with (RunDelete k s). unfold RunDelete.
    destruct (stub_Delete _ s) as [[e|a] s'] eqn:Hp; [discriminate|]. cbn [fst status].
    destruct (decide _); [|discriminate]. intros _. exists k, a. by rewrite Hp.
Qed.
End exit_status.
