(* ===== verification/Server.v ===== *)
(** The server process (src/apps/main.cpp): from its arguments to its exit status.  The
    configuration is read, the node constructed and started; the process sleeps and prints
    while the node's threads work, until a signal stops it; then the node is stopped.  An
    exception destroys what has been constructed and ends the process with status 1, unless
    the destruction itself terminates it. *)
From S2P Require Import Prelude Command Types Timer Metrics Env Sim Node SimNode NodeLog Election.
From S2P Require Import AppendEntries Bytes Fs FsM StateMachine Commit Replicator Propose SnapshotNode.
From S2P Require Import KvService Logging ConfigFile.

(** How the process ends: it returns [status], after the messages [main] logged; or
    [std::terminate] is called.  Both leave a disk. *)
Inductive Outcome (E : Type) :=
  | Exit (status : Z) (messages : list string) (e : E)
  | Terminate (messages : list string) (e : E).
Arguments Exit {E} _ _ _.
Arguments Terminate {E} _ _.

Section main.
Context {SM E : Type} `{HostEnv E, IRaftStorage E, ISnapshotStorage E, !IStateMachine SM E, !KvCast SM}.
Implicit Types n : Node SM E.

(** The node as an object of the process: [joinable], whether [snapshot_worker_] holds a
    thread. *)
Record Server := mkServer { server_node : Node SM E; joinable : bool }.

(** [Start]: the worker's thread is started before the gRPC server is. *)
Definition server_Start (server_started : bool) (s : Server) : bool * Server :=
  let '(ok, n) := Start server_started (server_node s) in
  (ok, mkServer n (joinable s || negb (running_ (server_node s)))).

(** [Stop] joins the thread, unless the node does not run. *)
Definition server_Stop (s : Server) : Server :=
  mkServer (Stop (server_node s)) (joinable s && negb (running_ (server_node s))).

(** [~RaftNode]: [Stop], then the members; a [std::thread] that is joinable when it is
    destroyed calls [std::terminate].  After an exception this happens before the handler
    logs [what]. *)
Definition Destroy (messages : list string) (status : Z) (what : list string) (s : Server) : Outcome E :=
  let s := server_Stop s in
  if joinable s then Terminate messages (env_ (server_node s))
  else Exit status (messages ++ what) (env_ (server_node s)).

(** The loop: each turn sleeps, while the node's threads make of the node what [turn] says,
    and prints the node.  The signal arrives in the last turn. *)
Fixpoint Serve (print_interval : Z) (turns : list (Node SM E → Node SM E)) n : list string * Node SM E :=
  match turns with
  | [] => ([], n)
  | turn :: turns =>
      let n := turn (n <| env_ ::= sleep_for print_interval |>) in
      let '(messages, n') := Serve print_interval turns n in
      (Describe n :: messages, n')
  end.

(** [describe_interval_ms], read from the file again. *)
Definition print_interval (args : list string) (files : path → option string) : Result Z :=
  let config_path := match args with [] => ["config.txt"] | a :: _ => path_of_string a end in
  let! kv := LoadKeyValueConfig config_path (files config_path) in
  GetInt kv "describe_interval_ms" 5000.

Definition fatal (what : string) : string := "fatal: " +:+ what.

(** [main]: [sm] is the empty state machine, [server_started] whether gRPC bound the
    address. *)
Definition main (args : list string) (current_path : path) (files : path → option string)
    (sm : SM) (server_started : bool) (turns : list (Node SM E → Node SM E)) (e : E) : Outcome E :=
  let config_path := match args with [] => ["config.txt"] | a :: _ => path_of_string a end in
  match Configure args current_path files with
  | Fail what | Throw what => Exit 1 [fatal what] e
  | Done (log_level, node_config, snapshot_config) =>
      let summary := PrintConfigSummary config_path node_config snapshot_config in
      match RaftNode_new node_config snapshot_config sm e with
      | (inl what, e) => Exit 1 (summary ++ [fatal what]) e
      | (inr n, _) =>
          match server_Start server_started (mkServer n false) with
          | (false, s) =>
              Destroy summary 1 [fatal ("failed to start gRPC server at " +:+ address node_config)] s
          | (true, s) =>
              match print_interval args files with
              | Fail what | Throw what => Destroy summary 1 [fatal what] s
              | Done print_interval =>
                  let '(messages, n) := Serve print_interval turns (server_node s) in
                  Destroy (summary ++ messages ++ ["stopping node"; "node stopped"]) 0 []
                    (server_Stop (mkServer n (joinable s)))
              end
          end
      end
  end.

(** ** Lemmas *)

Lemma MaybeSchedule_running force n : running_ (MaybeScheduleSnapshotLocked force n) = running_ n.
Proof. unfold MaybeScheduleSnapshotLocked. by repeat case_match. Qed.

Lemma Persist_running n : running_ (PersistStateLocked n).2 = running_ n.
Proof. apply PersistStateLocked_frame. Qed.

Lemma ApplyIteration_running n : running_ (ApplyIteration n).2 = running_ n.
Proof.
  unfold ApplyIteration.
  assert (Hf : running_ (ApplyFetchLocked n).2 = running_ n)
    by (unfold ApplyFetchLocked; repeat case_match; done).
  destruct (ApplyFetchLocked n) as [[r|[i data]] n1]; cbn [snd] in *; [done|].
  destruct (sm_Apply _ _ _) as [r sm]. case_match; cbn [snd]; [done|].
  unfold ApplyDoneLocked. case_decide; cbn [snd]; [|by rewrite MaybeSchedule_running].
  match goal with |- context [PersistStateLocked ?m] =>
    pose proof (Persist_running m) as Hp; destruct (PersistStateLocked m) as [[[] ?] n2] end;
    cbn [snd negb] in *; rewrite ?MaybeSchedule_running; by rewrite <- Hf.
Qed.

Lemma ApplyCommitted_running n : running_ (ApplyCommittedEntries n).2 = running_ n.
Proof.
  assert (Hloop : ∀ fuel m, running_ (ApplyLoop fuel m).2 = running_ m).
  { induction fuel as [|fuel IH]; intros m; [done|]. cbn [ApplyLoop].
    pose proof (ApplyIteration_running m) as Hq. destruct (ApplyIteration m) as [[r|] m1]; [done|].
    cbn [snd] in *. by rewrite IH. }
  unfold ApplyCommittedEntries. specialize (Hloop (apply_fuel n) n). by destruct (ApplyLoop _ _) as [[] ?].
Qed.

Lemma LoadLatest_running n : running_ (LoadLatestSnapshotOnStartup n).2 = running_ n.
Proof.
  assert (Hl : ∀ l m, running_ (LoadFirstSnapshot l m).2 = running_ m).
  { induction l as [|meta l IH]; intros m; [done|]. cbn [LoadFirstSnapshot].
    destruct (sm_LoadSnapshot _ _ _) as [r sm]. case_match; [by rewrite IH|]. cbv zeta.
    match goal with |- context [PersistStateLocked ?k] =>
      pose proof (Persist_running k) as Hp; destruct (PersistStateLocked k) as [[[] ?] n2] end; exact Hp. }
  unfold LoadLatestSnapshotOnStartup. case_match; [done|]. repeat case_match; [apply Hl|done].
Qed.

(** The constructor starts nothing. *)
Lemma RaftNode_new_running config snapshot_config (sm : SM) (e e' : E) n :
  RaftNode_new config snapshot_config sm e = (inr n, e') → running_ n = false.
Proof.
  unfold RaftNode_new. cbv zeta. destruct (ValidateNodeIdentity _ e) as [[] e1]; [done|].
  destruct (storage_Load e1) as [[[[[] st] has] err] e2]; cbn [negb]; [|done].
  match goal with |- context [LoadLatestSnapshotOnStartup ?m] =>
    pose proof (LoadLatest_running m) as Hl; destruct (LoadLatestSnapshotOnStartup m) as [[loaded serr] n1] end.
  cbn [snd] in Hl. destruct (negb loaded && _); [discriminate|].
  destruct (decide (last_applied_ (core n1) < commit_index_ (core n1))); [|intros [= <- _]; exact Hl].
  pose proof (ApplyCommitted_running n1) as Ha. destruct (ApplyCommittedEntries n1) as [rr n2]. cbn [snd] in Ha.
  destruct (Ok rr); [|discriminate]. intros [= <- _]. cbn in Hl. congruence.
Qed.

Lemma Start_running n : running_ (Start true n).2 = true.
Proof.
  unfold Start. destruct (running_ n) eqn:Hr; [done|]. cbn [negb snd].
  unfold ResetSnapshotTimerLocked. cbv zeta.
  match goal with |- context [ResetElectionTimerLocked ?m] =>
    pose proof (sbh_running _ _ (ResetElectionTimer_frame m)) as Hf end.
  case_match; [exact Hf|]. destruct (ScheduleAfter _ _ _ _). exact Hf.
Qed.

Lemma Stop_running n : running_ (Stop n) = false.
Proof.
  unfold Stop. destruct (running_ n) eqn:Hr; cbn [negb]; [|done]. rewrite Persist_running. done.
Qed.

Lemma Stop_stopped n : running_ n = false → Stop n = n.
Proof. unfold Stop. by intros ->. Qed.

Lemma Serve_running d turns n :
  Forall (λ turn, ∀ m, running_ (turn m) = running_ m) turns → running_ (Serve d turns n).2 = running_ n.
Proof.
  intros Ht. revert n. induction Ht as [|turn turns Hturn _ IH]; intros n; [done|]. cbn [Serve].
  match goal with |- context [Serve d turns ?m] =>
    specialize (IH m); destruct (Serve d turns m) as [messages n'] end.
  cbn [snd] in *. rewrite IH, Hturn. done.
Qed.

Lemma Stop_disk (recovered : PersistentRaftState → PersistentRaftState) `{!StorageLaws E recovered} n :
  running_ n = true →
  disk_state (env_ (Stop n)) = Some (recovered (persistent_state (core n))) ∨
  disk_state (env_ (Stop n)) = disk_state (env_ n).
Proof.
  intros Hr. unfold Stop. rewrite Hr. cbn [negb].
  match goal with |- context [PersistStateLocked ?m] =>
    assert (Hm : core m = core n ∧ env_ m = env_ n);
    [|set (m' := m) in *; clearbody m'; destruct (PersistStateLocked m') as [[ok err] n'] eqn:Hp] end.
  { by unfold CancelElectionTimerLocked, CancelHeartbeatTimer; repeat case_match. }
  destruct Hm as [<- <-]. destruct ok; [left; by eapply PersistStateLocked_disk|].
  destruct (PersistStateLocked_disk_fail recovered _ _ _ Hp); auto.
Qed.

(** A node that was started is joined when it is stopped, and destroyed in peace. *)
Lemma Destroy_started messages status what n :
  running_ n = true →
  Destroy messages status what (mkServer n true) = Exit status (messages ++ what) (env_ (Stop n)).
Proof. intros Hr. unfold Destroy, server_Stop. cbn [server_node joinable]. by rewrite Hr. Qed.

Lemma Destroy_stopped messages status what n :
  running_ n = true →
  Destroy messages status what (server_Stop (mkServer n true)) =
  Exit status (messages ++ what) (env_ (Stop n)).
Proof.
  intros Hr. unfold Destroy, server_Stop. cbn [server_node joinable]. rewrite Hr. cbn [negb andb].
  by rewrite (Stop_stopped (Stop n)) by apply Stop_running.
Qed.
End main.


(** ** Examples *)

Definition ex_main (server_started : bool) : Outcome SimEnv :=
  main ["cluster.txt"; "1"] ["home"]
    (λ p, if decide (p = ["cluster.txt"]) then Some (config_text ex_bindings) else None)
    (mkKv ∅) server_started [λ n, n] sim_init.

